(** * Safe mutation core of the Claude config manager (electron/ipc-handlers.ts)

    A shallow embedding of the file operations of [electron/ipc-handlers.ts]:
    the JSON stores ([~/.claude.json], [~/.claude/mcp.json] and the disabled
    archive [mcp-disabled.json]), the backups directory, and the operations
    [readJsonFile], [writeJsonFileAtomic], [createBackup], [cleanupOldBackups],
    [loadMCPs], [disableMcp], [enableMcp], [deleteMcp], [toggleAllMcps],
    [restoreBackup], [toggleAgent] and [toggleSkill]; further
    [createManualBackup], [listBackups], [deleteAgent], [updateAgentModel],
    [parseMdAgent], [readSkillContent], [writeSkillContent], [getToolInfo]
    and the handlers ['agent:readContent'], ['agent:writeContent'],
    ['mcp:readConfig'] and ['mcp:writeConfig'] of [registerIpcHandlers].

    Modelling conventions.
    - A JavaScript object is an insertion-ordered association list with
      unique keys ([Obj]); [obj_set] overwrites in place or appends, as a
      property assignment does, and [obj_delete] is the [delete] operator.
      Properties inherited from [Object.prototype] are not modelled, save
      in the lookup of [Tools.getToolInfo]: [o[name]] is the own property
      of that name.  The source tests several such lookups for truthiness
      ([mcpServers?.[name] || null], [if (servers[name])]), so for a name of
      [inheritedNames] that is no own key it finds a value where the model
      finds none.  A statement that depends on a name being absent from an
      object carries the hypothesis [inheritedName _ = false].
    - An [fs] call fails only for a missing source file ([ENOENT]); missing
      parent directories, permissions and full disks are not modelled.  A
      statement that a write succeeds is about a path whose directory the
      hypotheses or the preceding [ensureDirectories] put in place.
    - A string is a sequence of code units below 256; the classes of the
      regular expressions ([\s], [\w], line terminators) and [toLowerCase]
      are those of ECMAScript on these.  [path.join(dir, name)] is
      [dir/name]: names are in normal form.
    - A file holds either text that [JSON.parse] rejects ([Text]) or a JSON
      document ([JsonText]).  Documents follow the TypeScript interfaces of
      the source ([ClaudeJsonFile], [MCPJsonFile], [MCPDisabledFile], the
      backup sidecar); every declared field is optional in the model because
      [readJsonFile] casts without checking.  A document is identified with
      its parse, so white space in the serialisation is abstracted away.
    - Every [fs] call that changes the disk is an [Event]; an operation
      returns its value, the final [World] and the list of events in program
      order.  Stopping an operation after [k] events (a crash, or an I/O
      exception, which every operation catches without further writes)
      leaves the disk in [replay w (firstn k events)].
    - The clock is a field of the world which the environment advances;
      [Date.prototype.toISOString], [String.prototype.localeCompare] and the
      tool table lookup are members of the [Platform] class; [Date.now()]
      is the clock in decimal, and parsing a date is a member of the
      [Dates] class. *)

From Stdlib Require Import String Ascii List ZArith Lia Bool Arith Permutation Sorted.
From Stdlib Require Import DecimalString.
Import ListNotations.
Open Scope string_scope.
Open Scope list_scope.

Infix "+++" := String.append (right associativity, at level 60).

(** ** JavaScript strings *)

(** [s.startsWith(p)] *)
Definition startsWith (p s : string) : bool := String.prefix p s.

(** [s.endsWith(suf)] *)
Fixpoint endsWith (suf s : string) : bool :=
  String.eqb s suf
  || match s with
     | EmptyString => false
     | String _ r => endsWith suf r
     end.

Definition isColon (c : ascii) : bool := Ascii.eqb c ":".

Fixpoint containsColon (s : string) : bool :=
  match s with
  | EmptyString => false
  | String c r => isColon c || containsColon r
  end.

(** [const parts = s.split(':'); parts[parts.length - 1]] *)
Fixpoint lastSegment (s : string) : string :=
  match s with
  | EmptyString => EmptyString
  | String c r =>
      if containsColon r then lastSegment r
      else if isColon c then r else String c r
  end.

Fixpoint dropChars (n : nat) (s : string) : string :=
  match n, s with
  | O, _ => s
  | S _, EmptyString => EmptyString
  | S m, String _ r => dropChars m r
  end.

(** [s.replace(pat, '')] with a string pattern: the first occurrence goes. *)
Fixpoint removeFirst (pat s : string) : string :=
  if String.prefix pat s then dropChars (String.length pat) s
  else match s with
       | EmptyString => EmptyString
       | String c r => String c (removeFirst pat r)
       end.

(** [s.replace(/[:.]/g, '-')] *)
Fixpoint dashify (s : string) : string :=
  match s with
  | EmptyString => EmptyString
  | String c r =>
      String (if isColon c || Ascii.eqb c "." then "-"%char else c) (dashify r)
  end.

Definition isSlash (c : ascii) : bool := Ascii.eqb c "/".

Fixpoint containsSlash (s : string) : bool :=
  match s with
  | EmptyString => false
  | String c r => isSlash c || containsSlash r
  end.

(** [path.basename(p)] for a path without a trailing separator. *)
Fixpoint basenameOf (s : string) : string :=
  match s with
  | EmptyString => EmptyString
  | String c r =>
      if containsSlash r then basenameOf r
      else if isSlash c then r else String c r
  end.

Definition isEmptyString (s : string) : bool :=
  match s with EmptyString => true | _ => false end.

(** ** JavaScript objects as ordered association lists *)

Definition Obj (A : Type) : Type := list (string * A).

Fixpoint obj_get {A : Type} (k : string) (o : Obj A) : option A :=
  match o with
  | [] => None
  | (k', v) :: r => if String.eqb k k' then Some v else obj_get k r
  end.

Definition obj_has {A : Type} (k : string) (o : Obj A) : bool :=
  match obj_get k o with Some _ => true | None => false end.

(** [o[k] = v] *)
Fixpoint obj_set {A : Type} (k : string) (v : A) (o : Obj A) : Obj A :=
  match o with
  | [] => [(k, v)]
  | (k', v') :: r =>
      if String.eqb k k' then (k', v) :: r else (k', v') :: obj_set k v r
  end.

(** [delete o[k]] *)
Definition obj_delete {A : Type} (k : string) (o : Obj A) : Obj A :=
  filter (fun kv => negb (String.eqb k (fst kv))) o.

Definition obj_keys {A : Type} (o : Obj A) : list string := map fst o.

Definition obj_values {A : Type} (o : Obj A) : list A := map snd o.

(** Equality of objects up to the order of their keys. *)
Definition obj_equiv {A : Type} (o1 o2 : Obj A) : Prop :=
  forall k, obj_get k o1 = obj_get k o2.

(** ** Data model (the interfaces of ipc-handlers.ts) *)

Inductive Transport : Type := stdio | sse | http.

(** [interface MCPConfig] *)
Record MCPConfig : Type := mkConfig {
  command : option string;
  args : option (list string);
  env : option (Obj string);
  url : option string;
  transport : option Transport
}.

(** The [source] of a [DisabledMCPEntry]: ['user' | 'local' | 'mcp.json']. *)
Inductive Source : Type := user | local | mcp_json.

Definition Source_eqb (a b : Source) : bool :=
  match a, b with
  | user, user | local, local | mcp_json, mcp_json => true
  | _, _ => false
  end.

Record Metadata : Type := mkMetadata {
  disabledAt : string;
  reason : string
}.

(** [interface DisabledMCPEntry] *)
Record DisabledMCPEntry : Type := mkEntry {
  entry_config : MCPConfig;
  entry_source : Source;
  entry_projectPath : option string;
  entry_metadata : Metadata
}.

(** One value of [ClaudeJsonFile.projects]. *)
Record ProjectConfig : Type := mkProject {
  project_mcpServers : option (Obj MCPConfig)
}.

(** Values the manager carries along without looking inside
    ([[key: string]: unknown]). *)
#[local] Unset Elimination Schemes.
Inductive Json : Type :=
| JNull
| JBool (b : bool)
| JNum (z : Z)
| JStr (s : string)
| JArr (l : list Json)
| JObj (o : list (string * Json)).
#[local] Set Elimination Schemes.

(** A parsed configuration document: the union of the fields of
    [ClaudeJsonFile], [MCPJsonFile] and [MCPDisabledFile]. *)
Record JsonDoc : Type := mkDoc {
  doc_mcpServers : option (Obj MCPConfig);
  doc_projects : option (Obj ProjectConfig);
  doc_version : option Z;
  doc_disabled : option (Obj DisabledMCPEntry);
  doc_rest : Obj Json
}.

(** A file location: outside the backups directory (by absolute path), or
    an entry of [BACKUPS_DIR] (by file name). *)
Inductive Path : Type :=
| Abs (p : string)
| InBackups (name : string).

Definition Path_eqb (a b : Path) : bool :=
  match a, b with
  | Abs p, Abs q => String.eqb p q
  | InBackups p, InBackups q => String.eqb p q
  | _, _ => false
  end.

(** The sidecar written by [createBackup]. *)
Record BackupMeta : Type := mkMeta {
  originalPath : Path;
  meta_timestamp : string;
  description : string
}.

Inductive JsonValue : Type :=
| ConfigDoc (d : JsonDoc)
| MetaDoc (m : BackupMeta).

Inductive Content : Type :=
| Text (raw : string)
| JsonText (v : JsonValue).

Record File : Type := mkFile {
  content : Content;
  mtime : nat
}.

Record World : Type := mkWorld {
  files : Obj File;
  backups : Obj File;
  dirs : list string;
  now : nat
}.

(** ** Paths *)

Definition CLAUDE_DIR : string := "~/.claude".
Definition CLAUDE_JSON_PATH : Path := Abs "~/.claude.json".
Definition MCP_JSON_PATH : Path := Abs "~/.claude/mcp.json".
Definition AGENTS_DIR : string := "~/.claude/agents".
Definition SKILLS_DIR : string := "~/.claude/skills".
Definition CONFIG_MANAGER_DIR : string := "~/.claude/.config-manager".
Definition MCP_DISABLED_PATH : Path := Abs "~/.claude/.config-manager/mcp-disabled.json".
Definition AGENTS_DISABLED_DIR : string := "~/.claude/.config-manager/agents-disabled".
Definition SKILLS_DISABLED_DIR : string := "~/.claude/.config-manager/skills-disabled".
Definition BACKUPS_DIR : string := "~/.claude/.config-manager/backups".

(** [path + suffix] *)
Definition pathAppend (p : Path) (suffix : string) : Path :=
  match p with
  | Abs s => Abs (s +++ suffix)
  | InBackups n => InBackups (n +++ suffix)
  end.

(** [path.basename(filePath)] *)
Definition basename (p : Path) : string :=
  match p with
  | Abs s => basenameOf s
  | InBackups n => n
  end.

Definition pathString (p : Path) : string :=
  match p with
  | Abs s => s
  | InBackups n => BACKUPS_DIR +++ "/" +++ n
  end.

(** ** The disk *)

Definition lookupFile (p : Path) (w : World) : option File :=
  match p with
  | Abs s => obj_get s (files w)
  | InBackups n => obj_get n (backups w)
  end.

Definition storeFile (p : Path) (f : File) (w : World) : World :=
  match p with
  | Abs s => mkWorld (obj_set s f (files w)) (backups w) (dirs w) (now w)
  | InBackups n => mkWorld (files w) (obj_set n f (backups w)) (dirs w) (now w)
  end.

Definition removeFile (p : Path) (w : World) : World :=
  match p with
  | Abs s => mkWorld (obj_delete s (files w)) (backups w) (dirs w) (now w)
  | InBackups n => mkWorld (files w) (obj_delete n (backups w)) (dirs w) (now w)
  end.

Definition hasDir (d : string) (w : World) : bool :=
  existsb (String.eqb d) (dirs w).

(** The environment moves the clock between two calls. *)
Definition advanceTo (t : nat) (w : World) : World :=
  mkWorld (files w) (backups w) (dirs w) t.

(** A change of the disk made by one [fs] call. *)
Inductive Event : Type :=
| EvMkdir (d : string)
| EvWriteFile (p : Path) (c : Content)
| EvRename (src dst : Path)
| EvCopyFile (src dst : Path)
| EvUnlink (p : Path).

Definition apply_event (e : Event) (w : World) : World :=
  match e with
  | EvMkdir d =>
      if hasDir d w then w
      else mkWorld (files w) (backups w) (d :: dirs w) (now w)
  | EvWriteFile p c => storeFile p (mkFile c (now w)) w
  | EvRename src dst =>
      match lookupFile src w with
      | Some f => storeFile dst f (removeFile src w)
      | None => w
      end
  | EvCopyFile src dst =>
      match lookupFile src w with
      | Some f => storeFile dst (mkFile (content f) (now w)) w
      | None => w
      end
  | EvUnlink p => removeFile p w
  end.

(** The disk after a sequence of events. *)
Definition replay (w : World) (evs : list Event) : World :=
  fold_left (fun acc e => apply_event e acc) evs w.

(** ** Computations: state, exceptions and the event log *)

Inductive Exn : Type := SyntaxError | TypeError | ENOENT.

Inductive Res (A : Type) : Type :=
| Val (a : A)
| Throw (e : Exn).
Arguments Val {A} a.
Arguments Throw {A} e.

Definition M (A : Type) : Type := World -> Res A * World * list Event.

Definition ret {A : Type} (a : A) : M A := fun w => (Val a, w, []).

Definition throw {A : Type} (e : Exn) : M A := fun w => (Throw e, w, []).

Definition bind {A B : Type} (m : M A) (f : A -> M B) : M B :=
  fun w =>
    match m w with
    | (Val a, w1, e1) =>
        match f a w1 with
        | (r, w2, e2) => (r, w2, e1 ++ e2)
        end
    | (Throw e, w1, e1) => (Throw e, w1, e1)
    end.

(** [try { m } catch (err) { h err }] *)
Definition tryCatch {A : Type} (m : M A) (h : Exn -> M A) : M A :=
  fun w =>
    match m w with
    | (Val a, w1, e1) => (Val a, w1, e1)
    | (Throw e, w1, e1) =>
        match h e w1 with
        | (r, w2, e2) => (r, w2, e1 ++ e2)
        end
    end.

Definition emit (e : Event) : M unit :=
  fun w => (Val tt, apply_event e w, [e]).

Definition inspect {A : Type} (f : World -> A) : M A :=
  fun w => (Val (f w), w, []).

Declare Scope fs_scope.
Delimit Scope fs_scope with fs.
Notation "x <- m ;; k" := (bind m (fun x => k))
  (at level 100, m at next level, right associativity) : fs_scope.
Notation "m ;;; k" := (bind m (fun _ => k))
  (at level 100, right associativity) : fs_scope.
Open Scope fs_scope.

Definition value {A : Type} (o : Res A * World * list Event) : Res A := fst (fst o).
Definition final {A : Type} (o : Res A * World * list Event) : World := snd (fst o).
Definition events {A : Type} (o : Res A * World * list Event) : list Event := snd o.

(** ** The [fs] and [JSON] primitives *)

Definition existsSync (p : Path) : M bool :=
  inspect (fun w => match lookupFile p w with Some _ => true | None => false end).

Definition readFileSync (p : Path) : M Content :=
  fun w =>
    match lookupFile p w with
    | Some f => (Val (content f), w, [])
    | None => (Throw ENOENT, w, [])
    end.

Definition writeFileSync (p : Path) (c : Content) : M unit :=
  emit (EvWriteFile p c).

Definition renameSync (src dst : Path) : M unit :=
  fun w =>
    match lookupFile src w with
    | Some _ => emit (EvRename src dst) w
    | None => (Throw ENOENT, w, [])
    end.

Definition copyFileSync (src dst : Path) : M unit :=
  fun w =>
    match lookupFile src w with
    | Some _ => emit (EvCopyFile src dst) w
    | None => (Throw ENOENT, w, [])
    end.

Definition unlinkSync (p : Path) : M unit :=
  fun w =>
    match lookupFile p w with
    | Some _ => emit (EvUnlink p) w
    | None => (Throw ENOENT, w, [])
    end.

(** [if (!fs.existsSync(d)) fs.mkdirSync(d, { recursive: true })] *)
Definition ensureDir (d : string) : M unit :=
  fun w => if hasDir d w then (Val tt, w, []) else emit (EvMkdir d) w.

Definition JSON_parse (c : Content) : M JsonValue :=
  match c with
  | Text _ => throw SyntaxError
  | JsonText v => ret v
  end.

Definition JSON_stringify (v : JsonValue) : Content := JsonText v.

Definition emptyDoc : JsonDoc := mkDoc None None None None [].

(** The unchecked cast [as T] to a configuration document. *)
Definition asConfig (v : JsonValue) : JsonDoc :=
  match v with
  | ConfigDoc d => d
  | MetaDoc m =>
      mkDoc None None None None
        [("originalPath", JStr (pathString (originalPath m)));
         ("timestamp", JStr (meta_timestamp m));
         ("description", JStr (description m))]
  end.

(** The fields [restoreBackup] reads from a parsed sidecar; a document of
    another shape has them [undefined]. *)
Definition asMeta (v : JsonValue) : option BackupMeta :=
  match v with
  | MetaDoc m => Some m
  | ConfigDoc _ => None
  end.

(** ** Generic helpers *)

Fixpoint mapM {A B : Type} (f : A -> M B) (l : list A) : M (list B) :=
  match l with
  | [] => ret []
  | x :: r => y <- f x ;; ys <- mapM f r ;; ret (y :: ys)
  end.

(** [for (const x of l) { body x }] *)
Fixpoint forEach {A : Type} (body : A -> M unit) (l : list A) : M unit :=
  match l with
  | [] => ret tt
  | x :: r => body x ;;; forEach body r
  end.

Fixpoint insertBy {A : Type} (cmp : A -> A -> Z) (x : A) (l : list A) : list A :=
  match l with
  | [] => [x]
  | y :: r => if (cmp x y <=? 0)%Z then x :: y :: r else y :: insertBy cmp x r
  end.

(** [Array.prototype.sort(cmp)]: a stable sort. *)
Fixpoint sortBy {A : Type} (cmp : A -> A -> Z) (l : list A) : list A :=
  match l with
  | [] => []
  | x :: r => insertBy cmp x (sortBy cmp r)
  end.

(** JavaScript truthiness of an optional string. *)
Definition truthy (s : option string) : bool :=
  match s with
  | Some t => negb (isEmptyString t)
  | None => false
  end.

(** ** Results of the operations *)

(** The [error] strings of the handlers, one constructor per message. *)
Inductive Error : Type :=
| NotFoundIn (src : Source) (name : string)
| InvalidSource
| InvalidSourceInEntry
| DisabledNotFound (key : string)
| AlreadyExists (src : Source) (name : string)
| Exception (e : Exn)
| MissingDisabledKey
| InvalidSourceForDisable
| InvalidSourceForDelete
| FailedToToggle (name : string) (cause : Error)
| BackupFileNotFound
| BackupMetadataNotFound
| AgentFileNotFound (p : string)
| SkillFolderNotFound (name : string).

(** [{ success: boolean; error?: string }] *)
Inductive OpResult : Type :=
| Success
| Failure (e : Error).

(** [{ success; error?; requiresRestart? }] *)
Record ToggleResult : Type := mkToggleResult {
  toggle_result : OpResult;
  requiresRestart : option bool
}.

Definition isSuccess (r : OpResult) : bool :=
  match r with Success => true | Failure _ => false end.

(** ** Platform services *)

Record ToolInfo : Type := mkToolInfo {
  toolCount : nat;
  toolDescription : string;
  estimatedTokens : nat
}.

(** Built-ins whose result the handlers use but do not define:
    [new Date(t).toISOString()], [a.localeCompare(b)], and the lookup in the
    table [KNOWN_MCP_TOOL_COUNTS] (a function of the name alone). *)
Class Platform : Type := mkPlatform {
  toISOString : nat -> string;
  localeCompare : string -> string -> Z;
  getToolInfo : string -> option ToolInfo
}.

(** [interface MCPServer]: [source] is an active source or ['disabled']. *)
Inductive ServerSource : Type :=
| Active (s : Source)
| Disabled.

Inductive Status : Type := connected | failed | unknown.

Record MCPServer : Type := mkServer {
  mcp_name : string;
  mcp_config : MCPConfig;
  mcp_enabled : bool;
  mcp_source : ServerSource;
  mcp_projectPath : option string;
  mcp_disabledKey : option string;
  mcp_status : Status;
  mcp_toolInfo : option ToolInfo;
  mcp_metadata : option Metadata
}.

Definition isDisabledSource (s : ServerSource) : bool :=
  match s with Disabled => true | Active _ => false end.


Section Operations.

Context {P : Platform}.

(** *** Atomic file store *)

Definition ensureDirectories : M unit :=
  ensureDir CONFIG_MANAGER_DIR ;;;
  ensureDir BACKUPS_DIR ;;;
  ensureDir AGENTS_DISABLED_DIR ;;;
  ensureDir SKILLS_DISABLED_DIR.

Definition readJsonFile (filePath : Path) (defaultValue : JsonDoc) : M JsonDoc :=
  tryCatch
    (present <- existsSync filePath ;;
     if negb present then ret defaultValue
     else
       content <- readFileSync filePath ;;
       v <- JSON_parse content ;;
       ret (asConfig v))
    (fun _ => ret defaultValue).

Definition writeJsonFileAtomic (filePath : Path) (data : JsonDoc) : M unit :=
  let tmpPath := pathAppend filePath ".tmp" in
  let content := JSON_stringify (ConfigDoc data) in
  JSON_parse content ;;;
  writeFileSync tmpPath content ;;;
  renameSync tmpPath filePath.

(** *** Backup retention *)

Definition MAX_BACKUPS : nat := 10.

Definition isBackupOf (baseFileName f : string) : bool :=
  startsWith (baseFileName +++ ".") f && negb (endsWith ".meta.json" f).

(** [fs.statSync(path.join(BACKUPS_DIR, f)).mtime.getTime()] *)
Definition statMtime (f : string) : M (string * nat) :=
  fun w =>
    match obj_get f (backups w) with
    | Some file => (Val (f, mtime file), w, [])
    | None => (Throw ENOENT, w, [])
    end.

Definition newestFirst (a b : string * nat) : Z :=
  (Z.of_nat (snd b) - Z.of_nat (snd a))%Z.

Definition cleanupOldBackups (baseFileName : string) : M unit :=
  tryCatch
    (listing <- inspect (fun w => obj_keys (backups w)) ;;
     stats <- mapM statMtime (filter (isBackupOf baseFileName) listing) ;;
     let backupFiles := sortBy newestFirst stats in
     if (MAX_BACKUPS <? List.length backupFiles)%nat then
       forEach
         (fun file =>
            unlinkSync (InBackups (fst file)) ;;;
            let metaPath := InBackups (fst file +++ ".meta.json") in
            present <- existsSync metaPath ;;
            if present then unlinkSync metaPath else ret tt)
         (skipn MAX_BACKUPS backupFiles)
     else ret tt)
    (fun _ => ret tt).

Definition backupName (filePath : Path) (t : nat) : string :=
  basename filePath +++ "." +++ dashify (toISOString t).

Definition describe (description : option string) : string :=
  match description with
  | Some d => if isEmptyString d then "Auto-backup before operation" else d
  | None => "Auto-backup before operation"
  end.

Definition createBackup (filePath : Path) (description : option string)
  : M (option Path) :=
  present <- existsSync filePath ;;
  if negb present then ret None
  else
    ensureDirectories ;;;
    t <- inspect now ;;
    let backupPath := InBackups (backupName filePath t) in
    copyFileSync filePath backupPath ;;;
    let metaPath := pathAppend backupPath ".meta.json" in
    t' <- inspect now ;;
    writeFileSync metaPath
      (JSON_stringify (MetaDoc (mkMeta filePath (toISOString t') (describe description)))) ;;;
    cleanupOldBackups (basename filePath) ;;;
    ret (Some backupPath).

(** *** Multi-source reconciler *)

Definition mcpJsonDefault : JsonDoc := mkDoc (Some []) None None None [].

Definition disabledDefault : JsonDoc := mkDoc None None (Some 1%Z) (Some []) [].

Definition userServer (name : string) (config : MCPConfig) : MCPServer :=
  mkServer name config true (Active user) None None unknown (getToolInfo name) None.

Definition localServer (projectPath name : string) (config : MCPConfig) : MCPServer :=
  mkServer name config true (Active local) (Some projectPath) None unknown
    (getToolInfo name) None.

Definition mcpJsonServer (name : string) (config : MCPConfig) : MCPServer :=
  mkServer name config true (Active mcp_json) None None unknown (getToolInfo name) None.

Definition disabledServer (disabledKey : string) (entry : DisabledMCPEntry) : MCPServer :=
  let displayName := lastSegment disabledKey in
  mkServer displayName (entry_config entry) false Disabled (entry_projectPath entry)
    (Some disabledKey) unknown (getToolInfo displayName) (Some (entry_metadata entry)).

(** The template string [`${x}`] of an optional string. *)
Definition interpolate (s : option string) : string :=
  match s with Some t => t | None => "undefined" end.

Definition sourceTag (s : Source) : string :=
  match s with user => "user" | local => "local" | mcp_json => "mcp.json" end.

Definition disabledMapKey (disabledKey : string) (entry : DisabledMCPEntry) : string :=
  let displayName := lastSegment disabledKey in
  match entry_source entry with
  | local => "disabled:local:" +++ interpolate (entry_projectPath entry) +++ ":" +++ displayName
  | s => "disabled:" +++ sourceTag s +++ ":" +++ displayName
  end.

(** Step 1: user-level servers of [~/.claude.json]. *)
Definition addUserServers (servers : option (Obj MCPConfig)) (mcpMap : Obj MCPServer)
  : Obj MCPServer :=
  match servers with
  | Some o =>
      fold_left (fun m kv => obj_set ("user:" +++ fst kv) (userServer (fst kv) (snd kv)) m)
        o mcpMap
  | None => mcpMap
  end.

(** Step 2: the servers of every project of [~/.claude.json]. *)
Definition addProjectServers (projectPath : string) (projectConfig : ProjectConfig)
  (mcpMap : Obj MCPServer) : Obj MCPServer :=
  match project_mcpServers projectConfig with
  | Some o =>
      fold_left
        (fun m kv =>
           obj_set ("local:" +++ projectPath +++ ":" +++ fst kv)
             (localServer projectPath (fst kv) (snd kv)) m)
        o mcpMap
  | None => mcpMap
  end.

Definition addLocalServers (projects : option (Obj ProjectConfig)) (mcpMap : Obj MCPServer)
  : Obj MCPServer :=
  match projects with
  | Some ps => fold_left (fun m pc => addProjectServers (fst pc) (snd pc) m) ps mcpMap
  | None => mcpMap
  end.

(** Step 3: [~/.claude/mcp.json], skipping names already present at user level. *)
Definition addMcpJsonServers (servers : option (Obj MCPConfig)) (mcpMap : Obj MCPServer)
  : Obj MCPServer :=
  match servers with
  | Some o =>
      fold_left
        (fun m kv =>
           if negb (obj_has ("user:" +++ fst kv) m)
           then obj_set ("mcpjson:" +++ fst kv) (mcpJsonServer (fst kv) (snd kv)) m
           else m)
        o mcpMap
  | None => mcpMap
  end.

(** Step 4: the disabled archive ([disabledJson.disabled || {}]). *)
Definition addDisabledServers (disabled : option (Obj DisabledMCPEntry))
  (mcpMap : Obj MCPServer) : Obj MCPServer :=
  fold_left
    (fun m kv => obj_set (disabledMapKey (fst kv) (snd kv)) (disabledServer (fst kv) (snd kv)) m)
    (match disabled with Some o => o | None => [] end) mcpMap.

(** [sourcePriority[s] || 99]: the priority [0] of ['user'] is falsy. *)
Definition sourcePriority (s : ServerSource) : Z :=
  match s with
  | Active user => 99
  | Active local => 1
  | Active mcp_json => 2
  | Disabled => 3
  end.

Definition compareServers (a b : MCPServer) : Z :=
  let nameCompare := localeCompare (mcp_name a) (mcp_name b) in
  if (nameCompare =? 0)%Z
  then (sourcePriority (mcp_source a) - sourcePriority (mcp_source b))%Z
  else nameCompare.

Definition mcpMapOf (claudeJson mcpJson disabledJson : JsonDoc) : Obj MCPServer :=
  addDisabledServers (doc_disabled disabledJson)
    (addMcpJsonServers (doc_mcpServers mcpJson)
       (addLocalServers (doc_projects claudeJson)
          (addUserServers (doc_mcpServers claudeJson) []))).

Definition loadMCPs : M (list MCPServer) :=
  claudeJson <- readJsonFile CLAUDE_JSON_PATH emptyDoc ;;
  mcpJson <- readJsonFile MCP_JSON_PATH mcpJsonDefault ;;
  disabledJson <- readJsonFile MCP_DISABLED_PATH disabledDefault ;;
  ret (sortBy compareServers (obj_values (mcpMapOf claudeJson mcpJson disabledJson))).


(** *** Archive registry *)

(** [claudeJson.projects?.[projectPath]?.mcpServers] *)
Definition projectServers (claudeJson : JsonDoc) (projectPath : string)
  : option (Obj MCPConfig) :=
  match doc_projects claudeJson with
  | Some ps =>
      match obj_get projectPath ps with
      | Some pc => project_mcpServers pc
      | None => None
      end
  | None => None
  end.

Definition lookupServer (servers : option (Obj MCPConfig)) (name : string)
  : option MCPConfig :=
  match servers with
  | Some o => obj_get name o
  | None => None
  end.

Definition withServers (d : JsonDoc) (servers : Obj MCPConfig) : JsonDoc :=
  mkDoc (Some servers) (doc_projects d) (doc_version d) (doc_disabled d) (doc_rest d).

Definition withProjects (d : JsonDoc) (projects : Obj ProjectConfig) : JsonDoc :=
  mkDoc (doc_mcpServers d) (Some projects) (doc_version d) (doc_disabled d) (doc_rest d).

Definition withDisabled (d : JsonDoc) (disabled : Obj DisabledMCPEntry) : JsonDoc :=
  mkDoc (doc_mcpServers d) (doc_projects d) (doc_version d) (Some disabled) (doc_rest d).

(** [disabledJson.disabled[key] = entry]; a [TypeError] without [disabled]. *)
Definition archivePut (disabledJson : JsonDoc) (key : string) (entry : DisabledMCPEntry)
  : M JsonDoc :=
  match doc_disabled disabledJson with
  | Some o => ret (withDisabled disabledJson (obj_set key entry o))
  | None => throw TypeError
  end.

(** [delete disabledJson.disabled[key]] *)
Definition archiveRemove (disabledJson : JsonDoc) (key : string) : M JsonDoc :=
  match doc_disabled disabledJson with
  | Some o => ret (withDisabled disabledJson (obj_delete key o))
  | None => throw TypeError
  end.

(** [delete claudeJson.projects![projectPath].mcpServers![name]] *)
Definition removeProjectServer (claudeJson : JsonDoc) (projectPath name : string)
  : M JsonDoc :=
  match doc_projects claudeJson with
  | Some ps =>
      match obj_get projectPath ps with
      | Some pc =>
          match project_mcpServers pc with
          | Some o =>
              ret (withProjects claudeJson
                     (obj_set projectPath (mkProject (Some (obj_delete name o))) ps))
          | None => throw TypeError
          end
      | None => throw TypeError
      end
  | None => throw TypeError
  end.

(** [delete doc.mcpServers[name]] *)
Definition removeServer (d : JsonDoc) (name : string) : M JsonDoc :=
  match doc_mcpServers d with
  | Some o => ret (withServers d (obj_delete name o))
  | None => throw TypeError
  end.

Definition archiveEntry (config : MCPConfig) (source : Source)
  (projectPath : option string) (t : nat) : DisabledMCPEntry :=
  mkEntry config source projectPath (mkMetadata (toISOString t) "user").

Definition caught (e : Exn) : M OpResult := ret (Failure (Exception e)).

Definition disableMcp (name : string) (source : Source) (projectPath : option string)
  : M OpResult :=
  tryCatch
    (ensureDirectories ;;;
     match source with
     | user =>
         claudeJson <- readJsonFile CLAUDE_JSON_PATH emptyDoc ;;
         match lookupServer (doc_mcpServers claudeJson) name with
         | None => ret (Failure (NotFoundIn user name))
         | Some config =>
             createBackup CLAUDE_JSON_PATH (Some ("Before disabling MCP: " +++ name)) ;;;
             disabledJson <- readJsonFile MCP_DISABLED_PATH disabledDefault ;;
             t <- inspect now ;;
             disabledJson' <- archivePut disabledJson ("user:" +++ name)
                                (archiveEntry config user None t) ;;
             writeJsonFileAtomic MCP_DISABLED_PATH disabledJson' ;;;
             claudeJson' <- removeServer claudeJson name ;;
             writeJsonFileAtomic CLAUDE_JSON_PATH claudeJson' ;;;
             ret Success
         end
     | local =>
         match projectPath with
         | Some project =>
             if isEmptyString project then ret (Failure InvalidSource)
             else
               claudeJson <- readJsonFile CLAUDE_JSON_PATH emptyDoc ;;
               match lookupServer (projectServers claudeJson project) name with
               | None => ret (Failure (NotFoundIn local name))
               | Some config =>
                   createBackup CLAUDE_JSON_PATH
                     (Some ("Before disabling local MCP: " +++ name)) ;;;
                   disabledJson <- readJsonFile MCP_DISABLED_PATH disabledDefault ;;
                   t <- inspect now ;;
                   disabledJson' <- archivePut disabledJson
                                      ("local:" +++ project +++ ":" +++ name)
                                      (archiveEntry config local (Some project) t) ;;
                   writeJsonFileAtomic MCP_DISABLED_PATH disabledJson' ;;;
                   claudeJson' <- removeProjectServer claudeJson project name ;;
                   writeJsonFileAtomic CLAUDE_JSON_PATH claudeJson' ;;;
                   ret Success
               end
         | None => ret (Failure InvalidSource)
         end
     | mcp_json =>
         mcpJson <- readJsonFile MCP_JSON_PATH mcpJsonDefault ;;
         match lookupServer (doc_mcpServers mcpJson) name with
         | None => ret (Failure (NotFoundIn mcp_json name))
         | Some config =>
             createBackup MCP_JSON_PATH (Some ("Before disabling MCP: " +++ name)) ;;;
             disabledJson <- readJsonFile MCP_DISABLED_PATH disabledDefault ;;
             t <- inspect now ;;
             disabledJson' <- archivePut disabledJson ("mcpjson:" +++ name)
                                (archiveEntry config mcp_json None t) ;;
             writeJsonFileAtomic MCP_DISABLED_PATH disabledJson' ;;;
             mcpJson' <- removeServer mcpJson name ;;
             writeJsonFileAtomic MCP_JSON_PATH mcpJson' ;;;
             ret Success
         end
     end)
    caught.

(** [disabledJson.disabled[disabledKey]]; a [TypeError] without [disabled]. *)
Definition archiveGet (disabledJson : JsonDoc) (key : string)
  : M (option DisabledMCPEntry) :=
  match doc_disabled disabledJson with
  | Some o => ret (obj_get key o)
  | None => throw TypeError
  end.

Definition orEmpty {A : Type} (o : option (Obj A)) : Obj A :=
  match o with Some x => x | None => [] end.

(** The project of [claudeJson.projects[projectPath]] once
    [projects], [projects[projectPath]] and its [mcpServers] are defaulted. *)
Definition projectServersOrEmpty (claudeJson : JsonDoc) (projectPath : string)
  : Obj MCPConfig :=
  match obj_get projectPath (orEmpty (doc_projects claudeJson)) with
  | Some pc => orEmpty (project_mcpServers pc)
  | None => []
  end.

Definition enableMcp (disabledKey : string) : M OpResult :=
  tryCatch
    (ensureDirectories ;;;
     disabledJson <- readJsonFile MCP_DISABLED_PATH disabledDefault ;;
     found <- archiveGet disabledJson disabledKey ;;
     match found with
     | None => ret (Failure (DisabledNotFound disabledKey))
     | Some entry =>
         let config := entry_config entry in
         match entry_source entry with
         | user =>
             claudeJson <- readJsonFile CLAUDE_JSON_PATH emptyDoc ;;
             let servers := orEmpty (doc_mcpServers claudeJson) in
             let name := removeFirst "user:" disabledKey in
             match obj_get name servers with
             | Some _ => ret (Failure (AlreadyExists user name))
             | None =>
                 createBackup CLAUDE_JSON_PATH (Some ("Before enabling MCP: " +++ name)) ;;;
                 writeJsonFileAtomic CLAUDE_JSON_PATH
                   (withServers claudeJson (obj_set name config servers)) ;;;
                 disabledJson' <- archiveRemove disabledJson disabledKey ;;
                 writeJsonFileAtomic MCP_DISABLED_PATH disabledJson' ;;;
                 ret Success
             end
         | local =>
             if truthy (entry_projectPath entry) then
               let project := interpolate (entry_projectPath entry) in
               claudeJson <- readJsonFile CLAUDE_JSON_PATH emptyDoc ;;
               let projects := orEmpty (doc_projects claudeJson) in
               let servers := projectServersOrEmpty claudeJson project in
               let name := lastSegment disabledKey in
               match obj_get name servers with
               | Some _ => ret (Failure (AlreadyExists local name))
               | None =>
                   createBackup CLAUDE_JSON_PATH
                     (Some ("Before enabling local MCP: " +++ name)) ;;;
                   writeJsonFileAtomic CLAUDE_JSON_PATH
                     (withProjects claudeJson
                        (obj_set project (mkProject (Some (obj_set name config servers)))
                           projects)) ;;;
                   disabledJson' <- archiveRemove disabledJson disabledKey ;;
                   writeJsonFileAtomic MCP_DISABLED_PATH disabledJson' ;;;
                   ret Success
               end
             else ret (Failure InvalidSourceInEntry)
         | mcp_json =>
             mcpJson <- readJsonFile MCP_JSON_PATH mcpJsonDefault ;;
             let name := removeFirst "mcpjson:" disabledKey in
             match doc_mcpServers mcpJson with
             | None => throw TypeError
             | Some servers =>
                 match obj_get name servers with
                 | Some _ => ret (Failure (AlreadyExists mcp_json name))
                 | None =>
                     createBackup MCP_JSON_PATH (Some ("Before enabling MCP: " +++ name)) ;;;
                     writeJsonFileAtomic MCP_JSON_PATH
                       (withServers mcpJson (obj_set name config servers)) ;;;
                     disabledJson' <- archiveRemove disabledJson disabledKey ;;
                     writeJsonFileAtomic MCP_DISABLED_PATH disabledJson' ;;;
                     ret Success
                 end
             end
         end
     end)
    caught.

Definition deleteMcp (name : string) (source : ServerSource)
  (projectPath disabledKey : option string) : M OpResult :=
  tryCatch
    (ensureDirectories ;;;
     if isDisabledSource source && truthy disabledKey then
       let key := interpolate disabledKey in
       disabledJson <- readJsonFile MCP_DISABLED_PATH disabledDefault ;;
       found <- archiveGet disabledJson key ;;
       match found with
       | None => ret (Failure (DisabledNotFound key))
       | Some _ =>
           createBackup MCP_DISABLED_PATH
             (Some ("Before deleting disabled MCP: " +++ name)) ;;;
           disabledJson' <- archiveRemove disabledJson key ;;
           writeJsonFileAtomic MCP_DISABLED_PATH disabledJson' ;;;
           ret Success
       end
     else
       match source with
       | Active user =>
           claudeJson <- readJsonFile CLAUDE_JSON_PATH emptyDoc ;;
           match lookupServer (doc_mcpServers claudeJson) name with
           | None => ret (Failure (NotFoundIn user name))
           | Some _ =>
               createBackup CLAUDE_JSON_PATH (Some ("Before deleting MCP: " +++ name)) ;;;
               claudeJson' <- removeServer claudeJson name ;;
               writeJsonFileAtomic CLAUDE_JSON_PATH claudeJson' ;;;
               ret Success
           end
       | Active local =>
           if truthy projectPath then
             let project := interpolate projectPath in
             claudeJson <- readJsonFile CLAUDE_JSON_PATH emptyDoc ;;
             match lookupServer (projectServers claudeJson project) name with
             | None => ret (Failure (NotFoundIn local name))
             | Some _ =>
                 createBackup CLAUDE_JSON_PATH
                   (Some ("Before deleting local MCP: " +++ name)) ;;;
                 claudeJson' <- removeProjectServer claudeJson project name ;;
                 writeJsonFileAtomic CLAUDE_JSON_PATH claudeJson' ;;;
                 ret Success
             end
           else ret (Failure InvalidSourceForDelete)
       | Active mcp_json =>
           mcpJson <- readJsonFile MCP_JSON_PATH mcpJsonDefault ;;
           match lookupServer (doc_mcpServers mcpJson) name with
           | None => ret (Failure (NotFoundIn mcp_json name))
           | Some _ =>
               createBackup MCP_JSON_PATH (Some ("Before deleting MCP: " +++ name)) ;;;
               mcpJson' <- removeServer mcpJson name ;;
               writeJsonFileAtomic MCP_JSON_PATH mcpJson' ;;;
               ret Success
           end
       | Disabled => ret (Failure InvalidSourceForDelete)
       end)
    caught.

Definition toggleMcp (name : string) (enabled : bool) (source : option ServerSource)
  (projectPath disabledKey : option string) : M ToggleResult :=
  if enabled then
    if negb (truthy disabledKey)
    then ret (mkToggleResult (Failure MissingDisabledKey) None)
    else
      result <- enableMcp (interpolate disabledKey) ;;
      ret (mkToggleResult result (Some (isSuccess result)))
  else
    match source with
    | Some (Active s) =>
        result <- disableMcp name s projectPath ;;
        ret (mkToggleResult result (Some (isSuccess result)))
    | _ => ret (mkToggleResult (Failure InvalidSourceForDisable) None)
    end.







(** *** Restore *)

Definition restoreBackup (backupPath : Path) : M OpResult :=
  tryCatch
    (let metaPath := pathAppend backupPath ".meta.json" in
     hasBackup <- existsSync backupPath ;;
     if negb hasBackup then ret (Failure BackupFileNotFound)
     else
       hasMeta <- existsSync metaPath ;;
       if negb hasMeta then ret (Failure BackupMetadataNotFound)
       else
         metaText <- readFileSync metaPath ;;
         meta <- JSON_parse metaText ;;
         content <- readFileSync backupPath ;;
         JSON_parse content ;;;
         match asMeta meta with
         | Some m =>
             createBackup (originalPath m)
               (Some ("Before restoring backup from " +++ meta_timestamp m)) ;;;
             copyFileSync backupPath (originalPath m) ;;;
             ret Success
         | None => throw TypeError
         end)
    caught.

(** *** Agents *)

Definition agentPath (dir filename : string) : Path := Abs (dir +++ "/" +++ filename).

Definition toggleAgent (filename : string) (enabled : bool) : M OpResult :=
  ensureDirectories ;;;
  let sourcePath := if enabled then agentPath AGENTS_DISABLED_DIR filename
                    else agentPath AGENTS_DIR filename in
  let destPath := if enabled then agentPath AGENTS_DIR filename
                  else agentPath AGENTS_DISABLED_DIR filename in
  present <- existsSync sourcePath ;;
  if negb present then ret (Failure (AgentFileNotFound (pathString sourcePath)))
  else renameSync sourcePath destPath ;;; ret Success.

(** *** Skills *)

(** A skill is a folder; the disk holds it as one entry under its path. *)
Definition toggleSkill (name : string) (enabled : bool) : M OpResult :=
  tryCatch
    (ensureDirectories ;;;
     let sourceDir := if enabled then SKILLS_DISABLED_DIR else SKILLS_DIR in
     let destDir := if enabled then SKILLS_DIR else SKILLS_DISABLED_DIR in
     let sourcePath := Abs (sourceDir +++ "/" +++ name) in
     let destPath := Abs (destDir +++ "/" +++ name) in
     present <- existsSync sourcePath ;;
     if negb present then ret (Failure (SkillFolderNotFound name))
     else renameSync sourcePath destPath ;;; ret Success)
    caught.

End Operations.

(** ** Views used by the statements *)

(** What [readJsonFile] yields on a given disk. *)
Definition readDoc (filePath : Path) (defaultValue : JsonDoc) (w : World) : JsonDoc :=
  match lookupFile filePath w with
  | None => defaultValue
  | Some f =>
      match content f with
      | Text _ => defaultValue
      | JsonText v => asConfig v
      end
  end.

(** The active store file of a source, and the default used to read it. *)
Definition sourcePath (s : Source) : Path :=
  match s with
  | mcp_json => MCP_JSON_PATH
  | _ => CLAUDE_JSON_PATH
  end.

Definition sourceDefault (s : Source) : JsonDoc :=
  match s with
  | mcp_json => mcpJsonDefault
  | _ => emptyDoc
  end.

(** The object of a source document that holds the servers of a
    (source, project) pair. *)
Definition activeServers (s : Source) (projectPath : option string) (d : JsonDoc)
  : option (Obj MCPConfig) :=
  match s with
  | local => if truthy projectPath then projectServers d (interpolate projectPath) else None
  | _ => doc_mcpServers d
  end.

(** The live payload of [name] at (source, project), if any. *)
Definition activeConfig (w : World) (s : Source) (projectPath : option string)
  (name : string) : option MCPConfig :=
  lookupServer (activeServers s projectPath (readDoc (sourcePath s) (sourceDefault s) w)) name.

(** The archive entry stored under [key], if any. *)
Definition archived (w : World) (key : string) : option DisabledMCPEntry :=
  match doc_disabled (readDoc MCP_DISABLED_PATH disabledDefault w) with
  | Some o => obj_get key o
  | None => None
  end.

(** The key under which [disableMcp] archives an item. *)
Definition archiveKey (s : Source) (projectPath : option string) (name : string) : string :=
  match s with
  | user => "user:" +++ name
  | local => "local:" +++ interpolate projectPath +++ ":" +++ name
  | mcp_json => "mcpjson:" +++ name
  end.

(** The name under which [enableMcp] restores the entry stored at [key]. *)
Definition restoredName (key : string) (entry : DisabledMCPEntry) : string :=
  match entry_source entry with
  | user => removeFirst "user:" key
  | local => lastSegment key
  | mcp_json => removeFirst "mcpjson:" key
  end.

(** The two [fs] calls of [writeJsonFileAtomic]. *)
Definition atomicWrite (filePath : Path) (data : JsonDoc) : list Event :=
  [EvWriteFile (pathAppend filePath ".tmp") (JsonText (ConfigDoc data));
   EvRename (pathAppend filePath ".tmp") filePath].

(** The locations an event creates, overwrites or removes. *)
Definition touched (e : Event) : list Path :=
  match e with
  | EvMkdir _ => []
  | EvWriteFile p _ => [p]
  | EvRename src dst => [src; dst]
  | EvCopyFile _ dst => [dst]
  | EvUnlink p => [p]
  end.

Definition isMkdir (e : Event) : bool :=
  match e with EvMkdir _ => true | _ => false end.

Definition isInBackups (p : Path) : bool :=
  match p with InBackups _ => true | Abs _ => false end.

(** An event that leaves every file outside the backups directory alone. *)
Definition backupOnly (e : Event) : bool := forallb isInBackups (touched e).

Definition fileEvents (evs : list Event) : list Event :=
  filter (fun e => negb (isMkdir e)) evs.

(** [m] started on [w] returns [r] after exactly the events [evs]. *)
Definition Runs {A : Type} (m : M A) (w : World) (r : Res A) (evs : list Event) : Prop :=
  m w = (r, replay w evs, evs).

(** Every event of [m] satisfies [Q], whatever the disk [m] starts on. *)
Definition Logs {A : Type} (Q : Event -> bool) (m : M A) : Prop :=
  forall w, exists r evs, Runs m w r evs /\ Forall (fun e => Q e = true) evs.

(** ... and [m] does not throw. *)
Definition LogsVal {A : Type} (Q : Event -> bool) (m : M A) : Prop :=
  forall w, exists a evs, Runs m w (Val a) evs /\ Forall (fun e => Q e = true) evs.

(** The source document once [name] is removed from (source, project): what
    [disableMcp] and [deleteMcp] write back. *)
Definition docWithout (s : Source) (projectPath : option string) (name : string)
  (d : JsonDoc) : JsonDoc :=
  match s with
  | local =>
      let project := interpolate projectPath in
      match doc_projects d with
      | Some ps =>
          match obj_get project ps with
          | Some pc =>
              match project_mcpServers pc with
              | Some o =>
                  withProjects d (obj_set project (mkProject (Some (obj_delete name o))) ps)
              | None => d
              end
          | None => d
          end
      | None => d
      end
  | _ => withServers d (obj_delete name (orEmpty (doc_mcpServers d)))
  end.

(** The destination document once [name] is set to [config] at
    (source, project): what [enableMcp] writes. *)
Definition docWith (s : Source) (projectPath : option string) (name : string)
  (config : MCPConfig) (d : JsonDoc) : JsonDoc :=
  match s with
  | local =>
      let project := interpolate projectPath in
      withProjects d
        (obj_set project
           (mkProject (Some (obj_set name config (projectServersOrEmpty d project))))
           (orEmpty (doc_projects d)))
  | _ => withServers d (obj_set name config (orEmpty (doc_mcpServers d)))
  end.

(** The [projectPath] field of the entry [disableMcp] archives. *)
Definition entryProject (s : Source) (projectPath : option string) : option string :=
  match s with
  | local => projectPath
  | _ => None
  end.

(** Whether [enableMcp] can address the destination of an entry: a local
    entry needs its project, and [mcp.json] its [mcpServers] object. *)
Definition destinationOk (w : World) (entry : DisabledMCPEntry) : bool :=
  match entry_source entry with
  | user => true
  | local => truthy (entry_projectPath entry)
  | mcp_json =>
      match doc_mcpServers (readDoc MCP_JSON_PATH mcpJsonDefault w) with
      | Some _ => true
      | None => false
      end
  end.

(** The backup copy [createBackup] makes of [filePath] at the current instant. *)
Definition snapshotEvent {P : Platform} (filePath : Path) (w : World) : Event :=
  EvCopyFile filePath (InBackups (backupName filePath (now w))).

(** The events begin, after directory creation, with the snapshot of
    [target] when that file exists. *)
Definition snapshotLeads {P : Platform} (target : Path) (w : World) (evs : list Event)
  : Prop :=
  match lookupFile target w with
  | None => Forall (fun e => isMkdir e = true) evs
  | Some _ =>
      exists mk rest,
        evs = mk ++ snapshotEvent target w :: rest
        /\ Forall (fun e => isMkdir e = true) mk
  end.

(** The four [fs] calls by which a successful [disableMcp] moves an item:
    the archive is written first, the source afterwards. *)
Definition disableEvents {P : Platform} (s : Source) (pp : option string) (name : string)
  (cfg : MCPConfig) (o : Obj DisabledMCPEntry) (w : World) : list Event :=
  atomicWrite MCP_DISABLED_PATH
    (withDisabled (readDoc MCP_DISABLED_PATH disabledDefault w)
       (obj_set (archiveKey s pp name)
          (archiveEntry cfg s (entryProject s pp) (now w)) o))
  ++ atomicWrite (sourcePath s)
       (docWithout s pp name (readDoc (sourcePath s) (sourceDefault s) w)).

(** The four [fs] calls by which a successful [enableMcp] moves an entry:
    the destination is written first, the archive afterwards. *)
Definition enableEvents (key : string) (entry : DisabledMCPEntry)
  (o : Obj DisabledMCPEntry) (w : World) : list Event :=
  let s := entry_source entry in
  atomicWrite (sourcePath s)
    (docWith s (entry_projectPath entry) (restoredName key entry) (entry_config entry)
       (readDoc (sourcePath s) (sourceDefault s) w))
  ++ atomicWrite MCP_DISABLED_PATH
       (withDisabled (readDoc MCP_DISABLED_PATH disabledDefault w) (obj_delete key o)).

(** The disk if execution stops after the first [k] events. *)
Definition stateAfter (k : nat) (w : World) (evs : list Event) : World :=
  replay w (firstn k evs).



Section Commits.

Context {P : Platform}.

(** The common tail of the three branches of [disableMcp]. *)
Definition disableCommit (store : Path) (desc key : string)
  (entryAt : nat -> DisabledMCPEntry) (remove : M JsonDoc) : M OpResult :=
  createBackup store (Some desc) ;;;
  disabledJson <- readJsonFile MCP_DISABLED_PATH disabledDefault ;;
  t <- inspect now ;;
  disabledJson' <- archivePut disabledJson key (entryAt t) ;;
  writeJsonFileAtomic MCP_DISABLED_PATH disabledJson' ;;;
  d' <- remove ;;
  writeJsonFileAtomic store d' ;;;
  ret Success.

(** The common tail of the three branches of [enableMcp]. *)
Definition enableCommit (store : Path) (desc : string) (newDoc disabledJson : JsonDoc)
  (key : string) : M OpResult :=
  createBackup store (Some desc) ;;;
  writeJsonFileAtomic store newDoc ;;;
  disabledJson' <- archiveRemove disabledJson key ;;
  writeJsonFileAtomic MCP_DISABLED_PATH disabledJson' ;;;
  ret Success.

(** The common tail of the branches of [deleteMcp]. *)
Definition deleteCommit (store : Path) (desc : string) (remove : M JsonDoc) : M OpResult :=
  createBackup store (Some desc) ;;;
  d' <- remove ;;
  writeJsonFileAtomic store d' ;;;
  ret Success.

End Commits.

(** A reference platform for closed examples: instants print in unary with
    the shape of an ISO stamp, names compare by code point, and no tool is
    known. *)
Definition ordinalCompare (a b : string) : Z :=
  match String.compare a b with
  | Lt => (-1)%Z
  | Eq => 0%Z
  | Gt => 1%Z
  end.

Definition unaryStamp (t : nat) : string :=
  "T" +++ string_of_list_ascii (repeat "1"%char t) +++ ".000Z".

Definition refPlatform : Platform := mkPlatform unaryStamp ordinalCompare (fun _ => None).

(** ** Example disks *)

Definition cfgMemory : MCPConfig :=
  mkConfig (Some "npx") (Some ["-y"; "@modelcontextprotocol/server-memory"]) None None None.

Definition cfgPlaywright : MCPConfig :=
  mkConfig (Some "npx") (Some ["@playwright/mcp@latest"]) None None None.

Definition cfgOther : MCPConfig :=
  mkConfig None None None (Some "https://example.test/mcp") (Some http).

Definition jsonFile (d : JsonDoc) (t : nat) : File := mkFile (JsonText (ConfigDoc d)) t.

Definition userDoc (servers : Obj MCPConfig) : JsonDoc :=
  mkDoc (Some servers) None None None [("numStartups", JNum 3)].

Definition archiveDoc (entries : Obj DisabledMCPEntry) : JsonDoc :=
  mkDoc None None (Some 1%Z) (Some entries) [].

Definition userEntry (cfg : MCPConfig) : DisabledMCPEntry :=
  mkEntry cfg user None (mkMetadata "2025-01-01T00:00:00.000Z" "user").

(** [playwright] and [memory] live at user level, nothing archived. *)
Definition diskTwoServers : World :=
  mkWorld
    [("~/.claude.json",
      jsonFile (userDoc [("playwright", cfgPlaywright); ("memory", cfgMemory)]) 5)]
    [] [] 10.

(** [memory] archived from user level, [playwright] live. *)
Definition diskArchived : World :=
  mkWorld
    [("~/.claude.json", jsonFile (userDoc [("playwright", cfgPlaywright)]) 5);
     ("~/.claude/.config-manager/mcp-disabled.json",
      jsonFile (archiveDoc [("user:memory", userEntry cfgMemory)]) 6)]
    [] [] 10.

(** [alpha] and [beta] archived from user level while another [alpha] has
    been created live since. *)
Definition diskConflict : World :=
  mkWorld
    [("~/.claude.json", jsonFile (userDoc [("alpha", cfgOther)]) 5);
     ("~/.claude/.config-manager/mcp-disabled.json",
      jsonFile
        (archiveDoc [("user:alpha", userEntry cfgMemory);
                     ("user:beta", userEntry cfgPlaywright)]) 6)]
    [] [] 10.

(** [~/.claude.json] holds text that is not JSON. *)
Definition diskMalformed : World :=
  mkWorld [("~/.claude.json", mkFile (Text "{ mcpServers: ") 5)] [] [] 10.

(** The entries of a loaded list that carry [name] and come from the
    user-level source or from [mcp.json]. *)
Definition fromUserOrMcpJson (name : string) (m : MCPServer) : bool :=
  String.eqb (mcp_name m) name
  && match mcp_source m with
     | Active user | Active mcp_json => true
     | _ => false
     end.

(** How the keys of [mcpMap] relate to the entries stored under them. *)
Definition keyFits (k : string) (v : MCPServer) : Prop :=
  match mcp_source v with
  | Active user => k = "user:" +++ mcp_name v
  | Active mcp_json => k = "mcpjson:" +++ mcp_name v
  | Active local => String.prefix "local:" k = true
  | Disabled => String.prefix "disabled:" k = true
  end.

(** The invariant of [mcpMap]: distinct keys, each fitting its entry. *)
Definition mapOk (m : Obj MCPServer) : Prop :=
  NoDup (obj_keys m) /\ forall k v, In (k, v) m -> keyFits k v.

(** [memory] at user level and, with another payload, in [mcp.json]. *)
Definition diskSameName : World :=
  mkWorld
    [("~/.claude.json", jsonFile (userDoc [("memory", cfgMemory)]) 5);
     ("~/.claude/mcp.json", jsonFile (mkDoc (Some [("memory", cfgOther)]) None None None []) 5)]
    [] [] 10.








Definition isRename (e : Event) : bool :=
  match e with EvRename _ _ => true | _ => false end.

(** Every [fs] call but [renameSync]. *)
Definition notRename (e : Event) : bool := negb (isRename e).

(** A [mkdirSync], or a [renameSync] from and to a place outside the
    backups directory: the calls that make no copy of anything. *)
Definition mkdirOrMove (e : Event) : bool :=
  match e with
  | EvMkdir _ => true
  | EvRename (Abs _) (Abs _) => true
  | _ => false
  end.

(** [memory] of the project [/p], nothing archived. *)
Definition diskLocal : World :=
  mkWorld
    [("~/.claude.json",
      jsonFile
        (mkDoc (Some [("playwright", cfgPlaywright)])
           (Some [("/p", mkProject (Some [("memory", cfgMemory)]))]) None None [])
        5)]
    [] [] 10.

(** The two-server document backed up before [memory] was disabled; the
    live file now lists [playwright] alone. *)
Definition diskWithBackup : World :=
  mkWorld
    [("~/.claude.json", jsonFile (userDoc [("playwright", cfgPlaywright)]) 8)]
    [(".claude.json.T111-000Z",
      jsonFile (userDoc [("playwright", cfgPlaywright); ("memory", cfgMemory)]) 3);
     (".claude.json.T111-000Z.meta.json",
      mkFile
        (JsonText
           (MetaDoc (mkMeta CLAUDE_JSON_PATH "T111.000Z" "Before disabling MCP: memory")))
        3)]
    [SKILLS_DISABLED_DIR; AGENTS_DISABLED_DIR; BACKUPS_DIR; CONFIG_MANAGER_DIR] 10.


(** *** Views of the backups directory *)

(** [backupPath + '.meta.json'] as a file name. *)
Definition metaName (f : string) : string := f +++ ".meta.json".

(** The backup copies kept for a base file name, in directory order. *)
Definition backupCopies (baseFileName : string) (w : World) : list string :=
  filter (isBackupOf baseFileName) (obj_keys (backups w)).

(** The sidecars kept for a base file name, in directory order. *)
Definition sidecars (baseFileName : string) (w : World) : list string :=
  filter (fun f => startsWith (baseFileName +++ ".") f && endsWith ".meta.json" f)
    (obj_keys (backups w)).

Fixpoint increasing (ts : list nat) : bool :=
  match ts with
  | [] => true
  | t :: r => forallb (fun u => Nat.ltb t u) r && increasing r
  end.

Fixpoint distinct (l : list string) : bool :=
  match l with
  | [] => true
  | x :: r => negb (existsb (String.eqb x) r) && distinct r
  end.

Section Snapshots.

Context {P : Platform}.

(** One [createBackup] call made when the clock shows [t]. *)
Definition snapshotAt (filePath : Path) (description : option string) (w : World)
  (t : nat) : World :=
  final (createBackup filePath description (advanceTo t w)).

(** Successive [createBackup] calls at the instants [ts]. *)
Definition snapshots (filePath : Path) (description : option string) (ts : list nat)
  (w : World) : World :=
  fold_left (snapshotAt filePath description) ts w.

(** The stamps of the instants [ts] name distinct backup files, none of
    which looks like a sidecar. *)
Definition stampsOk (filePath : Path) (ts : list nat) : bool :=
  distinct (map (backupName filePath) ts)
  && forallb (fun t => negb (endsWith ".meta.json" (backupName filePath t))) ts.

(** The directory entries a snapshot of content [c] at instant [t] leaves. *)
Definition snapshotEntries (filePath : Path) (description : option string)
  (c : Content) (t : nat) : Obj File :=
  [(backupName filePath t, mkFile c t);
   (metaName (backupName filePath t),
    mkFile (JSON_stringify (MetaDoc (mkMeta filePath (toISOString t) (describe description))))
      t)].

Definition retained (filePath : Path) (description : option string) (c : Content)
  (ts : list nat) : Obj File :=
  flat_map (snapshotEntries filePath description c) ts.

End Snapshots.

(** What [stampsOk] gives for the instants of a run. *)
Definition namesOk {P : Platform} (p : Path) (all : list nat) : Prop :=
  NoDup (map (backupName p) all)
  /\ Forall (fun t => endsWith ".meta.json" (backupName p t) = false) all.

(** The window of instants whose snapshots are kept: the newest
    [MAX_BACKUPS] so far. *)
Definition trim (win : list nat) : list nat :=
  if (MAX_BACKUPS <? List.length win)%nat then tl win else win.

Definition window (ts win : list nat) : list nat :=
  fold_left (fun acc t => trim (acc ++ [t])) ts win.

(** The [unlinkSync] calls of one pruning pass over a window. *)
Definition pruneEvents {P : Platform} (p : Path) (win : list nat) : list Event :=
  if (MAX_BACKUPS <? List.length win)%nat then
    match win with
    | t0 :: _ =>
        [EvUnlink (InBackups (backupName p t0));
         EvUnlink (InBackups (metaName (backupName p t0)))]
    | [] => []
    end
  else [].

(** No entry of the backups directory belongs to the base file name yet. *)
Definition freshFor (baseFileName : string) (w : World) : bool :=
  forallb (fun f => negb (startsWith (baseFileName +++ ".") f)) (obj_keys (backups w)).


(** The project [/p] of [~/.claude.json] holds the server [a:b], whose name
    has a colon in it; nothing is archived. *)
Definition diskLocalColon : World :=
  mkWorld
    [("~/.claude.json",
      jsonFile
        (mkDoc None (Some [("/p", mkProject (Some [("a:b", cfgMemory)]))]) None None [])
        5)]
    [] [] 10.

(** The disk after [a:b] has been disabled, and after its archive key has
    been enabled again. *)
Definition diskLocalColonOff : World :=
  final (disableMcp (P := refPlatform) "a:b" local (Some "/p") diskLocalColon).

Definition diskLocalColonOn : World :=
  final (enableMcp (P := refPlatform) "local:/p:a:b" diskLocalColonOff).


(** Two server objects, or their absence, up to the order of the keys. *)
Definition sameServers (a b : option (Obj MCPConfig)) : Prop :=
  match a, b with
  | Some x, Some y => obj_equiv x y
  | None, None => True
  | _, _ => False
  end.

(** Two store documents that differ at most in the order of the keys of
    their server objects. *)
Definition docEquiv (d1 d2 : JsonDoc) : Prop :=
  sameServers (doc_mcpServers d1) (doc_mcpServers d2)
  /\ (forall project, sameServers (projectServers d1 project) (projectServers d2 project))
  /\ doc_version d1 = doc_version d2
  /\ doc_disabled d1 = doc_disabled d2
  /\ doc_rest d1 = doc_rest d2.


(** The ten backups of [~/.claude.json] made at the instants 11 to 20, a
    while later. *)
Definition diskTenBackups : World :=
  advanceTo 30
    (snapshots (P := refPlatform) CLAUDE_JSON_PATH None (seq 11 10) diskTwoServers).


(** ** Further handlers of ipc-handlers.ts *)

(** [`${Date.now()}`]: the clock of the world counts milliseconds. *)
Definition dateNow (t : nat) : string := NilZero.string_of_uint (Nat.to_uint t).

(** The [error] strings of the handlers below. *)
Inductive EditError : Type :=
| FileNotFound
| InvalidJson
| OnlyUserSkills
| SkillMdNotFound
| NoBackupMade
| OnlyMdAgents
| NoFrontmatter
| NoSuchAgent (p : Path)
| Thrown (e : Exn).

(** [{ success: true, ...payload }] or [{ success: false, error }]. *)
Inductive Reply (A : Type) : Type :=
| Ok (a : A)
| Refused (e : EditError).
Arguments Ok {A} a.
Arguments Refused {A} e.

(** [description || fallback] *)
Definition orElse (description : option string) (fallback : string) : string :=
  match description with
  | Some d => if isEmptyString d then fallback else d
  | None => fallback
  end.

(** One entry of the list [listBackups] returns; [timestamp] and
    [description] are whatever the sidecar holds under these keys. *)
Record BackupInfo : Type := mkBackupInfo {
  info_path : Path;
  info_timestamp : option Json;
  info_description : option Json
}.

(** [new Date(x).getTime()], [None] for [NaN]. *)
Class Dates : Type := mkDates {
  dateGetTime : option Json -> option Z
}.

(** [meta[key]] of a parsed sidecar. *)
Definition metaField (v : JsonValue) (key : string) : option Json :=
  obj_get key (doc_rest (asConfig v)).

Section Handlers.

Context {P : Platform} {D : Dates}.

(** *** Backups *)

Definition createManualBackup (description : option string) : M (Reply Path) :=
  tryCatch
    (claudeBackup <- createBackup CLAUDE_JSON_PATH
                       (Some (orElse description "Manual backup")) ;;
     mcpBackup <- createBackup MCP_JSON_PATH
                    (Some (orElse description "Manual backup")) ;;
     match claudeBackup, mcpBackup with
     | None, None => ret (Refused NoBackupMade)
     | Some p, _ => ret (Ok p)
     | None, Some p => ret (Ok p)
     end)
    (fun e => ret (Refused (Thrown e))).

(** The body of the loop of [listBackups] for one directory entry: [None]
    where the loop goes on without a [push]. *)
Definition listEntry (file : string) : M (option BackupInfo) :=
  if endsWith ".meta.json" file then ret None
  else
    let metaPath := InBackups (file +++ ".meta.json") in
    present <- existsSync metaPath ;;
    if present then
      tryCatch
        (metaText <- readFileSync metaPath ;;
         meta <- JSON_parse metaText ;;
         ret (Some (mkBackupInfo (InBackups file) (metaField meta "timestamp")
                      (metaField meta "description"))))
        (fun _ => ret None)
    else ret None.

Fixpoint pushed {A : Type} (l : list (option A)) : list A :=
  match l with
  | [] => []
  | Some x :: r => x :: pushed r
  | None :: r => pushed r
  end.

(** [new Date(b.timestamp).getTime() - new Date(a.timestamp).getTime()];
    [sort] takes a [NaN] for [+0]. *)
Definition newestStampFirst (a b : BackupInfo) : Z :=
  match dateGetTime (info_timestamp b), dateGetTime (info_timestamp a) with
  | Some tb, Some ta => (tb - ta)%Z
  | _, _ => 0%Z
  end.

(** The loop body cannot throw (its failing calls are inside the inner
    [try]), so the outer [catch] guards [readdirSync] alone. *)
Definition listBackups : M (list BackupInfo) :=
  ensureDirectories ;;;
  files <- tryCatch (inspect (fun w => obj_keys (backups w))) (fun _ => ret []) ;;
  entries <- mapM listEntry files ;;
  ret (sortBy newestStampFirst (pushed entries)).

(** *** Agents *)

Definition agentDir (isEnabled : bool) : string :=
  if isEnabled then AGENTS_DIR else AGENTS_DISABLED_DIR.

Definition deleteAgent (filename : string) (isEnabled : bool) : M OpResult :=
  tryCatch
    (ensureDirectories ;;;
     let filePath := agentPath (agentDir isEnabled) filename in
     present <- existsSync filePath ;;
     if negb present then ret (Failure (AgentFileNotFound filename))
     else
       t <- inspect now ;;
       let backupPath := InBackups (filename +++ ".deleted-" +++ dateNow t) in
       copyFileSync filePath backupPath ;;;
       unlinkSync filePath ;;;
       ret Success)
    caught.

(** The handler of ['agent:readContent']. *)
Definition agent_readContent (filename : string) (isEnabled : bool)
  : M (Reply (Content * Path)) :=
  tryCatch
    (let filePath := agentPath (agentDir isEnabled) filename in
     present <- existsSync filePath ;;
     if negb present then ret (Refused FileNotFound)
     else
       content <- readFileSync filePath ;;
       ret (Ok (content, filePath)))
    (fun e => ret (Refused (Thrown e))).

(** The handler of ['agent:writeContent']. *)
Definition agent_writeContent (filename : string) (content : Content) (isEnabled : bool)
  : M (Reply unit) :=
  tryCatch
    (ensureDirectories ;;;
     let filePath := agentPath (agentDir isEnabled) filename in
     present <- existsSync filePath ;;
     (if present then
        t <- inspect now ;;
        copyFileSync filePath (InBackups (filename +++ ".backup-" +++ dateNow t))
      else ret tt) ;;;
     writeFileSync filePath content ;;;
     ret (Ok tt))
    (fun e => ret (Refused (Thrown e))).

(** *** The configuration editor *)

(** The handler of ['mcp:readConfig']: the two documents it serialises. *)
Definition mcp_readConfig : M (Reply (JsonDoc * JsonDoc)) :=
  tryCatch
    (claudeJson <- readJsonFile CLAUDE_JSON_PATH mcpJsonDefault ;;
     mcpJson <- readJsonFile MCP_JSON_PATH mcpJsonDefault ;;
     ret (Ok (claudeJson, mcpJson)))
    (fun e => ret (Refused (Thrown e))).

Definition configPath (type : string) : Path :=
  if String.eqb type "claude" then CLAUDE_JSON_PATH else MCP_JSON_PATH.

(** The handler of ['mcp:writeConfig']; the payload of a success is
    [requiresRestart]. *)
Definition mcp_writeConfig (type : string) (content : Content) : M (Reply bool) :=
  tryCatch
    (ensureDirectories ;;;
     let filePath := configPath type in
     JSON_parse content ;;;
     present <- existsSync filePath ;;
     (if present then
        t <- inspect now ;;
        copyFileSync filePath
          (InBackups (basename filePath +++ ".backup-" +++ dateNow t))
      else ret tt) ;;;
     writeFileSync filePath content ;;;
     ret (Ok true))
    (fun e =>
       match e with
       | SyntaxError => ret (Refused InvalidJson)
       | _ => ret (Refused (Thrown e))
       end).

(** *** Skills *)

Definition skillMdPath (folderPath : string) : Path := Abs (folderPath +++ "/SKILL.md").

Definition readSkillContent (folderPath : string) : M (Reply Content) :=
  tryCatch
    (present <- existsSync (skillMdPath folderPath) ;;
     if negb present then ret (Refused SkillMdNotFound)
     else
       content <- readFileSync (skillMdPath folderPath) ;;
       ret (Ok content))
    (fun e => ret (Refused (Thrown e))).

Definition writeSkillContent (folderPath : string) (content : Content) : M (Reply unit) :=
  tryCatch
    (ensureDirectories ;;;
     if negb (startsWith SKILLS_DIR folderPath) then ret (Refused OnlyUserSkills)
     else
       present <- existsSync (skillMdPath folderPath) ;;
       (if present then
          t <- inspect now ;;
          copyFileSync (skillMdPath folderPath)
            (InBackups ("SKILL.md." +++ basenameOf folderPath +++ ".backup-" +++ dateNow t))
        else ret tt) ;;;
       writeFileSync (skillMdPath folderPath) content ;;;
       ret (Ok tt))
    (fun e => ret (Refused (Thrown e))).

End Handlers.


(** What the loop of [listBackups] pushes for one name of the backups
    directory on a given disk. *)
Definition listed (w : World) (file : string) : option BackupInfo :=
  if endsWith ".meta.json" file then None
  else
    match lookupFile (InBackups (file +++ ".meta.json")) w with
    | Some f =>
        match content f with
        | JsonText v =>
            Some (mkBackupInfo (InBackups file) (metaField v "timestamp")
                    (metaField v "description"))
        | Text _ => None
        end
    | None => None
    end.

(** The instant an entry of the list carries, where it carries one. *)
Definition stampTime {D : Dates} (info : BackupInfo) : Z :=
  match dateGetTime (info_timestamp info) with
  | Some t => t
  | None => 0%Z
  end.

(** Dates for closed examples: a string stands for the instant given by its
    length, as the stamps of [refPlatform] do; anything else is no date. *)
Definition refDates : Dates :=
  mkDates (fun j => match j with
                    | Some (JStr s) => Some (Z.of_nat (String.length s))
                    | _ => None
                    end).


(** ** Views on the backups directory *)

(** The modification time [statSync] reports for a name of the directory. *)
Definition mtimeOf (w : World) (f : string) : nat :=
  match obj_get f (backups w) with
  | Some file => mtime file
  | None => 0
  end.

(** The copies of a base file name with their modification times, as
    [cleanupOldBackups] collects them. *)
Definition copyStats (baseFileName : string) (w : World) : list (string * nat) :=
  map (fun f => (f, mtimeOf w f)) (backupCopies baseFileName w).

(** The copies [cleanupOldBackups] deletes, in the order of the deletions. *)
Definition pruned (baseFileName : string) (w : World) : list string :=
  let backupFiles := sortBy newestFirst (copyStats baseFileName w) in
  if (MAX_BACKUPS <? List.length backupFiles)%nat
  then map fst (skipn MAX_BACKUPS backupFiles)
  else [].

(** The [unlinkSync] calls for one of them: the copy, and its sidecar when
    there is one. *)
Definition unlinkEvents (w : World) (f : string) : list Event :=
  EvUnlink (InBackups f)
  :: match obj_get (metaName f) (backups w) with
     | Some _ => [EvUnlink (InBackups (metaName f))]
     | None => []
     end.

(** No two entries of the backups directory have the same name. *)
Definition tidyDirectory (w : World) : Prop := NoDup (obj_keys (backups w)).

Definition isUnlink (e : Event) : bool :=
  match e with EvUnlink _ => true | _ => false end.

Definition notAmong (names : list string) (k : string) : bool :=
  negb (existsb (String.eqb k) names).

(** The names [cleanupOldBackups] unlinks for the copies [vs]. *)
Definition unlinkedNames (w : World) (vs : list string) : list string :=
  flat_map (fun v => v :: match obj_get (metaName v) (backups w) with
                          | Some _ => [metaName v]
                          | None => []
                          end) vs.


(** The [fs] calls of [createBackup] for the copy named [n]: directory
    creation, the copy, its sidecar, and deletions in the backups
    directory. *)
Definition snapshotCall (n : string) (e : Event) : bool :=
  match e with
  | EvMkdir _ => true
  | EvCopyFile _ (InBackups k) => String.eqb k n
  | EvWriteFile (InBackups k) _ => String.eqb k (metaName n)
  | EvUnlink (InBackups _) => true
  | _ => false
  end.


(** An agent file [reviewer.md] among the enabled agents. *)
Definition diskOneAgent : World :=
  mkWorld
    [("~/.claude.json", jsonFile (userDoc [("playwright", cfgPlaywright)]) 5);
     ("~/.claude/agents/reviewer.md", mkFile (Text "--- name: reviewer --- Review the diff.") 4)]
    [] [AGENTS_DIR] 10.

(** The same agent, with an older file of that name left among the disabled
    agents. *)
Definition diskAgentTwice : World :=
  mkWorld
    [("~/.claude/agents/reviewer.md", mkFile (Text "--- name: reviewer --- Review the diff.") 4);
     ("~/.claude/.config-manager/agents-disabled/reviewer.md", mkFile (Text "--- name: reviewer --- Old.") 2)]
    [] [AGENTS_DISABLED_DIR; AGENTS_DIR] 10.


(** Twelve copies of [~/.claude.json] in the backups directory: the ten of
    [diskTenBackups] and two older ones without a sidecar. *)
Definition diskCrowded : World :=
  mkWorld (files diskTenBackups)
    ((".claude.json.first", jsonFile (userDoc []) 1)
     :: (".claude.json.second", jsonFile (userDoc []) 2)
     :: backups diskTenBackups)
    (dirs diskTenBackups) 30.


(** ** Agent files: the frontmatter and the model line *)

Definition LF : ascii := "010"%char.
Definition CR : ascii := "013"%char.

(** LineTerminator: a dot of a regular expression matches none of them, and
    [^] and [$] of a multi-line one match next to them. *)
Definition isLineTerminator (c : ascii) : bool := Ascii.eqb c LF || Ascii.eqb c CR.

(** [\s], and what [trim] strips: tab to carriage return, space, no-break
    space. *)
Definition isSpace (c : ascii) : bool :=
  let n := nat_of_ascii c in
  ((9 <=? n) && (n <=? 13) || (n =? 32) || (n =? 160))%nat.

(** [\w] *)
Definition isWord (c : ascii) : bool :=
  let n := nat_of_ascii c in
  ((48 <=? n) && (n <=? 57) || (65 <=? n) && (n <=? 90) || (n =? 95)
   || (97 <=? n) && (n <=? 122))%nat.

Module Str.

(** [s.trimStart()]; also what a greedy [\s*] takes off. *)
Fixpoint trimStart (s : string) : string :=
  match s with
  | EmptyString => EmptyString
  | String c r => if isSpace c then trimStart r else s
  end.

Fixpoint trimEnd (s : string) : string :=
  match s with
  | EmptyString => EmptyString
  | String c r =>
      match trimEnd r with
      | EmptyString => if isSpace c then EmptyString else String c EmptyString
      | t => String c t
      end
  end.

(** [s.trim()] *)
Definition trim (s : string) : string := trimEnd (trimStart s).

(** [s.split(sep)] for a separator of one character. *)
Fixpoint split (sep : ascii) (s : string) : list string :=
  match s with
  | EmptyString => [EmptyString]
  | String c r =>
      if Ascii.eqb c sep then EmptyString :: split sep r
      else match split sep r with
           | h :: t => String c h :: t
           | [] => [String c EmptyString]
           end
  end.

End Str.

(** The text before the first occurrence of [pat] in [s], and the text
    after that occurrence. *)
Fixpoint cut (pat s : string) : option (string * string) :=
  if String.prefix pat s then Some (EmptyString, dropChars (String.length pat) s)
  else match s with
       | EmptyString => None
       | String c r =>
           match cut pat r with
           | Some (a, b) => Some (String c a, b)
           | None => None
           end
       end.

(** ["---\n"] and ["\n---"] *)
Definition fenceOpen : string := "---" +++ String LF EmptyString.
Definition fenceClose : string := String LF "---".

(** [content.match(/^---\n([\s\S]*?)\n---/)]: the capture [match[1]] and
    the text after [match[0]].  The lazy star stops at the first [\n---]
    after the opening fence. *)
Definition frontmatterMatch (content : string) : option (string * string) :=
  if String.prefix fenceOpen content
  then cut fenceClose (dropChars (String.length fenceOpen) content)
  else None.

(** The same match on what [readFileSync] gives: the text of a JSON
    document starts with white space or a brace, not with the fence. *)
Definition frontmatterOf (content : Content) : option (string * string) :=
  match content with
  | Text raw => frontmatterMatch raw
  | JsonText _ => None
  end.

(** What [.*] takes from [s], and the rest, which is empty or starts with a
    line terminator. *)
Fixpoint lineRest (s : string) : string * string :=
  match s with
  | EmptyString => (EmptyString, EmptyString)
  | String c r =>
      if isLineTerminator c then (EmptyString, s)
      else let (a, b) := lineRest r in (String c a, b)
  end.

(** The first match of [/^model:.*$/m] in [s], read from a position where a
    line starts exactly when [bol]: the text before the match, the match,
    and the text after it. *)
Fixpoint findModelLine (bol : bool) (s : string) : option (string * string * string) :=
  if bol && String.prefix "model:" s
  then let (line, rest) := lineRest s in Some (EmptyString, line, rest)
  else match s with
       | EmptyString => None
       | String c r =>
           match findModelLine (isLineTerminator c) r with
           | Some (before, line, rest) => Some (String c before, line, rest)
           | None => None
           end
       end.

(** The replacement text of [String.prototype.replace] for a pattern
    without groups: [$$] is a dollar, [$&] the match, [$`] the text before
    it, [$'] the text after it; any other dollar stands for itself. *)
Fixpoint expand (matched before after replacement : string) : string :=
  match replacement with
  | EmptyString => EmptyString
  | String c r =>
      if Ascii.eqb c "$" then
        match r with
        | EmptyString => String c EmptyString
        | String d t =>
            if Ascii.eqb d "$" then String "$" (expand matched before after t)
            else if Ascii.eqb d "&" then matched +++ expand matched before after t
            else if Ascii.eqb d "`" then before +++ expand matched before after t
            else if Ascii.eqb d "'" then after +++ expand matched before after t
            else String c (expand matched before after r)
        end
      else String c (expand matched before after r)
  end.

(** [/^model:/m.test(frontmatter)] *)
Definition hasModelLine (frontmatter : string) : bool :=
  match findModelLine true frontmatter with
  | Some _ => true
  | None => false
  end.

(** [frontmatter.replace(/^model:.*$/m, replacement)] *)
Definition replaceModelLine (frontmatter replacement : string) : string :=
  match findModelLine true frontmatter with
  | Some (before, line, rest) => before +++ expand line before rest replacement +++ rest
  | None => frontmatter
  end.

(** [updateAgentModel]; it catches nothing. *)
Definition updateAgentModel (filename model : string) (isEnabled : bool) : M (Reply unit) :=
  let dir := agentDir isEnabled in
  let filePath := agentPath dir filename in
  present <- existsSync filePath ;;
  if negb present then ret (Refused (NoSuchAgent filePath))
  else if negb (endsWith ".md" filename) then ret (Refused OnlyMdAgents)
  else
    content <- readFileSync filePath ;;
    match frontmatterOf content with
    | None => ret (Refused NoFrontmatter)
    | Some (frontmatter, afterFrontmatter) =>
        let newFrontmatter :=
          if hasModelLine frontmatter
          then replaceModelLine frontmatter ("model: " +++ model)
          else frontmatter +++ String LF ("model: " +++ model) in
        writeFileSync filePath
          (Text (fenceOpen +++ newFrontmatter +++ fenceClose +++ afterFrontmatter)) ;;;
        ret (Ok tt)
    end.

(** [Partial<Agent>] as [parseMdAgent] fills it. *)
Inductive AgentFormat : Type := format_md | format_json.

Record AgentFields : Type := mkAgentFields {
  agent_name : option string;
  agent_description : option string;
  agent_tools : option (list string);
  agent_model : option string;
  agent_format : AgentFormat
}.

(** The longest prefix of word characters, and the rest. *)
Fixpoint wordPrefix (s : string) : string * string :=
  match s with
  | EmptyString => (EmptyString, EmptyString)
  | String c r =>
      if isWord c then let (k, t) := wordPrefix r in (String c k, t)
      else (EmptyString, s)
  end.

(** The last character of [s] that is not a line terminator. *)
Fixpoint lastPlain (s : string) : option ascii :=
  match s with
  | EmptyString => None
  | String c r =>
      match lastPlain r with
      | Some d => Some d
      | None => if isLineTerminator c then None else Some c
      end
  end.

(** The capture of [\s*(.+)] matched at the start of [s].  The star takes
    the white space [s] starts with, and the group runs from there to the
    end of the line.  When [s] is white space throughout, the star gives
    characters back until the group finds one that is no line terminator:
    the last such character of [s], which is then the capture. *)
Definition valueMatch (s : string) : option string :=
  match Str.trimStart s with
  | String c r => Some (fst (lineRest (String c r)))
  | EmptyString =>
      match lastPlain s with
      | Some c => Some (String c EmptyString)
      | None => None
      end
  end.

(** [line.match(/^(\w+):\s*(.+)/)]: the key and the value. *)
Definition fieldMatch (line : string) : option (string * string) :=
  match wordPrefix line with
  | (EmptyString, _) => None
  | (key, String c r) =>
      if Ascii.eqb c ":" then
        match valueMatch r with
        | Some value => Some (key, value)
        | None => None
        end
      else None
  | (_, EmptyString) => None
  end.

(** The body of the loop of [parseMdAgent]. *)
Definition parseLine (result : AgentFields) (line : string) : AgentFields :=
  match fieldMatch line with
  | Some (key, value) =>
      let r1 :=
        if String.eqb key "name"
        then mkAgentFields (Some (Str.trim value)) (agent_description result)
               (agent_tools result) (agent_model result) (agent_format result)
        else result in
      let r2 :=
        if String.eqb key "description"
        then mkAgentFields (agent_name r1) (Some (Str.trim value)) (agent_tools r1)
               (agent_model r1) (agent_format r1)
        else r1 in
      let r3 :=
        if String.eqb key "tools"
        then mkAgentFields (agent_name r2) (agent_description r2)
               (Some (map Str.trim (Str.split "," value))) (agent_model r2) (agent_format r2)
        else r2 in
      if String.eqb key "model"
      then mkAgentFields (agent_name r3) (agent_description r3) (agent_tools r3)
             (Some (Str.trim value)) (agent_format r3)
      else r3
  | None => result
  end.

Definition parseMdAgent (content filename : string) : AgentFields :=
  match frontmatterMatch content with
  | None =>
      mkAgentFields (Some (removeFirst ".md" filename)) (Some EmptyString) None None
        format_md
  | Some (frontmatter, _) =>
      fold_left parseLine (Str.split LF frontmatter)
        (mkAgentFields None None None None format_md)
  end.

(** No character of [s] is one of [q]. *)
Fixpoint noneOf (q : ascii -> bool) (s : string) : bool :=
  match s with
  | EmptyString => true
  | String c r => negb (q c) && noneOf q r
  end.

Definition isCR (c : ascii) : bool := Ascii.eqb c CR.

(** A model name that [replace] takes literally and that stays on its
    line: no dollar, no line terminator. *)
Definition plainModel (model : string) : bool :=
  noneOf (fun c => Ascii.eqb c "$" || isLineTerminator c) model.

(** The lines of a frontmatter with the first one that starts with
    [model:] replaced. *)
Fixpoint replaceFirst {A : Type} (q : A -> bool) (new : A) (l : list A) : list A :=
  match l with
  | [] => []
  | x :: r => if q x then new :: r else x :: replaceFirst q new r
  end.

Definition withModel (model : string) (r : AgentFields) : AgentFields :=
  mkAgentFields (agent_name r) (agent_description r) (agent_tools r) (Some model)
    (agent_format r).

Definition startsWithModel (line : string) : bool := String.prefix "model:" line.

(** No line starts with the fence, the first line apart. *)
Definition unfenced (lines : list string) : Prop :=
  Forall (fun l => String.prefix "---" l = false) (tl lines).

(** ** The table of known tools *)

(** [s.includes(pat)] *)
Fixpoint includes (pat s : string) : bool :=
  String.prefix pat s
  || match s with
     | EmptyString => false
     | String _ r => includes pat r
     end.

Module Tools.

Record Row : Type := mkRow { tools : nat; description : string }.

Definition KNOWN_MCP_TOOL_COUNTS : Obj Row :=
  [("jetbrains", mkRow 25 "IDE integration (file ops, refactoring, search)");
   ("playwright", mkRow 20 "Browser automation (navigate, click, type, screenshot)");
   ("sequential-thinking", mkRow 1 "Structured reasoning tool");
   ("memory", mkRow 8 "Knowledge graph (create, search, delete entities)");
   ("mysql", mkRow 5 "Database queries and schema info");
   ("filesystem", mkRow 11 "File system operations");
   ("fetch", mkRow 1 "HTTP requests");
   ("git", mkRow 15 "Git operations");
   ("github", mkRow 20 "GitHub API integration");
   ("slack", mkRow 10 "Slack messaging");
   ("postgres", mkRow 5 "PostgreSQL database");
   ("sqlite", mkRow 5 "SQLite database");
   ("puppeteer", mkRow 15 "Browser automation");
   ("brave-search", mkRow 2 "Web search");
   ("everart", mkRow 3 "Image generation");
   ("storybook", mkRow 5 "UI component development")].

(** [c.toLowerCase()] for a code unit below 256. *)
Definition lowerChar (c : ascii) : ascii :=
  let n := nat_of_ascii c in
  if ((65 <=? n) && (n <=? 90) || (192 <=? n) && (n <=? 222) && negb (n =? 215))%nat
  then ascii_of_nat (n + 32)
  else c.

(** [s.toLowerCase()] *)
Fixpoint toLowerCase (s : string) : string :=
  match s with
  | EmptyString => EmptyString
  | String c r => String (lowerChar c) (toLowerCase r)
  end.

(** What [getToolInfo] returns: [undefined], the object made from a row, or
    the object made from [Object.prototype.constructor] or
    [Object.prototype.__proto__], which the table inherits and which have
    neither [tools] nor [description]: its fields are [undefined] and its
    [estimatedTokens] is [NaN]. *)
Inductive Answer : Type :=
| Undefined
| Known (info : ToolInfo)
| Hollow.

Definition answer (info : Row) : Answer :=
  Known (mkToolInfo (tools info) (description info) (tools info * 200)).

(** The names in lower case that the table inherits a value for. *)
Definition inherited (lowerName : string) : bool :=
  String.eqb lowerName "constructor" || String.eqb lowerName "__proto__".

(** The loop over [Object.entries(KNOWN_MCP_TOOL_COUNTS)]. *)
Fixpoint partialMatch (lowerName : string) (entries : Obj Row) : Answer :=
  match entries with
  | [] => Undefined
  | (key, info) :: rest =>
      if includes key lowerName || includes lowerName key then answer info
      else partialMatch lowerName rest
  end.

Definition getToolInfo (name : string) : Answer :=
  let lowerName := toLowerCase name in
  match obj_get lowerName KNOWN_MCP_TOOL_COUNTS with
  | Some info => answer info
  | None =>
      if inherited lowerName then Hollow
      else partialMatch lowerName KNOWN_MCP_TOOL_COUNTS
  end.

End Tools.


(** The text [updateAgentModel] writes for a frontmatter, the text after it
    and a model. *)
Definition updatedText (frontmatter afterFrontmatter model : string) : string :=
  fenceOpen
  +++ (if hasModelLine frontmatter
       then replaceModelLine frontmatter ("model: " +++ model)
       else frontmatter +++ String LF ("model: " +++ model))
  +++ fenceClose +++ afterFrontmatter.

(** An agent file with a frontmatter of three lines. *)
Definition reviewerText : string :=
  "---" +++ String LF
    ("name: reviewer" +++ String LF
       ("model: sonnet" +++ String LF
          ("tools: Read, Grep" +++ String LF
             ("---" +++ String LF "Review the diff.")))).

Definition diskAgentModel : World :=
  mkWorld
    [("~/.claude/agents/reviewer.md", mkFile (Text reviewerText) 4)]
    [] [AGENTS_DIR] 10.


(** The same agent with a second [model:] line in its frontmatter. *)
Definition twoModelsText : string :=
  "---" +++ String LF
    ("name: reviewer" +++ String LF
       ("model: sonnet" +++ String LF
          ("model: haiku" +++ String LF
             ("---" +++ String LF "Review the diff.")))).


(** ** Names that every object inherits *)

(** The property names of [Object.prototype].  A look-up [o[name]] with
    one of them finds the inherited function or object when [o] has no key
    of its own of that name, where [obj_get] finds nothing; the statements
    whose truth depends on the difference are about the other names. *)
Definition inheritedNames : list string :=
  ["constructor"; "__defineGetter__"; "__defineSetter__"; "hasOwnProperty";
   "__lookupGetter__"; "__lookupSetter__"; "isPrototypeOf"; "propertyIsEnumerable";
   "toString"; "valueOf"; "__proto__"; "toLocaleString"].

Definition inheritedName (name : string) : bool :=
  existsb (String.eqb name) inheritedNames.












(** ** Basic facts *)

Lemma length_append (a b : string) :
  String.length (a +++ b) = String.length a + String.length b.
Proof. induction a as [|c a IH]; simpl; auto. Qed.

Lemma append_neq_self (a suffix : string) : suffix <> EmptyString -> a <> a +++ suffix.
Proof.
  intros Hs H. apply (f_equal String.length) in H. rewrite length_append in H.
  destruct suffix; [now apply Hs | simpl in H; lia].
Qed.

Lemma prefix_append (a b : string) : String.prefix a (a +++ b) = true.
Proof.
  induction a as [|c a IH]; simpl.
  - now destruct b.
  - destruct (ascii_dec c c); [exact IH | contradiction].
Qed.

Lemma obj_get_set_same {A : Type} (k : string) (v : A) (o : Obj A) :
  obj_get k (obj_set k v o) = Some v.
Proof.
  induction o as [|[k' v'] r IH]; simpl.
  - now rewrite String.eqb_refl.
  - destruct (String.eqb k k') eqn:E; simpl; rewrite E; auto.
Qed.

Lemma obj_get_set_other {A : Type} (k k' : string) (v : A) (o : Obj A) :
  k <> k' -> obj_get k (obj_set k' v o) = obj_get k o.
Proof.
  intros Hne. induction o as [|[k0 v0] r IH]; simpl.
  - destruct (String.eqb_spec k k'); [contradiction | reflexivity].
  - destruct (String.eqb_spec k' k0) as [->|Hk]; simpl.
    + destruct (String.eqb_spec k k0); [contradiction | reflexivity].
    + destruct (String.eqb k k0); auto.
Qed.

Lemma obj_get_delete_same {A : Type} (k : string) (o : Obj A) :
  obj_get k (obj_delete k o) = None.
Proof.
  induction o as [|[k' v'] r IH]; simpl; auto.
  destruct (String.eqb k k') eqn:E; simpl; auto.
  now rewrite E.
Qed.

Lemma obj_get_delete_other {A : Type} (k k' : string) (o : Obj A) :
  k <> k' -> obj_get k (obj_delete k' o) = obj_get k o.
Proof.
  intros Hne. induction o as [|[k0 v0] r IH]; simpl; auto.
  destruct (String.eqb_spec k' k0) as [->|Hk]; simpl.
  - destruct (String.eqb_spec k k0); [contradiction | auto].
  - destruct (String.eqb k k0); auto.
Qed.

Lemma Path_eqb_spec (a b : Path) : reflect (a = b) (Path_eqb a b).
Proof.
  destruct a as [p|p], b as [q|q]; simpl;
    try (constructor; discriminate);
    destruct (String.eqb_spec p q); constructor; congruence.
Qed.

Lemma lookup_store_same (p : Path) (f : File) (w : World) :
  lookupFile p (storeFile p f w) = Some f.
Proof. destruct p; simpl; apply obj_get_set_same. Qed.

Lemma lookup_store_other (p q : Path) (f : File) (w : World) :
  p <> q -> lookupFile p (storeFile q f w) = lookupFile p w.
Proof.
  destruct p, q; simpl; intros H; auto; apply obj_get_set_other; congruence.
Qed.

Lemma lookup_remove_same (p : Path) (w : World) :
  lookupFile p (removeFile p w) = None.
Proof. destruct p; simpl; apply obj_get_delete_same. Qed.

Lemma lookup_remove_other (p q : Path) (w : World) :
  p <> q -> lookupFile p (removeFile q w) = lookupFile p w.
Proof.
  destruct p, q; simpl; intros H; auto; apply obj_get_delete_other; congruence.
Qed.

Lemma now_apply_event (e : Event) (w : World) : now (apply_event e w) = now w.
Proof.
  destruct e as [d|p c|src dst|src dst|p]; simpl.
  - destruct (hasDir d w); reflexivity.
  - destruct p; reflexivity.
  - destruct (lookupFile src w); [destruct dst, src|]; reflexivity.
  - destruct (lookupFile src w); [destruct dst|]; reflexivity.
  - destruct p; reflexivity.
Qed.

Lemma lookup_apply_untouched (q : Path) (e : Event) (w : World) :
  ~ In q (touched e) -> lookupFile q (apply_event e w) = lookupFile q w.
Proof.
  destruct e as [d|p c|src dst|src dst|p]; simpl; intros H.
  - destruct (hasDir d w); destruct q; reflexivity.
  - apply lookup_store_other. intuition congruence.
  - destruct (lookupFile src w); auto.
    rewrite lookup_store_other, lookup_remove_other; intuition congruence.
  - destruct (lookupFile src w); auto.
    apply lookup_store_other. intuition congruence.
  - apply lookup_remove_other. intuition congruence.
Qed.

Lemma replay_nil (w : World) : replay w [] = w.
Proof. reflexivity. Qed.

Lemma replay_app (w : World) (e1 e2 : list Event) :
  replay w (e1 ++ e2) = replay (replay w e1) e2.
Proof. unfold replay. apply fold_left_app. Qed.

Lemma now_replay (evs : list Event) (w : World) : now (replay w evs) = now w.
Proof.
  revert w. induction evs as [|e r IH]; intros w; simpl; auto.
  change (now (replay (apply_event e w) r) = now w).
  now rewrite IH, now_apply_event.
Qed.

Lemma lookup_replay_untouched (q : Path) (evs : list Event) (w : World) :
  Forall (fun e => ~ In q (touched e)) evs ->
  lookupFile q (replay w evs) = lookupFile q w.
Proof.
  revert w. induction evs as [|e r IH]; intros w H; simpl; auto.
  inversion H; subst.
  change (lookupFile q (replay (apply_event e w) r) = lookupFile q w).
  rewrite IH by assumption. now apply lookup_apply_untouched.
Qed.

Lemma backupOnly_untouched (s : string) (e : Event) :
  backupOnly e = true -> ~ In (Abs s) (touched e).
Proof.
  unfold backupOnly. rewrite forallb_forall. intros H Hin.
  specialize (H _ Hin). discriminate.
Qed.

Lemma lookup_replay_backupOnly (s : string) (evs : list Event) (w : World) :
  Forall (fun e => backupOnly e = true) evs ->
  lookupFile (Abs s) (replay w evs) = lookupFile (Abs s) w.
Proof.
  intros H. apply lookup_replay_untouched.
  eapply Forall_impl; [|exact H]. intros e. apply backupOnly_untouched.
Qed.

Lemma files_apply_backupOnly (e : Event) (w : World) :
  backupOnly e = true -> files (apply_event e w) = files w.
Proof.
  destruct e as [d|p c|src dst|src dst|p]; unfold backupOnly; simpl; intros H.
  - destruct (hasDir d w); reflexivity.
  - destruct p; [discriminate | reflexivity].
  - destruct src; [discriminate|]. destruct dst; [discriminate|].
    simpl. destruct (obj_get name (backups w)); reflexivity.
  - destruct dst; [discriminate|]. destruct (lookupFile src w); reflexivity.
  - destruct p; [discriminate | reflexivity].
Qed.

Lemma files_replay_backupOnly (evs : list Event) (w : World) :
  Forall (fun e => backupOnly e = true) evs -> files (replay w evs) = files w.
Proof.
  revert w. induction evs as [|e r IH]; intros w H; simpl; auto.
  inversion H; subst.
  change (files (replay (apply_event e w) r) = files w).
  rewrite IH by assumption. now apply files_apply_backupOnly.
Qed.

Lemma isMkdir_backupOnly (e : Event) : isMkdir e = true -> backupOnly e = true.
Proof. destruct e; simpl; intros H; try discriminate; reflexivity. Qed.

Lemma backups_replay_mkdir (evs : list Event) (w : World) :
  Forall (fun e => isMkdir e = true) evs -> backups (replay w evs) = backups w.
Proof.
  revert w. induction evs as [|e r IH]; intros w H; simpl; auto.
  inversion H as [|? ? He Hr]; subst.
  change (backups (replay (apply_event e w) r) = backups w).
  rewrite IH by assumption.
  destruct e; try discriminate. simpl. destruct (hasDir d w); reflexivity.
Qed.

Lemma fileEvents_mkdir (mk : list Event) :
  Forall (fun e => isMkdir e = true) mk -> fileEvents mk = [].
Proof.
  unfold fileEvents. induction 1 as [|e r He _ IH]; simpl; [reflexivity|].
  rewrite He. exact IH.
Qed.


Lemma readDoc_congr (p : Path) (d : JsonDoc) (w1 w2 : World) :
  lookupFile p w1 = lookupFile p w2 -> readDoc p d w1 = readDoc p d w2.
Proof. unfold readDoc. now intros ->. Qed.

(** ** Running computations *)

Lemma Runs_ret {A : Type} (a : A) (w : World) : Runs (ret a) w (Val a) [].
Proof. reflexivity. Qed.

Lemma Runs_throw {A : Type} (x : Exn) (w : World) : Runs (@throw A x) w (Throw x) [].
Proof. reflexivity. Qed.

Lemma Runs_inspect {A : Type} (f : World -> A) (w : World) :
  Runs (inspect f) w (Val (f w)) [].
Proof. reflexivity. Qed.

Lemma Runs_emit (e : Event) (w : World) : Runs (emit e) w (Val tt) [e].
Proof. reflexivity. Qed.

Lemma Runs_bind {A B : Type} (m : M A) (f : A -> M B) (w : World) (a : A)
  (r : Res B) (e1 e2 : list Event) :
  Runs m w (Val a) e1 -> Runs (f a) (replay w e1) r e2 ->
  Runs (bind m f) w r (e1 ++ e2).
Proof.
  unfold Runs, bind. intros -> ->. now rewrite replay_app.
Qed.

Lemma Runs_bind_throw {A B : Type} (m : M A) (f : A -> M B) (w : World) (x : Exn)
  (e1 : list Event) :
  Runs m w (Throw x) e1 -> Runs (bind m f) w (Throw x) e1.
Proof. unfold Runs, bind. now intros ->. Qed.

Lemma Runs_try_val {A : Type} (m : M A) (h : Exn -> M A) (w : World) (a : A)
  (e1 : list Event) :
  Runs m w (Val a) e1 -> Runs (tryCatch m h) w (Val a) e1.
Proof. unfold Runs, tryCatch. now intros ->. Qed.

Lemma Runs_try_throw {A : Type} (m : M A) (h : Exn -> M A) (w : World) (x : Exn)
  (r : Res A) (e1 e2 : list Event) :
  Runs m w (Throw x) e1 -> Runs (h x) (replay w e1) r e2 ->
  Runs (tryCatch m h) w r (e1 ++ e2).
Proof.
  unfold Runs, tryCatch. intros -> ->. now rewrite replay_app.
Qed.

Lemma Runs_fun {A : Type} (m : M A) (w : World) (r r' : Res A) (e e' : list Event) :
  Runs m w r e -> Runs m w r' e' -> r = r' /\ e = e'.
Proof. unfold Runs. intros H1 H2. rewrite H1 in H2. now inversion H2. Qed.

Lemma LogsVal_Logs {A : Type} (Q : Event -> bool) (m : M A) : LogsVal Q m -> Logs Q m.
Proof. intros H w. destruct (H w) as (a & evs & Hr & Hq). eauto. Qed.

Lemma LogsVal_ret {A : Type} (Q : Event -> bool) (a : A) : LogsVal Q (ret a).
Proof. intros w. exists a, []. split; [apply Runs_ret | constructor]. Qed.

Lemma Logs_ret {A : Type} (Q : Event -> bool) (a : A) : Logs Q (ret a).
Proof. apply LogsVal_Logs, LogsVal_ret. Qed.

Lemma Logs_throw {A : Type} (Q : Event -> bool) (x : Exn) : Logs Q (@throw A x).
Proof. intros w. exists (Throw x), []. split; [apply Runs_throw | constructor]. Qed.

Lemma LogsVal_inspect {A : Type} (Q : Event -> bool) (f : World -> A) :
  LogsVal Q (inspect f).
Proof. intros w. exists (f w), []. split; [apply Runs_inspect | constructor]. Qed.

Lemma LogsVal_emit (Q : Event -> bool) (e : Event) : Q e = true -> LogsVal Q (emit e).
Proof.
  intros H w. exists tt, [e]. split; [apply Runs_emit | now repeat constructor].
Qed.

Lemma Logs_bind {A B : Type} (Q : Event -> bool) (m : M A) (f : A -> M B) :
  Logs Q m -> (forall a, Logs Q (f a)) -> Logs Q (bind m f).
Proof.
  intros Hm Hf w. destruct (Hm w) as ([a|x] & e1 & Hr1 & Hq1).
  - destruct (Hf a (replay w e1)) as (r & e2 & Hr2 & Hq2).
    exists r, (e1 ++ e2). split; [eapply Runs_bind; eauto | now apply Forall_app].
  - exists (Throw x), e1. split; [now apply Runs_bind_throw | assumption].
Qed.

Lemma LogsVal_bind {A B : Type} (Q : Event -> bool) (m : M A) (f : A -> M B) :
  LogsVal Q m -> (forall a, LogsVal Q (f a)) -> LogsVal Q (bind m f).
Proof.
  intros Hm Hf w. destruct (Hm w) as (a & e1 & Hr1 & Hq1).
  destruct (Hf a (replay w e1)) as (b & e2 & Hr2 & Hq2).
  exists b, (e1 ++ e2). split; [eapply Runs_bind; eauto | now apply Forall_app].
Qed.

Lemma Logs_tryCatch {A : Type} (Q : Event -> bool) (m : M A) (h : Exn -> M A) :
  Logs Q m -> (forall x, Logs Q (h x)) -> Logs Q (tryCatch m h).
Proof.
  intros Hm Hh w. destruct (Hm w) as ([a|x] & e1 & Hr1 & Hq1).
  - exists (Val a), e1. split; [now apply Runs_try_val | assumption].
  - destruct (Hh x (replay w e1)) as (r & e2 & Hr2 & Hq2).
    exists r, (e1 ++ e2). split; [eapply Runs_try_throw; eauto | now apply Forall_app].
Qed.

Lemma LogsVal_tryCatch {A : Type} (Q : Event -> bool) (m : M A) (h : Exn -> M A) :
  Logs Q m -> (forall x, LogsVal Q (h x)) -> LogsVal Q (tryCatch m h).
Proof.
  intros Hm Hh w. destruct (Hm w) as ([a|x] & e1 & Hr1 & Hq1).
  - exists a, e1. split; [now apply Runs_try_val | assumption].
  - destruct (Hh x (replay w e1)) as (b & e2 & Hr2 & Hq2).
    exists b, (e1 ++ e2). split; [eapply Runs_try_throw; eauto | now apply Forall_app].
Qed.

Lemma Logs_guarded {A : Type} (Q : Event -> bool) (p : Path) (m : M A) :
  Logs Q m ->
  Logs Q (fun w => match lookupFile p w with
                   | Some _ => m w
                   | None => (Throw ENOENT, w, [])
                   end).
Proof.
  intros Hm w. destruct (lookupFile p w) eqn:E.
  - destruct (Hm w) as (r & evs & Hr & Hq). exists r, evs. split; auto.
    unfold Runs in *. now rewrite E.
  - exists (Throw ENOENT), []. split; [|constructor]. unfold Runs. now rewrite E.
Qed.

Lemma Logs_unlinkSync (Q : Event -> bool) (p : Path) :
  Q (EvUnlink p) = true -> Logs Q (unlinkSync p).
Proof. intros H. apply Logs_guarded, LogsVal_Logs, LogsVal_emit, H. Qed.

Lemma LogsVal_existsSync (Q : Event -> bool) (p : Path) : LogsVal Q (existsSync p).
Proof. apply LogsVal_inspect. Qed.

Lemma Logs_statMtime (Q : Event -> bool) (f : string) : Logs Q (statMtime f).
Proof.
  intros w. unfold Runs, statMtime. destruct (obj_get f (backups w)).
  - exists (Val (f, mtime f0)), []. split; [reflexivity | constructor].
  - exists (Throw ENOENT), []. split; [reflexivity | constructor].
Qed.

Lemma Logs_mapM {A B : Type} (Q : Event -> bool) (f : A -> M B) (l : list A) :
  (forall a, Logs Q (f a)) -> Logs Q (mapM f l).
Proof.
  intros Hf. induction l as [|x r IH]; simpl.
  - apply Logs_ret.
  - apply Logs_bind; [apply Hf|]. intros y.
    apply Logs_bind; [apply IH|]. intros ys. apply Logs_ret.
Qed.

Lemma Logs_forEach {A : Type} (Q : Event -> bool) (body : A -> M unit) (l : list A) :
  (forall a, Logs Q (body a)) -> Logs Q (forEach body l).
Proof.
  intros Hf. induction l as [|x r IH]; simpl.
  - apply Logs_ret.
  - apply Logs_bind; [apply Hf|]. intros _. apply IH.
Qed.

Lemma LogsVal_ensureDir (d : string) : LogsVal isMkdir (ensureDir d).
Proof.
  intros w. unfold ensureDir. destruct (hasDir d w) eqn:E.
  - exists tt, []. split; [|constructor]. unfold Runs. now rewrite E.
  - exists tt, [EvMkdir d]. split; [|now repeat constructor].
    unfold Runs. rewrite E. reflexivity.
Qed.

Section Facts.

Context {P : Platform}.

Lemma ensureDirectories_run : LogsVal isMkdir ensureDirectories.
Proof.
  unfold ensureDirectories.
  repeat (apply LogsVal_bind; [apply LogsVal_ensureDir | intros _]).
  apply LogsVal_ensureDir.
Qed.

Lemma readJsonFile_run (p : Path) (d : JsonDoc) (w : World) :
  Runs (readJsonFile p d) w (Val (readDoc p d w)) [].
Proof.
  unfold Runs, readJsonFile, readDoc, tryCatch, bind, existsSync, inspect, readFileSync.
  destruct (lookupFile p w) as [f|] eqn:E; simpl; [|reflexivity].
  rewrite E. destruct (content f); reflexivity.
Qed.

Lemma writeJsonFileAtomic_run (p : Path) (d : JsonDoc) (w : World) :
  Runs (writeJsonFileAtomic p d) w (Val tt) (atomicWrite p d).
Proof.
  unfold Runs, writeJsonFileAtomic, atomicWrite, bind, writeFileSync, renameSync, emit,
    JSON_stringify.
  simpl. now rewrite !lookup_store_same.
Qed.

Lemma cleanupOldBackups_run (base : string) : LogsVal backupOnly (cleanupOldBackups base).
Proof.
  unfold cleanupOldBackups.
  apply LogsVal_tryCatch; [|intros; apply LogsVal_ret].
  apply Logs_bind; [apply LogsVal_Logs, LogsVal_inspect | intros listing].
  apply Logs_bind; [apply Logs_mapM; intros; apply Logs_statMtime | intros stats].
  destruct (MAX_BACKUPS <? _)%nat; [|apply Logs_ret].
  apply Logs_forEach. intros file.
  apply Logs_bind; [now apply Logs_unlinkSync | intros _].
  apply Logs_bind; [apply LogsVal_Logs, LogsVal_existsSync | intros present].
  destruct present; [now apply Logs_unlinkSync | apply Logs_ret].
Qed.

Lemma Runs_copyFileSync (src dst : Path) (w : World) (f : File) :
  lookupFile src w = Some f -> Runs (copyFileSync src dst) w (Val tt) [EvCopyFile src dst].
Proof. unfold Runs, copyFileSync. now intros ->. Qed.

Lemma Runs_existsSync (p : Path) (w : World) :
  Runs (existsSync p) w
    (Val (match lookupFile p w with Some _ => true | None => false end)) [].
Proof. reflexivity. Qed.

Lemma lookup_replay_mkdir (q : Path) (evs : list Event) (w : World) :
  Forall (fun e => isMkdir e = true) evs -> lookupFile q (replay w evs) = lookupFile q w.
Proof.
  intros H. apply lookup_replay_untouched.
  eapply Forall_impl; [|exact H]. intros [] He; try discriminate. simpl. tauto.
Qed.

Lemma Forall_mkdir_backupOnly (evs : list Event) :
  Forall (fun e => isMkdir e = true) evs -> Forall (fun e => backupOnly e = true) evs.
Proof. apply Forall_impl. intros e. apply isMkdir_backupOnly. Qed.

(** [createBackup] never throws, changes the backups directory alone, and
    when the file exists its first change of a file is the copy. *)
Lemma createBackup_run (p : Path) (d : option string) (w : World) :
  exists r evs,
    Runs (createBackup p d) w (Val r) evs
    /\ Forall (fun e => backupOnly e = true) evs
    /\ snapshotLeads p w evs.
Proof.
  unfold createBackup, snapshotLeads, snapshotEvent. destruct (lookupFile p w) as [f|] eqn:E.
  - destruct (ensureDirectories_run w) as ([] & mk & Hmk & Hq).
    set (copy := EvCopyFile p (InBackups (backupName p (now w)))).
    set (metaPath := pathAppend (InBackups (backupName p (now w))) ".meta.json").
    set (meta := JSON_stringify
                   (MetaDoc (mkMeta p (toISOString (now w)) (describe d)))).
    destruct (cleanupOldBackups_run (basename p)
                (replay (replay (replay w mk) [copy]) [EvWriteFile metaPath meta]))
      as ([] & cl & Hcl & Hqcl).
    exists (Some (InBackups (backupName p (now w)))),
      (mk ++ copy :: EvWriteFile metaPath meta :: cl).
    split; [|split].
    + replace (mk ++ copy :: EvWriteFile metaPath meta :: cl)
        with ([] ++ mk ++ [] ++ [copy] ++ [] ++ [EvWriteFile metaPath meta] ++ cl ++ [])
        by (simpl; now rewrite app_nil_r).
      eapply Runs_bind; [apply Runs_existsSync|]. rewrite E. cbn [negb].
      eapply Runs_bind; [exact Hmk|].
      eapply Runs_bind; [apply Runs_inspect|]. rewrite ?replay_nil, now_replay.
      eapply Runs_bind.
      { eapply Runs_copyFileSync. rewrite ?replay_nil.
        rewrite lookup_replay_mkdir by assumption. exact E. }
      eapply Runs_bind; [apply Runs_inspect|]. rewrite !now_replay.
      eapply Runs_bind; [apply Runs_emit|].
      eapply Runs_bind; [exact Hcl|].
      apply Runs_ret.
    + apply Forall_app. split; [now apply Forall_mkdir_backupOnly|].
      repeat (constructor; [reflexivity|]). assumption.
    + exists mk, (EvWriteFile metaPath meta :: cl). split; [reflexivity | assumption].
  - exists None, []. split; [|split; constructor].
    change (@nil Event) with (@nil Event ++ []).
    eapply Runs_bind; [apply Runs_existsSync|]. rewrite E. apply Runs_ret.
Qed.

Ltac tidy := simpl; rewrite ?app_nil_r; rewrite <- ?app_assoc; simpl; reflexivity.

Lemma Runs_eq {A : Type} (m : M A) (w : World) (r : Res A) (e e' : list Event) :
  Runs m w r e -> e = e' -> Runs m w r e'.
Proof. now intros H <-. Qed.

Lemma readDoc_replay_backupOnly (s : string) (d : JsonDoc) (evs : list Event) (w : World) :
  Forall (fun e => backupOnly e = true) evs ->
  readDoc (Abs s) d (replay w evs) = readDoc (Abs s) d w.
Proof. intros H. apply readDoc_congr. now apply lookup_replay_backupOnly. Qed.

Lemma disableCommit_run (store : string) (desc key : string)
  (entryAt : nat -> DisabledMCPEntry) (newDoc : JsonDoc) (w : World) :
  exists pre,
    Forall (fun e => backupOnly e = true) pre
    /\ snapshotLeads (Abs store) w pre
    /\ match doc_disabled (readDoc MCP_DISABLED_PATH disabledDefault w) with
       | None =>
           Runs (disableCommit (Abs store) desc key entryAt (ret newDoc)) w
             (Throw TypeError) pre
       | Some o =>
           Runs (disableCommit (Abs store) desc key entryAt (ret newDoc)) w (Val Success)
             (pre
              ++ atomicWrite MCP_DISABLED_PATH
                   (withDisabled (readDoc MCP_DISABLED_PATH disabledDefault w)
                      (obj_set key (entryAt (now w)) o))
              ++ atomicWrite (Abs store) newDoc)
       end.
Proof.
  destruct (createBackup_run (Abs store) (Some desc) w) as (r & pre & Hrun & Hq & Hs).
  exists pre. split; [assumption|]. split; [exact Hs|].
  pose proof (readDoc_replay_backupOnly _ disabledDefault pre w Hq
              : readDoc MCP_DISABLED_PATH disabledDefault (replay w pre)
                = readDoc MCP_DISABLED_PATH disabledDefault w) as Hd.
  unfold disableCommit.
  destruct (doc_disabled (readDoc MCP_DISABLED_PATH disabledDefault w)) as [o|] eqn:E.
  - eapply Runs_eq.
    + eapply Runs_bind; [exact Hrun|].
      eapply Runs_bind; [apply readJsonFile_run|]. rewrite ?replay_nil, Hd.
      eapply Runs_bind; [apply Runs_inspect|]. rewrite ?replay_nil, now_replay.
      unfold archivePut. rewrite E.
      eapply Runs_bind; [apply Runs_ret|].
      eapply Runs_bind; [apply writeJsonFileAtomic_run|].
      eapply Runs_bind; [apply Runs_ret|].
      eapply Runs_bind; [apply writeJsonFileAtomic_run|].
      apply Runs_ret.
    + tidy.
  - eapply Runs_eq.
    + eapply Runs_bind; [exact Hrun|].
      eapply Runs_bind; [apply readJsonFile_run|]. rewrite ?replay_nil, Hd.
      eapply Runs_bind; [apply Runs_inspect|]. rewrite ?replay_nil.
      unfold archivePut. rewrite E.
      apply Runs_bind_throw, Runs_throw.
    + tidy.
Qed.

Lemma enableCommit_run (store : string) (desc : string) (newDoc disabledJson : JsonDoc)
  (key : string) (o : Obj DisabledMCPEntry) (w : World) :
  doc_disabled disabledJson = Some o ->
  exists pre,
    Forall (fun e => backupOnly e = true) pre
    /\ snapshotLeads (Abs store) w pre
    /\ Runs (enableCommit (Abs store) desc newDoc disabledJson key) w (Val Success)
         (pre
          ++ atomicWrite (Abs store) newDoc
          ++ atomicWrite MCP_DISABLED_PATH (withDisabled disabledJson (obj_delete key o))).
Proof.
  intros E.
  destruct (createBackup_run (Abs store) (Some desc) w) as (r & pre & Hrun & Hq & Hs).
  exists pre. split; [assumption|]. split; [exact Hs|].
  unfold enableCommit. eapply Runs_eq.
  - eapply Runs_bind; [exact Hrun|].
    eapply Runs_bind; [apply writeJsonFileAtomic_run|].
    unfold archiveRemove. rewrite E.
    eapply Runs_bind; [apply Runs_ret|].
    eapply Runs_bind; [apply writeJsonFileAtomic_run|].
    apply Runs_ret.
  - tidy.
Qed.

Lemma deleteCommit_run (store : string) (desc : string) (newDoc : JsonDoc) (w : World) :
  exists pre,
    Forall (fun e => backupOnly e = true) pre
    /\ snapshotLeads (Abs store) w pre
    /\ Runs (deleteCommit (Abs store) desc (ret newDoc)) w (Val Success)
         (pre ++ atomicWrite (Abs store) newDoc).
Proof.
  destruct (createBackup_run (Abs store) (Some desc) w) as (r & pre & Hrun & Hq & Hs).
  exists pre. split; [assumption|]. split; [exact Hs|].
  unfold deleteCommit. eapply Runs_eq.
  - eapply Runs_bind; [exact Hrun|].
    eapply Runs_bind; [apply Runs_ret|].
    eapply Runs_bind; [apply writeJsonFileAtomic_run|].
    apply Runs_ret.
  - tidy.
Qed.

Lemma readDoc_replay_mkdir (q : Path) (d : JsonDoc) (mk : list Event) (w : World) :
  Forall (fun e => isMkdir e = true) mk -> readDoc q d (replay w mk) = readDoc q d w.
Proof. intros H. apply readDoc_congr. now apply lookup_replay_mkdir. Qed.

Lemma snapshotLeads_after_mkdir (target : Path) (mk0 pre : list Event) (w : World) :
  Forall (fun e => isMkdir e = true) mk0 ->
  snapshotLeads target (replay w mk0) pre ->
  snapshotLeads target w (mk0 ++ pre).
Proof.
  unfold snapshotLeads, snapshotEvent. intros Hmk.
  rewrite lookup_replay_mkdir, now_replay by assumption.
  destruct (lookupFile target w).
  - intros (mk & rest & -> & Hq). exists (mk0 ++ mk), rest.
    split; [now rewrite app_assoc | now apply Forall_app].
  - intros H. now apply Forall_app.
Qed.

(** A live payload is read from an existing file. *)
Lemma activeConfig_file (w : World) (s : Source) (pp : option string) (name : string)
  (cfg : MCPConfig) :
  activeConfig w s pp name = Some cfg -> lookupFile (sourcePath s) w <> None.
Proof.
  unfold activeConfig, readDoc. intros H E. rewrite E in H.
  destruct s; simpl in H; try discriminate.
  destruct (truthy pp); discriminate.
Qed.

(** *** [disableMcp] *)

Ltac after_mkdirs Hq0 :=
  rewrite ?replay_nil;
  repeat rewrite (readDoc_replay_mkdir _ _ _ _ Hq0);
  rewrite ?now_replay.

Ltac finish_disable Hmk0 Hq0 Hrun tac :=
  match goal with
  | |- Runs _ _ (Val Success) _ =>
      eapply Runs_eq;
      [ unfold disableMcp; apply Runs_try_val;
        eapply Runs_bind; [exact Hmk0|];
        tac;
        eapply Runs_bind; [apply readJsonFile_run|];
        after_mkdirs Hq0; tac; exact Hrun
      | tidy ]
  | |- Runs _ _ (Val (Failure _)) _ =>
      eapply Runs_eq;
      [ unfold disableMcp; eapply Runs_try_throw; [|apply Runs_ret];
        eapply Runs_bind; [exact Hmk0|];
        tac;
        eapply Runs_bind; [apply readJsonFile_run|];
        after_mkdirs Hq0; tac; exact Hrun
      | tidy ]
  end.

Lemma disableMcp_found (name : string) (s : Source) (pp : option string) (w : World)
  (cfg : MCPConfig) :
  activeConfig w s pp name = Some cfg ->
  exists pre,
    Forall (fun e => backupOnly e = true) pre
    /\ snapshotLeads (sourcePath s) w pre
    /\ match doc_disabled (readDoc MCP_DISABLED_PATH disabledDefault w) with
       | None =>
           Runs (disableMcp name s pp) w (Val (Failure (Exception TypeError))) pre
       | Some o =>
           Runs (disableMcp name s pp) w (Val Success)
             (pre ++ disableEvents s pp name cfg o w)
       end.
Proof.
  intros Hfound.
  destruct (ensureDirectories_run w) as ([] & mk0 & Hmk0 & Hq0).
  unfold activeConfig in Hfound.
  destruct s; simpl in Hfound.
  - (* user *)
    destruct (doc_mcpServers (readDoc CLAUDE_JSON_PATH emptyDoc w)) as [o'|] eqn:Eo;
      [|discriminate].
    destruct (disableCommit_run "~/.claude.json" ("Before disabling MCP: " +++ name)
                ("user:" +++ name) (archiveEntry cfg user None)
                (withServers (readDoc CLAUDE_JSON_PATH emptyDoc w) (obj_delete name o'))
                (replay w mk0))
      as (pre & Hq & Hs & Hrun).
    revert Hrun. after_mkdirs Hq0. intros Hrun.
    exists (mk0 ++ pre). split; [|split].
    + apply Forall_app. split; [now apply Forall_mkdir_backupOnly | assumption].
    + now apply snapshotLeads_after_mkdir.
    + unfold disableEvents, docWithout, archiveKey, entryProject, sourcePath, sourceDefault.
      rewrite Eo. cbn [orEmpty].
      destruct (doc_disabled (readDoc MCP_DISABLED_PATH disabledDefault w)) eqn:Ed;
        finish_disable Hmk0 Hq0 Hrun
          ltac:(unfold removeServer; rewrite ?Eo, ?Hfound).
  - (* local *)
    destruct pp as [project|]; simpl in Hfound; [|discriminate].
    destruct (isEmptyString project) eqn:Ee; simpl in Hfound; [discriminate|].
    unfold projectServers in Hfound.
    destruct (doc_projects (readDoc CLAUDE_JSON_PATH emptyDoc w)) as [ps|] eqn:Ep;
      [|discriminate].
    destruct (obj_get project ps) as [pc|] eqn:Eg; [|discriminate].
    destruct (project_mcpServers pc) as [o'|] eqn:Em; [|discriminate].
    destruct (disableCommit_run "~/.claude.json" ("Before disabling local MCP: " +++ name)
                ("local:" +++ project +++ ":" +++ name)
                (archiveEntry cfg local (Some project))
                (withProjects (readDoc CLAUDE_JSON_PATH emptyDoc w)
                   (obj_set project (mkProject (Some (obj_delete name o'))) ps))
                (replay w mk0))
      as (pre & Hq & Hs & Hrun).
    revert Hrun. after_mkdirs Hq0. intros Hrun.
    exists (mk0 ++ pre). split; [|split].
    + apply Forall_app. split; [now apply Forall_mkdir_backupOnly | assumption].
    + now apply snapshotLeads_after_mkdir.
    + unfold disableEvents, docWithout, archiveKey, entryProject, sourcePath, sourceDefault.
      cbn [interpolate]. rewrite Ep, Eg, Em.
      destruct (doc_disabled (readDoc MCP_DISABLED_PATH disabledDefault w)) eqn:Ed;
        finish_disable Hmk0 Hq0 Hrun
          ltac:(unfold removeProjectServer, projectServers;
                rewrite ?Ee, ?Ep, ?Eg, ?Em, ?Hfound).
  - (* mcp.json *)
    destruct (doc_mcpServers (readDoc MCP_JSON_PATH mcpJsonDefault w)) as [o'|] eqn:Eo;
      [|discriminate].
    destruct (disableCommit_run "~/.claude/mcp.json" ("Before disabling MCP: " +++ name)
                ("mcpjson:" +++ name) (archiveEntry cfg mcp_json None)
                (withServers (readDoc MCP_JSON_PATH mcpJsonDefault w) (obj_delete name o'))
                (replay w mk0))
      as (pre & Hq & Hs & Hrun).
    revert Hrun. after_mkdirs Hq0. intros Hrun.
    exists (mk0 ++ pre). split; [|split].
    + apply Forall_app. split; [now apply Forall_mkdir_backupOnly | assumption].
    + now apply snapshotLeads_after_mkdir.
    + unfold disableEvents, docWithout, archiveKey, entryProject, sourcePath, sourceDefault.
      rewrite Eo. cbn [orEmpty].
      destruct (doc_disabled (readDoc MCP_DISABLED_PATH disabledDefault w)) eqn:Ed;
        finish_disable Hmk0 Hq0 Hrun
          ltac:(unfold removeServer; rewrite ?Eo, ?Hfound).
Qed.


(** *** [enableMcp] *)

Lemma archived_inv (w : World) (key : string) (entry : DisabledMCPEntry) :
  archived w key = Some entry ->
  exists o,
    doc_disabled (readDoc MCP_DISABLED_PATH disabledDefault w) = Some o
    /\ obj_get key o = Some entry.
Proof.
  unfold archived.
  destruct (doc_disabled (readDoc MCP_DISABLED_PATH disabledDefault w)) as [o|];
    [|discriminate].
  intros H. now exists o.
Qed.

Lemma lookup_orEmpty (servers : option (Obj MCPConfig)) (name : string) :
  obj_get name (orEmpty servers) = lookupServer servers name.
Proof. destruct servers; reflexivity. Qed.

Lemma lookup_projectServersOrEmpty (d : JsonDoc) (project name : string) :
  obj_get name (projectServersOrEmpty d project)
  = lookupServer (projectServers d project) name.
Proof.
  unfold projectServersOrEmpty, projectServers.
  destruct (doc_projects d) as [ps|]; simpl; [|reflexivity].
  destruct (obj_get project ps) as [pc|]; [|reflexivity].
  destruct (project_mcpServers pc); reflexivity.
Qed.

Ltac enable_prefix Hmk0 Hq0 Ed Hget :=
  unfold enableMcp;
  eapply Runs_bind; [exact Hmk0|];
  eapply Runs_bind; [apply readJsonFile_run|];
  after_mkdirs Hq0; unfold archiveGet; rewrite Ed;
  eapply Runs_bind; [apply Runs_ret|];
  rewrite Hget.




Ltac finish_enable Hmk0 Hq0 Ed Hget Hrun tac :=
  eapply Runs_eq;
  [ apply Runs_try_val; enable_prefix Hmk0 Hq0 Ed Hget; tac;
    eapply Runs_bind; [apply readJsonFile_run|];
    after_mkdirs Hq0; tac; exact Hrun
  | tidy ].

Lemma enableMcp_restores (key : string) (entry : DisabledMCPEntry) (w : World) :
  archived w key = Some entry ->
  destinationOk w entry = true ->
  activeConfig w (entry_source entry) (entry_projectPath entry) (restoredName key entry)
  = None ->
  exists pre o,
    doc_disabled (readDoc MCP_DISABLED_PATH disabledDefault w) = Some o
    /\ Forall (fun e => backupOnly e = true) pre
    /\ snapshotLeads (sourcePath (entry_source entry)) w pre
    /\ Runs (enableMcp key) w (Val Success) (pre ++ enableEvents key entry o w).
Proof.
  intros Harch Hok Hfree.
  destruct (archived_inv _ _ _ Harch) as (o & Ed & Hget).
  destruct (ensureDirectories_run w) as ([] & mk0 & Hmk0 & Hq0).
  unfold enableEvents. unfold activeConfig, restoredName, destinationOk in *.
  destruct (entry_source entry) eqn:Es; simpl in Hfree;
    unfold docWith, sourcePath, sourceDefault.
  - destruct (enableCommit_run "~/.claude.json"
                ("Before enabling MCP: " +++ removeFirst "user:" key)
                (withServers (readDoc CLAUDE_JSON_PATH emptyDoc w)
                   (obj_set (removeFirst "user:" key) (entry_config entry)
                      (orEmpty (doc_mcpServers (readDoc CLAUDE_JSON_PATH emptyDoc w)))))
                (readDoc MCP_DISABLED_PATH disabledDefault w) key o (replay w mk0) Ed)
      as (pre & Hq & Hs & Hrun).
    exists (mk0 ++ pre), o. split; [assumption|]. split; [|split].
    + apply Forall_app. split; [now apply Forall_mkdir_backupOnly | assumption].
    + now apply snapshotLeads_after_mkdir.
    + finish_enable Hmk0 Hq0 Ed Hget Hrun ltac:(rewrite ?Es, ?lookup_orEmpty, ?Hfree).
  - rewrite Hok in Hfree.
    destruct (enableCommit_run "~/.claude.json"
                ("Before enabling local MCP: " +++ lastSegment key)
                (withProjects (readDoc CLAUDE_JSON_PATH emptyDoc w)
                   (obj_set (interpolate (entry_projectPath entry))
                      (mkProject
                         (Some (obj_set (lastSegment key) (entry_config entry)
                                  (projectServersOrEmpty
                                     (readDoc CLAUDE_JSON_PATH emptyDoc w)
                                     (interpolate (entry_projectPath entry))))))
                      (orEmpty (doc_projects (readDoc CLAUDE_JSON_PATH emptyDoc w)))))
                (readDoc MCP_DISABLED_PATH disabledDefault w) key o (replay w mk0) Ed)
      as (pre & Hq & Hs & Hrun).
    exists (mk0 ++ pre), o. split; [assumption|]. split; [|split].
    + apply Forall_app. split; [now apply Forall_mkdir_backupOnly | assumption].
    + now apply snapshotLeads_after_mkdir.
    + finish_enable Hmk0 Hq0 Ed Hget Hrun
        ltac:(rewrite ?Es, ?Hok, ?lookup_projectServersOrEmpty, ?Hfree).
  - destruct (doc_mcpServers (readDoc MCP_JSON_PATH mcpJsonDefault w)) as [srv|] eqn:Em;
      [|discriminate].
    simpl in Hfree.
    destruct (enableCommit_run "~/.claude/mcp.json"
                ("Before enabling MCP: " +++ removeFirst "mcpjson:" key)
                (withServers (readDoc MCP_JSON_PATH mcpJsonDefault w)
                   (obj_set (removeFirst "mcpjson:" key) (entry_config entry) srv))
                (readDoc MCP_DISABLED_PATH disabledDefault w) key o (replay w mk0) Ed)
      as (pre & Hq & Hs & Hrun).
    exists (mk0 ++ pre), o. split; [assumption|]. split; [|split].
    + apply Forall_app. split; [now apply Forall_mkdir_backupOnly | assumption].
    + now apply snapshotLeads_after_mkdir.
    + cbn [orEmpty].
      finish_enable Hmk0 Hq0 Ed Hget Hrun ltac:(rewrite ?Es, ?Em, ?Hfree).
Qed.

(** *** The disk between the two atomic writes of a move *)

Lemma Abs_neq (a b : string) : a <> b -> Abs a <> Abs b.
Proof. congruence. Qed.

Lemma rename_after_write (p q : Path) (c : Content) (w : World) :
  apply_event (EvRename p q) (apply_event (EvWriteFile p c) w)
  = storeFile q (mkFile c (now w)) (removeFile p (storeFile p (mkFile c (now w)) w)).
Proof. simpl. now rewrite lookup_store_same. Qed.

Lemma atomicWrite_lookup_same (p : Path) (d : JsonDoc) (w : World) :
  lookupFile p (replay w (atomicWrite p d))
  = Some (mkFile (JsonText (ConfigDoc d)) (now w)).
Proof.
  unfold atomicWrite. cbn [replay fold_left]. rewrite rename_after_write.
  apply lookup_store_same.
Qed.

Lemma atomicWrite_lookup_other (p q : Path) (d : JsonDoc) (w : World) :
  q <> p -> q <> pathAppend p ".tmp" ->
  lookupFile q (replay w (atomicWrite p d)) = lookupFile q w.
Proof.
  intros H1 H2. apply lookup_replay_untouched. unfold atomicWrite.
  repeat constructor; simpl; intuition congruence.
Qed.

Lemma readDoc_written (p : Path) (d def : JsonDoc) (t : nat) (w : World) :
  lookupFile p w = Some (mkFile (JsonText (ConfigDoc d)) t) -> readDoc p def w = d.
Proof. unfold readDoc. now intros ->. Qed.

(** The states reached while [a] and then [b] are written atomically. *)
Lemma atomic_pair_states (a b : string) (da db : JsonDoc) (w0 : World) (j : nat) :
  a <> b -> a <> b +++ ".tmp" -> b <> a +++ ".tmp" ->
  let st := replay w0 (firstn j (atomicWrite (Abs a) da ++ atomicWrite (Abs b) db)) in
  (j < 2 -> lookupFile (Abs a) st = lookupFile (Abs a) w0)
  /\ (2 <= j -> forall def, readDoc (Abs a) def st = da)
  /\ (j < 4 -> lookupFile (Abs b) st = lookupFile (Abs b) w0)
  /\ (4 <= j -> forall def, readDoc (Abs b) def st = db).
Proof.
  intros Hab Habt Hbat st.
  assert (Haat : a <> a +++ ".tmp") by (apply append_neq_self; discriminate).
  assert (Hbbt : b <> b +++ ".tmp") by (apply append_neq_self; discriminate).
  assert (Ha2 : lookupFile (Abs a) (replay w0 (atomicWrite (Abs a) da))
                = Some (mkFile (JsonText (ConfigDoc da)) (now w0)))
    by apply atomicWrite_lookup_same.
  assert (Hb2 : lookupFile (Abs b) (replay w0 (atomicWrite (Abs a) da))
                = lookupFile (Abs b) w0)
    by (apply atomicWrite_lookup_other; simpl; congruence).
  destruct j as [|[|[|[|j]]]]; subst st.
  - repeat split; intros; try lia; reflexivity.
  - cbn [firstn app atomicWrite replay fold_left].
    repeat split; intros; try lia;
      apply lookup_apply_untouched; simpl; intuition congruence.
  - change (firstn 2 (atomicWrite (Abs a) da ++ atomicWrite (Abs b) db))
      with (atomicWrite (Abs a) da).
    repeat split; intros; try lia; [eapply readDoc_written; eauto | assumption].
  - change (firstn 3 (atomicWrite (Abs a) da ++ atomicWrite (Abs b) db))
      with (atomicWrite (Abs a) da
            ++ [EvWriteFile (pathAppend (Abs b) ".tmp") (JsonText (ConfigDoc db))]).
    rewrite replay_app. cbn [replay fold_left].
    repeat split; intros; try lia.
    + eapply readDoc_written. rewrite lookup_apply_untouched; [exact Ha2|].
      simpl. intuition congruence.
    + rewrite lookup_apply_untouched; [exact Hb2|]. simpl. intuition congruence.
  - rewrite firstn_all2 by (simpl; lia).
    rewrite replay_app.
    repeat split; intros; try lia.
    + eapply readDoc_written. rewrite atomicWrite_lookup_other; [exact Ha2| |];
        simpl; congruence.
    + eapply readDoc_written. apply atomicWrite_lookup_same.
Qed.

Lemma Forall_firstn {A : Type} (Q : A -> Prop) (k : nat) (l : list A) :
  Forall Q l -> Forall Q (firstn k l).
Proof.
  revert k. induction l as [|x r IH]; intros [|k] H; simpl; try constructor.
  - now inversion H.
  - apply IH. now inversion H.
Qed.


(** The states of a move: [a] written atomically, then [b], after events
    that only concern the backups directory. *)
Lemma move_states (a b : string) (da db : JsonDoc) (pre : list Event) (w : World)
  (k : nat) :
  a <> b -> a <> b +++ ".tmp" -> b <> a +++ ".tmp" ->
  Forall (fun e => backupOnly e = true) pre ->
  let st := stateAfter k w (pre ++ atomicWrite (Abs a) da ++ atomicWrite (Abs b) db) in
  (k < List.length pre + 2 -> lookupFile (Abs a) st = lookupFile (Abs a) w)
  /\ (List.length pre + 2 <= k -> forall def, readDoc (Abs a) def st = da)
  /\ (k < List.length pre + 4 -> lookupFile (Abs b) st = lookupFile (Abs b) w)
  /\ (List.length pre + 4 <= k -> forall def, readDoc (Abs b) def st = db).
Proof.
  intros Hab Habt Hbat Hq st. subst st. unfold stateAfter.
  rewrite firstn_app, replay_app.
  destruct (atomic_pair_states a b da db (replay w (firstn k pre))
              (k - List.length pre) Hab Habt Hbat) as (H1 & H2 & H3 & H4).
  assert (Hpre : forall s, lookupFile (Abs s) (replay w (firstn k pre))
                           = lookupFile (Abs s) w).
  { intros s. apply lookup_replay_backupOnly. now apply Forall_firstn. }
  repeat split; intros.
  - rewrite H1 by lia. apply Hpre.
  - apply H2. lia.
  - rewrite H3 by lia. apply Hpre.
  - apply H4. lia.
Qed.






Lemma Runs_events {A : Type} (m : M A) (w : World) (r : Res A) (evs : list Event) :
  Runs m w r evs -> events (m w) = evs /\ value (m w) = r /\ final (m w) = replay w evs.
Proof. unfold Runs. intros ->. auto. Qed.





(** ** C7: [readJsonFile] *)

(** C7 (as the code has it).  [readJsonFile] never fails: it returns the
    default when the file is absent and also when its content does not
    parse, the parsed document otherwise, and it changes nothing. *)
Theorem readJsonFile_never_fails (filePath : Path) (defaultValue : JsonDoc) (w : World) :
  value (readJsonFile filePath defaultValue w)
  = Val (match lookupFile filePath w with
         | None => defaultValue
         | Some f =>
             match content f with
             | Text _ => defaultValue
             | JsonText v => asConfig v
             end
         end)
  /\ final (readJsonFile filePath defaultValue w) = w
  /\ events (readJsonFile filePath defaultValue w) = [].
Proof.
  destruct (Runs_events _ _ _ _ (readJsonFile_run filePath defaultValue w))
    as (-> & -> & ->).
  repeat split.
Qed.

(** ** C10: loading is read-only *)

(** C10.  [loadMCPs] returns a list, performs no file-system event and
    leaves the disk as it found it, so a second load returns the same list. *)
Theorem loadMCPs_read_only (w : World) :
  (exists mcps, value (loadMCPs w) = Val mcps)
  /\ events (loadMCPs w) = []
  /\ final (loadMCPs w) = w
  /\ value (loadMCPs (final (loadMCPs w))) = value (loadMCPs w).
Proof.
  assert (Hrun : Runs loadMCPs w
                   (Val (sortBy compareServers
                           (obj_values
                              (mcpMapOf (readDoc CLAUDE_JSON_PATH emptyDoc w)
                                 (readDoc MCP_JSON_PATH mcpJsonDefault w)
                                 (readDoc MCP_DISABLED_PATH disabledDefault w))))) []).
  { unfold loadMCPs.
    eapply Runs_eq.
    - eapply Runs_bind; [apply readJsonFile_run|].
      eapply Runs_bind; [apply readJsonFile_run|].
      eapply Runs_bind; [apply readJsonFile_run|].
      apply Runs_ret.
    - reflexivity. }
  destruct (Runs_events _ _ _ _ Hrun) as (He & Hv & Hf).
  rewrite Hf, He, Hv. simpl. repeat split; eauto.
Qed.

(** ** C4: one entry per name across the user level and [mcp.json] *)

Lemma obj_get_none_keys {A : Type} (k : string) (o : Obj A) :
  obj_get k o = None <-> ~ In k (obj_keys o).
Proof.
  induction o as [|[k' v] r IH]; simpl; [tauto|].
  destruct (String.eqb_spec k k') as [->|Hne].
  - split; [discriminate | intros H; exfalso; apply H; now left].
  - rewrite IH. split; intros H; [intros [E|E]; [congruence | now apply H] | tauto].
Qed.

Lemma obj_get_In {A : Type} (k : string) (v : A) (o : Obj A) :
  obj_get k o = Some v -> In (k, v) o.
Proof.
  induction o as [|[k' v'] r IH]; simpl; [discriminate|].
  destruct (String.eqb_spec k k') as [->|Hne].
  - intros [= ->]. now left.
  - intros H. right. now apply IH.
Qed.

Lemma obj_keys_set {A : Type} (k : string) (v : A) (o : Obj A) :
  obj_keys (obj_set k v o)
  = if obj_has k o then obj_keys o else obj_keys o ++ [k].
Proof.
  unfold obj_has. induction o as [|[k' v'] r IH]; simpl; [reflexivity|].
  destruct (String.eqb k k') eqn:E; simpl; [reflexivity|].
  rewrite IH. now destruct (obj_get k r).
Qed.

Lemma obj_set_NoDup {A : Type} (k : string) (v : A) (o : Obj A) :
  NoDup (obj_keys o) -> NoDup (obj_keys (obj_set k v o)).
Proof.
  intros H. rewrite obj_keys_set. unfold obj_has.
  destruct (obj_get k o) eqn:E; [assumption|].
  apply obj_get_none_keys in E.
  apply NoDup_app; [assumption | repeat constructor; simpl; tauto |].
  intros x Hx [<-|[]]. now apply E.
Qed.

Lemma obj_set_In {A : Type} (k k' : string) (v v' : A) (o : Obj A) :
  In (k', v') (obj_set k v o) -> (k', v') = (k, v) \/ In (k', v') o.
Proof.
  induction o as [|[k0 v0] r IH]; simpl.
  - intros [H|[]]. now left.
  - destruct (String.eqb_spec k k0) as [->|Hne]; simpl.
    + intros [H|H]; [now left | right; now right].
    + intros [H|H]; [right; now left|]. destruct (IH H); [now left | right; now right].
Qed.

Lemma mapOk_set (k : string) (v : MCPServer) (m : Obj MCPServer) :
  mapOk m -> keyFits k v -> mapOk (obj_set k v m).
Proof.
  intros [Hnd Hfit] Hkv. split; [now apply obj_set_NoDup|].
  intros k' v' Hin. destruct (obj_set_In _ _ _ _ _ Hin) as [[= -> ->]|H]; auto.
Qed.

Lemma mapOk_fold {X : Type} (step : Obj MCPServer -> X -> Obj MCPServer)
  (items : list X) (m : Obj MCPServer) :
  (forall m x, mapOk m -> mapOk (step m x)) -> mapOk m -> mapOk (fold_left step items m).
Proof.
  intros Hstep. revert m. induction items as [|x r IH]; simpl; auto.
Qed.

Lemma keyFits_disabled (k : string) (e : DisabledMCPEntry) :
  keyFits (disabledMapKey k e) (disabledServer k e).
Proof.
  unfold keyFits, disabledMapKey. simpl.
  destruct (entry_source e); exact (prefix_append "disabled:" _).
Qed.

Lemma mapOk_mcpMapOf (claudeJson mcpJson disabledJson : JsonDoc) :
  mapOk (mcpMapOf claudeJson mcpJson disabledJson).
Proof.
  unfold mcpMapOf, addDisabledServers, addMcpJsonServers, addLocalServers, addUserServers.
  apply mapOk_fold.
  { intros m x Hm. apply mapOk_set; [assumption | apply keyFits_disabled]. }
  assert (H3 : forall m, mapOk m ->
            mapOk match doc_mcpServers mcpJson with
                  | Some o =>
                      fold_left
                        (fun m kv =>
                           if negb (obj_has ("user:" +++ fst kv) m)
                           then obj_set ("mcpjson:" +++ fst kv)
                                  (mcpJsonServer (fst kv) (snd kv)) m
                           else m) o m
                  | None => m
                  end).
  { intros m Hm. destruct (doc_mcpServers mcpJson); [|assumption].
    apply mapOk_fold; [|assumption]. intros m' x Hm'.
    destruct (negb _); [|assumption]. apply mapOk_set; [assumption | reflexivity]. }
  apply H3.
  assert (H2 : forall m, mapOk m ->
            mapOk match doc_projects claudeJson with
                  | Some ps =>
                      fold_left (fun m pc => addProjectServers (fst pc) (snd pc) m) ps m
                  | None => m
                  end).
  { intros m Hm. destruct (doc_projects claudeJson); [|assumption].
    apply mapOk_fold; [|assumption]. intros m' x Hm'. unfold addProjectServers.
    destruct (project_mcpServers (snd x)); [|assumption].
    apply mapOk_fold; [|assumption]. intros m'' y Hm''.
    apply mapOk_set; [assumption | exact (prefix_append "local:" _)]. }
  apply H2.
  destruct (doc_mcpServers claudeJson).
  - apply mapOk_fold.
    + intros m x Hm. apply mapOk_set; [assumption | reflexivity].
    + split; [constructor | intros k v []].
  - split; [constructor | intros k v []].
Qed.

(** Setting keys other than [K] leaves the entry at [K] alone. *)
Lemma fold_set_preserves {X : Type} (K : string) (keyOf : X -> string)
  (valOf : X -> MCPServer) (cond : X -> Obj MCPServer -> bool) (items : list X)
  (m : Obj MCPServer) :
  (forall x, In x items -> keyOf x <> K) ->
  obj_get K
    (fold_left (fun m x => if cond x m then obj_set (keyOf x) (valOf x) m else m) items m)
  = obj_get K m.
Proof.
  revert m. induction items as [|x r IH]; intros m H; simpl; [reflexivity|].
  rewrite IH by (intros y Hy; apply H; now right).
  destruct (cond x m); [|reflexivity].
  apply obj_get_set_other. intros E. apply (H x); [now left | now symmetry].
Qed.

Lemma append_inj_l (a b c : string) : a +++ b = a +++ c -> b = c.
Proof. induction a as [|x a IH]; simpl; [auto | intros [= H]; auto]. Qed.

Lemma addUserServers_get (o : Obj MCPConfig) (name : string) (c : MCPConfig)
  (m : Obj MCPServer) :
  NoDup (obj_keys o) -> obj_get name o = Some c ->
  obj_get ("user:" +++ name) (addUserServers (Some o) m) = Some (userServer name c).
Proof.
  unfold addUserServers. revert m. induction o as [|[k v] r IH]; intros m Hnd Hget.
  - discriminate.
  - simpl in *. inversion Hnd as [|? ? Hk Hr]; subst.
    destruct (String.eqb_spec name k) as [->|Hne].
    + injection Hget as ->.
      rewrite (fold_set_preserves ("user:" +++ k) (fun kv => "user:" +++ fst kv)
                 (fun kv => userServer (fst kv) (snd kv)) (fun _ _ => true)).
      * apply obj_get_set_same.
      * intros [k' v'] Hin E. apply append_inj_l in E. simpl in E. subst.
        apply Hk. apply (in_map fst) in Hin. exact Hin.
    + now apply IH.
Qed.

Lemma fold_set_preserves_prefix {X : Type} (pre K : string) (keyOf : X -> string)
  (valOf : X -> MCPServer) (cond : X -> Obj MCPServer -> bool) (items : list X)
  (m : Obj MCPServer) :
  String.prefix pre K = false ->
  (forall x, String.prefix pre (keyOf x) = true) ->
  obj_get K
    (fold_left (fun m x => if cond x m then obj_set (keyOf x) (valOf x) m else m) items m)
  = obj_get K m.
Proof.
  intros HK Hkeys. apply fold_set_preserves.
  intros x _ E. rewrite <- E, Hkeys in HK. discriminate.
Qed.

Lemma addLocalServers_get (K : string) (projects : option (Obj ProjectConfig))
  (m : Obj MCPServer) :
  String.prefix "local:" K = false ->
  obj_get K (addLocalServers projects m) = obj_get K m.
Proof.
  intros HK. unfold addLocalServers. destruct projects as [ps|]; [|reflexivity].
  revert m. induction ps as [|[p pc] r IH]; intros m; simpl; [reflexivity|].
  rewrite IH. unfold addProjectServers. simpl.
  destruct (project_mcpServers pc) as [o|]; [|reflexivity].
  apply (fold_set_preserves_prefix "local:" K
           (fun kv => "local:" +++ p +++ ":" +++ fst kv)
           (fun kv => localServer p (fst kv) (snd kv)) (fun _ _ => true));
    [assumption | intros x; exact (prefix_append "local:" _)].
Qed.

Lemma addDisabledServers_get (K : string) (disabled : option (Obj DisabledMCPEntry))
  (m : Obj MCPServer) :
  String.prefix "disabled:" K = false ->
  obj_get K (addDisabledServers disabled m) = obj_get K m.
Proof.
  intros HK. unfold addDisabledServers.
  apply (fold_set_preserves_prefix "disabled:" K
           (fun kv => disabledMapKey (fst kv) (snd kv))
           (fun kv => disabledServer (fst kv) (snd kv)) (fun _ _ => true));
    [assumption|].
  intros [k e]. unfold disabledMapKey. simpl.
  destruct (entry_source e); exact (prefix_append "disabled:" _).
Qed.

Lemma addMcpJsonServers_get_other (K : string) (servers : option (Obj MCPConfig))
  (m : Obj MCPServer) :
  String.prefix "mcpjson:" K = false ->
  obj_get K (addMcpJsonServers servers m) = obj_get K m.
Proof.
  intros HK. unfold addMcpJsonServers. destruct servers as [o|]; [|reflexivity].
  apply (fold_set_preserves_prefix "mcpjson:" K
           (fun kv => "mcpjson:" +++ fst kv)
           (fun kv => mcpJsonServer (fst kv) (snd kv))
           (fun kv m => negb (obj_has ("user:" +++ fst kv) m)));
    [assumption | intros x; exact (prefix_append "mcpjson:" _)].
Qed.

(** The suppression of step 3: a name present at user level is never
    entered from [mcp.json], whatever its payload there. *)
Lemma addMcpJsonServers_skips (name : string) (servers : option (Obj MCPConfig))
  (m : Obj MCPServer) :
  obj_has ("user:" +++ name) m = true ->
  obj_get ("mcpjson:" +++ name) (addMcpJsonServers servers m)
  = obj_get ("mcpjson:" +++ name) m.
Proof.
  unfold addMcpJsonServers. destruct servers as [o|]; [|reflexivity].
  revert m. induction o as [|[k v] r IH]; intros m Hhas; [reflexivity|].
  cbn [fold_left fst snd].
  destruct (obj_has ("user:" +++ k) m) eqn:Ek; cbn [negb].
  - now apply IH.
  - assert (Hne : name <> k) by (intros ->; congruence).
    rewrite IH.
    + apply obj_get_set_other. intros E. now apply append_inj_l in E.
    + unfold obj_has in *. rewrite obj_get_set_other; [assumption|].
      intros E. discriminate E.
Qed.

Lemma filter_single (f : MCPServer -> bool) (K1 K2 : string) (v1 : MCPServer)
  (m : Obj MCPServer) :
  NoDup (obj_keys m) ->
  (forall k v, In (k, v) m -> f v = true -> k = K1 \/ k = K2) ->
  obj_get K1 m = Some v1 -> f v1 = true -> obj_get K2 m = None ->
  filter f (obj_values m) = [v1].
Proof.
  intros Hnd Hkeys H1 Hf H2.
  induction m as [|[k v] r IH]; [discriminate|].
  simpl in *. inversion Hnd as [|? ? Hk Hr]; subst.
  destruct (String.eqb_spec K2 k) as [->|Hk2]; [discriminate|].
  destruct (String.eqb_spec K1 k) as [->|Hk1].
  - injection H1 as ->. rewrite Hf. f_equal.
    assert (Hnone : forall l : Obj MCPServer,
              (forall k' v', In (k', v') l -> f v' = true -> False) ->
              filter f (obj_values l) = []).
    { induction l as [|[k' v'] l IHl]; intros H; simpl; [reflexivity|].
      destruct (f v') eqn:E.
      - exfalso. apply (H k' v'); [now left | assumption].
      - apply IHl. intros k'' v'' Hin. apply (H k'' v''). now right. }
    apply Hnone. intros k' v' Hin Hfv.
    destruct (Hkeys k' v' (or_intror Hin) Hfv) as [->| ->].
    + apply Hk. apply (in_map fst) in Hin. exact Hin.
    + apply obj_get_none_keys in H2. apply H2. apply (in_map fst) in Hin. exact Hin.
  - destruct (f v) eqn:E.
    + exfalso. destruct (Hkeys k v (or_introl eq_refl) E); congruence.
    + apply IH; auto. intros k' v' Hin. apply Hkeys. now right.
Qed.

Lemma insertBy_filter {A : Type} (cmp : A -> A -> Z) (f : A -> bool) (x : A) (l : list A) :
  Permutation (filter f (insertBy cmp x l)) (filter f (x :: l)).
Proof.
  induction l as [|y r IH]; simpl; [reflexivity|].
  destruct (cmp x y <=? 0)%Z; simpl; [reflexivity|].
  simpl in IH. destruct (f y), (f x); simpl in *; auto.
  - rewrite IH. apply perm_swap.
Qed.

Lemma sortBy_filter {A : Type} (cmp : A -> A -> Z) (f : A -> bool) (l : list A) :
  Permutation (filter f (sortBy cmp l)) (filter f l).
Proof.
  induction l as [|x r IH]; simpl; [reflexivity|].
  rewrite insertBy_filter. simpl. destruct (f x); auto.
Qed.

Lemma loadMCPs_run (w : World) :
  Runs loadMCPs w
    (Val (sortBy compareServers
            (obj_values
               (mcpMapOf (readDoc CLAUDE_JSON_PATH emptyDoc w)
                  (readDoc MCP_JSON_PATH mcpJsonDefault w)
                  (readDoc MCP_DISABLED_PATH disabledDefault w))))) [].
Proof.
  unfold loadMCPs. eapply Runs_eq.
  - eapply Runs_bind; [apply readJsonFile_run|].
    eapply Runs_bind; [apply readJsonFile_run|].
    eapply Runs_bind; [apply readJsonFile_run|].
    apply Runs_ret.
  - reflexivity.
Qed.

(** C4 (as the code has it).  When a name is live at user level in
    [~/.claude.json] and also present in [mcp.json], [loadMCPs] returns
    exactly one entry for it from these two sources, the user-level one with
    the user-level payload, whether the two payloads are equal or differ.
    (The keys of the user-level object are distinct, as in any JSON object.) *)
Theorem same_name_yields_user_entry_only (w : World) (name : string)
  (c1 c2 : MCPConfig) :
  NoDup (obj_keys (orEmpty (doc_mcpServers (readDoc CLAUDE_JSON_PATH emptyDoc w)))) ->
  activeConfig w user None name = Some c1 ->
  activeConfig w mcp_json None name = Some c2 ->
  exists mcps,
    value (loadMCPs w) = Val mcps
    /\ filter (fromUserOrMcpJson name) mcps = [userServer name c1].
Proof.
  intros Hnd Huser _.
  destruct (Runs_events _ _ _ _ (loadMCPs_run w)) as (_ & Hv & _).
  eexists. split; [exact Hv|].
  apply Permutation_length_1_inv. symmetry. rewrite sortBy_filter.
  unfold activeConfig in Huser. simpl in Huser.
  set (cj := readDoc CLAUDE_JSON_PATH emptyDoc w) in *.
  set (mj := readDoc MCP_JSON_PATH mcpJsonDefault w).
  set (dj := readDoc MCP_DISABLED_PATH disabledDefault w).
  destruct (doc_mcpServers cj) as [o|] eqn:Eo; [|discriminate].
  simpl in Hnd, Huser.
  assert (HU : obj_get ("user:" +++ name) (addUserServers (Some o) [])
               = Some (userServer name c1)) by now apply addUserServers_get.
  assert (HJ : obj_get ("mcpjson:" +++ name) (addUserServers (Some o) []) = None).
  { unfold addUserServers.
    apply (fold_set_preserves_prefix "user:" ("mcpjson:" +++ name)
             (fun kv => "user:" +++ fst kv)
             (fun kv => userServer (fst kv) (snd kv)) (fun _ _ => true));
      [reflexivity | intros x; exact (prefix_append "user:" _)]. }
  erewrite (filter_single _ ("user:" +++ name) ("mcpjson:" +++ name)
              (userServer name c1)); [reflexivity | | | | |].
  - apply mapOk_mcpMapOf.
  - intros k v Hin Hf.
    destruct (mapOk_mcpMapOf cj mj dj) as [_ Hfit]. specialize (Hfit k v Hin).
    unfold fromUserOrMcpJson in Hf. apply andb_prop in Hf. destruct Hf as [Hn Hs].
    apply String.eqb_eq in Hn. unfold keyFits in Hfit.
    destruct (mcp_source v) as [[]|]; try discriminate; subst; auto.
  - unfold mcpMapOf. rewrite Eo.
    rewrite addDisabledServers_get by reflexivity.
    rewrite addMcpJsonServers_get_other by reflexivity.
    rewrite addLocalServers_get by reflexivity. exact HU.
  - unfold fromUserOrMcpJson. simpl. now rewrite String.eqb_refl.
  - unfold mcpMapOf. rewrite Eo.
    rewrite addDisabledServers_get by reflexivity.
    rewrite addMcpJsonServers_skips.
    + rewrite addLocalServers_get by reflexivity. exact HJ.
    + unfold obj_has. rewrite addLocalServers_get by reflexivity. now rewrite HU.
Qed.

(** ** C6: snapshots come first, after validation *)









(** ** C5: the bulk toggle stops at the first failure *)







(** ** C8: [restoreBackup] *)

Lemma Logs_readFileSync (Q : Event -> bool) (p : Path) : Logs Q (readFileSync p).
Proof.
  intros w. unfold Runs, readFileSync. destruct (lookupFile p w).
  - exists (Val (content f)), []. split; [reflexivity | constructor].
  - exists (Throw ENOENT), []. split; [reflexivity | constructor].
Qed.

Lemma Logs_JSON_parse (Q : Event -> bool) (c : Content) : Logs Q (JSON_parse c).
Proof. destruct c; [apply Logs_throw | apply Logs_ret]. Qed.

Lemma Logs_ensureDir (Q : Event -> bool) (d : string) :
  Q (EvMkdir d) = true -> Logs Q (ensureDir d).
Proof.
  intros H w. unfold ensureDir. destruct (hasDir d w) eqn:E.
  - exists (Val tt), []. split; [|constructor]. unfold Runs. now rewrite E.
  - exists (Val tt), [EvMkdir d]. split; [|now repeat constructor].
    unfold Runs. rewrite E. reflexivity.
Qed.

Lemma Logs_copyFileSync (Q : Event -> bool) (src dst : Path) :
  Q (EvCopyFile src dst) = true -> Logs Q (copyFileSync src dst).
Proof. intros H. apply Logs_guarded, LogsVal_Logs, LogsVal_emit, H. Qed.

Lemma createBackup_never_renames (p : Path) (d : option string) :
  Logs notRename (createBackup p d).
Proof.
  unfold createBackup.
  apply Logs_bind; [apply LogsVal_Logs, LogsVal_existsSync | intros present].
  destruct (negb present); [apply Logs_ret|].
  apply Logs_bind.
  { unfold ensureDirectories.
    repeat (apply Logs_bind; [now apply Logs_ensureDir | intros _]).
    now apply Logs_ensureDir. }
  intros _. apply Logs_bind; [apply LogsVal_Logs, LogsVal_inspect | intros t].
  apply Logs_bind; [now apply Logs_copyFileSync | intros _].
  apply Logs_bind; [apply LogsVal_Logs, LogsVal_inspect | intros t'].
  apply Logs_bind; [now apply LogsVal_Logs, LogsVal_emit | intros _].
  apply Logs_bind; [|intros; apply Logs_ret].
  unfold cleanupOldBackups.
  apply Logs_tryCatch; [|intros; apply Logs_ret].
  apply Logs_bind; [apply LogsVal_Logs, LogsVal_inspect | intros listing].
  apply Logs_bind; [apply Logs_mapM; intros; apply Logs_statMtime | intros stats].
  destruct (MAX_BACKUPS <? _)%nat; [|apply Logs_ret].
  apply Logs_forEach. intros file.
  apply Logs_bind; [now apply Logs_unlinkSync | intros _].
  apply Logs_bind; [apply LogsVal_Logs, LogsVal_existsSync | intros present'].
  destruct present'; [now apply Logs_unlinkSync | apply Logs_ret].
Qed.

(** [restoreBackup] never calls [renameSync]: no run of it, successful or
    not, writes a temporary file and renames it over the live path. *)
Lemma restoreBackup_never_renames (backupPath : Path) (w : World) :
  Forall (fun e => isRename e = false) (events (restoreBackup backupPath w)).
Proof.
  assert (H : Logs notRename (restoreBackup backupPath)).
  { unfold restoreBackup.
    apply Logs_tryCatch; [|intros; apply Logs_ret].
    apply Logs_bind; [apply LogsVal_Logs, LogsVal_existsSync | intros hasBackup].
    destruct (negb hasBackup); [apply Logs_ret|].
    apply Logs_bind; [apply LogsVal_Logs, LogsVal_existsSync | intros hasMeta].
    destruct (negb hasMeta); [apply Logs_ret|].
    apply Logs_bind; [apply Logs_readFileSync | intros metaText].
    apply Logs_bind; [apply Logs_JSON_parse | intros meta].
    apply Logs_bind; [apply Logs_readFileSync | intros content].
    apply Logs_bind; [apply Logs_JSON_parse | intros _].
    destruct (asMeta meta) as [m|]; [|apply Logs_throw].
    apply Logs_bind; [apply createBackup_never_renames | intros _].
    apply Logs_bind; [now apply Logs_copyFileSync | intros _].
    apply Logs_ret. }
  destruct (H w) as (r & evs & Hrun & Hq).
  destruct (Runs_events _ _ _ _ Hrun) as (-> & _ & _).
  eapply Forall_impl; [|exact Hq]. intros e. unfold notRename.
  now destruct (isRename e).
Qed.

(** ** C9: backup retention *)

Lemma append_assoc (a b c : string) : (a +++ b) +++ c = a +++ b +++ c.
Proof. induction a as [|x a IH]; simpl; [reflexivity | now rewrite IH]. Qed.

Lemma prefix_refl_more (a b : string) :
  forall c, String.prefix a b = true -> String.prefix a (b +++ c) = true.
Proof.
  revert b. induction a as [|x a IH]; intros b c H.
  - now destruct (b +++ c).
  - destruct b as [|y b]; simpl in *; [discriminate|].
    destruct (ascii_dec x y); [now apply IH | discriminate].
Qed.

Lemma endsWith_append (suf s : string) : endsWith suf (s +++ suf) = true.
Proof.
  induction s as [|c s IH]; simpl.
  - destruct suf; simpl; [reflexivity|]. now rewrite Ascii.eqb_refl, String.eqb_refl.
  - rewrite IH. apply orb_true_r.
Qed.

Lemma append_inj_r (a b suf : string) : a +++ suf = b +++ suf -> a = b.
Proof.
  revert b. induction a as [|x a IH]; intros [|y b] H; simpl in *.
  - reflexivity.
  - exfalso. apply (f_equal String.length) in H. simpl in H.
    rewrite length_append in H. lia.
  - exfalso. apply (f_equal String.length) in H. simpl in H.
    rewrite length_append in H. lia.
  - injection H as -> H. f_equal. now apply IH.
Qed.

Lemma obj_get_app {A : Type} (k : string) (a b : Obj A) :
  obj_get k (a ++ b)
  = match obj_get k a with
    | Some v => Some v
    | None => obj_get k b
    end.
Proof.
  induction a as [|[k' v] r IH]; simpl; [reflexivity|].
  now destruct (String.eqb k k').
Qed.

Lemma obj_set_fresh {A : Type} (k : string) (v : A) (o : Obj A) :
  obj_get k o = None -> obj_set k v o = o ++ [(k, v)].
Proof.
  induction o as [|[k' v'] r IH]; simpl; [reflexivity|].
  destruct (String.eqb k k'); [discriminate|]. intros H. now rewrite IH.
Qed.

Lemma obj_delete_app {A : Type} (k : string) (a b : Obj A) :
  obj_delete k (a ++ b) = obj_delete k a ++ obj_delete k b.
Proof. apply filter_app. Qed.

Lemma obj_delete_absent {A : Type} (k : string) (o : Obj A) :
  obj_get k o = None -> obj_delete k o = o.
Proof.
  induction o as [|[k' v'] r IH]; simpl; [reflexivity|].
  destruct (String.eqb k k'); [discriminate|]. simpl. intros H. now rewrite IH.
Qed.

Lemma distinct_NoDup (l : list string) : distinct l = true -> NoDup l.
Proof.
  induction l as [|x r IH]; simpl; [constructor|].
  intros H. apply andb_prop in H. destruct H as [Hx Hr].
  constructor; [|now apply IH].
  intros Hin. apply negb_true_iff in Hx.
  assert (existsb (String.eqb x) r = true); [|congruence].
  apply existsb_exists. exists x. split; [assumption | apply String.eqb_refl].
Qed.

Lemma increasing_app (a : list nat) (t : nat) :
  increasing (a ++ [t]) = true <->
  increasing a = true /\ Forall (fun u => u < t) a.
Proof.
  induction a as [|x a IH]; simpl.
  - split; [intros _; split; [reflexivity | constructor] | reflexivity].
  - rewrite forallb_app. simpl. rewrite andb_true_r.
    rewrite !andb_true_iff, IH, Nat.ltb_lt. split.
    + intros ((H1 & H2) & H3 & H4). repeat split; auto.
    + intros ((H1 & H2) & H3). inversion H3; subst. repeat split; auto.
Qed.

Lemma isBackupOf_backupName (p : Path) (t : nat) :
  endsWith ".meta.json" (backupName p t) = false ->
  isBackupOf (basename p) (backupName p t) = true.
Proof.
  intros H. unfold isBackupOf, startsWith, backupName in *. rewrite H.
  rewrite <- append_assoc, prefix_append. reflexivity.
Qed.

Lemma isBackupOf_metaName (base f : string) : isBackupOf base (metaName f) = false.
Proof.
  unfold isBackupOf, metaName. rewrite endsWith_append. apply andb_false_r.
Qed.

Lemma startsWith_backupName (p : Path) (t : nat) :
  startsWith (basename p +++ ".") (backupName p t) = true.
Proof. unfold startsWith, backupName. rewrite <- append_assoc. apply prefix_append. Qed.

Lemma startsWith_metaName (p : Path) (t : nat) :
  startsWith (basename p +++ ".") (metaName (backupName p t)) = true.
Proof. unfold metaName. apply prefix_refl_more, startsWith_backupName. Qed.

Lemma stampsOk_namesOk (p : Path) (all : list nat) :
  stampsOk p all = true -> namesOk p all.
Proof.
  unfold stampsOk. intros H. apply andb_prop in H. destruct H as [H1 H2].
  split; [now apply distinct_NoDup|].
  apply Forall_forall. intros t Ht. rewrite forallb_forall in H2.
  specialize (H2 t Ht). now apply negb_true_iff in H2.
Qed.

Lemma NoDup_map_eq {A B : Type} (f : A -> B) (l : list A) (x y : A) :
  NoDup (map f l) -> In x l -> In y l -> f x = f y -> x = y.
Proof.
  induction l as [|a l IH]; simpl; [tauto|].
  intros Hnd Hx Hy E. inversion Hnd as [|? ? Ha Hl]; subst.
  destruct Hx as [->|Hx], Hy as [->|Hy]; auto.
  - exfalso. apply Ha. rewrite E. now apply in_map.
  - exfalso. apply Ha. rewrite <- E. now apply in_map.
Qed.

Lemma backup_name_neq_meta (p : Path) (all : list nat) (t u : nat) :
  namesOk p all -> In t all -> backupName p t <> metaName (backupName p u).
Proof.
  intros [_ Hm] Ht E. rewrite Forall_forall in Hm. specialize (Hm t Ht).
  rewrite E in Hm. unfold metaName in Hm. rewrite endsWith_append in Hm. discriminate.
Qed.

Section RetainedFacts.

Variables (p : Path) (desc : option string) (c : Content) (all : list nat).
Hypothesis Hnames : namesOk p all.

Lemma retained_keys (win : list nat) (k : string) :
  In k (obj_keys (retained p desc c win)) ->
  exists t, In t win /\ (k = backupName p t \/ k = metaName (backupName p t)).
Proof.
  induction win as [|t r IH]; simpl; [tauto|].
  intros [<-|[<-|H]]; [exists t; auto | exists t; auto|].
  destruct (IH H) as (u & Hu & Hk). exists u. auto.
Qed.

Lemma retained_get_backup_none (win : list nat) (t : nat) :
  incl win all -> In t all -> ~ In t win ->
  obj_get (backupName p t) (retained p desc c win) = None.
Proof.
  intros Hincl Ht Hnot. apply obj_get_none_keys. intros Hin.
  destruct (retained_keys _ _ Hin) as (u & Hu & [E|E]).
  - apply Hnot. destruct Hnames as [Hnd _].
    rewrite (NoDup_map_eq _ _ t u Hnd Ht (Hincl _ Hu) E). exact Hu.
  - now apply (backup_name_neq_meta p all t u).
Qed.

Lemma retained_get_meta_none (win : list nat) (t : nat) :
  incl win all -> In t all -> ~ In t win ->
  obj_get (metaName (backupName p t)) (retained p desc c win) = None.
Proof.
  intros Hincl Ht Hnot. apply obj_get_none_keys. intros Hin.
  destruct (retained_keys _ _ Hin) as (u & Hu & [E|E]).
  - symmetry in E. now apply (backup_name_neq_meta p all u t) in E; auto.
  - apply Hnot. destruct Hnames as [Hnd _]. apply append_inj_r in E.
    rewrite (NoDup_map_eq _ _ t u Hnd Ht (Hincl _ Hu) E). exact Hu.
Qed.

Lemma retained_get_backup (win : list nat) (t : nat) :
  incl win all -> In t win ->
  obj_get (backupName p t) (retained p desc c win) = Some (mkFile c t).
Proof.
  intros Hincl. induction win as [|u r IH]; intros Hin; [destruct Hin|].
  assert (Hu : In u all) by (apply Hincl; now left).
  assert (Hr : incl r all) by (intros x Hx; apply Hincl; now right).
  simpl. destruct (String.eqb_spec (backupName p t) (backupName p u)) as [E|E].
  - assert (Ht : In t all) by now apply Hincl.
    destruct Hnames as [Hnd _]. now rewrite (NoDup_map_eq _ _ t u Hnd Ht Hu E).
  - destruct (String.eqb_spec (backupName p t) (metaName (backupName p u))) as [E'|E'].
    + exfalso. apply (backup_name_neq_meta p all t u); auto.
    + destruct Hin as [->|Hin]; [congruence | now apply IH].
Qed.

Lemma retained_get_meta (win : list nat) (t : nat) :
  incl win all -> In t win ->
  exists f, obj_get (metaName (backupName p t)) (retained p desc c win) = Some f.
Proof.
  intros Hincl. induction win as [|u r IH]; intros Hin; [destruct Hin|].
  assert (Hu : In u all) by (apply Hincl; now left).
  assert (Hr : incl r all) by (intros x Hx; apply Hincl; now right).
  simpl. destruct (String.eqb (metaName (backupName p t)) (backupName p u)); [eauto|].
  destruct (String.eqb_spec (metaName (backupName p t)) (metaName (backupName p u)))
    as [E|E]; [eauto|].
  destruct Hin as [->|Hin]; [congruence | now apply IH].
Qed.

Lemma retained_copies (win : list nat) :
  incl win all ->
  filter (isBackupOf (basename p)) (obj_keys (retained p desc c win))
  = map (backupName p) win.
Proof.
  intros Hincl. induction win as [|u r IH]; [reflexivity|].
  assert (Hu : In u all) by (apply Hincl; now left).
  assert (Hr : incl r all) by (intros x Hx; apply Hincl; now right).
  destruct Hnames as [_ Hm]. rewrite Forall_forall in Hm.
  simpl. rewrite isBackupOf_backupName by now apply Hm.
  rewrite isBackupOf_metaName. f_equal. now apply IH.
Qed.

Lemma retained_sidecars (win : list nat) :
  incl win all ->
  filter (fun f => startsWith (basename p +++ ".") f && endsWith ".meta.json" f)
    (obj_keys (retained p desc c win))
  = map (fun t => metaName (backupName p t)) win.
Proof.
  intros Hincl. induction win as [|u r IH]; [reflexivity|].
  assert (Hu : In u all) by (apply Hincl; now left).
  assert (Hr : incl r all) by (intros x Hx; apply Hincl; now right).
  destruct Hnames as [_ Hm]. rewrite Forall_forall in Hm.
  simpl. rewrite (Hm u Hu), andb_false_r.
  rewrite startsWith_metaName. unfold metaName at 1. rewrite endsWith_append.
  simpl. f_equal. now apply IH.
Qed.

(** Removing the oldest retained snapshot, copy first and sidecar second. *)
Lemma retained_delete_oldest (t : nat) (r : list nat) :
  incl (t :: r) all -> ~ In t r ->
  obj_delete (metaName (backupName p t))
    (obj_delete (backupName p t) (retained p desc c (t :: r)))
  = retained p desc c r.
Proof.
  intros Hincl Hnot.
  assert (Ht : In t all) by (apply Hincl; now left).
  assert (Hr : incl r all) by (intros x Hx; apply Hincl; now right).
  change (retained p desc c (t :: r))
    with (snapshotEntries p desc c t ++ retained p desc c r).
  rewrite !obj_delete_app.
  rewrite (obj_delete_absent (backupName p t) (retained p desc c r))
    by now apply retained_get_backup_none.
  rewrite (obj_delete_absent (metaName (backupName p t)) (retained p desc c r))
    by now apply retained_get_meta_none.
  unfold snapshotEntries, obj_delete. simpl.
  rewrite String.eqb_refl. simpl.
  destruct (String.eqb_spec (backupName p t) (metaName (backupName p t))) as [E|E].
  - exfalso. now apply (backup_name_neq_meta p all t t).
  - simpl. rewrite String.eqb_refl. reflexivity.
Qed.

End RetainedFacts.

Lemma Runs_statMtime (n : string) (f : File) (w : World) :
  obj_get n (backups w) = Some f -> Runs (statMtime n) w (Val (n, mtime f)) [].
Proof. unfold Runs, statMtime. now intros ->. Qed.

Lemma mapM_statMtime (p : Path) (ts : list nat) (w : World) :
  (forall t, In t ts ->
     exists f, obj_get (backupName p t) (backups w) = Some f /\ mtime f = t) ->
  Runs (mapM statMtime (map (backupName p) ts)) w
    (Val (map (fun t => (backupName p t, t)) ts)) [].
Proof.
  induction ts as [|t r IH]; intros H; simpl; [apply Runs_ret|].
  destruct (H t (or_introl eq_refl)) as (f & Hf & Hm).
  eapply Runs_eq.
  - eapply Runs_bind; [now apply (Runs_statMtime _ f)|].
    eapply Runs_bind; [apply IH; intros u Hu; apply H; now right|].
    rewrite Hm. apply Runs_ret.
  - reflexivity.
Qed.

Lemma insertBy_last {A : Type} (cmp : A -> A -> Z) (x : A) (l : list A) :
  (forall y, In y l -> (0 < cmp x y)%Z) -> insertBy cmp x l = l ++ [x].
Proof.
  induction l as [|y r IH]; intros H; simpl; [reflexivity|].
  destruct (Z.leb_spec (cmp x y) 0) as [Hle|Hgt].
  - specialize (H y (or_introl eq_refl)). lia.
  - f_equal. apply IH. intros z Hz. apply H. now right.
Qed.

Lemma increasing_cons (t : nat) (r : list nat) :
  increasing (t :: r) = true -> Forall (fun u => t < u) r /\ increasing r = true.
Proof.
  simpl. intros H. apply andb_prop in H. destruct H as [H1 H2]. split; [|assumption].
  apply Forall_forall. intros u Hu. rewrite forallb_forall in H1.
  now apply Nat.ltb_lt, H1.
Qed.

Lemma increasing_NoDup (ts : list nat) : increasing ts = true -> NoDup ts.
Proof.
  induction ts as [|t r IH]; intros H; [constructor|].
  destruct (increasing_cons _ _ H) as [Hlt Hr]. constructor; [|now apply IH].
  intros Hin. rewrite Forall_forall in Hlt. specialize (Hlt t Hin). lia.
Qed.

Lemma sortBy_newestFirst_increasing (p : Path) (ts : list nat) :
  increasing ts = true ->
  sortBy newestFirst (map (fun t => (backupName p t, t)) ts)
  = rev (map (fun t => (backupName p t, t)) ts).
Proof.
  induction ts as [|t r IH]; intros H; [reflexivity|].
  destruct (increasing_cons _ _ H) as [Hlt Hr]. simpl. rewrite IH by assumption.
  apply insertBy_last. intros y Hy. apply in_rev, in_map_iff in Hy.
  destruct Hy as (u & <- & Hu). rewrite Forall_forall in Hlt. specialize (Hlt u Hu).
  unfold newestFirst. simpl. lia.
Qed.

Lemma Runs_unlinkSync (p : Path) (f : File) (w : World) :
  lookupFile p w = Some f -> Runs (unlinkSync p) w (Val tt) [EvUnlink p].
Proof. unfold Runs, unlinkSync. now intros ->. Qed.

Section PruneFacts.

Variables (p : Path) (desc : option string) (c : Content) (all : list nat).
Variable pre : Obj File.
Hypothesis Hnames : namesOk p all.
Hypothesis Hfresh :
  forall k, In k (obj_keys pre) -> startsWith (basename p +++ ".") k = false.

Lemma pre_get_backup (t : nat) : obj_get (backupName p t) pre = None.
Proof.
  apply obj_get_none_keys. intros Hin. apply Hfresh in Hin.
  rewrite startsWith_backupName in Hin. discriminate.
Qed.

Lemma pre_get_meta (t : nat) : obj_get (metaName (backupName p t)) pre = None.
Proof.
  apply obj_get_none_keys. intros Hin. apply Hfresh in Hin.
  rewrite startsWith_metaName in Hin. discriminate.
Qed.

Lemma pre_copies : filter (isBackupOf (basename p)) (obj_keys pre) = [].
Proof.
  induction pre as [|[k f] r IH]; [reflexivity|]. simpl in *.
  unfold isBackupOf at 1. rewrite (Hfresh k (or_introl eq_refl)). simpl.
  apply IH. intros k' Hk'. apply Hfresh. now right.
Qed.

Lemma pre_sidecars :
  filter (fun f => startsWith (basename p +++ ".") f && endsWith ".meta.json" f)
    (obj_keys pre) = [].
Proof.
  induction pre as [|[k f] r IH]; [reflexivity|]. simpl in *.
  rewrite (Hfresh k (or_introl eq_refl)). simpl.
  apply IH. intros k' Hk'. apply Hfresh. now right.
Qed.

(** One pruning pass over a directory that holds, for the base name, the
    snapshots of an increasing window of at most [MAX_BACKUPS + 1]
    instants: the oldest goes when the window is over the limit. *)
Lemma cleanupOldBackups_shaped (win : list nat) (w : World) :
  incl win all -> increasing win = true -> List.length win <= S MAX_BACKUPS ->
  backups w = pre ++ retained p desc c win ->
  Runs (cleanupOldBackups (basename p)) w (Val tt) (pruneEvents p win).
Proof.
  intros Hincl Hinc Hlen Hshape.
  assert (Hstat : Runs (mapM statMtime
                          (filter (isBackupOf (basename p)) (obj_keys (backups w)))) w
                    (Val (map (fun t => (backupName p t, t)) win)) []).
  { rewrite Hshape. unfold obj_keys. rewrite map_app, filter_app.
    fold (obj_keys pre). fold (obj_keys (retained p desc c win)).
    rewrite pre_copies, (retained_copies p desc c all Hnames) by assumption. simpl.
    apply mapM_statMtime. intros t Ht. exists (mkFile c t). split; [|reflexivity].
    rewrite Hshape, obj_get_app, pre_get_backup.
    now apply (retained_get_backup p desc c all Hnames). }
  unfold cleanupOldBackups, pruneEvents.
  destruct (MAX_BACKUPS <? List.length win)%nat eqn:Eover.
  - apply Nat.ltb_lt in Eover.
    destruct win as [|t0 r]; [simpl in Eover; lia|].
    assert (Hr : List.length r = MAX_BACKUPS) by (simpl in *; lia).
    assert (Hvict : skipn MAX_BACKUPS (rev (map (fun t => (backupName p t, t)) (t0 :: r)))
                    = [(backupName p t0, t0)]).
    { cbn [map rev]. rewrite skipn_app, length_rev, length_map, Hr, Nat.sub_diag.
      rewrite skipn_all2 by (rewrite length_rev, length_map; lia). reflexivity. }
    assert (Ht0 : In t0 (t0 :: r)) by now left.
    destruct (retained_get_meta p desc c all (t0 :: r) t0 Hincl Ht0)
      as (fm & Hfm).
    assert (Hmeta : lookupFile (InBackups (metaName (backupName p t0)))
                      (replay w [EvUnlink (InBackups (backupName p t0))])
                    = Some fm).
    { simpl. rewrite obj_get_delete_other.
      - now rewrite Hshape, obj_get_app, pre_get_meta.
      - intros E. symmetry in E.
        apply (backup_name_neq_meta p all t0 t0 Hnames); auto. }
    eapply Runs_eq.
    + apply Runs_try_val.
      eapply Runs_bind; [apply Runs_inspect|].
      eapply Runs_bind; [exact Hstat|].
      rewrite sortBy_newestFirst_increasing by assumption.
      rewrite length_rev, length_map.
      apply Nat.ltb_lt in Eover. rewrite Eover, Hvict. cbn [forEach fst].
      eapply Runs_bind; [|apply Runs_ret].
      eapply Runs_bind.
      { eapply (Runs_unlinkSync _ (mkFile c t0)). rewrite ?replay_nil. simpl.
        rewrite Hshape, obj_get_app, pre_get_backup.
        now apply (retained_get_backup p desc c all Hnames). }
      eapply Runs_bind; [apply Runs_existsSync|].
      rewrite ?replay_nil. unfold metaName in Hmeta. rewrite Hmeta.
      eapply (Runs_unlinkSync _ fm). rewrite ?replay_nil. exact Hmeta.
    + reflexivity.
  - eapply Runs_eq.
    + apply Runs_try_val.
      eapply Runs_bind; [apply Runs_inspect|].
      eapply Runs_bind; [exact Hstat|].
      rewrite sortBy_newestFirst_increasing by assumption.
      rewrite length_rev, length_map, Eover. apply Runs_ret.
    + reflexivity.
Qed.

End PruneFacts.

Lemma createBackup_exact (p : Path) (d : option string) (w : World) (f : File) :
  lookupFile p w = Some f ->
  exists mk,
    Forall (fun e => isMkdir e = true) mk
    /\ forall cl,
        Runs (cleanupOldBackups (basename p))
          (replay (replay w mk)
             [snapshotEvent p w;
              EvWriteFile (InBackups (metaName (backupName p (now w))))
                (JSON_stringify
                   (MetaDoc (mkMeta p (toISOString (now w)) (describe d))))])
          (Val tt) cl ->
        Runs (createBackup p d) w (Val (Some (InBackups (backupName p (now w)))))
          (mk
           ++ snapshotEvent p w
              :: EvWriteFile (InBackups (metaName (backupName p (now w))))
                   (JSON_stringify
                      (MetaDoc (mkMeta p (toISOString (now w)) (describe d))))
              :: cl).
Proof.
  intros E. destruct (ensureDirectories_run w) as ([] & mk & Hmk & Hq).
  exists mk. split; [assumption|]. intros cl Hcl.
  unfold createBackup. eapply Runs_eq.
  - eapply Runs_bind; [apply Runs_existsSync|]. rewrite E. cbn [negb].
    eapply Runs_bind; [exact Hmk|].
    eapply Runs_bind; [apply Runs_inspect|]. rewrite ?replay_nil, now_replay.
    eapply Runs_bind.
    { eapply Runs_copyFileSync. rewrite ?replay_nil.
      rewrite lookup_replay_mkdir by assumption. exact E. }
    eapply Runs_bind; [apply Runs_inspect|]. rewrite !now_replay.
    eapply Runs_bind; [apply Runs_emit|].
    eapply Runs_bind; [exact Hcl|].
    apply Runs_ret.
  - simpl. now rewrite app_nil_r.
Qed.

Lemma snapshotAt_lookup (p : Path) (d : option string) (w : World) (t : nat)
  (s : string) :
  lookupFile (Abs s) (snapshotAt p d w t) = lookupFile (Abs s) w.
Proof.
  unfold snapshotAt.
  destruct (createBackup_run p d (advanceTo t w)) as (r & evs & Hrun & Hq & _).
  destruct (Runs_events _ _ _ _ Hrun) as (_ & _ & ->).
  now rewrite lookup_replay_backupOnly.
Qed.

Lemma trim_app_length (win : list nat) (t : nat) :
  List.length win <= MAX_BACKUPS -> List.length (trim (win ++ [t])) <= MAX_BACKUPS.
Proof.
  intros H. unfold trim. rewrite length_app. simpl.
  destruct (Nat.ltb_spec MAX_BACKUPS (List.length win + 1)).
  - destruct win; simpl in *; [lia|]. rewrite length_app. simpl. lia.
  - rewrite length_app. simpl. lia.
Qed.

Section SnapshotStep.

Variables (s : string) (desc : option string) (f : File) (all : list nat).
Variable pre : Obj File.
Hypothesis Hnames : namesOk (Abs s) all.
Hypothesis Hfresh :
  forall k, In k (obj_keys pre) -> startsWith (basenameOf s +++ ".") k = false.

(** One snapshot at an instant later than those of the window. *)
Lemma snapshot_step (win : list nat) (t : nat) (w : World) :
  incl (win ++ [t]) all ->
  increasing (win ++ [t]) = true ->
  List.length win <= MAX_BACKUPS ->
  lookupFile (Abs s) w = Some f ->
  backups w = pre ++ retained (Abs s) desc (content f) win ->
  backups (snapshotAt (Abs s) desc w t)
  = pre ++ retained (Abs s) desc (content f) (trim (win ++ [t])).
Proof.
  intros Hincl Hinc Hlen Hfile Hshape.
  assert (Ht : In t all) by (apply Hincl, in_or_app; right; now left).
  assert (Hwin : incl win all) by (intros x Hx; apply Hincl, in_or_app; now left).
  assert (Hnew : ~ In t win).
  { apply increasing_app in Hinc. destruct Hinc as [_ Hlt]. intros Hin.
    rewrite Forall_forall in Hlt. specialize (Hlt t Hin). lia. }
  unfold snapshotAt. set (w0 := advanceTo t w).
  destruct (createBackup_exact (Abs s) desc w0 f Hfile) as (mk & Hmk & Hexact).
  set (copy := snapshotEvent (Abs s) w0) in *.
  set (wmeta := EvWriteFile _ _) in *.
  assert (Hshape2 : backups (replay (replay w0 mk) [copy; wmeta])
                    = pre ++ retained (Abs s) desc (content f) (win ++ [t])).
  { cbn [replay fold_left]. subst copy wmeta. unfold snapshotEvent.
    cbn [apply_event].
    rewrite (lookup_replay_mkdir (Abs s) mk w0 Hmk).
    change (lookupFile (Abs s) w0) with (lookupFile (Abs s) w). rewrite Hfile.
    cbn [storeFile backups]. rewrite !now_replay.
    rewrite (backups_replay_mkdir mk w0 Hmk).
    change (backups w0) with (backups w). change (now w0) with t.
    rewrite Hshape.
    rewrite (obj_set_fresh (backupName (Abs s) t)).
    - rewrite obj_set_fresh.
      + unfold retained. rewrite flat_map_app, <- !app_assoc. reflexivity.
      + rewrite !obj_get_app, (pre_get_meta (Abs s) pre Hfresh).
        rewrite (retained_get_meta_none (Abs s) desc (content f) all Hnames)
          by assumption.
        simpl. destruct (String.eqb_spec (metaName (backupName (Abs s) t))
                           (backupName (Abs s) t)) as [E|E]; [|reflexivity].
        exfalso. symmetry in E. now apply (backup_name_neq_meta (Abs s) all t t).
    - rewrite obj_get_app, (pre_get_backup (Abs s) pre Hfresh).
      now apply (retained_get_backup_none (Abs s) desc (content f) all Hnames). }
  assert (Hlen2 : List.length (win ++ [t]) <= S MAX_BACKUPS)
    by (rewrite length_app; simpl; lia).
  pose proof (cleanupOldBackups_shaped (Abs s) desc (content f) all pre Hnames Hfresh
                (win ++ [t]) _ Hincl Hinc Hlen2 Hshape2) as Hcl.
  destruct (Runs_events _ _ _ _ (Hexact _ Hcl)) as (_ & _ & ->).
  rewrite replay_app.
  change (replay (replay w0 mk) (copy :: wmeta :: pruneEvents (Abs s) (win ++ [t])))
    with (replay (replay (replay w0 mk) [copy; wmeta])
            (pruneEvents (Abs s) (win ++ [t]))).
  unfold pruneEvents, trim.
  destruct (MAX_BACKUPS <? List.length (win ++ [t]))%nat eqn:Eover;
    [|exact Hshape2].
  destruct (win ++ [t]) as [|t0 r] eqn:Ew; [exact Hshape2|].
  change (backups (replay ?x [EvUnlink (InBackups ?a); EvUnlink (InBackups ?b)]))
    with (obj_delete b (obj_delete a (backups x))).
  cbn [tl]. rewrite Hshape2.
  rewrite !obj_delete_app.
  rewrite (obj_delete_absent _ pre (pre_get_backup (Abs s) pre Hfresh t0)).
  rewrite (obj_delete_absent _ pre (pre_get_meta (Abs s) pre Hfresh t0)).
  f_equal. apply (retained_delete_oldest (Abs s) desc (content f) all Hnames).
  - assumption.
  - apply increasing_NoDup in Hinc. now inversion Hinc.
Qed.

End SnapshotStep.

Lemma obj_keys_app {A : Type} (a b : Obj A) :
  obj_keys (a ++ b) = obj_keys a ++ obj_keys b.
Proof. apply map_app. Qed.

Lemma increasing_app_l (a b : list nat) :
  increasing (a ++ b) = true -> increasing a = true.
Proof.
  induction a as [|x a IH]; [reflexivity|]. simpl. intros H.
  apply andb_prop in H. destruct H as [H1 H2].
  rewrite forallb_app in H1. apply andb_prop in H1. destruct H1 as [H1 _].
  now rewrite H1, IH.
Qed.

Lemma increasing_trim_app (a b : list nat) :
  increasing (a ++ b) = true -> increasing (trim a ++ b) = true.
Proof.
  unfold trim. destruct (MAX_BACKUPS <? List.length a)%nat; [|auto].
  destruct a as [|x a]; [auto|]. cbn [tl]. intros H.
  change ((x :: a) ++ b) with (x :: (a ++ b)) in H.
  now destruct (increasing_cons _ _ H).
Qed.

Lemma incl_trim_app (a b all : list nat) :
  incl (a ++ b) all -> incl (trim a ++ b) all.
Proof.
  unfold trim. destruct (MAX_BACKUPS <? List.length a)%nat; [|auto].
  destruct a as [|x a]; [auto|]. cbn [tl]. intros H y Hy. apply H. now right.
Qed.

Lemma window_skipn (ts win : list nat) :
  List.length win <= MAX_BACKUPS ->
  window ts win = skipn (List.length (win ++ ts) - MAX_BACKUPS) (win ++ ts).
Proof.
  revert win. induction ts as [|t r IH]; intros win Hlen.
  - rewrite app_nil_r. replace (List.length win - MAX_BACKUPS) with 0 by lia.
    reflexivity.
  - change (window (t :: r) win) with (window r (trim (win ++ [t]))).
    rewrite IH by now apply trim_app_length.
    unfold trim. rewrite (length_app win [t]). cbn [List.length].
    destruct (Nat.ltb_spec MAX_BACKUPS (List.length win + 1)) as [Hover|Hfits].
    + destruct win as [|x win]; [simpl in Hover; unfold MAX_BACKUPS in Hover; lia|].
      cbn [app tl]. rewrite <- app_assoc. cbn [app].
      cbn [List.length] in *. rewrite !length_app. cbn [List.length].
      replace (S (List.length win + S (List.length r)) - MAX_BACKUPS)
        with (S (List.length win + S (List.length r) - MAX_BACKUPS)) by lia.
      reflexivity.
    + rewrite <- app_assoc. reflexivity.
Qed.

Section SnapshotRuns.

Variables (s : string) (desc : option string) (f : File) (all : list nat).
Variable pre : Obj File.
Hypothesis Hnames : namesOk (Abs s) all.
Hypothesis Hfresh :
  forall k, In k (obj_keys pre) -> startsWith (basenameOf s +++ ".") k = false.

(** The directory after a run of snapshots at later and later instants. *)
Lemma snapshots_shaped (ts win : list nat) (w : World) :
  incl (win ++ ts) all ->
  increasing (win ++ ts) = true ->
  List.length win <= MAX_BACKUPS ->
  lookupFile (Abs s) w = Some f ->
  backups w = pre ++ retained (Abs s) desc (content f) win ->
  backups (snapshots (Abs s) desc ts w)
  = pre ++ retained (Abs s) desc (content f) (window ts win).
Proof.
  revert win w. induction ts as [|t r IH]; intros win w Hincl Hinc Hlen Hfile Hshape.
  - exact Hshape.
  - change (snapshots (Abs s) desc (t :: r) w)
      with (snapshots (Abs s) desc r (snapshotAt (Abs s) desc w t)).
    change (window (t :: r) win) with (window r (trim (win ++ [t]))).
    replace (win ++ t :: r) with ((win ++ [t]) ++ r) in Hincl, Hinc
      by now rewrite <- app_assoc.
    apply IH.
    + now apply incl_trim_app.
    + now apply increasing_trim_app.
    + now apply trim_app_length.
    + now rewrite snapshotAt_lookup.
    + apply (snapshot_step s desc f all pre Hnames Hfresh); try assumption.
      * intros x Hx. apply Hincl, in_or_app. now left.
      * now apply increasing_app_l in Hinc.
Qed.

End SnapshotRuns.

(** C9. After [MAX_BACKUPS + k] snapshots of one existing file, taken at
    later and later instants whose backup names are pairwise different and
    are no sidecar names, in a backups directory that held nothing of that
    file before, the directory holds exactly [MAX_BACKUPS] copies and
    [MAX_BACKUPS] sidecars of the file: those of the [MAX_BACKUPS] most recent
    instants, oldest first.  The claim is the case [k = 5]. *)
Theorem snapshots_keep_the_newest (s : string) (desc : option string)
  (ts : list nat) (k : nat) (w : World) :
  existsSync (Abs s) w = (Val true, w, []) ->
  increasing ts = true ->
  stampsOk (Abs s) ts = true ->
  freshFor (basename (Abs s)) w = true ->
  List.length ts = MAX_BACKUPS + k ->
  let w' := snapshots (Abs s) desc ts w in
  backupCopies (basename (Abs s)) w' = map (backupName (Abs s)) (skipn k ts)
  /\ sidecars (basename (Abs s)) w'
     = map (fun t => metaName (backupName (Abs s) t)) (skipn k ts)
  /\ List.length (backupCopies (basename (Abs s)) w') = MAX_BACKUPS
  /\ List.length (sidecars (basename (Abs s)) w') = MAX_BACKUPS.
Proof.
  intros Hex Hinc Hok Hfr Hlen w'.
  assert (Hfile : exists f, lookupFile (Abs s) w = Some f).
  { unfold existsSync, inspect in Hex. destruct (lookupFile (Abs s) w) as [f|];
      [now exists f | discriminate]. }
  destruct Hfile as [f Hfile].
  pose proof (stampsOk_namesOk _ _ Hok) as Hnames.
  assert (Hfresh : forall n, In n (obj_keys (backups w)) ->
                     startsWith (basenameOf s +++ ".") n = false).
  { intros n Hn. unfold freshFor in Hfr. rewrite forallb_forall in Hfr.
    now apply negb_true_iff, Hfr. }
  assert (Hshape : backups w' = backups w ++ retained (Abs s) desc (content f) (skipn k ts)).
  { subst w'.
    rewrite (snapshots_shaped s desc f ts (backups w) Hnames Hfresh ts [] w).
    - rewrite window_skipn by (simpl; lia). cbn [app]. now rewrite Hlen, Nat.add_comm, Nat.add_sub.
    - apply incl_refl.
    - exact Hinc.
    - simpl. lia.
    - exact Hfile.
    - simpl. now rewrite app_nil_r. }
  assert (Hsub : incl (skipn k ts) ts).
  { intros x Hx. rewrite <- (firstn_skipn k ts). apply in_or_app. now right. }
  assert (Hcopies : backupCopies (basename (Abs s)) w'
                    = map (backupName (Abs s)) (skipn k ts)).
  { unfold backupCopies. rewrite Hshape, obj_keys_app, filter_app.
    rewrite (pre_copies (Abs s) (backups w) Hfresh).
    exact (retained_copies (Abs s) desc (content f) ts Hnames _ Hsub). }
  assert (Hsides : sidecars (basename (Abs s)) w'
                   = map (fun t => metaName (backupName (Abs s) t)) (skipn k ts)).
  { unfold sidecars. rewrite Hshape, obj_keys_app, filter_app.
    rewrite (pre_sidecars (Abs s) (backups w) Hfresh).
    exact (retained_sidecars (Abs s) desc (content f) ts Hnames _ Hsub). }
  rewrite Hcopies, Hsides, !length_map, length_skipn, Hlen.
  repeat split; lia.
Qed.

(** ** Disabling an item and enabling it again *)

Lemma removeFirst_eq (pat s : string) :
  removeFirst pat s
  = if String.prefix pat s then dropChars (String.length pat) s
    else match s with
         | EmptyString => EmptyString
         | String c r => String c (removeFirst pat r)
         end.
Proof. destruct s; reflexivity. Qed.

Lemma dropChars_append (a b : string) : dropChars (String.length a) (a +++ b) = b.
Proof. induction a as [|c a IH]; simpl; [reflexivity | exact IH]. Qed.

Lemma removeFirst_prefix (a b : string) : removeFirst a (a +++ b) = b.
Proof. now rewrite removeFirst_eq, prefix_append, dropChars_append. Qed.

Lemma containsColon_append (a b : string) : containsColon (a +++ ":" +++ b) = true.
Proof.
  induction a as [|c a IH]; [reflexivity|].
  change (isColon c || containsColon (a +++ ":" +++ b) = true).
  rewrite IH. apply orb_true_r.
Qed.

Lemma lastSegment_append (a b : string) :
  containsColon b = false -> lastSegment (a +++ ":" +++ b) = b.
Proof.
  intros Hb. induction a as [|c a IH].
  - simpl. now rewrite Hb.
  - change ((if containsColon (a +++ ":" +++ b) then lastSegment (a +++ ":" +++ b)
             else if isColon c then a +++ ":" +++ b else String c (a +++ ":" +++ b)) = b).
    now rewrite containsColon_append.
Qed.

Lemma restoredName_archiveKey (s : Source) (pp : option string) (name : string)
  (cfg : MCPConfig) (t : nat) :
  (s = local -> containsColon name = false) ->
  restoredName (archiveKey s pp name) (archiveEntry cfg s (entryProject s pp) t) = name.
Proof.
  intros Hc. unfold restoredName, archiveKey. cbn [entry_source archiveEntry].
  destruct s.
  - apply removeFirst_prefix.
  - rewrite <- append_assoc. apply lastSegment_append. now apply Hc.
  - apply removeFirst_prefix.
Qed.

Lemma sameServers_refl (a : option (Obj MCPConfig)) : sameServers a a.
Proof. destruct a; simpl; [intros k; reflexivity | exact I]. Qed.

Lemma obj_set_delete_equiv {A : Type} (k : string) (v : A) (o : Obj A) :
  obj_get k o = Some v -> obj_equiv (obj_set k v (obj_delete k o)) o.
Proof.
  intros H k'. destruct (String.eqb_spec k' k) as [->|Hne].
  - now rewrite obj_get_set_same.
  - now rewrite obj_get_set_other, obj_get_delete_other.
Qed.

Lemma activeServers_docWithout (s : Source) (pp : option string) (name : string)
  (d : JsonDoc) :
  lookupServer (activeServers s pp (docWithout s pp name d)) name = None.
Proof.
  destruct s; simpl.
  - apply obj_get_delete_same.
  - destruct (truthy pp); [|reflexivity].
    unfold projectServers.
    destruct (doc_projects d) as [ps|] eqn:Ep; [|now rewrite Ep].
    destruct (obj_get (interpolate pp) ps) as [pc|] eqn:Eg; [|now rewrite Ep, Eg].
    destruct (project_mcpServers pc) as [o|] eqn:Em; [|now rewrite Ep, Eg, Em].
    simpl. rewrite obj_get_set_same. simpl. apply obj_get_delete_same.
  - apply obj_get_delete_same.
Qed.

(** Putting back what was taken out gives the document one started from,
    up to the order of the keys. *)
Lemma docWith_docWithout (s : Source) (pp : option string) (name : string)
  (cfg : MCPConfig) (d : JsonDoc) :
  lookupServer (activeServers s pp d) name = Some cfg ->
  docEquiv (docWith s (entryProject s pp) name cfg (docWithout s pp name d)) d.
Proof.
  intros Hlive. destruct s; simpl in Hlive.
  - destruct (doc_mcpServers d) as [o|] eqn:Eo; [|discriminate]. simpl in Hlive.
    unfold docEquiv, docWith, docWithout. cbn. rewrite Eo.
    repeat split; try reflexivity.
    + now apply obj_set_delete_equiv.
    + intros project. apply sameServers_refl.
  - destruct (truthy pp); [|discriminate]. unfold projectServers in Hlive.
    destruct (doc_projects d) as [ps|] eqn:Ep; [|discriminate].
    destruct (obj_get (interpolate pp) ps) as [pc|] eqn:Eg; [|discriminate].
    destruct (project_mcpServers pc) as [o|] eqn:Em; [|discriminate]. simpl in Hlive.
    unfold docEquiv, docWith, docWithout, entryProject. rewrite Ep, Eg, Em.
    unfold projectServersOrEmpty, projectServers. cbn.
    rewrite obj_get_set_same. cbn.
    repeat split; try reflexivity.
    + apply sameServers_refl.
    + intros project. rewrite Ep.
      destruct (String.eqb_spec project (interpolate pp)) as [->|Hne].
      * rewrite obj_get_set_same, Eg, Em. simpl. now apply obj_set_delete_equiv.
      * rewrite !obj_get_set_other by assumption. apply sameServers_refl.
  - destruct (doc_mcpServers d) as [o|] eqn:Eo; [|discriminate]. simpl in Hlive.
    unfold docEquiv, docWith, docWithout. cbn. rewrite Eo.
    repeat split; try reflexivity.
    + now apply obj_set_delete_equiv.
    + intros project. apply sameServers_refl.
Qed.

Lemma stateAfter_all (k : nat) (w : World) (evs : list Event) :
  List.length evs <= k -> stateAfter k w evs = replay w evs.
Proof. intros H. unfold stateAfter. now rewrite firstn_all2. Qed.

(** The two documents a completed [disableMcp] leaves on disk. *)
Lemma disable_final (s : Source) (pp : option string) (name : string)
  (cfg : MCPConfig) (o : Obj DisabledMCPEntry) (pre : list Event) (w : World) :
  Forall (fun e => backupOnly e = true) pre ->
  (forall def,
      readDoc MCP_DISABLED_PATH def (replay w (pre ++ disableEvents s pp name cfg o w))
      = withDisabled (readDoc MCP_DISABLED_PATH disabledDefault w)
          (obj_set (archiveKey s pp name)
             (archiveEntry cfg s (entryProject s pp) (now w)) o))
  /\ (forall def,
         readDoc (sourcePath s) def (replay w (pre ++ disableEvents s pp name cfg o w))
         = docWithout s pp name (readDoc (sourcePath s) (sourceDefault s) w)).
Proof.
  intros Hq.
  rewrite <- (stateAfter_all (List.length pre + 4) w
                (pre ++ disableEvents s pp name cfg o w))
    by (rewrite length_app; simpl; lia).
  unfold disableEvents.
  destruct s;
    match goal with
    | |- context [atomicWrite MCP_DISABLED_PATH ?da ++ atomicWrite (sourcePath ?s) ?db] =>
        destruct (move_states "~/.claude/.config-manager/mcp-disabled.json"
                    (match s with mcp_json => "~/.claude/mcp.json" | _ => "~/.claude.json" end)
                    da db pre w (List.length pre + 4)) as (_ & H2 & _ & H4);
        [discriminate | discriminate | discriminate | assumption |]
    end;
    (split; intros def; [apply H2 | apply H4]; lia).
Qed.

(** The two documents a completed [enableMcp] leaves on disk. *)
Lemma enable_final (key : string) (entry : DisabledMCPEntry)
  (o : Obj DisabledMCPEntry) (pre : list Event) (w : World) :
  Forall (fun e => backupOnly e = true) pre ->
  (forall def,
      readDoc (sourcePath (entry_source entry)) def
        (replay w (pre ++ enableEvents key entry o w))
      = docWith (entry_source entry) (entry_projectPath entry) (restoredName key entry)
          (entry_config entry)
          (readDoc (sourcePath (entry_source entry)) (sourceDefault (entry_source entry)) w))
  /\ (forall def,
         readDoc MCP_DISABLED_PATH def (replay w (pre ++ enableEvents key entry o w))
         = withDisabled (readDoc MCP_DISABLED_PATH disabledDefault w) (obj_delete key o)).
Proof.
  intros Hq.
  rewrite <- (stateAfter_all (List.length pre + 4) w (pre ++ enableEvents key entry o w))
    by (rewrite length_app; simpl; lia).
  unfold enableEvents.
  generalize (restoredName key entry). intros name.
  destruct (entry_source entry);
    match goal with
    | |- context [atomicWrite (sourcePath ?s) ?da ++ atomicWrite MCP_DISABLED_PATH ?db] =>
        destruct (move_states
                    (match s with mcp_json => "~/.claude/mcp.json" | _ => "~/.claude.json" end)
                    "~/.claude/.config-manager/mcp-disabled.json"
                    da db pre w (List.length pre + 4)) as (_ & H2 & _ & H4);
        [discriminate | discriminate | discriminate | assumption |]
    end;
    (split; intros def; [apply H2 | apply H4]; lia).
Qed.


(** An item found live, with a readable archive, a name that is not one
    every JavaScript object inherits (such as [constructor], which the
    conflict test of [enableMcp] finds on any object) and, at project
    level, no colon in its name: [disableMcp] and then [enableMcp] of its
    archive key both succeed, the store document is the one before the two
    calls up to the order of the keys of its server objects, and the
    archive has no entry under the key. *)
Theorem disable_then_enable_restores (s : Source) (pp : option string) (name : string)
  (cfg : MCPConfig) (w : World) :
  activeConfig w s pp name = Some cfg ->
  doc_disabled (readDoc MCP_DISABLED_PATH disabledDefault w) <> None ->
  (s = local -> containsColon name = false) ->
  inheritedName name = false ->
  value (disableMcp name s pp w) = Val Success
  /\ value (enableMcp (archiveKey s pp name) (final (disableMcp name s pp w)))
     = Val Success
  /\ docEquiv
       (readDoc (sourcePath s) (sourceDefault s)
          (final (enableMcp (archiveKey s pp name) (final (disableMcp name s pp w)))))
       (readDoc (sourcePath s) (sourceDefault s) w)
  /\ archived (final (enableMcp (archiveKey s pp name) (final (disableMcp name s pp w))))
       (archiveKey s pp name)
     = None.
Proof.
  intros Hlive Harc Hcolon _.
  destruct (disableMcp_found name s pp w cfg Hlive) as (pre & Hq & _ & Hrun).
  destruct (doc_disabled (readDoc MCP_DISABLED_PATH disabledDefault w)) as [o|] eqn:Eo;
    [|contradiction].
  destruct (Runs_events _ _ _ _ Hrun) as (_ & Hv1 & Hf1).
  destruct (disable_final s pp name cfg o pre w Hq) as (Ha1 & Hs1).
  rewrite Hf1.
  set (w1 := replay w (pre ++ disableEvents s pp name cfg o w)) in *.
  set (entry := archiveEntry cfg s (entryProject s pp) (now w)) in *.
  assert (Harch1 : archived w1 (archiveKey s pp name) = Some entry).
  { unfold archived. rewrite Ha1. simpl. apply obj_get_set_same. }
  assert (Hname : restoredName (archiveKey s pp name) entry = name)
    by now apply restoredName_archiveKey.
  assert (Hpp : s = local -> truthy pp = true).
  { intros ->. unfold activeConfig in Hlive. simpl in Hlive.
    destruct (truthy pp); [reflexivity | discriminate]. }
  assert (Hfree : activeConfig w1 (entry_source entry) (entry_projectPath entry)
                    (restoredName (archiveKey s pp name) entry) = None).
  { rewrite Hname. unfold activeConfig. cbn [entry entry_source entry_projectPath archiveEntry].
    rewrite Hs1.
    destruct s;
      [exact (activeServers_docWithout user pp name _)
      | apply activeServers_docWithout
      | exact (activeServers_docWithout mcp_json pp name _)]. }
  assert (Hok : destinationOk w1 entry = true).
  { unfold destinationOk. cbn [entry entry_source entry_projectPath archiveEntry].
    destruct s.
    - reflexivity.
    - now apply Hpp.
    - change MCP_JSON_PATH with (sourcePath mcp_json). now rewrite Hs1. }
  destruct (enableMcp_restores (archiveKey s pp name) entry w1 Harch1 Hok Hfree)
    as (pre2 & o2 & Eo2 & Hq2 & _ & Hrun2).
  destruct (Runs_events _ _ _ _ Hrun2) as (_ & Hv2 & Hf2).
  destruct (enable_final (archiveKey s pp name) entry o2 pre2 w1 Hq2) as (Hs2 & Ha2).
  split; [exact Hv1|]. split; [exact Hv2|]. rewrite Hf2. split.
  - cbn [entry entry_source entry_projectPath archiveEntry] in Hs2.
    rewrite Hs2, Hs1. fold entry. rewrite Hname.
    cbn [entry entry_config archiveEntry]. now apply docWith_docWithout.
  - unfold archived. rewrite Ha2. simpl. apply obj_get_delete_same.
Qed.


(** ** Agents and skills *)

Lemma Logs_renameSync (Q : Event -> bool) (src dst : Path) :
  Q (EvRename src dst) = true -> Logs Q (renameSync src dst).
Proof. intros H. apply Logs_guarded, LogsVal_Logs, LogsVal_emit, H. Qed.

Lemma Logs_ensureDirectories (Q : Event -> bool) :
  (forall d, Q (EvMkdir d) = true) -> Logs Q ensureDirectories.
Proof.
  intros H. unfold ensureDirectories.
  repeat (apply Logs_bind; [now apply Logs_ensureDir | intros _]).
  now apply Logs_ensureDir.
Qed.

Lemma backups_replay_mkdirOrMove (evs : list Event) (w : World) :
  Forall (fun e => mkdirOrMove e = true) evs -> backups (replay w evs) = backups w.
Proof.
  revert w. induction evs as [|e r IH]; intros w H; simpl; auto.
  inversion H as [|? ? He Hr]; subst.
  change (backups (replay (apply_event e w) r) = backups w).
  rewrite IH by assumption.
  destruct e as [d|? ?|[a|a] [b|b]|? ?|?]; try discriminate; simpl.
  - destruct (hasDir d w); reflexivity.
  - destruct (obj_get a (files w)); reflexivity.
Qed.

(** [toggleAgent] and [toggleSkill] move the file or folder with one
    [renameSync]; beside the directories of [ensureDirectories] they make
    nothing, so the backups directory is the same before and after. *)
Theorem agent_and_skill_toggles_take_no_snapshot (name : string) (enabled : bool)
  (w : World) :
  Forall (fun e => mkdirOrMove e = true) (events (toggleAgent name enabled w))
  /\ backups (final (toggleAgent name enabled w)) = backups w
  /\ Forall (fun e => mkdirOrMove e = true) (events (toggleSkill name enabled w))
  /\ backups (final (toggleSkill name enabled w)) = backups w.
Proof.
  assert (Ha : Logs mkdirOrMove (toggleAgent name enabled)).
  { unfold toggleAgent.
    apply Logs_bind; [now apply Logs_ensureDirectories | intros _].
    apply Logs_bind; [apply LogsVal_Logs, LogsVal_existsSync | intros present].
    destruct (negb present); [apply Logs_ret|].
    apply Logs_bind; [|intros; apply Logs_ret].
    destruct enabled; now apply Logs_renameSync. }
  assert (Hs : Logs mkdirOrMove (toggleSkill name enabled)).
  { unfold toggleSkill.
    apply Logs_tryCatch; [|intros; apply Logs_ret].
    apply Logs_bind; [now apply Logs_ensureDirectories | intros _].
    apply Logs_bind; [apply LogsVal_Logs, LogsVal_existsSync | intros present].
    destruct (negb present); [apply Logs_ret|].
    apply Logs_bind; [|intros; apply Logs_ret].
    now apply Logs_renameSync. }
  destruct (Ha w) as (ra & ea & Hra & Hqa).
  destruct (Hs w) as (rs & es & Hrs & Hqs).
  destruct (Runs_events _ _ _ _ Hra) as (-> & _ & ->).
  destruct (Runs_events _ _ _ _ Hrs) as (-> & _ & ->).
  repeat split; try assumption; now apply backups_replay_mkdirOrMove.
Qed.


(** ** The order of the list *)

(** Among entries of one name the user-level entry comes last: the
    comparator reads the priority [0] of ['user'] as missing and takes [99]
    for it, so every other source goes before it. *)
Theorem compareServers_puts_user_last (a b : MCPServer) :
  localeCompare (mcp_name a) (mcp_name b) = 0%Z ->
  mcp_source a = Active user ->
  mcp_source b <> Active user ->
  (0 < compareServers a b)%Z.
Proof.
  intros Hn Ha Hb. unfold compareServers. rewrite Hn, Ha. simpl.
  destruct (mcp_source b) as [[| |]|]; simpl; try lia. now elim Hb.
Qed.


(** ** [deleteMcp] *)

Lemma deleteMcp_active_run (name : string) (s : Source) (pp dk : option string)
  (w : World) (cfg : MCPConfig) :
  activeConfig w s pp name = Some cfg ->
  exists pre,
    Forall (fun e => backupOnly e = true) pre
    /\ Runs (deleteMcp name (Active s) pp dk) w (Val Success)
         (pre ++ atomicWrite (sourcePath s)
                   (docWithout s pp name (readDoc (sourcePath s) (sourceDefault s) w))).
Proof.
  intros Hfound.
  destruct (ensureDirectories_run w) as ([] & mk0 & Hmk0 & Hq0).
  unfold activeConfig in Hfound.
  destruct s; simpl in Hfound; unfold docWithout, sourcePath, sourceDefault.
  - destruct (doc_mcpServers (readDoc CLAUDE_JSON_PATH emptyDoc w)) as [o|] eqn:Eo;
      [|discriminate].
    destruct (deleteCommit_run "~/.claude.json" ("Before deleting MCP: " +++ name)
                (withServers (readDoc CLAUDE_JSON_PATH emptyDoc w) (obj_delete name o))
                (replay w mk0)) as (pre & Hq & _ & Hrun).
    exists (mk0 ++ pre). split.
    { apply Forall_app. split; [now apply Forall_mkdir_backupOnly | assumption]. }
    eapply Runs_eq.
    + unfold deleteMcp. apply Runs_try_val. eapply Runs_bind; [exact Hmk0|].
      cbn [isDisabledSource andb].
      eapply Runs_bind; [apply readJsonFile_run|]. after_mkdirs Hq0.
      unfold removeServer, lookupServer in *. rewrite Eo, Hfound. exact Hrun.
    + tidy.
  - destruct (truthy pp) eqn:Et; [|discriminate].
    unfold projectServers in Hfound.
    destruct (doc_projects (readDoc CLAUDE_JSON_PATH emptyDoc w)) as [ps|] eqn:Ep;
      [|discriminate].
    destruct (obj_get (interpolate pp) ps) as [pc|] eqn:Epc; [|discriminate].
    destruct (project_mcpServers pc) as [o|] eqn:Em; [|discriminate].
    destruct (deleteCommit_run "~/.claude.json" ("Before deleting local MCP: " +++ name)
                (withProjects (readDoc CLAUDE_JSON_PATH emptyDoc w)
                   (obj_set (interpolate pp) (mkProject (Some (obj_delete name o))) ps))
                (replay w mk0)) as (pre & Hq & _ & Hrun).
    exists (mk0 ++ pre). split.
    { apply Forall_app. split; [now apply Forall_mkdir_backupOnly | assumption]. }
    eapply Runs_eq.
    + unfold deleteMcp. apply Runs_try_val. eapply Runs_bind; [exact Hmk0|].
      cbn [isDisabledSource andb]. rewrite Et.
      eapply Runs_bind; [apply readJsonFile_run|]. after_mkdirs Hq0.
      unfold removeProjectServer, projectServers, lookupServer in *.
      rewrite Ep, Epc, Em, Hfound. exact Hrun.
    + tidy.
  - destruct (doc_mcpServers (readDoc MCP_JSON_PATH mcpJsonDefault w)) as [o|] eqn:Eo;
      [|discriminate].
    destruct (deleteCommit_run "~/.claude/mcp.json" ("Before deleting MCP: " +++ name)
                (withServers (readDoc MCP_JSON_PATH mcpJsonDefault w) (obj_delete name o))
                (replay w mk0)) as (pre & Hq & _ & Hrun).
    exists (mk0 ++ pre). split.
    { apply Forall_app. split; [now apply Forall_mkdir_backupOnly | assumption]. }
    eapply Runs_eq.
    + unfold deleteMcp. apply Runs_try_val. eapply Runs_bind; [exact Hmk0|].
      cbn [isDisabledSource andb].
      eapply Runs_bind; [apply readJsonFile_run|]. after_mkdirs Hq0.
      unfold removeServer, lookupServer in *. rewrite Eo, Hfound. exact Hrun.
    + tidy.
Qed.

Lemma deleteMcp_archived_run (name key : string) (pp : option string) (w : World)
  (entry : DisabledMCPEntry) (o : Obj DisabledMCPEntry) :
  isEmptyString key = false ->
  doc_disabled (readDoc MCP_DISABLED_PATH disabledDefault w) = Some o ->
  obj_get key o = Some entry ->
  exists pre,
    Forall (fun e => backupOnly e = true) pre
    /\ Runs (deleteMcp name Disabled pp (Some key)) w (Val Success)
         (pre ++ atomicWrite MCP_DISABLED_PATH
                   (withDisabled (readDoc MCP_DISABLED_PATH disabledDefault w)
                      (obj_delete key o))).
Proof.
  intros Hkey Ed Hget.
  destruct (ensureDirectories_run w) as ([] & mk0 & Hmk0 & Hq0).
  destruct (deleteCommit_run "~/.claude/.config-manager/mcp-disabled.json"
              ("Before deleting disabled MCP: " +++ name)
              (withDisabled (readDoc MCP_DISABLED_PATH disabledDefault w) (obj_delete key o))
              (replay w mk0)) as (pre & Hq & _ & Hrun).
  exists (mk0 ++ pre). split.
  { apply Forall_app. split; [now apply Forall_mkdir_backupOnly | assumption]. }
  eapply Runs_eq.
  - unfold deleteMcp. apply Runs_try_val. eapply Runs_bind; [exact Hmk0|].
    cbn [isDisabledSource andb truthy interpolate]. rewrite Hkey. cbn [negb].
    eapply Runs_bind; [apply readJsonFile_run|]. after_mkdirs Hq0.
    unfold archiveGet, archiveRemove. rewrite Ed.
    eapply Runs_bind; [apply Runs_ret|]. rewrite Hget. exact Hrun.
  - tidy.
Qed.

(** What is left of a store after events that keep to the backups
    directory and one atomic write of the store. *)
Lemma written_store_states (store : string) (d : JsonDoc) (pre : list Event) (w : World) :
  Forall (fun e => backupOnly e = true) pre ->
  (forall def, readDoc (Abs store) def (replay w (pre ++ atomicWrite (Abs store) d)) = d)
  /\ (forall q, q <> store -> q <> store +++ ".tmp" ->
        lookupFile (Abs q) (replay w (pre ++ atomicWrite (Abs store) d))
        = lookupFile (Abs q) w).
Proof.
  intros Hq. rewrite replay_app. split.
  - intros def. eapply readDoc_written. apply atomicWrite_lookup_same.
  - intros q H1 H2. rewrite atomicWrite_lookup_other.
    + now apply lookup_replay_backupOnly.
    + congruence.
    + simpl. congruence.
Qed.




(** [deleteMcp] of an archived entry succeeds and removes that entry and
    nothing else: the other entries stay archived and no file outside the
    backups directory changes but the archive, so nothing becomes live. *)
Theorem deleteMcp_removes_only_the_archived_entry (name key : string)
  (pp : option string) (w : World) (entry : DisabledMCPEntry) :
  archived w key = Some entry ->
  isEmptyString key = false ->
  value (deleteMcp name Disabled pp (Some key) w) = Val Success
  /\ archived (final (deleteMcp name Disabled pp (Some key) w)) key = None
  /\ (forall other, other <> key ->
        archived (final (deleteMcp name Disabled pp (Some key) w)) other
        = archived w other)
  /\ (forall q, Abs q <> MCP_DISABLED_PATH -> Abs q <> pathAppend MCP_DISABLED_PATH ".tmp" ->
        lookupFile (Abs q) (final (deleteMcp name Disabled pp (Some key) w))
        = lookupFile (Abs q) w).
Proof.
  intros Harch Hkey.
  destruct (archived_inv _ _ _ Harch) as (o & Ed & Hget).
  destruct (deleteMcp_archived_run name key pp w entry o Hkey Ed Hget) as (pre & Hq & Hrun).
  destruct (Runs_events _ _ _ _ Hrun) as (_ & Hv & ->).
  split; [exact Hv|]. clear Hrun Hv.
  destruct (written_store_states "~/.claude/.config-manager/mcp-disabled.json"
              (withDisabled (readDoc MCP_DISABLED_PATH disabledDefault w) (obj_delete key o))
              pre w Hq) as (Hsame & Hother).
  split; [|split].
  - unfold archived. change MCP_DISABLED_PATH
      with (Abs "~/.claude/.config-manager/mcp-disabled.json") in *.
    rewrite Hsame. simpl. apply obj_get_delete_same.
  - intros other Hne. unfold archived. change MCP_DISABLED_PATH
      with (Abs "~/.claude/.config-manager/mcp-disabled.json") in *.
    rewrite Hsame, Ed. simpl. now apply obj_get_delete_other.
  - intros q H1 H2. unfold MCP_DISABLED_PATH in H1, H2. simpl in H2.
    apply Hother; simpl; congruence.
Qed.

(** The two ways a [deleteMcp] call ends: a success after one atomic write
    of one store, or a failure after nothing but directory creation. *)
Lemma deleteMcp_cases (name : string) (source : ServerSource) (pp dk : option string)
  (w : World) :
  (exists pre store d,
      Forall (fun e => backupOnly e = true) pre
      /\ Runs (deleteMcp name source pp dk) w (Val Success) (pre ++ atomicWrite store d))
  \/ (exists err mk,
         Runs (deleteMcp name source pp dk) w (Val (Failure err)) mk
         /\ Forall (fun e => isMkdir e = true) mk).
Proof.
  destruct (ensureDirectories_run w) as ([] & mk0 & Hmk0 & Hq0).
  destruct (isDisabledSource source && truthy dk) eqn:Eb.
  - destruct source as [s|]; [discriminate|]. destruct dk as [key|]; [|discriminate].
    assert (Hkey : isEmptyString key = false).
    { simpl in Eb. now destruct (isEmptyString key). }
    destruct (doc_disabled (readDoc MCP_DISABLED_PATH disabledDefault w)) as [o|] eqn:Ed.
    + destruct (obj_get key o) as [entry|] eqn:Eg.
      * left. destruct (deleteMcp_archived_run name key pp w entry o Hkey Ed Eg)
          as (pre & Hq & Hrun). eauto 6.
      * right. exists (DisabledNotFound key), mk0. split; [|assumption].
        eapply Runs_eq.
        -- unfold deleteMcp. apply Runs_try_val. eapply Runs_bind; [exact Hmk0|].
           rewrite Eb. eapply Runs_bind; [apply readJsonFile_run|]. after_mkdirs Hq0.
           unfold archiveGet. rewrite Ed. eapply Runs_bind; [apply Runs_ret|].
           cbn [interpolate]. rewrite Eg. apply Runs_ret.
        -- tidy.
    + right. exists (Exception TypeError), mk0. split; [|assumption].
      eapply Runs_eq.
      * unfold deleteMcp. eapply Runs_try_throw; [|apply Runs_ret].
        eapply Runs_bind; [exact Hmk0|]. rewrite Eb.
        eapply Runs_bind; [apply readJsonFile_run|]. after_mkdirs Hq0.
        unfold archiveGet. rewrite Ed. apply Runs_bind_throw, Runs_throw.
      * tidy.
  - destruct source as [s|].
    + destruct (activeConfig w s pp name) as [cfg|] eqn:Ea.
      * left. destruct (deleteMcp_active_run name s pp dk w cfg Ea) as (pre & Hq & Hrun).
        eauto 6.
      * right. unfold activeConfig in Ea. destruct s; simpl in Ea.
        -- exists (NotFoundIn user name), mk0. split; [|assumption].
           eapply Runs_eq.
           ++ unfold deleteMcp. apply Runs_try_val. eapply Runs_bind; [exact Hmk0|].
              rewrite Eb. eapply Runs_bind; [apply readJsonFile_run|]. after_mkdirs Hq0.
              rewrite Ea. apply Runs_ret.
           ++ tidy.
        -- destruct (truthy pp) eqn:Et.
           ++ exists (NotFoundIn local name), mk0. split; [|assumption].
              eapply Runs_eq.
              ** unfold deleteMcp. apply Runs_try_val. eapply Runs_bind; [exact Hmk0|].
                 rewrite Eb, Et. eapply Runs_bind; [apply readJsonFile_run|].
                 after_mkdirs Hq0. rewrite Ea. apply Runs_ret.
              ** tidy.
           ++ exists InvalidSourceForDelete, mk0. split; [|assumption].
              eapply Runs_eq.
              ** unfold deleteMcp. apply Runs_try_val. eapply Runs_bind; [exact Hmk0|].
                 rewrite Eb, Et. apply Runs_ret.
              ** tidy.
        -- exists (NotFoundIn mcp_json name), mk0. split; [|assumption].
           eapply Runs_eq.
           ++ unfold deleteMcp. apply Runs_try_val. eapply Runs_bind; [exact Hmk0|].
              rewrite Eb. eapply Runs_bind; [apply readJsonFile_run|]. after_mkdirs Hq0.
              rewrite Ea. apply Runs_ret.
           ++ tidy.
    + right. exists InvalidSourceForDelete, mk0. split; [|assumption].
      eapply Runs_eq.
      * unfold deleteMcp. apply Runs_try_val. eapply Runs_bind; [exact Hmk0|].
        rewrite Eb. apply Runs_ret.
      * tidy.
Qed.

(** [deleteMcp] never throws, and a call that reports a failure has changed
    no file: neither a store, nor the archive, nor the backups directory. *)
Theorem deleteMcp_fails_without_changes (name : string) (source : ServerSource)
  (pp dk : option string) (w : World) :
  (exists r, value (deleteMcp name source pp dk w) = Val r)
  /\ forall err,
       value (deleteMcp name source pp dk w) = Val (Failure err) ->
       fileEvents (events (deleteMcp name source pp dk w)) = []
       /\ files (final (deleteMcp name source pp dk w)) = files w
       /\ backups (final (deleteMcp name source pp dk w)) = backups w.
Proof.
  destruct (deleteMcp_cases name source pp dk w)
    as [(pre & store & d & Hq & Hrun) | (err0 & mk & Hrun & Hmk)];
    destruct (Runs_events _ _ _ _ Hrun) as (He & Hv & Hf); rewrite Hv, He, Hf.
  - split; [eauto|]. intros err H. discriminate.
  - split; [eauto|]. intros err _. split; [now apply fileEvents_mkdir|]. split.
    + now apply files_replay_backupOnly, Forall_mkdir_backupOnly.
    + now apply backups_replay_mkdir.
Qed.


(** ** Moving agents *)

Lemma agent_paths_differ (filename : string) (a b : bool) :
  a <> b -> agentPath (agentDir a) filename <> agentPath (agentDir b) filename.
Proof.
  intros Hab E. destruct a, b; try (now elim Hab); simpl in E; discriminate.
Qed.

Lemma Runs_renameSync (src dst : Path) (w : World) (f : File) :
  lookupFile src w = Some f -> Runs (renameSync src dst) w (Val tt) [EvRename src dst].
Proof. unfold Runs, renameSync. now intros ->. Qed.

Lemma toggleAgent_run (filename : string) (enabled : bool) (w : World) (f : File) :
  lookupFile (agentPath (agentDir (negb enabled)) filename) w = Some f ->
  exists mk,
    Forall (fun e => isMkdir e = true) mk
    /\ Runs (toggleAgent filename enabled) w (Val Success)
         (mk ++ [EvRename (agentPath (agentDir (negb enabled)) filename)
                   (agentPath (agentDir enabled) filename)]).
Proof.
  intros Hsrc.
  destruct (ensureDirectories_run w) as ([] & mk0 & Hmk0 & Hq0).
  exists mk0. split; [assumption|].
  unfold toggleAgent. eapply Runs_eq.
  - eapply Runs_bind; [exact Hmk0|].
    eapply Runs_bind; [apply Runs_existsSync|]. rewrite ?replay_nil.
    assert (Hsrc' : lookupFile (if enabled then agentPath AGENTS_DISABLED_DIR filename
                                else agentPath AGENTS_DIR filename) (replay w mk0) = Some f).
    { rewrite lookup_replay_mkdir by assumption. now destruct enabled. }
    rewrite Hsrc'. cbn [negb].
    eapply Runs_bind; [exact (Runs_renameSync _ _ _ f Hsrc') | apply Runs_ret].
  - destruct enabled; simpl; rewrite ?app_nil_r; reflexivity.
Qed.

Lemma toggleAgent_states (filename : string) (enabled : bool)
  (w : World) (f : File) :
  lookupFile (agentPath (agentDir (negb enabled)) filename) w = Some f ->
  value (toggleAgent filename enabled w) = Val Success
  /\ lookupFile (agentPath (agentDir enabled) filename)
       (final (toggleAgent filename enabled w)) = Some f
  /\ lookupFile (agentPath (agentDir (negb enabled)) filename)
       (final (toggleAgent filename enabled w)) = None
  /\ (forall q, q <> agentPath (agentDir enabled) filename ->
        q <> agentPath (agentDir (negb enabled)) filename ->
        lookupFile q (final (toggleAgent filename enabled w)) = lookupFile q w).
Proof.
  intros Hsrc.
  destruct (toggleAgent_run filename enabled w f Hsrc) as (mk & Hmk & Hrun).
  destruct (Runs_events _ _ _ _ Hrun) as (_ & Hv & ->).
  split; [exact Hv|]. rewrite replay_app.
  assert (Hne : agentPath (agentDir (negb enabled)) filename
                <> agentPath (agentDir enabled) filename).
  { apply agent_paths_differ. now destruct enabled. }
  cbn [replay fold_left apply_event].
  rewrite (lookup_replay_mkdir _ mk w Hmk), Hsrc.
  split; [apply lookup_store_same|]. split.
  - rewrite lookup_store_other by assumption. apply lookup_remove_same.
  - intros q H1 H2. rewrite lookup_store_other by assumption.
    rewrite lookup_remove_other by assumption. now apply lookup_replay_mkdir.
Qed.

(** [toggleAgent] moves the file to the other directory whatever is there:
    a file of the same name at the destination is replaced by the moved one
    (and, no snapshot being taken, is lost); no other file changes. *)
Theorem toggleAgent_replaces_the_destination (filename : string) (enabled : bool)
  (w : World) (f g : File) :
  lookupFile (agentPath (agentDir (negb enabled)) filename) w = Some f ->
  lookupFile (agentPath (agentDir enabled) filename) w = Some g ->
  value (toggleAgent filename enabled w) = Val Success
  /\ lookupFile (agentPath (agentDir enabled) filename)
       (final (toggleAgent filename enabled w)) = Some f
  /\ lookupFile (agentPath (agentDir (negb enabled)) filename)
       (final (toggleAgent filename enabled w)) = None
  /\ (forall q, q <> agentPath (agentDir enabled) filename ->
        q <> agentPath (agentDir (negb enabled)) filename ->
        lookupFile q (final (toggleAgent filename enabled w)) = lookupFile q w)
  /\ backups (final (toggleAgent filename enabled w)) = backups w.
Proof.
  intros Hsrc _.
  destruct (toggleAgent_states filename enabled w f Hsrc) as (Hv & Hd & Hs & Ho).
  repeat split; try assumption.
  destruct (toggleAgent_run filename enabled w f Hsrc) as (mk & Hmk & Hrun).
  destruct (Runs_events _ _ _ _ Hrun) as (_ & _ & ->).
  apply backups_replay_mkdirOrMove, Forall_app. split.
  - eapply Forall_impl; [|exact Hmk]. intros [] He; try discriminate; reflexivity.
  - repeat constructor.
Qed.

(** Disabling an agent and enabling it again puts every file back, the
    agent's with its content and modification time, provided no disabled
    agent of that name was there to be overwritten. *)
Theorem toggleAgent_off_and_on_restores (filename : string) (w : World) (f : File) :
  lookupFile (agentPath AGENTS_DIR filename) w = Some f ->
  lookupFile (agentPath AGENTS_DISABLED_DIR filename) w = None ->
  value (toggleAgent filename false w) = Val Success
  /\ value (toggleAgent filename true (final (toggleAgent filename false w))) = Val Success
  /\ forall q,
       lookupFile q (final (toggleAgent filename true (final (toggleAgent filename false w))))
       = lookupFile q w.
Proof.
  intros Hon Hoff.
  destruct (toggleAgent_states filename false w f Hon) as (Hv1 & Hd1 & Hs1 & Ho1).
  destruct (toggleAgent_states filename true (final (toggleAgent filename false w)) f Hd1)
    as (Hv2 & Hd2 & Hs2 & Ho2).
  split; [exact Hv1|]. split; [exact Hv2|]. intros q.
  destruct (Path_eqb_spec q (agentPath AGENTS_DIR filename)) as [->|H1].
  - rewrite Hon. exact Hd2.
  - destruct (Path_eqb_spec q (agentPath AGENTS_DISABLED_DIR filename)) as [->|H2].
    + rewrite Hoff. exact Hs2.
    + rewrite Ho2 by assumption. now apply Ho1.
Qed.


(** ** Manual backups *)

Lemma backupOnly_snapshot (p : Path) (n : string) : backupOnly (EvCopyFile p (InBackups n)) = true.
Proof. reflexivity. Qed.

(** What [createBackup] returns: the path of the copy when the file exists,
    [null] (and nothing done) when it does not. *)
Lemma createBackup_outcome (p : Path) (d : option string) (w : World) :
  exists evs,
    Forall (fun e => backupOnly e = true) evs
    /\ Runs (createBackup p d) w
         (Val (match lookupFile p w with
               | Some _ => Some (InBackups (backupName p (now w)))
               | None => None
               end)) evs
    /\ (lookupFile p w = None -> evs = []).
Proof.
  destruct (lookupFile p w) as [f|] eqn:E.
  - destruct (createBackup_exact p d w f E) as (mk & Hmk & Hexact).
    match type of Hexact with
    | forall cl, Runs _ ?w2 _ _ -> _ =>
        destruct (cleanupOldBackups_run (basename p) w2) as ([] & cl & Hcl & Hqcl)
    end.
    eexists. split; [|split; [exact (Hexact cl Hcl) | discriminate]].
    apply Forall_app. split; [now apply Forall_mkdir_backupOnly|].
    repeat constructor. exact Hqcl.
  - exists []. split; [constructor|]. split; [|reflexivity].
    unfold Runs, createBackup, bind, existsSync, inspect. now rewrite E.
Qed.

(** [createManualBackup] reports the copy of [~/.claude.json] when that file
    exists, else the copy of [mcp.json], and fails when neither file exists,
    having then made no [fs] call that changes anything; in every case the
    files outside the backups directory are as before. *)
Theorem createManualBackup_reports_first_copy (description : option string) (w : World) :
  value (createManualBackup description w)
  = Val (match lookupFile CLAUDE_JSON_PATH w, lookupFile MCP_JSON_PATH w with
         | Some _, _ => Ok (InBackups (backupName CLAUDE_JSON_PATH (now w)))
         | None, Some _ => Ok (InBackups (backupName MCP_JSON_PATH (now w)))
         | None, None => Refused NoBackupMade
         end)
  /\ files (final (createManualBackup description w)) = files w
  /\ match lookupFile CLAUDE_JSON_PATH w, lookupFile MCP_JSON_PATH w with
     | None, None => events (createManualBackup description w) = []
     | _, _ => True
     end.
Proof.
  destruct (createBackup_outcome CLAUDE_JSON_PATH
              (Some (orElse description "Manual backup")) w) as (e1 & Hq1 & Hr1 & Hn1).
  destruct (createBackup_outcome MCP_JSON_PATH
              (Some (orElse description "Manual backup")) (replay w e1))
    as (e2 & Hq2 & Hr2 & Hn2).
  rewrite now_replay in Hr2.
  assert (Hm : lookupFile MCP_JSON_PATH (replay w e1) = lookupFile MCP_JSON_PATH w)
    by now apply lookup_replay_backupOnly.
  rewrite Hm in Hr2, Hn2.
  assert (Hrun : exists r,
             Runs (createManualBackup description) w (Val r) (e1 ++ e2)
             /\ r = match lookupFile CLAUDE_JSON_PATH w, lookupFile MCP_JSON_PATH w with
                    | Some _, _ => Ok (InBackups (backupName CLAUDE_JSON_PATH (now w)))
                    | None, Some _ => Ok (InBackups (backupName MCP_JSON_PATH (now w)))
                    | None, None => Refused NoBackupMade
                    end).
  { eexists. split; [|reflexivity].
    unfold createManualBackup. apply Runs_try_val. eapply Runs_eq.
    - eapply Runs_bind; [exact Hr1|]. eapply Runs_bind; [exact Hr2|].
      destruct (lookupFile CLAUDE_JSON_PATH w), (lookupFile MCP_JSON_PATH w);
        apply Runs_ret.
    - now rewrite app_nil_r. }
  destruct Hrun as (r & Hrun & ->).
  destruct (Runs_events _ _ _ _ Hrun) as (He & Hv & Hf). rewrite Hv, Hf, He.
  split; [reflexivity|]. split.
  - apply files_replay_backupOnly, Forall_app. now split.
  - destruct (lookupFile CLAUDE_JSON_PATH w); [exact I|].
    destruct (lookupFile MCP_JSON_PATH w); [exact I|].
    now rewrite Hn1, Hn2.
Qed.


(** ** The editors: a copy into the backups directory, then a write in place *)

(** The events of the common tail of the editing handlers. *)
Lemma editTail_run {A : Type} (filePath : Path) (bname : nat -> string) (c : Content)
  (a : A) (w : World) :
  Runs (present <- existsSync filePath ;;
        (if present then
           t <- inspect now ;;
           copyFileSync filePath (InBackups (bname t))
         else ret tt) ;;;
        writeFileSync filePath c ;;;
        ret a) w (Val a)
    (match lookupFile filePath w with
     | Some _ => [EvCopyFile filePath (InBackups (bname (now w)))]
     | None => []
     end ++ [EvWriteFile filePath c]).
Proof.
  destruct (lookupFile filePath w) as [f|] eqn:E.
  - eapply Runs_eq.
    + eapply Runs_bind; [apply Runs_existsSync|]. rewrite E, ?replay_nil.
      eapply Runs_bind.
      { eapply Runs_bind; [apply Runs_inspect|]. rewrite ?replay_nil.
        exact (Runs_copyFileSync _ _ _ f E). }
      eapply Runs_bind; [apply Runs_emit | apply Runs_ret].
    + reflexivity.
  - eapply Runs_eq.
    + eapply Runs_bind; [apply Runs_existsSync|]. rewrite E, ?replay_nil.
      eapply Runs_bind; [apply Runs_ret|].
      eapply Runs_bind; [apply Runs_emit | apply Runs_ret].
    + reflexivity.
Qed.

(** The disk after such an edit of the file [s]. *)
Lemma edit_states (s n : string) (c : Content) (mk : list Event) (w : World) :
  Forall (fun e => isMkdir e = true) mk ->
  let st := replay w (mk ++ match lookupFile (Abs s) w with
                            | Some _ => [EvCopyFile (Abs s) (InBackups n)]
                            | None => []
                            end ++ [EvWriteFile (Abs s) c]) in
  lookupFile (Abs s) st = Some (mkFile c (now w))
  /\ (forall q, q <> s -> lookupFile (Abs q) st = lookupFile (Abs q) w)
  /\ (forall f, lookupFile (Abs s) w = Some f ->
        lookupFile (InBackups n) st = Some (mkFile (content f) (now w)))
  /\ (forall m, m <> n -> lookupFile (InBackups m) st = lookupFile (InBackups m) w)
  /\ (lookupFile (Abs s) w = None -> backups st = backups w).
Proof.
  intros Hmk st. subst st. rewrite replay_app.
  pose proof (lookup_replay_mkdir (Abs s) mk w Hmk) as Hs.
  pose proof (now_replay mk w) as Hn.
  pose proof (backups_replay_mkdir mk w Hmk) as Hb.
  assert (Hl : forall q, lookupFile q (replay w mk) = lookupFile q w)
    by (intros q; now apply lookup_replay_mkdir).
  set (w1 := replay w mk) in *.
  destruct (lookupFile (Abs s) w) as [f|] eqn:E; cbn [app replay fold_left apply_event].
  - rewrite Hs. cbn [storeFile lookupFile files backups now]. rewrite Hn.
    split; [apply obj_get_set_same|]. split.
    { intros q Hq. rewrite obj_get_set_other by assumption. apply (Hl (Abs q)). }
    split.
    { intros f' Hf'. injection Hf' as <-. apply obj_get_set_same. }
    split.
    { intros m Hm. rewrite obj_get_set_other by assumption. apply (Hl (InBackups m)). }
    discriminate.
  - cbn [storeFile lookupFile files backups now]. rewrite Hn.
    split; [apply obj_get_set_same|]. split.
    { intros q Hq. rewrite obj_get_set_other by assumption. apply (Hl (Abs q)). }
    split; [discriminate|]. split.
    { intros m _. apply (Hl (InBackups m)). }
    intros _. exact Hb.
Qed.

(** *** ['mcp:writeConfig'] and ['mcp:readConfig'] *)

Lemma configPath_Abs (type : string) :
  configPath type
  = Abs (if String.eqb type "claude" then "~/.claude.json" else "~/.claude/mcp.json").
Proof. unfold configPath. now destruct (String.eqb type "claude"). Qed.

Lemma mcp_writeConfig_run (type : string) (v : JsonValue) (w : World) :
  exists mk,
    Forall (fun e => isMkdir e = true) mk
    /\ Runs (mcp_writeConfig type (JsonText v)) w (Val (Ok true))
         (mk ++ match lookupFile (configPath type) w with
                | Some _ =>
                    [EvCopyFile (configPath type)
                       (InBackups (basename (configPath type) +++ ".backup-"
                                   +++ dateNow (now w)))]
                | None => []
                end ++ [EvWriteFile (configPath type) (JsonText v)]).
Proof.
  destruct (ensureDirectories_run w) as ([] & mk0 & Hmk0 & Hq0).
  exists mk0. split; [assumption|].
  unfold mcp_writeConfig. apply Runs_try_val.
  eapply Runs_bind; [exact Hmk0|].
  eapply Runs_eq.
  - eapply Runs_bind; [apply Runs_ret|]. rewrite ?replay_nil.
    apply (editTail_run (configPath type)
             (fun t => basename (configPath type) +++ ".backup-" +++ dateNow t)).
  - rewrite lookup_replay_mkdir, now_replay by assumption. reflexivity.
Qed.

(** ['mcp:writeConfig'] refuses text that is not JSON and then changes no
    file; the directories of [ensureDirectories] apart, the disk is as
    before. *)
Theorem mcp_writeConfig_refuses_malformed_text (type raw : string) (w : World) :
  value (mcp_writeConfig type (Text raw) w) = Val (Refused InvalidJson)
  /\ fileEvents (events (mcp_writeConfig type (Text raw) w)) = []
  /\ files (final (mcp_writeConfig type (Text raw) w)) = files w
  /\ backups (final (mcp_writeConfig type (Text raw) w)) = backups w.
Proof.
  destruct (ensureDirectories_run w) as ([] & mk0 & Hmk0 & Hq0).
  assert (Hrun : Runs (mcp_writeConfig type (Text raw)) w (Val (Refused InvalidJson)) mk0).
  { unfold mcp_writeConfig. eapply Runs_eq.
    - eapply Runs_try_throw;
        [eapply Runs_eq;
         [eapply Runs_bind; [exact Hmk0|]; apply Runs_bind_throw, Runs_throw
         | reflexivity]
        | apply Runs_ret].
    - now rewrite !app_nil_r. }
  destruct (Runs_events _ _ _ _ Hrun) as (-> & -> & ->).
  split; [reflexivity|]. split; [now apply fileEvents_mkdir|]. split.
  - now apply files_replay_backupOnly, Forall_mkdir_backupOnly.
  - now apply backups_replay_mkdir.
Qed.

(** ['mcp:writeConfig'] of a JSON document succeeds: the file then holds the
    document, written in place; the content the file had is kept in the
    backups directory under [<basename>.backup-<ms>]; the other files are
    untouched; and ['mcp:readConfig'] returns the document for that file
    and what it returned before for the other one. *)
Theorem mcp_writeConfig_then_readConfig (type : string) (v : JsonValue) (w : World) :
  value (mcp_writeConfig type (JsonText v) w) = Val (Ok true)
  /\ lookupFile (configPath type) (final (mcp_writeConfig type (JsonText v) w))
     = Some (mkFile (JsonText v) (now w))
  /\ (forall f, lookupFile (configPath type) w = Some f ->
        lookupFile (InBackups (basename (configPath type) +++ ".backup-" +++ dateNow (now w)))
          (final (mcp_writeConfig type (JsonText v) w))
        = Some (mkFile (content f) (now w)))
  /\ (forall q, Abs q <> configPath type ->
        lookupFile (Abs q) (final (mcp_writeConfig type (JsonText v) w))
        = lookupFile (Abs q) w)
  /\ existsb isRename (events (mcp_writeConfig type (JsonText v) w)) = false
  /\ value (mcp_readConfig (final (mcp_writeConfig type (JsonText v) w)))
     = Val (Ok (if String.eqb type "claude"
                then (asConfig v, readDoc MCP_JSON_PATH mcpJsonDefault w)
                else (readDoc CLAUDE_JSON_PATH mcpJsonDefault w, asConfig v))).
Proof.
  destruct (mcp_writeConfig_run type v w) as (mk & Hmk & Hrun).
  destruct (Runs_events _ _ _ _ Hrun) as (He & Hv & Hf). rewrite Hv, Hf, He.
  clear Hrun Hv Hf He. revert mk Hmk. rewrite (configPath_Abs type).
  set (s := if String.eqb type "claude" then "~/.claude.json" else "~/.claude/mcp.json").
  intros mk Hmk.
  destruct (edit_states s (basename (Abs s) +++ ".backup-" +++ dateNow (now w))
              (JsonText v) mk w Hmk) as (Hsame & Hother & Hcopy & _ & _).
  split; [reflexivity|]. split; [exact Hsame|]. split; [exact Hcopy|]. split.
  { intros q Hq. apply Hother. congruence. }
  split.
  { rewrite !existsb_app. 
    assert (Hk : existsb isRename mk = false).
    { clear -Hmk. induction Hmk as [|e r He _ IH]; [reflexivity|].
      simpl. rewrite IH. destruct e; try discriminate; reflexivity. }
    rewrite Hk. now destruct (lookupFile (Abs s) w). }
  match goal with
  | |- value (mcp_readConfig ?st) = _ =>
      assert (Hr : Runs mcp_readConfig st
                     (Val (Ok (readDoc CLAUDE_JSON_PATH mcpJsonDefault st,
                               readDoc MCP_JSON_PATH mcpJsonDefault st))) [])
  end.
  { unfold mcp_readConfig. apply Runs_try_val. eapply Runs_eq.
    - eapply Runs_bind; [apply readJsonFile_run|].
      eapply Runs_bind; [apply readJsonFile_run|]. apply Runs_ret.
    - reflexivity. }
  destruct (Runs_events _ _ _ _ Hr) as (_ & -> & _). f_equal. f_equal.
  subst s. unfold CLAUDE_JSON_PATH, MCP_JSON_PATH.
  destruct (String.eqb type "claude").
  - f_equal.
    + unfold readDoc at 1. now rewrite Hsame.
    + apply readDoc_congr, Hother. discriminate.
  - f_equal.
    + apply readDoc_congr, Hother. discriminate.
    + unfold readDoc at 1. now rewrite Hsame.
Qed.


(** ** [listBackups] *)

Lemma insertBy_perm {A : Type} (cmp : A -> A -> Z) (x : A) (l : list A) :
  Permutation (insertBy cmp x l) (x :: l).
Proof.
  induction l as [|y r IH]; simpl; [apply Permutation_refl|].
  destruct (cmp x y <=? 0)%Z; [apply Permutation_refl|].
  eapply perm_trans; [apply perm_skip, IH | apply perm_swap].
Qed.

Lemma sortBy_perm {A : Type} (cmp : A -> A -> Z) (l : list A) :
  Permutation (sortBy cmp l) l.
Proof.
  induction l as [|x r IH]; simpl; [constructor|].
  eapply perm_trans; [apply insertBy_perm | now apply perm_skip].
Qed.

Lemma sortBy_In {A : Type} (cmp : A -> A -> Z) (l : list A) (x : A) :
  In x (sortBy cmp l) <-> In x l.
Proof.
  split; apply Permutation_in; [apply sortBy_perm | apply Permutation_sym, sortBy_perm].
Qed.

Lemma insertBy_ext {A : Type} (cmp cmp' : A -> A -> Z) (x : A) (l : list A) :
  (forall y, In y l -> cmp x y = cmp' x y) -> insertBy cmp x l = insertBy cmp' x l.
Proof.
  induction l as [|y r IH]; intros H; simpl; [reflexivity|].
  rewrite (H y (or_introl eq_refl)), IH; [reflexivity|]. intros z Hz. apply H. now right.
Qed.

Lemma sortBy_ext {A : Type} (cmp cmp' : A -> A -> Z) (l : list A) :
  (forall x y, In x l -> In y l -> cmp x y = cmp' x y) -> sortBy cmp l = sortBy cmp' l.
Proof.
  induction l as [|x r IH]; intros H; simpl; [reflexivity|].
  rewrite <- IH by (intros; apply H; now right).
  apply insertBy_ext. intros y Hy. apply H; [now left|]. right. now apply sortBy_In in Hy.
Qed.

(** Sorting on the difference of a key puts the larger keys first. *)
Lemma insertBy_key_sorted {A : Type} (key : A -> Z) (x : A) (l : list A) :
  StronglySorted (fun a b => (key b <= key a)%Z) l ->
  StronglySorted (fun a b => (key b <= key a)%Z)
    (insertBy (fun a b => (key b - key a)%Z) x l).
Proof.
  induction 1 as [|y r Hr IH Hy]; simpl.
  - repeat constructor.
  - destruct (Z.leb_spec (key y - key x) 0) as [Hle|Hgt].
    + constructor; [now constructor|]. constructor; [lia|].
      eapply Forall_impl; [|exact Hy]. simpl. intros z Hz. lia.
    + constructor; [exact IH|].
      eapply Permutation_Forall; [apply Permutation_sym, insertBy_perm|].
      constructor; [lia | exact Hy].
Qed.

Lemma sortBy_key_sorted {A : Type} (key : A -> Z) (l : list A) :
  StronglySorted (fun a b => (key b <= key a)%Z)
    (sortBy (fun a b => (key b - key a)%Z) l).
Proof.
  induction l as [|x r IH]; simpl; [constructor | now apply insertBy_key_sorted].
Qed.

Lemma In_pushed {A : Type} (l : list (option A)) (x : A) :
  In x (pushed l) <-> In (Some x) l.
Proof.
  induction l as [|[y|] r IH]; simpl; [tauto| |].
  - rewrite IH. split; (intros [H|H]; [left; congruence | now right]).
  - rewrite IH. split; [now right | intros [H|H]; [discriminate | assumption]].
Qed.

Lemma listEntry_run (file : string) (w : World) :
  Runs (listEntry file) w (Val (listed w file)) [].
Proof.
  unfold Runs, listEntry, listed.
  destruct (endsWith ".meta.json" file); [reflexivity|].
  destruct (lookupFile (InBackups (file +++ ".meta.json")) w) as [f|] eqn:E;
    unfold bind, existsSync, inspect, tryCatch, readFileSync; rewrite ?E; simpl;
    rewrite ?E; [|reflexivity].
  destruct (content f); reflexivity.
Qed.

Lemma mapM_listEntry (l : list string) (w : World) :
  Runs (mapM listEntry l) w (Val (map (listed w) l)) [].
Proof.
  induction l as [|x r IH]; [reflexivity|]. cbn [mapM map].
  eapply Runs_eq.
  - eapply Runs_bind; [apply listEntry_run|].
    eapply Runs_bind; [exact IH | apply Runs_ret].
  - reflexivity.
Qed.

Lemma listed_congr (w1 w2 : World) (file : string) :
  backups w1 = backups w2 -> listed w1 file = listed w2 file.
Proof. unfold listed, lookupFile. now intros ->. Qed.

Section ListFacts.

Context {D : Dates}.

Lemma listBackups_run (w : World) :
  exists mk,
    Forall (fun e => isMkdir e = true) mk
    /\ Runs listBackups w
         (Val (sortBy newestStampFirst
                 (pushed (map (listed w) (obj_keys (backups w)))))) mk.
Proof.
  destruct (ensureDirectories_run w) as ([] & mk0 & Hmk0 & Hq0).
  exists mk0. split; [assumption|].
  pose proof (backups_replay_mkdir mk0 w Hq0) as Hb.
  assert (Hl : map (listed (replay w mk0)) (obj_keys (backups (replay w mk0)))
               = map (listed w) (obj_keys (backups w))).
  { rewrite Hb. apply map_ext. intros f. now apply listed_congr. }
  rewrite <- Hl.
  unfold listBackups. eapply Runs_eq.
  - eapply Runs_bind; [exact Hmk0|].
    eapply Runs_bind; [apply Runs_try_val, Runs_inspect|]. rewrite ?replay_nil.
    eapply Runs_bind; [apply mapM_listEntry | apply Runs_ret].
  - now rewrite !app_nil_r.
Qed.

(** [listBackups] never throws and changes no file.  An entry is in its
    list exactly when it is the entry of a name of the backups directory
    that does not end in [.meta.json] and has a sidecar [<name>.meta.json]
    holding JSON, with the timestamp and the description of the sidecar: a
    copy without a sidecar is not listed. *)
Theorem listBackups_lists_the_copies_with_a_sidecar (w : World) :
  exists l,
    value (listBackups w) = Val l
    /\ fileEvents (events (listBackups w)) = []
    /\ files (final (listBackups w)) = files w
    /\ backups (final (listBackups w)) = backups w
    /\ forall info,
         In info l <->
         exists file f v,
           In file (obj_keys (backups w))
           /\ endsWith ".meta.json" file = false
           /\ lookupFile (InBackups (file +++ ".meta.json")) w = Some f
           /\ content f = JsonText v
           /\ info = mkBackupInfo (InBackups file) (metaField v "timestamp")
                       (metaField v "description").
Proof.
  destruct (listBackups_run w) as (mk & Hmk & Hrun).
  destruct (Runs_events _ _ _ _ Hrun) as (-> & -> & ->).
  eexists. split; [reflexivity|]. split; [now apply fileEvents_mkdir|]. split.
  { now apply files_replay_backupOnly, Forall_mkdir_backupOnly. }
  split; [now apply backups_replay_mkdir|].
  intros info. rewrite sortBy_In, In_pushed, in_map_iff. unfold listed. split.
  - intros (file & Hl & Hin). exists file.
    destruct (endsWith ".meta.json" file); [discriminate|].
    destruct (lookupFile (InBackups (file +++ ".meta.json")) w) as [f|]; [|discriminate].
    destruct (content f) as [raw|v] eqn:Ec; [discriminate|].
    exists f, v. injection Hl as <-. auto.
  - intros (file & f & v & Hin & He & Hf & Hc & ->). exists file.
    rewrite He, Hf, Hc. auto.
Qed.

(** When the timestamp of every listed entry is a date, the list is in
    order of time, newest first. *)
Theorem listBackups_newest_first (w : World) (l : list BackupInfo) :
  value (listBackups w) = Val l ->
  (forall info, In info l -> dateGetTime (info_timestamp info) <> None) ->
  StronglySorted (fun a b => (stampTime b <= stampTime a)%Z) l.
Proof.
  intros Hv Hdates.
  destruct (listBackups_run w) as (mk & Hmk & Hrun).
  destruct (Runs_events _ _ _ _ Hrun) as (_ & Hv' & _). rewrite Hv' in Hv.
  injection Hv as <-.
  set (raw := pushed (map (listed w) (obj_keys (backups w)))) in *.
  rewrite (sortBy_ext newestStampFirst (fun a b => (stampTime b - stampTime a)%Z)).
  - apply sortBy_key_sorted.
  - intros a b Ha Hb. unfold newestStampFirst, stampTime.
    pose proof (Hdates a (proj2 (sortBy_In _ _ _) Ha)) as Da.
    pose proof (Hdates b (proj2 (sortBy_In _ _ _) Hb)) as Db.
    destruct (dateGetTime (info_timestamp a)); [|now elim Da].
    destruct (dateGetTime (info_timestamp b)); [reflexivity | now elim Db].
Qed.

End ListFacts.


(** *** ['agent:writeContent'], ['agent:readContent'] and [deleteAgent] *)

Lemma agent_writeContent_run (filename : string) (c : Content) (isEnabled : bool)
  (w : World) :
  exists mk,
    Forall (fun e => isMkdir e = true) mk
    /\ Runs (agent_writeContent filename c isEnabled) w (Val (Ok tt))
         (mk ++ match lookupFile (agentPath (agentDir isEnabled) filename) w with
                | Some _ =>
                    [EvCopyFile (agentPath (agentDir isEnabled) filename)
                       (InBackups (filename +++ ".backup-" +++ dateNow (now w)))]
                | None => []
                end ++ [EvWriteFile (agentPath (agentDir isEnabled) filename) c]).
Proof.
  destruct (ensureDirectories_run w) as ([] & mk0 & Hmk0 & Hq0).
  exists mk0. split; [assumption|].
  unfold agent_writeContent. apply Runs_try_val.
  eapply Runs_bind; [exact Hmk0|].
  eapply Runs_eq.
  - apply (editTail_run (agentPath (agentDir isEnabled) filename)
             (fun t => filename +++ ".backup-" +++ dateNow t)).
  - rewrite lookup_replay_mkdir, now_replay by assumption. reflexivity.
Qed.

Lemma Runs_readFileSync (p : Path) (w : World) (f : File) :
  lookupFile p w = Some f -> Runs (readFileSync p) w (Val (content f)) [].
Proof. unfold Runs, readFileSync. now intros ->. Qed.

Lemma agent_readContent_value (filename : string) (isEnabled : bool) (w : World) :
  value (agent_readContent filename isEnabled w)
  = Val (match lookupFile (agentPath (agentDir isEnabled) filename) w with
         | Some f => Ok (content f, agentPath (agentDir isEnabled) filename)
         | None => Refused FileNotFound
         end).
Proof.
  destruct (lookupFile (agentPath (agentDir isEnabled) filename) w) as [f|] eqn:E.
  - assert (Hrun : Runs (agent_readContent filename isEnabled) w
                     (Val (Ok (content f, agentPath (agentDir isEnabled) filename))) []).
    { unfold agent_readContent. apply Runs_try_val. eapply Runs_eq.
      - eapply Runs_bind; [apply Runs_existsSync|]. rewrite E, ?replay_nil. cbn [negb].
        eapply Runs_bind; [exact (Runs_readFileSync _ _ f E) | apply Runs_ret].
      - reflexivity. }
    now destruct (Runs_events _ _ _ _ Hrun) as (_ & -> & _).
  - assert (Hrun : Runs (agent_readContent filename isEnabled) w
                     (Val (Refused FileNotFound)) []).
    { unfold agent_readContent. apply Runs_try_val. eapply Runs_eq.
      - eapply Runs_bind; [apply Runs_existsSync|]. rewrite E. apply Runs_ret.
      - reflexivity. }
    now destruct (Runs_events _ _ _ _ Hrun) as (_ & -> & _).
Qed.

(** Saving an existing agent file from the editor succeeds; the file then
    holds the new content, which ['agent:readContent'] returns; the content
    it had is kept in the backups directory under [<filename>.backup-<ms>];
    no other file outside the backups directory changes. *)
Theorem agent_writeContent_then_readContent (filename : string) (c : Content)
  (isEnabled : bool) (w : World) (f : File) :
  lookupFile (agentPath (agentDir isEnabled) filename) w = Some f ->
  value (agent_writeContent filename c isEnabled w) = Val (Ok tt)
  /\ value (agent_readContent filename isEnabled
              (final (agent_writeContent filename c isEnabled w)))
     = Val (Ok (c, agentPath (agentDir isEnabled) filename))
  /\ lookupFile (InBackups (filename +++ ".backup-" +++ dateNow (now w)))
       (final (agent_writeContent filename c isEnabled w))
     = Some (mkFile (content f) (now w))
  /\ (forall q, Abs q <> agentPath (agentDir isEnabled) filename ->
        lookupFile (Abs q) (final (agent_writeContent filename c isEnabled w))
        = lookupFile (Abs q) w).
Proof.
  intros Hf.
  destruct (agent_writeContent_run filename c isEnabled w) as (mk & Hmk & Hrun).
  destruct (Runs_events _ _ _ _ Hrun) as (_ & Hv & ->).
  split; [exact Hv|]. clear Hrun Hv.
  unfold agentPath in *.
  destruct (edit_states (agentDir isEnabled +++ "/" +++ filename)
              (filename +++ ".backup-" +++ dateNow (now w)) c mk w Hmk)
    as (Hsame & Hother & Hcopy & _ & _).
  split; [|split; [now apply Hcopy|]].
  - rewrite agent_readContent_value. unfold agentPath. now rewrite Hsame.
  - intros q Hq. apply Hother. congruence.
Qed.

(** [deleteAgent] of a file that exists copies it into the backups directory
    under [<filename>.deleted-<ms>] and removes it, leaving every other file
    outside the backups directory alone; of a file that does not exist it
    reports that and changes no file. *)
Theorem deleteAgent_keeps_a_copy (filename : string) (isEnabled : bool) (w : World) :
  match lookupFile (agentPath (agentDir isEnabled) filename) w with
  | Some f =>
      value (deleteAgent filename isEnabled w) = Val Success
      /\ lookupFile (agentPath (agentDir isEnabled) filename)
           (final (deleteAgent filename isEnabled w)) = None
      /\ lookupFile (InBackups (filename +++ ".deleted-" +++ dateNow (now w)))
           (final (deleteAgent filename isEnabled w))
         = Some (mkFile (content f) (now w))
      /\ (forall q, Abs q <> agentPath (agentDir isEnabled) filename ->
            lookupFile (Abs q) (final (deleteAgent filename isEnabled w))
            = lookupFile (Abs q) w)
  | None =>
      value (deleteAgent filename isEnabled w) = Val (Failure (AgentFileNotFound filename))
      /\ fileEvents (events (deleteAgent filename isEnabled w)) = []
      /\ files (final (deleteAgent filename isEnabled w)) = files w
      /\ backups (final (deleteAgent filename isEnabled w)) = backups w
  end.
Proof.
  destruct (ensureDirectories_run w) as ([] & mk0 & Hmk0 & Hq0).
  pose proof (lookup_replay_mkdir (agentPath (agentDir isEnabled) filename) mk0 w Hq0) as Hl.
  destruct (lookupFile (agentPath (agentDir isEnabled) filename) w) as [f|] eqn:E.
  - assert (Hrun : Runs (deleteAgent filename isEnabled) w (Val Success)
                     (mk0 ++ [EvCopyFile (agentPath (agentDir isEnabled) filename)
                                (InBackups (filename +++ ".deleted-" +++ dateNow (now w)));
                              EvUnlink (agentPath (agentDir isEnabled) filename)])).
    { unfold deleteAgent. apply Runs_try_val. eapply Runs_bind; [exact Hmk0|].
      eapply Runs_eq.
      - eapply Runs_bind; [apply Runs_existsSync|]. rewrite ?replay_nil, Hl. cbn [negb].
        eapply Runs_bind; [apply Runs_inspect|]. rewrite ?replay_nil, now_replay.
        eapply Runs_bind; [exact (Runs_copyFileSync _ _ _ f Hl)|].
        eapply Runs_bind; [|apply Runs_ret].
        apply (Runs_unlinkSync _ f). cbn [replay fold_left apply_event].
        rewrite Hl. rewrite lookup_store_other by (unfold agentPath; discriminate).
        exact Hl.
      - reflexivity. }
    destruct (Runs_events _ _ _ _ Hrun) as (_ & Hv & ->).
    split; [exact Hv|]. rewrite replay_app.
    cbn [replay fold_left apply_event]. rewrite Hl, now_replay.
    unfold agentPath in *. cbn [storeFile removeFile lookupFile files backups].
    split; [apply obj_get_delete_same|]. split; [apply obj_get_set_same|].
    intros q Hq. rewrite obj_get_delete_other by congruence.
    apply (lookup_replay_mkdir (Abs q) mk0 w Hq0).
  - assert (Hrun : Runs (deleteAgent filename isEnabled) w
                     (Val (Failure (AgentFileNotFound filename))) mk0).
    { unfold deleteAgent. apply Runs_try_val. eapply Runs_eq.
      - eapply Runs_bind; [exact Hmk0|].
        eapply Runs_bind; [apply Runs_existsSync|]. rewrite ?replay_nil, Hl.
        apply Runs_ret.
      - now rewrite !app_nil_r. }
    destruct (Runs_events _ _ _ _ Hrun) as (-> & -> & ->).
    split; [reflexivity|]. split; [now apply fileEvents_mkdir|]. split.
    + now apply files_replay_backupOnly, Forall_mkdir_backupOnly.
    + now apply backups_replay_mkdir.
Qed.

(** *** Skills *)

(** A disabled skill can be read but not edited: [writeSkillContent]
    accepts only folders whose path starts with [SKILLS_DIR], which no folder
    of the disabled-skills directory does, and a refused call changes no
    file. *)
Theorem disabled_skills_are_read_only (name : string) (c : Content) (w : World) :
  value (writeSkillContent (SKILLS_DISABLED_DIR +++ "/" +++ name) c w)
  = Val (Refused OnlyUserSkills)
  /\ fileEvents (events (writeSkillContent (SKILLS_DISABLED_DIR +++ "/" +++ name) c w)) = []
  /\ files (final (writeSkillContent (SKILLS_DISABLED_DIR +++ "/" +++ name) c w)) = files w
  /\ match lookupFile (skillMdPath (SKILLS_DISABLED_DIR +++ "/" +++ name)) w with
     | Some f =>
         value (readSkillContent (SKILLS_DISABLED_DIR +++ "/" +++ name) w)
         = Val (Ok (content f))
     | None =>
         value (readSkillContent (SKILLS_DISABLED_DIR +++ "/" +++ name) w)
         = Val (Refused SkillMdNotFound)
     end.
Proof.
  destruct (ensureDirectories_run w) as ([] & mk0 & Hmk0 & Hq0).
  assert (Hrun : Runs (writeSkillContent (SKILLS_DISABLED_DIR +++ "/" +++ name) c) w
                   (Val (Refused OnlyUserSkills)) mk0).
  { unfold writeSkillContent. apply Runs_try_val. eapply Runs_eq.
    - eapply Runs_bind; [exact Hmk0|]. apply Runs_ret.
    - now rewrite app_nil_r. }
  destruct (Runs_events _ _ _ _ Hrun) as (-> & -> & ->).
  split; [reflexivity|]. split; [now apply fileEvents_mkdir|]. split.
  { now apply files_replay_backupOnly, Forall_mkdir_backupOnly. }
  destruct (lookupFile (skillMdPath (SKILLS_DISABLED_DIR +++ "/" +++ name)) w)
    as [f|] eqn:E.
  - assert (Hr : Runs (readSkillContent (SKILLS_DISABLED_DIR +++ "/" +++ name)) w
                   (Val (Ok (content f))) []).
    { unfold readSkillContent. apply Runs_try_val. eapply Runs_eq.
      - eapply Runs_bind; [apply Runs_existsSync|]. rewrite E, ?replay_nil. cbn [negb].
        eapply Runs_bind; [exact (Runs_readFileSync _ _ f E) | apply Runs_ret].
      - reflexivity. }
    now destruct (Runs_events _ _ _ _ Hr) as (_ & -> & _).
  - assert (Hr : Runs (readSkillContent (SKILLS_DISABLED_DIR +++ "/" +++ name)) w
                   (Val (Refused SkillMdNotFound)) []).
    { unfold readSkillContent. apply Runs_try_val. eapply Runs_eq.
      - eapply Runs_bind; [apply Runs_existsSync|]. rewrite E. apply Runs_ret.
      - reflexivity. }
    now destruct (Runs_events _ _ _ _ Hr) as (_ & -> & _).
Qed.


(** *** The copies of the editors and [restoreBackup] *)

Lemma restoreBackup_without_sidecar (b : string) (w : World) (f : File) :
  lookupFile (InBackups b) w = Some f ->
  lookupFile (InBackups (b +++ ".meta.json")) w = None ->
  Runs (restoreBackup (InBackups b)) w (Val (Failure BackupMetadataNotFound)) [].
Proof.
  intros Hb Hm. unfold restoreBackup. apply Runs_try_val. eapply Runs_eq.
  - eapply Runs_bind; [apply Runs_existsSync|]. rewrite Hb, ?replay_nil. cbn [negb].
    eapply Runs_bind; [apply Runs_existsSync|]. cbn [pathAppend]. rewrite Hm.
    apply Runs_ret.
  - reflexivity.
Qed.

Section EditorCopies.

Context {D : Dates}.

Lemma listBackups_entries (w : World) :
  exists l,
    value (listBackups w) = Val l
    /\ forall info, In info l ->
         exists file, In file (obj_keys (backups w)) /\ listed w file = Some info.
Proof.
  destruct (listBackups_run w) as (mk & Hmk & Hrun).
  destruct (Runs_events _ _ _ _ Hrun) as (_ & -> & _).
  eexists. split; [reflexivity|]. intros info.
  rewrite sortBy_In, In_pushed, in_map_iff. intros (file & Hl & Hin). eauto.
Qed.

(** The copy ['mcp:writeConfig'] keeps of the previous content has no
    sidecar: unless a file [<copy>.meta.json] was there already,
    [restoreBackup] refuses the copy for want of metadata and [listBackups]
    does not list it. *)
Theorem editor_copies_are_out_of_reach (type : string) (v : JsonValue) (w : World)
  (f : File) :
  lookupFile (configPath type) w = Some f ->
  lookupFile (InBackups ((basename (configPath type) +++ ".backup-" +++ dateNow (now w))
                         +++ ".meta.json")) w = None ->
  lookupFile (InBackups (basename (configPath type) +++ ".backup-" +++ dateNow (now w)))
    (final (mcp_writeConfig type (JsonText v) w))
  = Some (mkFile (content f) (now w))
  /\ value (restoreBackup
              (InBackups (basename (configPath type) +++ ".backup-" +++ dateNow (now w)))
              (final (mcp_writeConfig type (JsonText v) w)))
     = Val (Failure BackupMetadataNotFound)
  /\ exists l,
       value (listBackups (final (mcp_writeConfig type (JsonText v) w))) = Val l
       /\ forall info, In info l ->
            info_path info
            <> InBackups (basename (configPath type) +++ ".backup-" +++ dateNow (now w)).
Proof.
  intros Hf Hnone.
  destruct (mcp_writeConfig_run type v w) as (mk & Hmk & Hrun).
  destruct (Runs_events _ _ _ _ Hrun) as (_ & _ & ->). clear Hrun.
  revert mk Hmk Hf Hnone. rewrite (configPath_Abs type).
  set (s := if String.eqb type "claude" then "~/.claude.json" else "~/.claude/mcp.json").
  set (n := basename (Abs s) +++ ".backup-" +++ dateNow (now w)).
  intros mk Hmk Hf Hnone.
  destruct (edit_states s n (JsonText v) mk w Hmk) as (_ & _ & Hcopy & Hrest & _).
  specialize (Hcopy f Hf).
  assert (Hmeta : lookupFile (InBackups (n +++ ".meta.json"))
                    (replay w (mk ++ match lookupFile (Abs s) w with
                                     | Some _ => [EvCopyFile (Abs s) (InBackups n)]
                                     | None => []
                                     end ++ [EvWriteFile (Abs s) (JsonText v)])) = None).
  { rewrite Hrest; [exact Hnone|]. intros E. symmetry in E. revert E.
    apply append_neq_self. discriminate. }
  split; [exact Hcopy|]. split.
  - now destruct (Runs_events _ _ _ _ (restoreBackup_without_sidecar _ _ _ Hcopy Hmeta))
      as (_ & -> & _).
  - match goal with
    | |- exists l, value (listBackups ?st) = _ /\ _ =>
        destruct (listBackups_entries st) as (l & Hl & Hin)
    end.
    exists l. split; [exact Hl|]. intros info Hi E.
    destruct (Hin info Hi) as (file & _ & Hlisted). unfold listed in Hlisted.
    destruct (endsWith ".meta.json" file); [discriminate|].
    destruct (lookupFile (InBackups (file +++ ".meta.json")) _) as [g|] eqn:Eg;
      [|discriminate].
    destruct (content g); [discriminate|]. injection Hlisted as <-.
    simpl in E. injection E as ->. rewrite Hmeta in Eg. discriminate.
Qed.

End EditorCopies.


(** ** [cleanupOldBackups] on any directory *)

Lemma metaName_neq (f : string) : metaName f <> f.
Proof. intros E. symmetry in E. revert E. apply append_neq_self. discriminate. Qed.

Lemma metaName_inj (f g : string) : metaName f = metaName g -> f = g.
Proof. apply append_inj_r. Qed.

Lemma metaName_not_copy (f g : string) :
  endsWith ".meta.json" f = false -> f <> metaName g.
Proof. intros H E. rewrite E in H. unfold metaName in H. now rewrite endsWith_append in H. Qed.

Lemma backups_after_unlinks (w : World) (v k : string) :
  k <> v -> k <> metaName v ->
  obj_get k (backups (replay w (unlinkEvents w v))) = obj_get k (backups w).
Proof.
  intros H1 H2. unfold unlinkEvents.
  destruct (obj_get (metaName v) (backups w)); cbn [replay fold_left apply_event removeFile backups].
  - now rewrite !obj_get_delete_other.
  - now rewrite obj_get_delete_other.
Qed.

Lemma unlinkOne_run (v : string * nat) (w : World) (f : File) :
  obj_get (fst v) (backups w) = Some f ->
  Runs (unlinkSync (InBackups (fst v)) ;;;
        (let metaPath := InBackups (fst v +++ ".meta.json") in
         present <- existsSync metaPath ;;
         if present then unlinkSync metaPath else ret tt))
    w (Val tt) (unlinkEvents w (fst v)).
Proof.
  intros Hf. unfold unlinkEvents.
  assert (Hm : lookupFile (InBackups (metaName (fst v)))
                 (replay w [EvUnlink (InBackups (fst v))])
               = obj_get (metaName (fst v)) (backups w)).
  { cbn [replay fold_left apply_event removeFile lookupFile backups].
    apply obj_get_delete_other, metaName_neq. }
  destruct (obj_get (metaName (fst v)) (backups w)) as [g|] eqn:Eg.
  - eapply Runs_eq.
    + eapply Runs_bind; [exact (Runs_unlinkSync (InBackups (fst v)) f w Hf)|].
      eapply Runs_bind; [apply Runs_existsSync|].
      change (fst v +++ ".meta.json") with (metaName (fst v)). rewrite Hm, ?replay_nil.
      exact (Runs_unlinkSync _ g _ Hm).
    + reflexivity.
  - eapply Runs_eq.
    + eapply Runs_bind; [exact (Runs_unlinkSync (InBackups (fst v)) f w Hf)|].
      eapply Runs_bind; [apply Runs_existsSync|].
      change (fst v +++ ".meta.json") with (metaName (fst v)). rewrite Hm.
      apply Runs_ret.
    + reflexivity.
Qed.

Lemma unlinkEvents_congr (w1 w2 : World) (f : string) :
  obj_get (metaName f) (backups w1) = obj_get (metaName f) (backups w2) ->
  unlinkEvents w1 f = unlinkEvents w2 f.
Proof. unfold unlinkEvents. now intros ->. Qed.

Lemma flat_map_ext_on {A B : Type} (f g : A -> list B) (l : list A) :
  (forall x, In x l -> f x = g x) -> flat_map f l = flat_map g l.
Proof.
  induction l as [|x r IH]; intros H; simpl; [reflexivity|].
  rewrite (H x (or_introl eq_refl)), IH; [reflexivity|]. intros y Hy. apply H. now right.
Qed.

Lemma forEach_unlink (vs : list (string * nat)) (w : World) :
  NoDup (map fst vs) ->
  (forall v, In v vs -> obj_get (fst v) (backups w) <> None) ->
  (forall v, In v vs -> endsWith ".meta.json" (fst v) = false) ->
  Runs (forEach
          (fun file =>
             unlinkSync (InBackups (fst file)) ;;;
             (let metaPath := InBackups (fst file +++ ".meta.json") in
              present <- existsSync metaPath ;;
              if present then unlinkSync metaPath else ret tt)) vs)
    w (Val tt) (flat_map (fun v => unlinkEvents w (fst v)) vs).
Proof.
  revert w. induction vs as [|v r IH]; intros w Hnd Hex Hcopy; [apply Runs_ret|].
  inversion Hnd as [|? ? Hv Hr]; subst.
  destruct (obj_get (fst v) (backups w)) as [f|] eqn:Ef;
    [|now elim (Hex v (or_introl eq_refl))].
  cbn [forEach flat_map]. eapply Runs_bind; [exact (unlinkOne_run v w f Ef)|].
  assert (Hsame : forall u, In u r -> forall k,
            k = fst u \/ k = metaName (fst u) ->
            obj_get k (backups (replay w (unlinkEvents w (fst v)))) = obj_get k (backups w)).
  { intros u Hu k Hk.
    assert (Huv : fst u <> fst v).
    { intros E. apply Hv. rewrite <- E. now apply in_map. }
    apply backups_after_unlinks; destruct Hk as [->| ->].
    - exact Huv.
    - intros E. apply (metaName_not_copy (fst v) (fst u)); [|now symmetry].
      apply Hcopy. now left.
    - apply metaName_not_copy, Hcopy. now right.
    - intros E. apply Huv. now apply metaName_inj. }
  rewrite (flat_map_ext_on (fun u => unlinkEvents w (fst u))
             (fun u => unlinkEvents (replay w (unlinkEvents w (fst v))) (fst u))).
  - apply IH; [assumption | |].
    + intros u Hu. rewrite (Hsame u Hu) by now left. apply Hex. now right.
    + intros u Hu. apply Hcopy. now right.
  - intros u Hu. apply unlinkEvents_congr. symmetry. apply (Hsame u Hu). now right.
Qed.

Lemma mapM_statMtime_all (l : list string) (w : World) :
  (forall f, In f l -> obj_get f (backups w) <> None) ->
  Runs (mapM statMtime l) w (Val (map (fun f => (f, mtimeOf w f)) l)) [].
Proof.
  induction l as [|x r IH]; intros H; [apply Runs_ret|].
  destruct (obj_get x (backups w)) as [f|] eqn:Ef; [|now elim (H x (or_introl eq_refl))].
  cbn [mapM map]. replace (mtimeOf w x) with (mtime f) by (unfold mtimeOf; now rewrite Ef).
  eapply Runs_eq.
  - eapply Runs_bind; [exact (Runs_statMtime x f w Ef)|].
    eapply Runs_bind; [apply IH; intros g Hg; apply H; now right | apply Runs_ret].
  - reflexivity.
Qed.

Lemma NoDup_skipn {A : Type} (n : nat) (l : list A) : NoDup l -> NoDup (skipn n l).
Proof.
  revert l. induction n as [|n IH]; intros [|x r] H; simpl; try assumption.
  apply IH. now inversion H.
Qed.

Lemma In_skipn {A : Type} (n : nat) (l : list A) (x : A) : In x (skipn n l) -> In x l.
Proof. intros H. rewrite <- (firstn_skipn n l). apply in_or_app. now right. Qed.

Lemma flat_map_fst {A B C : Type} (f : A -> list C) (l : list (A * B)) :
  flat_map (fun v => f (fst v)) l = flat_map f (map fst l).
Proof. induction l as [|x r IH]; simpl; [reflexivity | now rewrite IH]. Qed.

Lemma copyStats_fst (base : string) (w : World) :
  map fst (copyStats base w) = backupCopies base w.
Proof. unfold copyStats. rewrite map_map. simpl. apply map_id. Qed.

Lemma backupCopies_NoDup (base : string) (w : World) :
  tidyDirectory w -> NoDup (backupCopies base w).
Proof. intros H. unfold backupCopies. now apply NoDup_filter. Qed.

Lemma sorted_names_NoDup (base : string) (w : World) :
  tidyDirectory w -> NoDup (map fst (sortBy newestFirst (copyStats base w))).
Proof.
  intros H. eapply Permutation_NoDup.
  - apply Permutation_sym, Permutation_map, sortBy_perm.
  - rewrite copyStats_fst. now apply backupCopies_NoDup.
Qed.

Lemma In_backupCopies (base f : string) (w : World) :
  In f (backupCopies base w) ->
  obj_get f (backups w) <> None /\ endsWith ".meta.json" f = false.
Proof.
  unfold backupCopies. rewrite filter_In. intros [Hin Hb]. split.
  - intros E. now apply obj_get_none_keys in E.
  - unfold isBackupOf in Hb. apply andb_prop in Hb. destruct Hb as [_ Hb].
    now apply negb_true_iff in Hb.
Qed.

(** What [cleanupOldBackups] does on a directory with no name twice: it
    deletes the copies beyond the [MAX_BACKUPS] newest, each with its
    sidecar, and does not throw. *)
Lemma cleanupOldBackups_general (base : string) (w : World) :
  tidyDirectory w ->
  Runs (cleanupOldBackups base) w (Val tt) (flat_map (unlinkEvents w) (pruned base w)).
Proof.
  intros Htidy. unfold cleanupOldBackups, pruned. apply Runs_try_val.
  assert (Hstats : Runs (mapM statMtime (filter (isBackupOf base) (obj_keys (backups w))))
                     w (Val (copyStats base w)) []).
  { apply mapM_statMtime_all. intros f Hf. now apply (In_backupCopies base f w). }
  destruct (MAX_BACKUPS <? List.length (sortBy newestFirst (copyStats base w)))%nat eqn:Eo.
  - eapply Runs_eq.
    + eapply Runs_bind; [apply Runs_inspect|]. rewrite ?replay_nil.
      eapply Runs_bind; [exact Hstats|]. rewrite ?replay_nil, Eo.
      apply forEach_unlink.
      * rewrite <- skipn_map. now apply NoDup_skipn, sorted_names_NoDup.
      * intros v Hv. apply In_skipn, sortBy_In in Hv.
        apply (In_backupCopies base). rewrite <- copyStats_fst. now apply in_map.
      * intros v Hv. apply In_skipn, sortBy_In in Hv.
        apply (In_backupCopies base (fst v) w). rewrite <- copyStats_fst. now apply in_map.
    + simpl. apply flat_map_fst.
  - eapply Runs_eq.
    + eapply Runs_bind; [apply Runs_inspect|]. rewrite ?replay_nil.
      eapply Runs_bind; [exact Hstats|]. rewrite ?replay_nil, Eo. apply Runs_ret.
    + reflexivity.
Qed.


(** *** What is left after the deletions *)

Lemma notAmong_spec (names : list string) (k : string) :
  notAmong names k = true <-> ~ In k names.
Proof.
  unfold notAmong. rewrite negb_true_iff. split.
  - intros H Hin. assert (existsb (String.eqb k) names = true); [|congruence].
    apply existsb_exists. exists k. split; [assumption | apply String.eqb_refl].
  - intros H. destruct (existsb (String.eqb k) names) eqn:E; [|reflexivity].
    apply existsb_exists in E. destruct E as (x & Hx & Ex).
    apply String.eqb_eq in Ex. subst. contradiction.
Qed.

Lemma filter_twice {A : Type} (p q : A -> bool) (l : list A) :
  filter p (filter q l) = filter (fun x => q x && p x) l.
Proof.
  induction l as [|x r IH]; simpl; [reflexivity|].
  destruct (q x); simpl; [destruct (p x); now rewrite IH | exact IH].
Qed.

Lemma backups_replay_unlinks (names : list string) (w : World) :
  backups (replay w (map (fun n => EvUnlink (InBackups n)) names))
  = filter (fun kv => notAmong names (fst kv)) (backups w)
  /\ files (replay w (map (fun n => EvUnlink (InBackups n)) names)) = files w.
Proof.
  revert w. induction names as [|n r IH]; intros w.
  - split; [|reflexivity]. simpl. symmetry. apply forallb_filter_id.
    now apply forallb_forall.
  - cbn [map replay fold_left].
    change (fold_left (fun acc e => apply_event e acc)
              (map (fun n => EvUnlink (InBackups n)) r)
              (apply_event (EvUnlink (InBackups n)) w))
      with (replay (apply_event (EvUnlink (InBackups n)) w)
              (map (fun n => EvUnlink (InBackups n)) r)).
    destruct (IH (apply_event (EvUnlink (InBackups n)) w)) as (Hb & Hf).
    split; [|exact Hf]. rewrite Hb. cbn [apply_event removeFile backups].
    unfold obj_delete. rewrite filter_twice. apply filter_ext. intros [k v].
    unfold notAmong. simpl. now rewrite negb_orb, (String.eqb_sym k n).
Qed.

Lemma unlinkEvents_names (w : World) (vs : list string) :
  flat_map (unlinkEvents w) vs
  = map (fun n => EvUnlink (InBackups n)) (unlinkedNames w vs).
Proof.
  unfold unlinkedNames, unlinkEvents. induction vs as [|v r IH]; [reflexivity|].
  cbn [flat_map]. rewrite map_app, <- IH.
  now destruct (obj_get (metaName v) (backups w)).
Qed.

Lemma In_unlinkedNames (w : World) (vs : list string) (k : string) :
  In k (unlinkedNames w vs) -> In k vs \/ exists v, In v vs /\ k = metaName v.
Proof.
  unfold unlinkedNames. rewrite in_flat_map. intros (v & Hv & Hk).
  destruct Hk as [<-|Hk]; [now left|].
  destruct (obj_get (metaName v) (backups w)); [|contradiction].
  destruct Hk as [<-|[]]. right. eauto.
Qed.

Lemma In_vs_unlinkedNames (w : World) (vs : list string) (k : string) :
  In k vs -> In k (unlinkedNames w vs).
Proof. unfold unlinkedNames. rewrite in_flat_map. intros H. exists k. split; [assumption | now left]. Qed.

Lemma obj_keys_filter {A : Type} (p : string -> bool) (o : Obj A) :
  obj_keys (filter (fun kv => p (fst kv)) o) = filter p (obj_keys o).
Proof.
  unfold obj_keys. induction o as [|[k v] r IH]; simpl; [reflexivity|].
  destruct (p k); simpl; now rewrite IH.
Qed.

Lemma obj_get_filter {A : Type} (p : string -> bool) (o : Obj A) (k : string) :
  p k = true -> obj_get k (filter (fun kv => p (fst kv)) o) = obj_get k o.
Proof.
  intros Hk. induction o as [|[k' v] r IH]; simpl; [reflexivity|].
  destruct (p k') eqn:Ep; simpl.
  - now rewrite IH.
  - destruct (String.eqb_spec k k') as [->|Hne]; [congruence | exact IH].
Qed.

(** The copies of [base] left once the copies [vs] and their sidecars are
    unlinked. *)
Lemma copies_after_unlinks (base : string) (w : World) (vs : list string) :
  (forall v, In v vs -> endsWith ".meta.json" v = false) ->
  backupCopies base (replay w (flat_map (unlinkEvents w) vs))
  = filter (notAmong vs) (backupCopies base w).
Proof.
  intros Hvs. rewrite unlinkEvents_names. unfold backupCopies.
  rewrite (proj1 (backups_replay_unlinks _ w)), obj_keys_filter.
  rewrite !filter_twice. apply filter_ext_in. intros k Hk.
  destruct (isBackupOf base k) eqn:Eb; rewrite ?andb_false_r, ?andb_false_l;
    [|reflexivity].
  rewrite !andb_true_r, ?andb_true_l.
  assert (Hcopy : endsWith ".meta.json" k = false).
  { unfold isBackupOf in Eb. apply andb_prop in Eb. destruct Eb as [_ Eb].
    now apply negb_true_iff in Eb. }
  destruct (notAmong vs k) eqn:E1, (notAmong (unlinkedNames w vs) k) eqn:E2;
    try reflexivity; exfalso.
  - apply notAmong_spec in E1. apply not_true_iff_false in E2. apply E2.
    apply notAmong_spec. intros Hin. apply In_unlinkedNames in Hin.
    destruct Hin as [Hin|(v & Hv & ->)]; [now apply E1|].
    unfold metaName in Hcopy. now rewrite endsWith_append in Hcopy.
  - apply notAmong_spec in E2. apply not_true_iff_false in E1. apply E1.
    apply notAmong_spec. intros Hin. apply E2. now apply In_vs_unlinkedNames.
Qed.

Lemma length_filter_perm {A : Type} (p : A -> bool) (l l' : list A) :
  Permutation l l' -> List.length (filter p l) = List.length (filter p l').
Proof.
  induction 1 as [|x l l' _ IH|x y l|l l' l'' _ IH1 _ IH2]; simpl.
  - reflexivity.
  - destruct (p x); simpl; now rewrite IH.
  - destruct (p x), (p y); reflexivity.
  - now rewrite IH1.
Qed.

Lemma filter_notAmong_split (K V : list string) :
  NoDup (K ++ V) -> filter (notAmong V) (K ++ V) = K.
Proof.
  intros Hnd. rewrite filter_app.
  assert (HV : filter (notAmong V) V = []).
  { destruct (filter (notAmong V) V) as [|x r] eqn:E; [reflexivity|].
    assert (Hx : In x (filter (notAmong V) V)) by (rewrite E; now left).
    apply filter_In in Hx. destruct Hx as [Hin Hn]. apply notAmong_spec in Hn.
    contradiction. }
  rewrite HV, app_nil_r. apply forallb_filter_id, forallb_forall.
  intros k Hk. apply notAmong_spec. intros Hv.
  revert Hk Hv. clear -Hnd. induction K as [|a K IH]; intros Hk Hv; [contradiction|].
  simpl in Hnd. inversion Hnd as [|? ? Ha Hr]; subst. destruct Hk as [->|Hk].
  - apply Ha, in_or_app. now right.
  - now apply IH.
Qed.

Lemma StronglySorted_app_order {A : Type} (R : A -> A -> Prop) (a b : list A) :
  StronglySorted R (a ++ b) -> forall x y, In x a -> In y b -> R x y.
Proof.
  induction a as [|z a IH]; intros H x y Hx Hy; [contradiction|].
  simpl in H. inversion H as [|? ? Hs Hall]; subst. destruct Hx as [->|Hx].
  - rewrite Forall_forall in Hall. apply Hall, in_or_app. now right.
  - now apply IH.
Qed.

Lemma StronglySorted_impl {A : Type} (R R' : A -> A -> Prop) (l : list A) :
  (forall a b, R a b -> R' a b) -> StronglySorted R l -> StronglySorted R' l.
Proof.
  intros HR. induction 1 as [|x r Hr IH Hx]; constructor; [assumption|].
  eapply Forall_impl; [|exact Hx]. intros y. apply HR.
Qed.

Lemma newestFirst_sorted (l : list (string * nat)) :
  StronglySorted (fun a b => snd b <= snd a) (sortBy newestFirst l).
Proof.
  eapply StronglySorted_impl;
    [|exact (sortBy_key_sorted (fun x : string * nat => Z.of_nat (snd x)) l)].
  simpl. intros a b H. lia.
Qed.

Lemma pruned_copies (base : string) (w : World) (v : string) :
  In v (pruned base w) -> In v (backupCopies base w).
Proof.
  unfold pruned.
  destruct (MAX_BACKUPS <? List.length (sortBy newestFirst (copyStats base w)))%nat;
    [|contradiction].
  rewrite <- copyStats_fst. intros H. apply in_map_iff in H.
  destruct H as (x & <- & Hx). apply in_map. now apply In_skipn, sortBy_In in Hx.
Qed.

(** [cleanupOldBackups] on a directory with no name twice: it does not
    throw and touches no file outside the directory; of the copies of the
    base file name it leaves [MAX_BACKUPS], or all of them when there are
    fewer, each as it was; and no copy it deletes is newer than one it
    keeps. *)
Theorem cleanupOldBackups_keeps_the_newest (base : string) (w : World) :
  tidyDirectory w ->
  value (cleanupOldBackups base w) = Val tt
  /\ files (final (cleanupOldBackups base w)) = files w
  /\ List.length (backupCopies base (final (cleanupOldBackups base w)))
     = Nat.min MAX_BACKUPS (List.length (backupCopies base w))
  /\ (forall k, In k (backupCopies base (final (cleanupOldBackups base w))) ->
        In k (backupCopies base w)
        /\ lookupFile (InBackups k) (final (cleanupOldBackups base w))
           = lookupFile (InBackups k) w)
  /\ (forall k v,
        In k (backupCopies base (final (cleanupOldBackups base w))) ->
        In v (backupCopies base w) ->
        ~ In v (backupCopies base (final (cleanupOldBackups base w))) ->
        mtimeOf w v <= mtimeOf w k).
Proof.
  intros Htidy.
  destruct (Runs_events _ _ _ _ (cleanupOldBackups_general base w Htidy)) as (_ & -> & ->).
  split; [reflexivity|].
  assert (Hmeta : forall v, In v (pruned base w) -> endsWith ".meta.json" v = false).
  { intros v Hv. now apply (In_backupCopies base v w), pruned_copies. }
  rewrite (copies_after_unlinks base w (pruned base w) Hmeta).
  split.
  { rewrite unlinkEvents_names. apply backups_replay_unlinks. }
  set (sorted := sortBy newestFirst (copyStats base w)).
  assert (Hperm : Permutation (backupCopies base w)
                    (map fst (firstn MAX_BACKUPS sorted) ++ map fst (skipn MAX_BACKUPS sorted))).
  { rewrite <- map_app, firstn_skipn, <- copyStats_fst.
    apply Permutation_map, Permutation_sym, sortBy_perm. }
  assert (Hnd : NoDup (map fst (firstn MAX_BACKUPS sorted)
                       ++ map fst (skipn MAX_BACKUPS sorted))).
  { rewrite <- map_app, firstn_skipn. now apply sorted_names_NoDup. }
  assert (Hlen : List.length sorted = List.length (backupCopies base w)).
  { unfold sorted. rewrite (Permutation_length (sortBy_perm _ _)).
    unfold copyStats. apply length_map. }
  split; [|split].
  - unfold pruned. fold sorted.
    destruct (Nat.ltb_spec MAX_BACKUPS (List.length sorted)) as [Hover|Hfits].
    + rewrite (length_filter_perm _ _ _ Hperm), (filter_notAmong_split _ _ Hnd).
      rewrite length_map, length_firstn. lia.
    + rewrite forallb_filter_id by now apply forallb_forall. lia.
  - intros k Hk. apply filter_In in Hk. destruct Hk as [Hin Hn]. split; [assumption|].
    apply notAmong_spec in Hn. rewrite unlinkEvents_names.
    cbn [lookupFile]. rewrite (proj1 (backups_replay_unlinks _ w)).
    apply (obj_get_filter (notAmong (unlinkedNames w (pruned base w)))).
    apply notAmong_spec. intros Hu. apply In_unlinkedNames in Hu.
    destruct Hu as [Hu|(v & Hv & ->)]; [now apply Hn|].
    apply (In_backupCopies base) in Hin. destruct Hin as [_ Hin].
    unfold metaName in Hin. now rewrite endsWith_append in Hin.
  - intros k v Hk Hv Hgone. apply filter_In in Hk. destruct Hk as [Hkin Hkn].
    apply notAmong_spec in Hkn.
    assert (Hvp : In v (pruned base w)).
    { destruct (in_dec string_dec v (pruned base w)) as [H|H]; [assumption|].
      exfalso. apply Hgone, filter_In. split; [assumption | now apply notAmong_spec]. }
    revert Hkn Hvp. unfold pruned. fold sorted.
    destruct (MAX_BACKUPS <? List.length sorted)%nat; [|contradiction].
    intros Hkn Hvp.
    assert (Hks : In (k, mtimeOf w k) sorted).
    { apply sortBy_In. unfold copyStats. now apply (in_map (fun f => (f, mtimeOf w f))). }
    rewrite <- (firstn_skipn MAX_BACKUPS sorted) in Hks. apply in_app_or in Hks.
    destruct Hks as [Hks|Hks].
    + apply in_map_iff in Hvp. destruct Hvp as ([v' mv] & Ev & Hvs). simpl in Ev. subst v'.
      assert (Hmv : mv = mtimeOf w v).
      { apply In_skipn, sortBy_In in Hvs. unfold copyStats in Hvs.
        apply in_map_iff in Hvs. destruct Hvs as (x & [= <- <-] & _). reflexivity. }
      subst mv.
      pose proof (newestFirst_sorted (copyStats base w)) as Hs. fold sorted in Hs.
      rewrite <- (firstn_skipn MAX_BACKUPS sorted) in Hs.
      exact (StronglySorted_app_order _ _ _ Hs _ _ Hks Hvs).
    + exfalso. apply Hkn. now apply (in_map fst) in Hks.
Qed.


(** *** The newest copy is kept *)

Lemma sortBy_newest_first (l : list (string * nat)) (x : string * nat) :
  In x l ->
  (forall y, In y l -> y <> x -> snd y < snd x) ->
  exists t, sortBy newestFirst l = x :: t.
Proof.
  assert (Hdec : forall a b : string * nat, {a = b} + {a <> b})
    by (decide equality; [apply Nat.eq_dec | apply string_dec]).
  induction l as [|a r IH]; intros Hin Hmax; [contradiction|].
  cbn [sortBy].
  destruct (in_dec Hdec x r) as [Hr|Hr].
  - destruct (IH Hr) as (t & Ht); [intros y Hy; apply Hmax; now right|].
    rewrite Ht. cbn [insertBy]. unfold newestFirst at 1.
    destruct (Hdec a x) as [->|Hne].
    + replace (Z.of_nat (snd x) - Z.of_nat (snd x) <=? 0)%Z with true
        by (symmetry; apply Z.leb_le; lia). eauto.
    + specialize (Hmax a (or_introl eq_refl) Hne).
      replace (Z.of_nat (snd x) - Z.of_nat (snd a) <=? 0)%Z with false
        by (symmetry; apply Z.leb_gt; lia). eauto.
  - destruct Hin as [->|Hin]; [|contradiction].
    destruct (sortBy newestFirst r) as [|y t] eqn:Es; [simpl; eauto|].
    cbn [insertBy]. unfold newestFirst at 1.
    assert (Hy : In y r) by (apply (sortBy_In newestFirst); rewrite Es; now left).
    assert (Hyx : y <> x) by (intros ->; contradiction).
    specialize (Hmax y (or_intror Hy) Hyx).
    replace (Z.of_nat (snd y) - Z.of_nat (snd x) <=? 0)%Z with true
      by (symmetry; apply Z.leb_le; lia). eauto.
Qed.

(** A copy newer than every other copy of its base file name is not among
    those [cleanupOldBackups] deletes. *)
Lemma newest_not_pruned (base : string) (w : World) (n : string) :
  tidyDirectory w ->
  In n (backupCopies base w) ->
  (forall k, In k (backupCopies base w) -> k <> n -> mtimeOf w k < mtimeOf w n) ->
  ~ In n (pruned base w).
Proof.
  intros Htidy Hin Hmax.
  destruct (sortBy_newest_first (copyStats base w) (n, mtimeOf w n)) as (t & Ht).
  - unfold copyStats. now apply (in_map (fun f => (f, mtimeOf w f))).
  - intros [k mk] Hk Hne. unfold copyStats in Hk. apply in_map_iff in Hk.
    destruct Hk as (k' & [= <- <-] & Hk'). simpl. apply Hmax; [assumption|].
    intros ->. now apply Hne.
  - pose proof (sorted_names_NoDup base w Htidy) as Hnd.
    unfold pruned. rewrite Ht in *.
    destruct (MAX_BACKUPS <? List.length ((n, mtimeOf w n) :: t))%nat; [|tauto].
    change (skipn MAX_BACKUPS ((n, mtimeOf w n) :: t)) with (skipn 9 t).
    intros H. apply in_map_iff in H.
    destruct H as (x & Ex & Hx). apply In_skipn in Hx.
    simpl in Hnd. inversion Hnd as [|? ? Hn _]. apply Hn.
    rewrite <- Ex. now apply in_map.
Qed.

Lemma not_pruned_survives (base : string) (w : World) (k : string) :
  tidyDirectory w ->
  ~ In k (pruned base w) ->
  (forall v, In v (pruned base w) -> k <> metaName v) ->
  lookupFile (InBackups k) (final (cleanupOldBackups base w)) = lookupFile (InBackups k) w.
Proof.
  intros Htidy Hk Hm.
  destruct (Runs_events _ _ _ _ (cleanupOldBackups_general base w Htidy)) as (_ & _ & ->).
  rewrite unlinkEvents_names. cbn [lookupFile].
  rewrite (proj1 (backups_replay_unlinks _ w)).
  apply (obj_get_filter (notAmong (unlinkedNames w (pruned base w)))).
  apply notAmong_spec. intros Hu. apply In_unlinkedNames in Hu.
  destruct Hu as [Hu|(v & Hv & ->)]; [now apply Hk | now apply (Hm v)].
Qed.

Lemma tidyDirectory_store (n : string) (f : File) (w : World) :
  tidyDirectory w -> tidyDirectory (storeFile (InBackups n) f w).
Proof. unfold tidyDirectory. cbn [storeFile backups]. apply obj_set_NoDup. Qed.

Lemma tidyDirectory_mkdir (mk : list Event) (w : World) :
  Forall (fun e => isMkdir e = true) mk -> tidyDirectory w -> tidyDirectory (replay w mk).
Proof. unfold tidyDirectory. intros H. now rewrite backups_replay_mkdir. Qed.

(** The disk after the copy and the sidecar of [createBackup], before the
    old copies are cleaned up. *)
Lemma snapshot_written (p : Path) (c : Content) (mk : list Event) (w : World) (f : File) :
  Forall (fun e => isMkdir e = true) mk ->
  lookupFile p w = Some f ->
  backups (replay (replay w mk)
             [snapshotEvent p w; EvWriteFile (InBackups (metaName (backupName p (now w)))) c])
  = obj_set (metaName (backupName p (now w))) (mkFile c (now w))
      (obj_set (backupName p (now w)) (mkFile (content f) (now w)) (backups w)).
Proof.
  intros Hmk Hf. cbn [replay fold_left]. unfold snapshotEvent. cbn [apply_event].
  rewrite (lookup_replay_mkdir p mk w Hmk), Hf.
  cbn [storeFile backups now]. now rewrite now_replay, (backups_replay_mkdir mk w Hmk).
Qed.

Section NewestCopy.

Context {D : Dates}.

(** On a directory with no name twice whose entries are all older than the
    clock, [createBackup] of a file that exists leaves its copy and its
    sidecar in the directory, whatever it prunes, and [listBackups] then
    lists the copy with the instant and the description of the call. *)
Theorem createBackup_copy_is_kept_and_listed (p : Path) (d : option string) (w : World)
  (f : File) :
  lookupFile p w = Some f ->
  tidyDirectory w ->
  (forall k g, obj_get k (backups w) = Some g -> mtime g < now w) ->
  endsWith ".meta.json" (backupName p (now w)) = false ->
  value (createBackup p d w) = Val (Some (InBackups (backupName p (now w))))
  /\ lookupFile (InBackups (backupName p (now w))) (final (createBackup p d w))
     = Some (mkFile (content f) (now w))
  /\ lookupFile (InBackups (metaName (backupName p (now w)))) (final (createBackup p d w))
     = Some (mkFile (JsonText (MetaDoc (mkMeta p (toISOString (now w)) (describe d))))
               (now w))
  /\ exists l,
       value (listBackups (final (createBackup p d w))) = Val l
       /\ In (mkBackupInfo (InBackups (backupName p (now w)))
                (Some (JStr (toISOString (now w)))) (Some (JStr (describe d)))) l.
Proof.
  intros Hf Htidy Hold Hname.
  set (n := backupName p (now w)) in *.
  set (meta := JsonText (MetaDoc (mkMeta p (toISOString (now w)) (describe d)))).
  destruct (createBackup_exact p d w f Hf) as (mk & Hmk & Hexact).
  fold n in Hexact. change (JSON_stringify (MetaDoc (mkMeta p (toISOString (now w)) (describe d))))
    with meta in Hexact.
  set (w2 := replay (replay w mk) [snapshotEvent p w; EvWriteFile (InBackups (metaName n)) meta])
    in *.
  assert (Hb2 : backups w2
                = obj_set (metaName n) (mkFile meta (now w))
                    (obj_set n (mkFile (content f) (now w)) (backups w)))
    by exact (snapshot_written p meta mk w f Hmk Hf).
  assert (Htidy2 : tidyDirectory w2).
  { unfold tidyDirectory. rewrite Hb2. now apply obj_set_NoDup, obj_set_NoDup. }
  assert (Hn2 : obj_get n (backups w2) = Some (mkFile (content f) (now w))).
  { rewrite Hb2, obj_get_set_other by (apply not_eq_sym, metaName_neq).
    apply obj_get_set_same. }
  assert (Hm2 : obj_get (metaName n) (backups w2) = Some (mkFile meta (now w))).
  { rewrite Hb2. apply obj_get_set_same. }
  assert (Hcopy : In n (backupCopies (basename p) w2)).
  { unfold backupCopies. apply filter_In. split.
    - destruct (in_dec string_dec n (obj_keys (backups w2))) as [H|H]; [exact H|].
      apply obj_get_none_keys in H. congruence.
    - now apply isBackupOf_backupName. }
  assert (Hmax : forall k, In k (backupCopies (basename p) w2) -> k <> n ->
                   mtimeOf w2 k < mtimeOf w2 n).
  { intros k Hk Hkn. unfold mtimeOf at 2. rewrite Hn2. cbn [mtime].
    destruct (In_backupCopies _ _ _ Hk) as [Hex Hnm]. unfold mtimeOf.
    rewrite Hb2 in *. rewrite !obj_get_set_other in * by
      (try assumption; now apply metaName_not_copy).
    destruct (obj_get k (backups w)) as [g|] eqn:Eg; [|now elim Hex].
    now apply (Hold k g). }
  pose proof (newest_not_pruned (basename p) w2 n Htidy2 Hcopy Hmax) as Hkeep.
  pose proof (Hexact _ (cleanupOldBackups_general (basename p) w2 Htidy2)) as Hrun.
  destruct (Runs_events _ _ _ _ Hrun) as (_ & Hv & Hfin).
  assert (Hfinal : final (createBackup p d w) = final (cleanupOldBackups (basename p) w2)).
  { rewrite Hfin.
    destruct (Runs_events _ _ _ _ (cleanupOldBackups_general (basename p) w2 Htidy2))
      as (_ & _ & ->).
    unfold w2. now rewrite <- !replay_app, <- app_assoc. }
  assert (Hsn : lookupFile (InBackups n) (final (createBackup p d w))
                = Some (mkFile (content f) (now w))).
  { rewrite Hfinal, not_pruned_survives; [exact Hn2 | assumption | assumption |].
    intros v _. now apply metaName_not_copy. }
  assert (Hsm : lookupFile (InBackups (metaName n)) (final (createBackup p d w))
                = Some (mkFile meta (now w))).
  { rewrite Hfinal, not_pruned_survives; [exact Hm2 | assumption | |].
    - intros Hin. apply pruned_copies, In_backupCopies in Hin. destruct Hin as [_ Hin].
      unfold metaName in Hin. now rewrite endsWith_append in Hin.
    - intros v Hin E. apply metaName_inj in E. subst v. contradiction. }
  split; [exact Hv|]. split; [exact Hsn|]. split; [exact Hsm|].
  destruct (listBackups_run (final (createBackup p d w))) as (mk' & Hmk' & Hrun').
  destruct (Runs_events _ _ _ _ Hrun') as (_ & -> & _).
  eexists. split; [reflexivity|].
  apply sortBy_In, In_pushed, in_map_iff. exists n. split.
  - unfold listed. rewrite Hname. change (n +++ ".meta.json") with (metaName n).
    now rewrite Hsm.
  - match goal with |- In n ?ks => destruct (in_dec string_dec n ks) as [H|H] end;
      [exact H|].
    apply obj_get_none_keys in H. cbn [lookupFile] in Hsn. congruence.
Qed.

End NewestCopy.


(** *** Restoring the oldest copy when the directory is full *)

Lemma insertBy_before_last {A : Type} (cmp : A -> A -> Z) (a x : A) (t : list A) :
  (cmp a x <= 0)%Z -> insertBy cmp a (t ++ [x]) = insertBy cmp a t ++ [x].
Proof.
  intros H. induction t as [|y t IH]; simpl.
  - now replace (cmp a x <=? 0)%Z with true by (symmetry; now apply Z.leb_le).
  - destruct (cmp a y <=? 0)%Z; [reflexivity | now rewrite IH].
Qed.

Lemma sortBy_oldest_last (l : list (string * nat)) (x : string * nat) :
  In x l ->
  (forall y, In y l -> y <> x -> snd x < snd y) ->
  exists t, sortBy newestFirst l = t ++ [x].
Proof.
  assert (Hdec : forall a b : string * nat, {a = b} + {a <> b})
    by (decide equality; [apply Nat.eq_dec | apply string_dec]).
  induction l as [|a r IH]; intros Hin Hmin; [contradiction|].
  cbn [sortBy].
  destruct (in_dec Hdec x r) as [Hr|Hr].
  - destruct (IH Hr) as (t & Ht); [intros y Hy; apply Hmin; now right|].
    rewrite Ht. exists (insertBy newestFirst a t). apply insertBy_before_last.
    unfold newestFirst. destruct (Hdec a x) as [->|Hne]; [lia|].
    specialize (Hmin a (or_introl eq_refl) Hne). lia.
  - destruct Hin as [->|Hin]; [|contradiction].
    exists (sortBy newestFirst r). apply insertBy_last. intros y Hy.
    apply sortBy_In in Hy. assert (Hyx : y <> x) by (intros ->; contradiction).
    specialize (Hmin y (or_intror Hy) Hyx). unfold newestFirst. lia.
Qed.

Lemma skipn_all_but_last {A : Type} (t : list A) (x : A) :
  skipn (List.length t) (t ++ [x]) = [x].
Proof. induction t as [|y t IH]; simpl; [reflexivity | exact IH]. Qed.

(** The copies of the base file name once [createBackup] has added a copy
    under a name that is new. *)
Lemma backupCopies_after_snapshot (base n : string) (f g : File) (w w2 : World) :
  backups w2 = obj_set (metaName n) g (obj_set n f (backups w)) ->
  obj_get n (backups w) = None ->
  isBackupOf base n = true ->
  backupCopies base w2 = backupCopies base w ++ [n].
Proof.
  intros Hb Hnew Hcopy. unfold backupCopies. rewrite Hb, !obj_keys_set.
  unfold obj_has. rewrite Hnew.
  destruct (obj_get (metaName n) (obj_set n f (backups w))).
  - rewrite filter_app. simpl. now rewrite Hcopy.
  - rewrite !filter_app. simpl. rewrite Hcopy, isBackupOf_metaName. now rewrite app_nil_r.
Qed.

Lemma Runs_copyFileSync_missing (src dst : Path) (w : World) :
  lookupFile src w = None -> Runs (copyFileSync src dst) w (Throw ENOENT) [].
Proof. unfold Runs, copyFileSync. now intros ->. Qed.

(** With [MAX_BACKUPS] copies of a file in a directory with no name twice,
    restoring the oldest of them fails: the snapshot [restoreBackup] takes
    first makes one copy too many, the oldest copy and its sidecar are
    deleted for it, and the copy that should restore finds nothing.  The
    live files are as before; the backup is lost. *)
Theorem restoreBackup_of_the_oldest_copy_loses_it (b : string) (w : World)
  (fb fm fo : File) (v : JsonValue) (m : BackupMeta) :
  lookupFile (InBackups b) w = Some fb ->
  content fb = JsonText v ->
  lookupFile (InBackups (metaName b)) w = Some fm ->
  content fm = JsonText (MetaDoc m) ->
  lookupFile (originalPath m) w = Some fo ->
  tidyDirectory w ->
  In b (backupCopies (basename (originalPath m)) w) ->
  List.length (backupCopies (basename (originalPath m)) w) = MAX_BACKUPS ->
  (forall k, In k (backupCopies (basename (originalPath m)) w) -> k <> b ->
     mtimeOf w b < mtimeOf w k) ->
  mtimeOf w b < now w ->
  obj_get (backupName (originalPath m) (now w)) (backups w) = None ->
  endsWith ".meta.json" (backupName (originalPath m) (now w)) = false ->
  value (restoreBackup (InBackups b) w) = Val (Failure (Exception ENOENT))
  /\ lookupFile (InBackups b) (final (restoreBackup (InBackups b) w)) = None
  /\ lookupFile (InBackups (metaName b)) (final (restoreBackup (InBackups b) w)) = None
  /\ files (final (restoreBackup (InBackups b) w)) = files w.
Proof.
  intros Hb Hbc Hm Hmc Ho Htidy Hin Hlen Hold Hnow Hnew Hname.
  set (p := originalPath m) in *. set (n := backupName p (now w)) in *.
  set (desc := Some ("Before restoring backup from " +++ meta_timestamp m)).
  set (meta := JsonText (MetaDoc (mkMeta p (toISOString (now w)) (describe desc)))).
  destruct (createBackup_exact p desc w fo Ho) as (mk & Hmk & Hexact).
  fold n in Hexact.
  change (JSON_stringify (MetaDoc (mkMeta p (toISOString (now w)) (describe desc))))
    with meta in Hexact.
  set (w2 := replay (replay w mk) [snapshotEvent p w; EvWriteFile (InBackups (metaName n)) meta])
    in *.
  assert (Hb2 : backups w2
                = obj_set (metaName n) (mkFile meta (now w))
                    (obj_set n (mkFile (content fo) (now w)) (backups w)))
    by exact (snapshot_written p meta mk w fo Hmk Ho).
  assert (Htidy2 : tidyDirectory w2).
  { unfold tidyDirectory. rewrite Hb2. now apply obj_set_NoDup, obj_set_NoDup. }
  assert (Hbn : b <> n).
  { intros ->. cbn [lookupFile] in Hb. congruence. }
  assert (Hbcopy : endsWith ".meta.json" b = false) by now apply (In_backupCopies _ _ _ Hin).
  assert (Hcopies : backupCopies (basename p) w2 = backupCopies (basename p) w ++ [n]).
  { apply (backupCopies_after_snapshot _ _ _ _ _ _ Hb2 Hnew).
    now apply isBackupOf_backupName. }
  assert (Hold2 : forall k, obj_get k (backups w) <> None ->
                    endsWith ".meta.json" k = false -> mtimeOf w2 k = mtimeOf w k).
  { intros k Hk Hkc. unfold mtimeOf. rewrite Hb2.
    rewrite !obj_get_set_other; [reflexivity | | now apply metaName_not_copy].
    intros ->. now apply Hk. }
  assert (Hmn : mtimeOf w2 n = now w).
  { unfold mtimeOf. rewrite Hb2, obj_get_set_other by (apply not_eq_sym, metaName_neq).
    now rewrite obj_get_set_same. }
  destruct (sortBy_oldest_last (copyStats (basename p) w2) (b, mtimeOf w2 b)) as (t & Ht).
  { unfold copyStats. apply (in_map (fun f => (f, mtimeOf w2 f))).
    rewrite Hcopies. apply in_or_app. now left. }
  { intros [k mk'] Hk Hne. unfold copyStats in Hk. apply in_map_iff in Hk.
    destruct Hk as (k' & [= <- <-] & Hk'). cbn [snd].
    assert (Hkb : k' <> b) by (intros ->; now apply Hne).
    rewrite (Hold2 b) by (cbn [lookupFile] in Hb; congruence || assumption).
    rewrite Hcopies in Hk'. apply in_app_or in Hk'. destruct Hk' as [Hk'|[<-|[]]].
    - destruct (In_backupCopies _ _ _ Hk') as [Hex Hkc].
      rewrite (Hold2 k' Hex Hkc). now apply Hold.
    - now rewrite Hmn. }
  assert (Hpruned : pruned (basename p) w2 = [b]).
  { unfold pruned. rewrite Ht.
    assert (Hl : List.length t = MAX_BACKUPS).
    { assert (Hperm : List.length (t ++ [(b, mtimeOf w2 b)])
                      = List.length (copyStats (basename p) w2)).
      { rewrite <- Ht. apply Permutation_length, sortBy_perm. }
      unfold copyStats in Hperm. rewrite length_map, Hcopies, !length_app in Hperm.
      simpl in Hperm. lia. }
    rewrite length_app, Hl. simpl List.length.
    replace (MAX_BACKUPS <? MAX_BACKUPS + 1)%nat with true
      by (symmetry; apply Nat.ltb_lt; lia).
    rewrite <- Hl, skipn_all_but_last. reflexivity. }
  assert (Hmeta2 : obj_get (metaName b) (backups w2) = Some fm).
  { rewrite Hb2, !obj_get_set_other; [exact Hm | |].
    - apply not_eq_sym, metaName_not_copy. exact Hname.
    - intros E. apply Hbn. now apply metaName_inj. }
  pose proof (cleanupOldBackups_general (basename p) w2 Htidy2) as Hcl.
  rewrite Hpruned in Hcl. cbn [flat_map] in Hcl. unfold unlinkEvents in Hcl.
  rewrite Hmeta2, app_nil_r in Hcl.
  pose proof (Hexact _ Hcl) as Hcb.
  set (evs := mk ++ snapshotEvent p w :: EvWriteFile (InBackups (metaName n)) meta
              :: [EvUnlink (InBackups b); EvUnlink (InBackups (metaName b))]) in *.
  assert (Hq : Forall (fun e => backupOnly e = true) evs).
  { apply Forall_app. split; [now apply Forall_mkdir_backupOnly|]. repeat constructor. }
  assert (Hgone : lookupFile (InBackups b) (replay w evs) = None
                  /\ lookupFile (InBackups (metaName b)) (replay w evs) = None).
  { unfold evs. rewrite replay_app.
    change (replay (replay w mk) (snapshotEvent p w :: EvWriteFile (InBackups (metaName n)) meta
                                  :: [EvUnlink (InBackups b); EvUnlink (InBackups (metaName b))]))
      with (replay w2 [EvUnlink (InBackups b); EvUnlink (InBackups (metaName b))]).
    cbn [replay fold_left apply_event removeFile lookupFile backups]. split.
    - rewrite obj_get_delete_other by (apply not_eq_sym, metaName_neq).
      apply obj_get_delete_same.
    - apply obj_get_delete_same. }
  assert (Hrun : Runs (restoreBackup (InBackups b)) w (Val (Failure (Exception ENOENT))) evs).
  { unfold restoreBackup. eapply Runs_eq.
    - eapply Runs_try_throw;
        [eapply Runs_eq;
         [ eapply Runs_bind; [apply Runs_existsSync|]; rewrite Hb, ?replay_nil; cbn [negb];
           eapply Runs_bind; [apply Runs_existsSync|];
           change (pathAppend (InBackups b) ".meta.json") with (InBackups (metaName b));
           rewrite Hm, ?replay_nil; cbn [negb];
           eapply Runs_bind; [exact (Runs_readFileSync _ _ fm Hm)|]; rewrite Hmc, ?replay_nil;
           eapply Runs_bind; [apply Runs_ret|]; rewrite ?replay_nil;
           eapply Runs_bind; [exact (Runs_readFileSync _ _ fb Hb)|]; rewrite Hbc, ?replay_nil;
           eapply Runs_bind; [apply Runs_ret|]; rewrite ?replay_nil; cbn [asMeta];
           eapply Runs_bind; [exact Hcb|];
           apply Runs_bind_throw, Runs_copyFileSync_missing, (proj1 Hgone)
         | reflexivity ]
        | apply Runs_ret ].
    - simpl. now rewrite !app_nil_r. }
  destruct (Runs_events _ _ _ _ Hrun) as (_ & -> & ->).
  split; [reflexivity|]. split; [exact (proj1 Hgone)|]. split; [exact (proj2 Hgone)|].
  now apply files_replay_backupOnly.
Qed.


(** ** [restoreBackup]: what a call leaves behind *)

Lemma snapshotCall_backupOnly (n : string) (e : Event) :
  snapshotCall n e = true -> backupOnly e = true.
Proof. destruct e as [d|[q|k] c|a b|a [q|k]|[q|k]]; try discriminate; reflexivity. Qed.

Lemma cleanupOldBackups_calls (n base : string) :
  LogsVal (snapshotCall n) (cleanupOldBackups base).
Proof.
  unfold cleanupOldBackups.
  apply LogsVal_tryCatch; [|intros; apply LogsVal_ret].
  apply Logs_bind; [apply LogsVal_Logs, LogsVal_inspect | intros listing].
  apply Logs_bind; [apply Logs_mapM; intros; apply Logs_statMtime | intros stats].
  destruct (MAX_BACKUPS <? _)%nat; [|apply Logs_ret].
  apply Logs_forEach. intros file.
  apply Logs_bind; [now apply Logs_unlinkSync | intros _].
  apply Logs_bind; [apply LogsVal_Logs, LogsVal_existsSync | intros present].
  destruct present; [now apply Logs_unlinkSync | apply Logs_ret].
Qed.

(** [createBackup] never throws, and makes no other [fs] calls than those
    of [snapshotCall] for its copy. *)
Lemma createBackup_trace (p : Path) (d : option string) (w : World) :
  exists r evs,
    Runs (createBackup p d) w (Val r) evs
    /\ Forall (fun e => snapshotCall (backupName p (now w)) e = true) evs.
Proof.
  destruct (lookupFile p w) as [f|] eqn:E.
  - destruct (createBackup_exact p d w f E) as (mk & Hmk & Hexact).
    match type of Hexact with
    | forall cl, Runs _ ?w2 _ _ -> _ =>
        destruct (cleanupOldBackups_calls (backupName p (now w)) (basename p) w2)
          as ([] & cl & Hcl & Hqcl)
    end.
    eexists. eexists. split; [exact (Hexact cl Hcl)|].
    apply Forall_app. split.
    + eapply Forall_impl; [|exact Hmk]. intros [] He; try discriminate; reflexivity.
    + constructor; [apply String.eqb_refl|]. constructor; [apply String.eqb_refl|].
      exact Hqcl.
  - exists None, []. split; [|constructor].
    unfold Runs, createBackup, bind, existsSync, inspect. now rewrite E.
Qed.

(** Calls of [snapshotCall n] leave an entry of the backups directory that
    is neither the copy [n] nor its sidecar as it was, or delete it. *)
Lemma kept_or_gone (n k : string) (evs : list Event) (w : World) (g : File) :
  Forall (fun e => snapshotCall n e = true) evs ->
  k <> n -> k <> metaName n ->
  lookupFile (InBackups k) (replay w evs) = Some g ->
  lookupFile (InBackups k) w = Some g.
Proof.
  intros Hq Hn Hm. revert w. induction Hq as [|e r He _ IH]; intros w; [trivial|].
  cbn [replay fold_left].
  change (fold_left (fun acc e0 => apply_event e0 acc) r (apply_event e w))
    with (replay (apply_event e w) r).
  intros H. apply IH in H. revert H.
  destruct e as [d|[q|k'] c|a b'|a [q|k']|[q|k']]; try discriminate; cbn [apply_event].
  - destruct (hasDir d w); trivial.
  - apply String.eqb_eq in He. subst k'. now rewrite lookup_store_other by congruence.
  - apply String.eqb_eq in He. subst k'. destruct (lookupFile a w); [|trivial].
    now rewrite lookup_store_other by congruence.
  - destruct (String.eqb_spec k k') as [->|Hne].
    + now rewrite lookup_remove_same.
    + now rewrite lookup_remove_other by congruence.
Qed.

(** The two ways a [restoreBackup] call ends. *)
Lemma restoreBackup_cases (bp : Path) (w : World) :
  (exists fm m pre fb,
      lookupFile (pathAppend bp ".meta.json") w = Some fm
      /\ content fm = JsonText (MetaDoc m)
      /\ Forall (fun e => snapshotCall (backupName (originalPath m) (now w)) e = true) pre
      /\ lookupFile bp (replay w pre) = Some fb
      /\ Runs (restoreBackup bp) w (Val Success) (pre ++ [EvCopyFile bp (originalPath m)]))
  \/ (exists err pre,
         Forall (fun e => backupOnly e = true) pre
         /\ Runs (restoreBackup bp) w (Val (Failure err)) pre).
Proof.
  destruct (lookupFile bp w) as [fb|] eqn:Eb.
  2:{ right. exists BackupFileNotFound, []. split; [constructor|].
      unfold restoreBackup. apply Runs_try_val. eapply Runs_eq.
      - eapply Runs_bind; [apply Runs_existsSync|]. rewrite Eb. apply Runs_ret.
      - reflexivity. }
  destruct (lookupFile (pathAppend bp ".meta.json") w) as [fm|] eqn:Em.
  2:{ right. exists BackupMetadataNotFound, []. split; [constructor|].
      unfold restoreBackup. apply Runs_try_val. eapply Runs_eq.
      - eapply Runs_bind; [apply Runs_existsSync|]. rewrite Eb, ?replay_nil. cbn [negb].
        eapply Runs_bind; [apply Runs_existsSync|]. rewrite Em. apply Runs_ret.
      - reflexivity. }
  assert (Hhead : forall (k : JsonValue -> Content -> M OpResult) r evs,
             (forall v, content fm = JsonText v ->
                Runs (k v (content fb)) w r evs) ->
             (exists v, content fm = JsonText v) ->
             Runs (hasBackup <- existsSync bp ;;
                   if negb hasBackup then ret (Failure BackupFileNotFound)
                   else
                     hasMeta <- existsSync (pathAppend bp ".meta.json") ;;
                     if negb hasMeta then ret (Failure BackupMetadataNotFound)
                     else
                       metaText <- readFileSync (pathAppend bp ".meta.json") ;;
                       meta <- JSON_parse metaText ;;
                       content <- readFileSync bp ;;
                       k meta content) w r evs).
  { intros k r evs Hk (v & Ev). eapply Runs_eq.
    - eapply Runs_bind; [apply Runs_existsSync|]. rewrite Eb, ?replay_nil. cbn [negb].
      eapply Runs_bind; [apply Runs_existsSync|]. rewrite Em, ?replay_nil. cbn [negb].
      eapply Runs_bind; [exact (Runs_readFileSync _ _ fm Em)|]. rewrite Ev, ?replay_nil.
      eapply Runs_bind; [apply Runs_ret|]. rewrite ?replay_nil.
      eapply Runs_bind; [exact (Runs_readFileSync _ _ fb Eb)|]. rewrite ?replay_nil.
      now apply Hk.
    - reflexivity. }
  destruct (content fm) as [raw|v] eqn:Ecm.
  { right. exists (Exception SyntaxError), []. split; [constructor|].
    unfold restoreBackup. eapply Runs_eq.
    - eapply Runs_try_throw;
        [eapply Runs_eq;
         [ eapply Runs_bind; [apply Runs_existsSync|]; rewrite Eb, ?replay_nil; cbn [negb];
           eapply Runs_bind; [apply Runs_existsSync|]; rewrite Em, ?replay_nil; cbn [negb];
           eapply Runs_bind; [exact (Runs_readFileSync _ _ fm Em)|];
           rewrite Ecm, ?replay_nil; apply Runs_bind_throw, Runs_throw
         | reflexivity ]
        | apply Runs_ret ].
    - reflexivity. }
  destruct (content fb) as [raw|vb] eqn:Ecb.
  { right. exists (Exception SyntaxError), []. split; [constructor|].
    unfold restoreBackup. eapply Runs_eq.
    - eapply Runs_try_throw; [|apply Runs_ret].
      apply (Hhead (fun meta content =>
                      JSON_parse content ;;;
                      match asMeta meta with
                      | Some m =>
                          createBackup (originalPath m)
                            (Some ("Before restoring backup from " +++ meta_timestamp m)) ;;;
                          copyFileSync bp (originalPath m) ;;; ret Success
                      | None => throw TypeError
                      end)); [|eauto].
      intros v' _. apply Runs_bind_throw, Runs_throw.
    - reflexivity. }
  destruct v as [dcfg|m].
  { right. exists (Exception TypeError), []. split; [constructor|].
    unfold restoreBackup. eapply Runs_eq.
    - eapply Runs_try_throw; [|apply Runs_ret].
      apply (Hhead (fun meta content =>
                      JSON_parse content ;;;
                      match asMeta meta with
                      | Some m =>
                          createBackup (originalPath m)
                            (Some ("Before restoring backup from " +++ meta_timestamp m)) ;;;
                          copyFileSync bp (originalPath m) ;;; ret Success
                      | None => throw TypeError
                      end)); [|eauto].
      intros v' [= <-]. eapply Runs_eq.
      + eapply Runs_bind; [apply Runs_ret|]. apply Runs_throw.
      + reflexivity.
    - reflexivity. }
  destruct (createBackup_trace (originalPath m)
              (Some ("Before restoring backup from " +++ meta_timestamp m)) w)
    as (r & pre & Hpre & Hq).
  destruct (lookupFile bp (replay w pre)) as [fb'|] eqn:Eb'.
  - left. exists fm, m, pre, fb'. repeat split; try assumption.
    unfold restoreBackup. apply Runs_try_val.
    apply (Hhead (fun meta content =>
                    JSON_parse content ;;;
                    match asMeta meta with
                    | Some m =>
                        createBackup (originalPath m)
                          (Some ("Before restoring backup from " +++ meta_timestamp m)) ;;;
                        copyFileSync bp (originalPath m) ;;; ret Success
                    | None => throw TypeError
                    end)); [|eauto].
    intros v' [= <-]. eapply Runs_eq.
    + eapply Runs_bind; [apply Runs_ret|]. rewrite ?replay_nil. cbn [asMeta].
      eapply Runs_bind; [exact Hpre|].
      eapply Runs_bind; [exact (Runs_copyFileSync _ _ _ fb' Eb') | apply Runs_ret].
    + reflexivity.
  - right. exists (Exception ENOENT), pre. split.
    { eapply Forall_impl; [|exact Hq]. intros e. apply snapshotCall_backupOnly. }
    unfold restoreBackup. eapply Runs_eq.
    + eapply Runs_try_throw; [|apply Runs_ret].
      apply (Hhead (fun meta content =>
                      JSON_parse content ;;;
                      match asMeta meta with
                      | Some m =>
                          createBackup (originalPath m)
                            (Some ("Before restoring backup from " +++ meta_timestamp m)) ;;;
                          copyFileSync bp (originalPath m) ;;; ret Success
                      | None => throw TypeError
                      end)); [|eauto].
      intros v' [= <-]. eapply Runs_eq.
      * eapply Runs_bind; [apply Runs_ret|]. rewrite ?replay_nil. cbn [asMeta].
        eapply Runs_bind; [exact Hpre|].
        apply Runs_bind_throw. now apply Runs_copyFileSync_missing.
      * simpl. now rewrite app_nil_r.
    + now rewrite app_nil_r.
Qed.

(** [restoreBackup] never throws, and a call that reports a failure has left
    every file outside the backups directory as it was. *)
Theorem restoreBackup_failure_keeps_the_live_files (bp : Path) (w : World) :
  (exists r, value (restoreBackup bp w) = Val r)
  /\ forall err,
       value (restoreBackup bp w) = Val (Failure err) ->
       files (final (restoreBackup bp w)) = files w.
Proof.
  destruct (restoreBackup_cases bp w)
    as [(fm & m & pre & fb & _ & _ & _ & _ & Hrun) | (err0 & pre & Hq & Hrun)];
    destruct (Runs_events _ _ _ _ Hrun) as (_ & Hv & Hf); rewrite Hv, Hf.
  - split; [eauto|]. discriminate.
  - split; [eauto|]. intros err _. now apply files_replay_backupOnly.
Qed.

(** When [restoreBackup] reports success, the file named by the sidecar
    holds the content the backup had, provided the backup is not the very
    copy, or sidecar, that the call itself writes at that instant. *)
Theorem restoreBackup_success_restores_the_content (b : string) (w : World)
  (fb fm : File) (m : BackupMeta) :
  lookupFile (InBackups b) w = Some fb ->
  lookupFile (InBackups (metaName b)) w = Some fm ->
  content fm = JsonText (MetaDoc m) ->
  b <> backupName (originalPath m) (now w) ->
  b <> metaName (backupName (originalPath m) (now w)) ->
  value (restoreBackup (InBackups b) w) = Val Success ->
  lookupFile (originalPath m) (final (restoreBackup (InBackups b) w))
  = Some (mkFile (content fb) (now w))
  /\ forall q, Abs q <> originalPath m ->
       lookupFile (Abs q) (final (restoreBackup (InBackups b) w)) = lookupFile (Abs q) w.
Proof.
  intros Hb Hm Hmc Hn1 Hn2 Hok.
  destruct (restoreBackup_cases (InBackups b) w)
    as [(fm' & m' & pre & fb' & Hm' & Hmc' & Hq & Hb' & Hrun) | (err0 & pre & Hq & Hrun)];
    destruct (Runs_events _ _ _ _ Hrun) as (_ & Hv & Hf); rewrite Hv in Hok;
    [|discriminate].
  change (pathAppend (InBackups b) ".meta.json") with (InBackups (metaName b)) in Hm'.
  rewrite Hm in Hm'. injection Hm' as <-. rewrite Hmc in Hmc'. injection Hmc' as <-.
  pose proof (kept_or_gone _ b pre w fb' Hq Hn1 Hn2 Hb') as Hsame.
  rewrite Hb in Hsame. injection Hsame as <-.
  rewrite Hf, replay_app. cbn [replay fold_left apply_event]. rewrite Hb', now_replay.
  split; [apply lookup_store_same|].
  intros q Hq'. rewrite lookup_store_other by assumption.
  apply lookup_replay_backupOnly.
  eapply Forall_impl; [|exact Hq]. intros e. apply snapshotCall_backupOnly.
Qed.



(** ** [getToolInfo]: the table of known tools *)

Lemma prefix_split (p s : string) :
  String.prefix p s = true -> s = p +++ dropChars (String.length p) s.
Proof.
  revert s. induction p as [|a p IH]; intros s; [reflexivity|].
  destruct s as [|b s]; cbn [String.prefix]; [discriminate|].
  destruct (ascii_dec a b) as [->|]; [|discriminate].
  intros H. cbn [String.length dropChars String.append]. f_equal. now apply IH.
Qed.

Lemma prefix_git (s : string) :
  String.prefix "github" s = true -> String.prefix "git" s = true.
Proof.
  intros H. apply prefix_split in H. rewrite H.
  exact (prefix_append "git" ("hub" +++ dropChars 6 s)).
Qed.

Lemma includes_git (s : string) :
  includes "github" s = true -> includes "git" s = true.
Proof.
  induction s as [|c r IH].
  - discriminate.
  - cbn [includes]. intros H. apply orb_true_iff in H. apply orb_true_iff.
    destruct H as [H|H]; [left; now apply prefix_git | right; now apply IH].
Qed.

(** A name that has [github] in it, in whatever case, and is more than that
    word, is not given the row of [github]: the loop over the table stops at
    a key that comes before it, at [git] at the latest. *)
Theorem names_with_github_get_an_earlier_row (name : string) :
  includes "github" (Tools.toLowerCase name) = true ->
  Tools.toLowerCase name <> "github" ->
  exists key info,
    In (key, info) (firstn 8 Tools.KNOWN_MCP_TOOL_COUNTS)
    /\ Tools.getToolInfo name = Tools.answer info.
Proof.
  intros Hin Hne. unfold Tools.getToolInfo.
  generalize dependent (Tools.toLowerCase name). intros lowerName Hin Hne.
  assert (Hexact : obj_get lowerName Tools.KNOWN_MCP_TOOL_COUNTS = None).
  { unfold Tools.KNOWN_MCP_TOOL_COUNTS. cbn [obj_get].
    repeat match goal with
           | |- context [String.eqb lowerName ?k] =>
               destruct (String.eqb_spec lowerName k) as [E|_];
               [rewrite E in Hin, Hne; first [discriminate Hin | now elim Hne]|]
           end.
    reflexivity. }
  rewrite Hexact.
  assert (Hown : Tools.inherited lowerName = false).
  { unfold Tools.inherited.
    repeat match goal with
           | |- context [String.eqb lowerName ?k] =>
               destruct (String.eqb_spec lowerName k) as [E|_];
               [rewrite E in Hin; discriminate Hin|]
           end.
    reflexivity. }
  rewrite Hown. apply includes_git in Hin.
  unfold Tools.KNOWN_MCP_TOOL_COUNTS. cbn [Tools.partialMatch firstn].
  repeat match goal with
         | |- context [if ?t || ?u then _ else _] =>
             lazymatch t with
             | includes "git" lowerName => rewrite Hin; cbn [orb]
             | _ => destruct (t || u) eqn:?;
                    [eexists; eexists; split; [|reflexivity]; cbn [In]; tauto|]
             end
         end.
  eexists. eexists. split; [|reflexivity]. cbn [In]. tauto.
Qed.


(** ** Agent files: [updateAgentModel] and [parseMdAgent] *)

(** *** Lines *)

Lemma split_nonempty (sep : ascii) (s : string) : Str.split sep s <> [].
Proof.
  destruct s as [|c r]; cbn [Str.split]; [discriminate|].
  destruct (Ascii.eqb c sep); [discriminate|].
  destruct (Str.split sep r); discriminate.
Qed.

Lemma split_cons (sep c : ascii) (r : string) :
  Ascii.eqb c sep = false ->
  Str.split sep (String c r)
  = String c (hd EmptyString (Str.split sep r)) :: tl (Str.split sep r).
Proof.
  intros H. cbn [Str.split]. rewrite H.
  pose proof (split_nonempty sep r) as Hne.
  destruct (Str.split sep r); [contradiction | reflexivity].
Qed.

Lemma split_sep (sep : ascii) (r : string) :
  Str.split sep (String sep r) = EmptyString :: Str.split sep r.
Proof. cbn [Str.split]. now rewrite Ascii.eqb_refl. Qed.

Lemma split_app (sep : ascii) (a b : string) :
  Str.split sep (a +++ String sep b) = Str.split sep a ++ Str.split sep b.
Proof.
  induction a as [|c a IH].
  - cbn [String.append]. rewrite split_sep. reflexivity.
  - cbn [String.append]. destruct (Ascii.eqb c sep) eqn:E.
    + apply Ascii.eqb_eq in E. subst c. rewrite !split_sep, IH. reflexivity.
    + rewrite !split_cons, IH by assumption.
      pose proof (split_nonempty sep a) as Hne.
      destruct (Str.split sep a); [contradiction | reflexivity].
Qed.

Lemma split_plain (sep : ascii) (s : string) :
  noneOf (fun c => Ascii.eqb c sep) s = true -> Str.split sep s = [s].
Proof.
  induction s as [|c r IH]; [reflexivity|].
  cbn [noneOf]. intros H. apply andb_true_iff in H. destruct H as [Hc Hr].
  apply negb_true_iff in Hc. rewrite split_cons, (IH Hr) by assumption. reflexivity.
Qed.

(** The first line of a text is a prefix of it, followed by nothing or by a
    line feed. *)
Lemma first_line (s y : string) :
  exists z,
    s +++ String LF y = hd EmptyString (Str.split LF s) +++ String LF z.
Proof.
  induction s as [|c r [z IH]].
  - now exists y.
  - destruct (Ascii.eqb c LF) eqn:E.
    + apply Ascii.eqb_eq in E. subst c. rewrite split_sep. cbn [hd String.append].
      now exists (r +++ String LF y).
    + rewrite split_cons by assumption. cbn [hd String.append]. rewrite IH.
      now exists z.
Qed.

Lemma prefix_more (p s t : string) :
  String.prefix p s = true -> String.prefix p (s +++ t) = true.
Proof.
  intros H. rewrite (prefix_split _ _ H), append_assoc. apply prefix_append.
Qed.

Lemma prefix_cons (a b : ascii) (p s : string) :
  String.prefix (String a p) (String b s)
  = if Ascii.eqb a b then String.prefix p s else false.
Proof.
  cbn [String.prefix]. destruct (ascii_dec a b) as [->|Hne].
  - now rewrite Ascii.eqb_refl.
  - apply Ascii.eqb_neq in Hne. now rewrite Hne.
Qed.

Lemma prefix_nil_l (s : string) : String.prefix EmptyString s = true.
Proof. now destruct s. Qed.

Lemma prefix_nil_r (a : ascii) (p : string) :
  String.prefix (String a p) EmptyString = false.
Proof. reflexivity. Qed.

(** A line that does not start with the fence does not start with it when a
    line feed and more text follow. *)
Lemma no_fence_more (h z : string) :
  String.prefix "---" h = false -> String.prefix "---" (h +++ String LF z) = false.
Proof.
  destruct h as [|c0 [|c1 [|c2 r]]]; cbn [String.append];
    rewrite ?prefix_cons, ?prefix_nil_r; cbn [String.prefix];
    repeat match goal with
           | |- context [Ascii.eqb ?a ?b] => destruct (Ascii.eqb a b) eqn:?
           end;
    rewrite ?prefix_nil_l; try reflexivity; try discriminate.
Qed.


(** *** The fence *)

Lemma cut_sound (pat s a b : string) :
  cut pat s = Some (a, b) -> s = a +++ pat +++ b.
Proof.
  revert a. induction s as [|c r IH]; intros a; cbn [cut].
  - destruct (String.prefix pat EmptyString) eqn:E; [|discriminate].
    intros [= <- <-]. exact (prefix_split _ _ E).
  - destruct (String.prefix pat (String c r)) eqn:E.
    + intros [= <- <-]. exact (prefix_split _ _ E).
    + destruct (cut pat r) as [[a' b']|]; [|discriminate].
      intros [= <- <-]. cbn [String.append]. f_equal. now apply IH.
Qed.

(** The frontmatter the match captures has no line that starts with the
    fence, its first line apart. *)
Lemma cut_unfenced (s a b : string) :
  cut fenceClose s = Some (a, b) -> unfenced (Str.split LF a).
Proof.
  revert a. induction s as [|c r IH]; intros a; cbn [cut].
  - discriminate.
  - destruct (String.prefix fenceClose (String c r)) eqn:E.
    + intros [= <- <-]. constructor.
    + destruct (cut fenceClose r) as [[a' b']|] eqn:Ec; [|discriminate].
      intros [= <- <-]. specialize (IH a' eq_refl). unfold unfenced in *.
      destruct (Ascii.eqb c LF) eqn:El.
      * apply Ascii.eqb_eq in El. subst c. rewrite split_sep. cbn [tl].
        pose proof (split_nonempty LF a') as Hne.
        destruct (Str.split LF a') as [|h t] eqn:Es; [contradiction|].
        constructor; [|exact IH].
        unfold fenceClose in E. rewrite prefix_cons, Ascii.eqb_refl in E.
        apply cut_sound in Ec. rewrite Ec in E.
        destruct (String.prefix "---" h) eqn:Eh; [|reflexivity].
        destruct (first_line a' ("---" +++ b')) as [z Hz].
        rewrite Es in Hz. cbn [hd] in Hz.
        change (fenceClose +++ b') with (String LF ("---" +++ b')) in E.
        rewrite Hz in E. now rewrite (prefix_more _ _ _ Eh) in E.
      * rewrite split_cons by assumption. exact IH.
Qed.

Lemma cut_fence (x b : string) :
  unfenced (Str.split LF x) -> cut fenceClose (x +++ fenceClose +++ b) = Some (x, b).
Proof.
  induction x as [|c r IH]; intros Hx.
  - cbn [String.append].
    pose proof (prefix_append fenceClose b) as E.
    pose proof (dropChars_append fenceClose b) as D.
    change (fenceClose +++ b) with (String LF ("---" +++ b)) in *.
    cbn [cut]. now rewrite E, D.
  - cbn [String.append cut]. unfold unfenced in *.
    destruct (Ascii.eqb c LF) eqn:El.
    + apply Ascii.eqb_eq in El. subst c. rewrite split_sep in Hx. cbn [tl] in Hx.
      pose proof (split_nonempty LF r) as Hne.
      destruct (Str.split LF r) as [|h t] eqn:Es; [contradiction|].
      inversion Hx as [|? ? Hh Ht]; subst.
      assert (E : String.prefix fenceClose (String LF (r +++ fenceClose +++ b)) = false).
      { unfold fenceClose at 1. rewrite prefix_cons, Ascii.eqb_refl.
        destruct (first_line r ("---" +++ b)) as [z Hz]. rewrite Es in Hz. cbn [hd] in Hz.
        change (fenceClose +++ b) with (String LF ("---" +++ b)).
        rewrite Hz. now apply no_fence_more. }
      rewrite E, IH; [reflexivity | exact Ht].
    + assert (E : String.prefix fenceClose (String c (r +++ fenceClose +++ b)) = false).
      { unfold fenceClose at 1. rewrite prefix_cons.
        rewrite Ascii.eqb_sym in El. now rewrite El. }
      rewrite E, IH; [reflexivity|]. rewrite split_cons in Hx by assumption. exact Hx.
Qed.

Lemma frontmatterMatch_fenced (x b : string) :
  unfenced (Str.split LF x) ->
  frontmatterMatch (fenceOpen +++ x +++ fenceClose +++ b) = Some (x, b).
Proof.
  intros Hx. unfold frontmatterMatch.
  now rewrite prefix_append, dropChars_append, cut_fence.
Qed.

Lemma frontmatterMatch_sound (content fm rest : string) :
  frontmatterMatch content = Some (fm, rest) ->
  content = fenceOpen +++ fm +++ fenceClose +++ rest
  /\ unfenced (Str.split LF fm).
Proof.
  unfold frontmatterMatch. destruct (String.prefix fenceOpen content) eqn:E; [|discriminate].
  intros H. split.
  - rewrite (prefix_split _ _ E) at 1. f_equal. now apply cut_sound.
  - eapply cut_unfenced, H.
Qed.


(** *** The model line *)

Lemma isLineTerminator_LF : isLineTerminator LF = true.
Proof. reflexivity. Qed.

Lemma plain_char (c : ascii) :
  isCR c = false -> isLineTerminator c = Ascii.eqb c LF.
Proof. unfold isCR, isLineTerminator. intros ->. apply orb_false_r. Qed.

Lemma noneOf_cons (q : ascii -> bool) (c : ascii) (r : string) :
  noneOf q (String c r) = true -> q c = false /\ noneOf q r = true.
Proof.
  cbn [noneOf]. intros H. apply andb_true_iff in H. destruct H as [H1 H2].
  now apply negb_true_iff in H1.
Qed.

Lemma append_nil_r (s : string) : s +++ EmptyString = s.
Proof. induction s as [|c r IH]; [reflexivity|]. cbn [String.append]. now rewrite IH. Qed.

(** In a text without carriage returns, what follows the first line. *)
Lemma lineRest_lines (repl s : string) :
  noneOf isCR s = true ->
  noneOf (fun c => Ascii.eqb c LF) repl = true ->
  Str.split LF (repl +++ snd (lineRest s)) = repl :: tl (Str.split LF s).
Proof.
  intros Hs Hr. induction s as [|c r IH].
  - cbn [lineRest snd Str.split tl]. rewrite append_nil_r. now apply split_plain.
  - apply noneOf_cons in Hs. destruct Hs as [Hc Hs]. cbn [lineRest].
    rewrite (plain_char c Hc). destruct (Ascii.eqb c LF) eqn:El.
    + apply Ascii.eqb_eq in El. subst c. cbn [snd].
      rewrite split_app, split_sep, (split_plain _ _ Hr). reflexivity.
    + destruct (lineRest r) as [a b] eqn:Er. cbn [snd] in *.
      rewrite (IH Hs), split_cons by assumption. reflexivity.
Qed.

Lemma lineRest_head (s : string) :
  noneOf isCR s = true -> fst (lineRest s) = hd EmptyString (Str.split LF s).
Proof.
  induction s as [|c r IH]; intros Hs; [reflexivity|].
  apply noneOf_cons in Hs. destruct Hs as [Hc Hs]. cbn [lineRest].
  rewrite (plain_char c Hc). destruct (Ascii.eqb c LF) eqn:El.
  - apply Ascii.eqb_eq in El. subst c. now rewrite split_sep.
  - destruct (lineRest r) as [a b] eqn:Er. cbn [fst] in *.
    rewrite split_cons, <- (IH Hs) by assumption. reflexivity.
Qed.

(** A prefix without a line feed is a prefix of the first line. *)
Lemma prefix_first_line (p s : string) :
  noneOf (fun c => Ascii.eqb c LF) p = true ->
  String.prefix p s = String.prefix p (hd EmptyString (Str.split LF s)).
Proof.
  revert s. induction p as [|a p IH]; intros s Hp.
  - now rewrite !prefix_nil_l.
  - apply noneOf_cons in Hp. destruct Hp as [Ha Hp].
    destruct s as [|c r]; [reflexivity|].
    destruct (Ascii.eqb c LF) eqn:El.
    + apply Ascii.eqb_eq in El. subst c. rewrite split_sep. cbn [hd].
      rewrite prefix_cons, Ha. reflexivity.
    + rewrite split_cons by assumption. cbn [hd]. rewrite !prefix_cons.
      destruct (Ascii.eqb a c); [now apply IH | reflexivity].
Qed.

Lemma startsWithModel_first (s : string) :
  String.prefix "model:" s = startsWithModel (hd EmptyString (Str.split LF s)).
Proof. now apply prefix_first_line. Qed.

Lemma findModelLine_cons (bol : bool) (c : ascii) (r : string) :
  bol && String.prefix "model:" (String c r) = false ->
  findModelLine bol (String c r)
  = match findModelLine (isLineTerminator c) r with
    | Some (before, line, rest) => Some (String c before, line, rest)
    | None => None
    end.
Proof. intros H. cbn [findModelLine]. now rewrite H. Qed.

(** The lines of a frontmatter without carriage returns once the first
    match of [/^model:.*$/m] has been replaced by a line. *)
Lemma findModelLine_lines (repl s : string) (bol : bool) :
  noneOf isCR s = true ->
  noneOf (fun c => Ascii.eqb c LF) repl = true ->
  Str.split LF
    (match findModelLine bol s with
     | Some (before, _, rest) => before +++ repl +++ rest
     | None => s
     end)
  = if bol then replaceFirst startsWithModel repl (Str.split LF s)
    else hd EmptyString (Str.split LF s)
         :: replaceFirst startsWithModel repl (tl (Str.split LF s)).
Proof.
  intros Hs Hr. revert bol. induction s as [|c r IH]; intros bol.
  - destruct bol; reflexivity.
  - pose proof Hs as Hs'. apply noneOf_cons in Hs. destruct Hs as [Hc Hs].
    specialize (IH Hs).
    destruct (bol && String.prefix "model:" (String c r)) eqn:E.
    + apply andb_true_iff in E. destruct E as [-> E].
      cbn [findModelLine andb]. rewrite E.
      pose proof (lineRest_lines repl (String c r) Hs' Hr) as Hl.
      destruct (lineRest (String c r)) as [line rest]. cbn [snd] in Hl.
      cbn [String.append]. rewrite Hl.
      rewrite startsWithModel_first in E.
      pose proof (split_nonempty LF (String c r)) as Hne.
      destruct (Str.split LF (String c r)) as [|h t]; [contradiction|].
      cbn [hd] in E. cbn [replaceFirst tl]. now rewrite E.
    + rewrite (findModelLine_cons _ _ _ E), (plain_char c Hc).
      destruct (Ascii.eqb c LF) eqn:El.
      * apply Ascii.eqb_eq in El. subst c. specialize (IH true).
        rewrite split_sep.
        assert (Ho : Str.split LF
                       (match
                          match findModelLine true r with
                          | Some (before, line, rest) => Some (String LF before, line, rest)
                          | None => None
                          end
                        with
                        | Some (before, _, rest) => before +++ repl +++ rest
                        | None => String LF r
                        end)
                     = EmptyString :: replaceFirst startsWithModel repl (Str.split LF r)).
        { rewrite <- IH. destruct (findModelLine true r) as [[[b0 m0] a0]|];
            cbn [String.append]; now rewrite split_sep. }
        rewrite Ho. destruct bol; reflexivity.
      * specialize (IH false).
        assert (Ho : Str.split LF
                       (match
                          match findModelLine false r with
                          | Some (before, line, rest) => Some (String c before, line, rest)
                          | None => None
                          end
                        with
                        | Some (before, _, rest) => before +++ repl +++ rest
                        | None => String c r
                        end)
                     = String c (hd EmptyString (Str.split LF r))
                       :: replaceFirst startsWithModel repl (tl (Str.split LF r))).
        { destruct (findModelLine false r) as [[[b0 m0] a0]|].
          - cbn [String.append]. rewrite split_cons, IH by assumption. reflexivity.
          - rewrite split_cons by assumption.
            apply (f_equal (@tl string)) in IH. cbn [tl] in IH. now rewrite <- IH. }
        rewrite Ho, split_cons by assumption. cbn [hd tl].
        destruct bol; [|reflexivity].
        cbn [andb] in E. rewrite startsWithModel_first, split_cons in E by assumption.
        cbn [hd] in E. cbn [replaceFirst]. now rewrite E.
Qed.

(** [/^model:/m] matches in a frontmatter without carriage returns exactly
    when one of its lines starts with [model:]. *)
Lemma findModelLine_some (s : string) (bol : bool) :
  noneOf isCR s = true ->
  (match findModelLine bol s with Some _ => true | None => false end)
  = if bol then existsb startsWithModel (Str.split LF s)
    else existsb startsWithModel (tl (Str.split LF s)).
Proof.
  intros Hs. revert bol. induction s as [|c r IH]; intros bol.
  - destruct bol; reflexivity.
  - apply noneOf_cons in Hs. destruct Hs as [Hc Hs]. specialize (IH Hs).
    destruct (bol && String.prefix "model:" (String c r)) eqn:E.
    + apply andb_true_iff in E. destruct E as [-> E].
      cbn [findModelLine andb]. rewrite E. destruct (lineRest (String c r)).
      rewrite startsWithModel_first in E.
      pose proof (split_nonempty LF (String c r)) as Hne.
      destruct (Str.split LF (String c r)) as [|h t]; [contradiction|].
      cbn [hd] in E. cbn [existsb]. now rewrite E.
    + rewrite (findModelLine_cons _ _ _ E), (plain_char c Hc).
      destruct (Ascii.eqb c LF) eqn:El.
      * apply Ascii.eqb_eq in El. subst c. specialize (IH true). rewrite split_sep.
        cbn iota in IH. cbn [tl existsb].
        change (startsWithModel EmptyString) with false. cbn [orb].
        destruct (findModelLine true r) as [[[b0 m0] a0]|]; rewrite <- IH;
          destruct bol; reflexivity.
      * specialize (IH false). cbn iota in IH.
        rewrite split_cons by assumption. cbn [tl existsb].
        destruct bol.
        -- cbn [andb] in E. rewrite startsWithModel_first, split_cons in E by assumption.
           cbn [hd] in E. rewrite E. cbn [orb].
           destruct (findModelLine false r) as [[[b0 m0] a0]|]; exact IH.
        -- destruct (findModelLine false r) as [[[b0 m0] a0]|]; exact IH.
Qed.

Lemma expand_plain (matched before after replacement : string) :
  noneOf (fun c => Ascii.eqb c "$") replacement = true ->
  expand matched before after replacement = replacement.
Proof.
  induction replacement as [|c r IH]; [reflexivity|].
  intros H. apply noneOf_cons in H. destruct H as [Hc Hr].
  cbn [expand]. rewrite Hc, (IH Hr). reflexivity.
Qed.


(** *** Reading the fields *)

Lemma wordPrefix_app (s : string) : s = fst (wordPrefix s) +++ snd (wordPrefix s).
Proof.
  induction s as [|c r IH]; [reflexivity|]. cbn [wordPrefix].
  destruct (isWord c); [|reflexivity].
  destruct (wordPrefix r) as [k t]. cbn [fst snd String.append] in *. now f_equal.
Qed.

(** Only a line that starts with [model:] has the key [model]. *)
Lemma fieldMatch_model (line value : string) :
  fieldMatch line = Some ("model", value) -> startsWithModel line = true.
Proof.
  unfold fieldMatch, startsWithModel. pose proof (wordPrefix_app line) as Hl.
  destruct (wordPrefix line) as [k t]. cbn [fst snd] in Hl.
  destruct k as [|k0 k]; [discriminate|].
  destruct t as [|c t]; [discriminate|].
  destruct (Ascii.eqb_spec c ":") as [->|]; [|discriminate].
  destruct (valueMatch t); [|discriminate].
  intros H. assert (Hk : String k0 k = "model") by now inversion H.
  rewrite Hl, Hk. exact (prefix_append "model:" t).
Qed.

Lemma parseLine_withModel (m line : string) (r : AgentFields) :
  startsWithModel line = false ->
  parseLine (withModel m r) line = withModel m (parseLine r line).
Proof.
  intros Hl. unfold parseLine.
  destruct (fieldMatch line) as [[key value]|] eqn:E; [|reflexivity].
  destruct (String.eqb_spec key "model") as [->|_].
  - apply fieldMatch_model in E. congruence.
  - destruct (String.eqb key "name"), (String.eqb key "description"),
      (String.eqb key "tools"); reflexivity.
Qed.

Lemma fold_parseLine_withModel (m : string) (ls : list string) (r : AgentFields) :
  Forall (fun l => startsWithModel l = false) ls ->
  fold_left parseLine ls (withModel m r) = withModel m (fold_left parseLine ls r).
Proof.
  intros H. revert r. induction H as [|l t Hl _ IH]; intros r; [reflexivity|].
  cbn [fold_left]. now rewrite parseLine_withModel, IH.
Qed.

(** A line that starts with [model:] sets the model, or nothing. *)
Lemma parseLine_model (rest : string) (r : AgentFields) :
  parseLine r ("model:" +++ rest)
  = match valueMatch rest with
    | Some value => withModel (Str.trim value) r
    | None => r
    end.
Proof.
  unfold parseLine, fieldMatch.
  change (wordPrefix ("model:" +++ rest)) with ("model", String ":" rest).
  cbn iota. change (Ascii.eqb ":" ":") with true. cbn iota.
  destruct (valueMatch rest); reflexivity.
Qed.

Lemma withModel_twice (m m' : string) (r : AgentFields) :
  withModel m (withModel m' r) = withModel m r.
Proof. reflexivity. Qed.

Lemma noneOf_weaken (q q' : ascii -> bool) (s : string) :
  (forall c, q' c = true -> q c = true) -> noneOf q s = true -> noneOf q' s = true.
Proof.
  intros Hq. induction s as [|c r IH]; [reflexivity|].
  intros H. apply noneOf_cons in H. destruct H as [Hc Hr]. cbn [noneOf].
  rewrite (IH Hr), andb_true_r. apply negb_true_iff.
  destruct (q' c) eqn:E; [|reflexivity]. apply Hq in E. congruence.
Qed.

Lemma lineRest_plain (s : string) :
  noneOf isLineTerminator s = true -> lineRest s = (s, EmptyString).
Proof.
  induction s as [|c r IH]; [reflexivity|].
  intros H. apply noneOf_cons in H. destruct H as [Hc Hr].
  cbn [lineRest]. now rewrite Hc, (IH Hr).
Qed.

Lemma trimStart_plain (s : string) :
  noneOf isLineTerminator s = true -> noneOf isLineTerminator (Str.trimStart s) = true.
Proof.
  induction s as [|c r IH]; [reflexivity|].
  intros H. pose proof H as H'. apply noneOf_cons in H. destruct H as [Hc Hr].
  cbn [Str.trimStart]. destruct (isSpace c); [now apply IH | exact H'].
Qed.

Lemma trimStart_idem (s : string) : Str.trimStart (Str.trimStart s) = Str.trimStart s.
Proof.
  induction s as [|c r IH]; [reflexivity|].
  cbn [Str.trimStart]. destruct (isSpace c) eqn:E; [exact IH|].
  cbn [Str.trimStart]. now rewrite E.
Qed.

Lemma blank_lastPlain (s : string) (d : ascii) :
  Str.trimStart s = EmptyString -> lastPlain s = Some d -> isSpace d = true.
Proof.
  induction s as [|c r IH]; [discriminate|].
  cbn [Str.trimStart lastPlain]. destruct (isSpace c) eqn:E; [|discriminate].
  intros Hr. destruct (lastPlain r) as [d'|].
  - intros [= <-]. now apply IH.
  - destruct (isLineTerminator c); [discriminate|]. now intros [= <-].
Qed.

(** The value read from the line [model: X] is [X] up to the white space
    around it, whatever [X] without a line terminator is: blank and empty
    names included. *)
Lemma valueMatch_model (model : string) :
  noneOf isLineTerminator model = true ->
  exists value,
    valueMatch (String " " model) = Some value /\ Str.trim value = Str.trim model.
Proof.
  intros Hm. unfold valueMatch.
  change (Str.trimStart (String " " model)) with (Str.trimStart model).
  destruct (Str.trimStart model) as [|c r] eqn:E.
  - change (lastPlain (String " " model))
      with (match lastPlain model with Some d => Some d | None => Some " "%char end).
    unfold Str.trim. rewrite E.
    destruct (lastPlain model) as [d|] eqn:El.
    + eexists. split; [reflexivity|].
      cbn [Str.trimStart]. now rewrite (blank_lastPlain _ _ E El).
    + eexists. split; reflexivity.
  - eexists. split; [reflexivity|].
    rewrite <- E, lineRest_plain by now apply trimStart_plain.
    cbn [fst]. unfold Str.trim. now rewrite trimStart_idem.
Qed.

Lemma parseLine_new_model (model : string) (r : AgentFields) :
  noneOf isLineTerminator model = true ->
  parseLine r ("model: " +++ model) = withModel (Str.trim model) r.
Proof.
  intros Hm. change ("model: " +++ model) with ("model:" +++ String " " model).
  rewrite parseLine_model.
  destruct (valueMatch_model model Hm) as (value & -> & ->). reflexivity.
Qed.

Lemma parseLine_old_model (line m : string) (r : AgentFields) :
  startsWithModel line = true ->
  withModel m (parseLine r line) = withModel m r.
Proof.
  intros H. unfold startsWithModel in H. rewrite (prefix_split _ _ H), parseLine_model.
  destruct (valueMatch _); reflexivity.
Qed.

(** Replacing the only line that starts with [model:] changes the model
    that is read and no other field. *)
Lemma fold_replaceFirst (model : string) (ls : list string) (r : AgentFields) :
  noneOf isLineTerminator model = true ->
  existsb startsWithModel ls = true ->
  List.length (filter startsWithModel ls) <= 1 ->
  fold_left parseLine (replaceFirst startsWithModel ("model: " +++ model) ls) r
  = withModel (Str.trim model) (fold_left parseLine ls r).
Proof.
  intros Hm. revert r. induction ls as [|l t IH]; intros r Hex Hone; [discriminate|].
  cbn [replaceFirst existsb filter fold_left] in *.
  destruct (startsWithModel l) eqn:El.
  - cbn [List.length] in Hone.
    assert (Ht : Forall (fun x => startsWithModel x = false) t).
    { apply Forall_forall. intros x Hx.
      destruct (startsWithModel x) eqn:Ex; [|reflexivity].
      assert (Hin : In x (filter startsWithModel t)) by (apply filter_In; now split).
      destruct (filter startsWithModel t); [contradiction | cbn [List.length] in Hone; lia]. }
    cbn [fold_left].
    rewrite (parseLine_new_model _ _ Hm), (fold_parseLine_withModel _ _ _ Ht).
    unfold startsWithModel in El. rewrite (prefix_split _ _ El), parseLine_model.
    destruct (valueMatch _); [|reflexivity].
    now rewrite (fold_parseLine_withModel _ _ _ Ht).
  - cbn [fold_left orb] in *. now apply IH.
Qed.


(** *** [updateAgentModel] *)

Lemma updateAgentModel_run (filename model : string) (isEnabled : bool) (w : World)
  (f : File) (fm rest : string) :
  lookupFile (agentPath (agentDir isEnabled) filename) w = Some f ->
  endsWith ".md" filename = true ->
  frontmatterOf (content f) = Some (fm, rest) ->
  Runs (updateAgentModel filename model isEnabled) w (Val (Ok tt))
    [EvWriteFile (agentPath (agentDir isEnabled) filename)
       (Text (updatedText fm rest model))].
Proof.
  intros Hf Hmd Hfm. unfold updateAgentModel. eapply Runs_eq.
  - eapply Runs_bind; [apply Runs_existsSync|]. rewrite Hf, ?replay_nil. cbn [negb].
    rewrite Hmd. cbn [negb].
    eapply Runs_bind; [exact (Runs_readFileSync _ _ f Hf)|]. rewrite ?replay_nil, Hfm.
    eapply Runs_bind; [apply Runs_emit | apply Runs_ret].
  - reflexivity.
Qed.

(** The two ways a call of [updateAgentModel] ends. *)
Lemma updateAgentModel_cases (filename model : string) (isEnabled : bool) (w : World) :
  (exists e, Runs (updateAgentModel filename model isEnabled) w (Val (Refused e)) []
             /\ (endsWith ".md" filename = true ->
                 e = NoSuchAgent (agentPath (agentDir isEnabled) filename)
                 \/ e = NoFrontmatter))
  \/ (exists f fm rest,
         lookupFile (agentPath (agentDir isEnabled) filename) w = Some f
         /\ endsWith ".md" filename = true
         /\ frontmatterOf (content f) = Some (fm, rest)
         /\ Runs (updateAgentModel filename model isEnabled) w (Val (Ok tt))
              [EvWriteFile (agentPath (agentDir isEnabled) filename)
                 (Text (updatedText fm rest model))]).
Proof.
  destruct (lookupFile (agentPath (agentDir isEnabled) filename) w) as [f|] eqn:Hf.
  2:{ left. eexists. split; [|intros _; left; reflexivity].
      unfold updateAgentModel. eapply Runs_eq.
      - eapply Runs_bind; [apply Runs_existsSync|]. rewrite Hf. apply Runs_ret.
      - reflexivity. }
  destruct (endsWith ".md" filename) eqn:Hmd.
  2:{ left. exists OnlyMdAgents. split; [|discriminate].
      unfold updateAgentModel. eapply Runs_eq.
      - eapply Runs_bind; [apply Runs_existsSync|]. rewrite Hf, ?replay_nil. cbn [negb].
        rewrite Hmd. apply Runs_ret.
      - reflexivity. }
  destruct (frontmatterOf (content f)) as [[fm rest]|] eqn:Hfm.
  - right. exists f, fm, rest. repeat split; try assumption.
    now apply (updateAgentModel_run _ _ _ _ f).
  - left. exists NoFrontmatter. split; [|intros _; now right].
    unfold updateAgentModel. eapply Runs_eq.
    + eapply Runs_bind; [apply Runs_existsSync|]. rewrite Hf, ?replay_nil. cbn [negb].
      rewrite Hmd. cbn [negb].
      eapply Runs_bind; [exact (Runs_readFileSync _ _ f Hf)|]. rewrite ?replay_nil, Hfm.
      apply Runs_ret.
    + reflexivity.
Qed.

(** [updateAgentModel], which catches nothing, does not throw for want of
    the file, whose existence it checks before it reads it.  It changes no
    file but the agent's, which it overwrites in place: no copy of the
    previous content is kept in the backups directory.  A call that is
    refused makes no [fs] call that changes anything, and a file whose name
    does not end in [.md] is always refused. *)
Theorem updateAgentModel_writes_only_the_agent_file (filename model : string)
  (isEnabled : bool) (w : World) :
  (exists r, value (updateAgentModel filename model isEnabled w) = Val r)
  /\ (forall e,
        value (updateAgentModel filename model isEnabled w) = Val (Refused e) ->
        events (updateAgentModel filename model isEnabled w) = [])
  /\ (forall q, q <> agentPath (agentDir isEnabled) filename ->
        lookupFile q (final (updateAgentModel filename model isEnabled w))
        = lookupFile q w)
  /\ backups (final (updateAgentModel filename model isEnabled w)) = backups w
  /\ (endsWith ".md" filename = false ->
      exists e, value (updateAgentModel filename model isEnabled w) = Val (Refused e)).
Proof.
  destruct (updateAgentModel_cases filename model isEnabled w)
    as [(e & Hrun & _) | (f & fm & rest & Hf & Hmd & Hfm & Hrun)];
    destruct (Runs_events _ _ _ _ Hrun) as (He & Hv & Hw); rewrite He, Hv, Hw.
  - repeat split; eauto.
  - split; [eauto|]. split; [discriminate|]. split; [|split].
    + intros q Hq. cbn [replay fold_left apply_event].
      now rewrite lookup_store_other.
    + reflexivity.
    + congruence.
Qed.

Lemma plainModel_parts (model : string) :
  plainModel model = true ->
  noneOf isLineTerminator model = true
  /\ noneOf (fun c => Ascii.eqb c "$") ("model: " +++ model) = true
  /\ noneOf (fun c => Ascii.eqb c LF) ("model: " +++ model) = true.
Proof.
  unfold plainModel. intros H. split; [|split].
  - revert H. apply noneOf_weaken. intros c ->. apply orb_true_r.
  - cbn. revert H. apply noneOf_weaken. intros c ->. reflexivity.
  - cbn. revert H. apply noneOf_weaken. intros c Hc.
    apply Ascii.eqb_eq in Hc. subst c. reflexivity.
Qed.

Lemma unfenced_replaceFirst (q : string -> bool) (new : string) (ls : list string) :
  String.prefix "---" new = false -> unfenced ls -> unfenced (replaceFirst q new ls).
Proof.
  intros Hn. unfold unfenced. destruct ls as [|h t]; [trivial|].
  cbn [replaceFirst tl]. intros Ht. destruct (q h); cbn [tl]; [exact Ht|].
  induction Ht as [|x r Hx Hr IH]; cbn [replaceFirst]; [constructor|].
  destruct (q x); constructor; assumption.
Qed.

(** What [parseMdAgent] reads from the text [updateAgentModel] writes. *)
Lemma parse_updatedText (fm rest model filename : string) :
  unfenced (Str.split LF fm) ->
  noneOf isCR fm = true ->
  plainModel model = true ->
  List.length (filter startsWithModel (Str.split LF fm)) <= 1 ->
  frontmatterMatch (updatedText fm rest model)
  = Some (if hasModelLine fm
          then replaceModelLine fm ("model: " +++ model)
          else fm +++ String LF ("model: " +++ model), rest)
  /\ parseMdAgent (updatedText fm rest model) filename
     = withModel (Str.trim model)
         (fold_left parseLine (Str.split LF fm)
            (mkAgentFields None None None None format_md)).
Proof.
  intros Hu Hcr Hm Hone. destruct (plainModel_parts _ Hm) as (Hlt & Hd & Hlf).
  assert (Hlines :
            Str.split LF (if hasModelLine fm
                          then replaceModelLine fm ("model: " +++ model)
                          else fm +++ String LF ("model: " +++ model))
            = if existsb startsWithModel (Str.split LF fm)
              then replaceFirst startsWithModel ("model: " +++ model) (Str.split LF fm)
              else Str.split LF fm ++ ["model: " +++ model]).
  { unfold hasModelLine. rewrite (findModelLine_some fm true Hcr).
    destruct (existsb startsWithModel (Str.split LF fm)).
    - rewrite <- (findModelLine_lines ("model: " +++ model) fm true Hcr Hlf).
      unfold replaceModelLine.
      destruct (findModelLine true fm) as [[[b0 m0] a0]|]; [|reflexivity].
      now rewrite expand_plain.
    - now rewrite split_app, (split_plain _ _ Hlf). }
  assert (Hfence :
            frontmatterMatch (updatedText fm rest model)
            = Some (if hasModelLine fm
                    then replaceModelLine fm ("model: " +++ model)
                    else fm +++ String LF ("model: " +++ model), rest)).
  { unfold updatedText. apply frontmatterMatch_fenced. rewrite Hlines.
    destruct (existsb startsWithModel (Str.split LF fm)).
    - now apply unfenced_replaceFirst.
    - unfold unfenced in *. pose proof (split_nonempty LF fm) as Hne.
      destruct (Str.split LF fm) as [|h t]; [contradiction|].
      cbn [tl app] in *. apply Forall_app. split; [exact Hu|].
      constructor; [reflexivity | constructor]. }
  split; [exact Hfence|].
  unfold parseMdAgent. rewrite Hfence, Hlines.
  destruct (existsb startsWithModel (Str.split LF fm)) eqn:Hex.
  - now apply fold_replaceFirst.
  - rewrite fold_left_app. cbn [fold_left]. now apply parseLine_new_model.
Qed.

(** After [updateAgentModel] has set the model of an agent file,
    [parseMdAgent] reads that model, trimmed, and every other field as
    before, and the text after the frontmatter is the same; no other file
    changes.  This is for a model name without dollar sign or line break and
    a frontmatter without carriage returns in which at most one line starts
    with [model:]. *)
Theorem updateAgentModel_then_parseMdAgent (filename model : string) (isEnabled : bool)
  (w : World) (t : nat) (raw fm rest : string) :
  lookupFile (agentPath (agentDir isEnabled) filename) w = Some (mkFile (Text raw) t) ->
  endsWith ".md" filename = true ->
  frontmatterMatch raw = Some (fm, rest) ->
  noneOf isCR fm = true ->
  List.length (filter startsWithModel (Str.split LF fm)) <= 1 ->
  plainModel model = true ->
  value (updateAgentModel filename model isEnabled w) = Val (Ok tt)
  /\ exists raw' fm',
       lookupFile (agentPath (agentDir isEnabled) filename)
         (final (updateAgentModel filename model isEnabled w))
       = Some (mkFile (Text raw') (now w))
       /\ frontmatterMatch raw' = Some (fm', rest)
       /\ parseMdAgent raw' filename
          = withModel (Str.trim model) (parseMdAgent raw filename).
Proof.
  intros Hf Hmd Hfm Hcr Hone Hm.
  pose proof (updateAgentModel_run filename model isEnabled w _ fm rest Hf Hmd Hfm) as Hrun.
  destruct (Runs_events _ _ _ _ Hrun) as (_ & Hv & Hw). rewrite Hv, Hw.
  split; [reflexivity|].
  destruct (frontmatterMatch_sound _ _ _ Hfm) as (_ & Hu).
  destruct (parse_updatedText fm rest model filename Hu Hcr Hm Hone) as (Hfence & Hparse).
  eexists. eexists. split; [|split].
  - cbn [replay fold_left apply_event]. apply lookup_store_same.
  - exact Hfence.
  - rewrite Hparse. unfold parseMdAgent. now rewrite Hfm.
Qed.


(** ** [writeJsonFileAtomic] and [readJsonFile] *)

Lemma tmp_path_differs (p : Path) : pathAppend p ".tmp" <> p.
Proof.
  destruct p as [s|n]; cbn [pathAppend]; intros [= H]; symmetry in H;
    now apply append_neq_self in H.
Qed.

(** On a path that holds a JSON file already (so that its directory is
    there for the temporary file), what [writeJsonFileAtomic] has written
    [readJsonFile] reads back; the temporary file is gone afterwards, also
    when a file of that name was there before, and no other file has
    changed. *)
Theorem writeJsonFileAtomic_then_readJsonFile (p : Path) (data defaultValue : JsonDoc)
  (w : World) (f : File) (v : JsonValue) :
  lookupFile p w = Some f ->
  content f = JsonText v ->
  value (writeJsonFileAtomic p data w) = Val tt
  /\ value (readJsonFile p defaultValue (final (writeJsonFileAtomic p data w))) = Val data
  /\ lookupFile p (final (writeJsonFileAtomic p data w))
     = Some (mkFile (JsonText (ConfigDoc data)) (now w))
  /\ lookupFile (pathAppend p ".tmp") (final (writeJsonFileAtomic p data w)) = None
  /\ (forall q, q <> p -> q <> pathAppend p ".tmp" ->
        lookupFile q (final (writeJsonFileAtomic p data w)) = lookupFile q w).
Proof.
  intros _ _.
  destruct (Runs_events _ _ _ _ (writeJsonFileAtomic_run p data w)) as (_ & Hv & Hw).
  rewrite Hv, Hw. unfold atomicWrite. cbn [replay fold_left apply_event].
  rewrite lookup_store_same.
  assert (Hp : lookupFile p
                 (storeFile p (mkFile (JsonText (ConfigDoc data)) (now w))
                    (removeFile (pathAppend p ".tmp")
                       (storeFile (pathAppend p ".tmp")
                          (mkFile (JsonText (ConfigDoc data)) (now w)) w)))
               = Some (mkFile (JsonText (ConfigDoc data)) (now w)))
    by apply lookup_store_same.
  split; [reflexivity|]. split; [|split; [exact Hp|split]].
  - destruct (Runs_events _ _ _ _ (readJsonFile_run p defaultValue
        (storeFile p (mkFile (JsonText (ConfigDoc data)) (now w))
           (removeFile (pathAppend p ".tmp")
              (storeFile (pathAppend p ".tmp")
                 (mkFile (JsonText (ConfigDoc data)) (now w)) w))))) as (_ & Hr & _).
    rewrite Hr. unfold readDoc. now rewrite Hp.
  - rewrite lookup_store_other by apply tmp_path_differs. apply lookup_remove_same.
  - intros q Hq Hq'.
    rewrite lookup_store_other, lookup_remove_other, lookup_store_other by assumption.
    reflexivity.
Qed.


(** ** C1: archive-first disable, active-first enable *)





(** ** C3: a conflict stops [enableMcp] before any change *)



(** ** C6: what is snapshotted, and when *)



















End Facts.

(** ** Closed instances *)





(** C7, as stated, fails on a malformed file: the read yields the default
    where the claim asks for a parse error. *)
Lemma readJsonFile_malformed_returns_default :
  lookupFile CLAUDE_JSON_PATH diskMalformed = Some (mkFile (Text "{ mcpServers: ") 5)
  /\ value (JSON_parse (Text "{ mcpServers: ") diskMalformed) = Throw SyntaxError
  /\ value (readJsonFile CLAUDE_JSON_PATH emptyDoc diskMalformed)
     = Val emptyDoc.
Proof. repeat split. Qed.

(** C4, as stated, fails when the payloads differ: the name is listed once,
    with the user-level payload, and the [mcp.json] payload is not listed. *)
Lemma same_name_other_payload_yields_one_entry :
  activeConfig diskSameName user None "memory" = Some cfgMemory
  /\ activeConfig diskSameName mcp_json None "memory" = Some cfgOther
  /\ cfgMemory <> cfgOther
  /\ value (loadMCPs (P := refPlatform) diskSameName)
     = Val [userServer (P := refPlatform) "memory" cfgMemory].
Proof. repeat split. discriminate. Qed.

Lemma same_name_yields_user_entry_only_witness :
  exists mcps,
    value (loadMCPs (P := refPlatform) diskSameName) = Val mcps
    /\ filter (fromUserOrMcpJson "memory") mcps
       = [userServer (P := refPlatform) "memory" cfgMemory].
Proof.
  apply (@same_name_yields_user_entry_only refPlatform diskSameName "memory"
           cfgMemory cfgOther).
  - simpl. repeat constructor. simpl. tauto.
  - reflexivity.
  - reflexivity.
Defined.





(** C8.  What [restoreBackup] does on a disk holding one backup of
    [~/.claude.json]: it validates, snapshots the live file, and then
    overwrites the live file in place with [copyFileSync]; no temporary
    file is written and nothing is renamed, where the claim asks for the
    atomic write path. *)
Theorem restoreBackup_overwrites_in_place :
  value (restoreBackup (P := refPlatform) (InBackups ".claude.json.T111-000Z")
           diskWithBackup)
  = Val Success
  /\ events (restoreBackup (P := refPlatform) (InBackups ".claude.json.T111-000Z")
               diskWithBackup)
     = [EvCopyFile CLAUDE_JSON_PATH (InBackups ".claude.json.T1111111111-000Z");
        EvWriteFile (InBackups ".claude.json.T1111111111-000Z.meta.json")
          (JsonText
             (MetaDoc
                (mkMeta CLAUDE_JSON_PATH "T1111111111.000Z"
                   "Before restoring backup from T111.000Z")));
        EvCopyFile (InBackups ".claude.json.T111-000Z") CLAUDE_JSON_PATH]
  /\ existsb isRename
       (events (restoreBackup (P := refPlatform) (InBackups ".claude.json.T111-000Z")
                  diskWithBackup))
     = false
  /\ lookupFile (pathAppend CLAUDE_JSON_PATH ".tmp")
       (final (restoreBackup (P := refPlatform) (InBackups ".claude.json.T111-000Z")
                 diskWithBackup))
     = None.
Proof. repeat split. Qed.


Lemma snapshots_keep_the_newest_witness :
  backupCopies (basename CLAUDE_JSON_PATH)
    (snapshots (P := refPlatform) CLAUDE_JSON_PATH None (seq 11 15) diskTwoServers)
  = map (backupName (P := refPlatform) CLAUDE_JSON_PATH) (skipn 5 (seq 11 15))
  /\ sidecars (basename CLAUDE_JSON_PATH)
       (snapshots (P := refPlatform) CLAUDE_JSON_PATH None (seq 11 15) diskTwoServers)
     = map (fun t => metaName (backupName (P := refPlatform) CLAUDE_JSON_PATH t))
         (skipn 5 (seq 11 15))
  /\ List.length
       (backupCopies (basename CLAUDE_JSON_PATH)
          (snapshots (P := refPlatform) CLAUDE_JSON_PATH None (seq 11 15) diskTwoServers))
     = MAX_BACKUPS
  /\ List.length
       (sidecars (basename CLAUDE_JSON_PATH)
          (snapshots (P := refPlatform) CLAUDE_JSON_PATH None (seq 11 15) diskTwoServers))
     = MAX_BACKUPS.
Proof.
  apply (@snapshots_keep_the_newest refPlatform "~/.claude.json" None (seq 11 15) 5
           diskTwoServers); reflexivity.
Defined.

(** C9, as stated, fails when calls share an instant: the name of a backup
    is the time stamp of the call to the millisecond, so a call made in
    the millisecond of the one before overwrites its copy.  Of fifteen
    calls, the last seven at one instant, nine copies and nine sidecars
    remain. *)
Lemma snapshots_at_one_instant_share_a_copy :
  List.length (seq 11 9 ++ repeat 19 6) = MAX_BACKUPS + 5
  /\ List.length
       (backupCopies (basename CLAUDE_JSON_PATH)
          (snapshots (P := refPlatform) CLAUDE_JSON_PATH None (seq 11 9 ++ repeat 19 6)
             diskTwoServers))
     = 9
  /\ List.length
       (sidecars (basename CLAUDE_JSON_PATH)
          (snapshots (P := refPlatform) CLAUDE_JSON_PATH None (seq 11 9 ++ repeat 19 6)
             diskTwoServers))
     = 9.
Proof. repeat split. Qed.

(** C2.  A project-level server whose name has a colon in it does not come
    back under its name: [disableMcp] archives [a:b] of the project [/p]
    under the key [local:/p:a:b], and [enableMcp] of that key, which takes
    the text after the last colon of the key for the name, succeeds and
    stores the payload under [b].  The archive entry is gone, and so is the
    server [a:b]. *)
Theorem local_name_with_colon_comes_back_renamed :
  activeConfig diskLocalColon local (Some "/p") "a:b" = Some cfgMemory
  /\ value (disableMcp (P := refPlatform) "a:b" local (Some "/p") diskLocalColon)
     = Val Success
  /\ obj_keys (orEmpty (doc_disabled (readDoc MCP_DISABLED_PATH disabledDefault
                                        diskLocalColonOff)))
     = ["local:/p:a:b"]
  /\ value (enableMcp (P := refPlatform) "local:/p:a:b" diskLocalColonOff) = Val Success
  /\ activeServers local (Some "/p") (readDoc CLAUDE_JSON_PATH emptyDoc diskLocalColonOn)
     = Some [("b", cfgMemory)]
  /\ activeConfig diskLocalColonOn local (Some "/p") "a:b" = None
  /\ archived diskLocalColonOn "local:/p:a:b" = None.
Proof. repeat split. Qed.


Lemma disable_then_enable_restores_witness :
  value (disableMcp (P := refPlatform) "memory" local (Some "/p") diskLocal) = Val Success
  /\ value (enableMcp (P := refPlatform) (archiveKey local (Some "/p") "memory")
              (final (disableMcp (P := refPlatform) "memory" local (Some "/p") diskLocal)))
     = Val Success
  /\ docEquiv
       (readDoc (sourcePath local) (sourceDefault local)
          (final (enableMcp (P := refPlatform) (archiveKey local (Some "/p") "memory")
                    (final (disableMcp (P := refPlatform) "memory" local (Some "/p")
                              diskLocal)))))
       (readDoc (sourcePath local) (sourceDefault local) diskLocal)
  /\ archived
       (final (enableMcp (P := refPlatform) (archiveKey local (Some "/p") "memory")
                 (final (disableMcp (P := refPlatform) "memory" local (Some "/p")
                           diskLocal))))
       (archiveKey local (Some "/p") "memory")
     = None.
Proof.
  apply (@disable_then_enable_restores refPlatform local (Some "/p") "memory" cfgMemory
           diskLocal).
  - reflexivity.
  - discriminate.
  - reflexivity.
  - reflexivity.
Defined.

(** With [MAX_BACKUPS] backups of [~/.claude.json] on disk, restoring the
    oldest of them fails: the snapshot [restoreBackup] takes first is the
    eleventh, its pruning pass deletes the oldest backup and its sidecar,
    and the copy that should restore it finds no file.  The live file is
    left as it was and the backup is gone. *)
Theorem restoreBackup_of_oldest_deletes_it :
  List.length (backupCopies ".claude.json" diskTenBackups) = MAX_BACKUPS
  /\ hd_error (backupCopies ".claude.json" diskTenBackups)
     = Some ".claude.json.T11111111111-000Z"
  /\ value (restoreBackup (P := refPlatform) (InBackups ".claude.json.T11111111111-000Z")
              diskTenBackups)
     = Val (Failure (Exception ENOENT))
  /\ lookupFile (InBackups ".claude.json.T11111111111-000Z")
       (final (restoreBackup (P := refPlatform)
                 (InBackups ".claude.json.T11111111111-000Z") diskTenBackups))
     = None
  /\ lookupFile (InBackups ".claude.json.T11111111111-000Z.meta.json")
       (final (restoreBackup (P := refPlatform)
                 (InBackups ".claude.json.T11111111111-000Z") diskTenBackups))
     = None
  /\ lookupFile CLAUDE_JSON_PATH
       (final (restoreBackup (P := refPlatform)
                 (InBackups ".claude.json.T11111111111-000Z") diskTenBackups))
     = lookupFile CLAUDE_JSON_PATH diskTenBackups.
Proof. vm_compute. repeat split. Qed.


Lemma compareServers_puts_user_last_witness :
  (0 < compareServers (P := refPlatform) (userServer (P := refPlatform) "alpha" cfgOther)
         (mkServer "alpha" cfgMemory false Disabled None (Some "user:alpha") unknown None
            None))%Z.
Proof.
  apply (@compareServers_puts_user_last refPlatform); [reflexivity | reflexivity | discriminate].
Defined.

(** The list [loadMCPs] returns on a disk with [alpha] live at user level
    and [alpha] and [beta] archived: the archived [alpha] goes before the
    live one. *)
Theorem loadMCPs_lists_archived_before_user :
  match value (loadMCPs (P := refPlatform) diskConflict) with
  | Val l => map (fun m => (mcp_name m, mcp_source m)) l
  | Throw _ => []
  end
  = [("alpha", Disabled); ("alpha", Active user); ("beta", Disabled)].
Proof. reflexivity. Qed.



(** *** Instances of the further properties *)

Lemma forallb_obj_get {A : Type} (q : A -> bool) (o : Obj A) :
  forallb (fun kv => q (snd kv)) o = true ->
  forall k g, obj_get k o = Some g -> q g = true.
Proof.
  intros H k g Hg. apply obj_get_In in Hg.
  rewrite forallb_forall in H. exact (H (k, g) Hg).
Qed.

Lemma all_older (w : World) :
  forallb (fun kv => (mtime (snd kv) <? now w)%nat) (backups w) = true ->
  forall k g, obj_get k (backups w) = Some g -> mtime g < now w.
Proof.
  intros H k g Hg. apply Nat.ltb_lt.
  exact (forallb_obj_get (fun f => (mtime f <? now w)%nat) _ H k g Hg).
Qed.

Lemma oldest_of (w : World) (b : string) (l : list string) :
  forallb (fun k => String.eqb k b || (mtimeOf w b <? mtimeOf w k)%nat) l = true ->
  forall k, In k l -> k <> b -> mtimeOf w b < mtimeOf w k.
Proof.
  intros H k Hin Hne. rewrite forallb_forall in H. specialize (H k Hin).
  apply orb_true_iff in H. destruct H as [H|H].
  - apply String.eqb_eq in H. contradiction.
  - now apply Nat.ltb_lt.
Qed.

Lemma all_dated {D : Dates} (l : list BackupInfo) :
  forallb (fun info => match dateGetTime (info_timestamp info) with
                       | Some _ => true
                       | None => false
                       end) l = true ->
  forall info, In info l -> dateGetTime (info_timestamp info) <> None.
Proof.
  intros H info Hin. rewrite forallb_forall in H. specialize (H info Hin).
  destruct (dateGetTime (info_timestamp info)); [discriminate|discriminate].
Qed.


Lemma deleteMcp_removes_only_the_archived_entry_witness :
  value (deleteMcp (P := refPlatform) "memory" Disabled None (Some "user:memory")
           diskArchived)
  = Val Success
  /\ archived
       (final (deleteMcp (P := refPlatform) "memory" Disabled None (Some "user:memory")
                 diskArchived)) "user:memory"
     = None
  /\ (forall other, other <> "user:memory" ->
        archived
          (final (deleteMcp (P := refPlatform) "memory" Disabled None (Some "user:memory")
                    diskArchived)) other
        = archived diskArchived other)
  /\ (forall q, Abs q <> MCP_DISABLED_PATH -> Abs q <> pathAppend MCP_DISABLED_PATH ".tmp" ->
        lookupFile (Abs q)
          (final (deleteMcp (P := refPlatform) "memory" Disabled None (Some "user:memory")
                    diskArchived))
        = lookupFile (Abs q) diskArchived).
Proof.
  apply (@deleteMcp_removes_only_the_archived_entry refPlatform "memory" "user:memory" None
           diskArchived (userEntry cfgMemory)).
  - reflexivity.
  - reflexivity.
Defined.

Lemma toggleAgent_replaces_the_destination_witness :
  value (toggleAgent "reviewer.md" false diskAgentTwice) = Val Success
  /\ lookupFile (agentPath AGENTS_DISABLED_DIR "reviewer.md")
       (final (toggleAgent "reviewer.md" false diskAgentTwice))
     = Some (mkFile (Text "--- name: reviewer --- Review the diff.") 4)
  /\ lookupFile (agentPath AGENTS_DIR "reviewer.md")
       (final (toggleAgent "reviewer.md" false diskAgentTwice))
     = None
  /\ (forall q, q <> agentPath AGENTS_DISABLED_DIR "reviewer.md" ->
        q <> agentPath AGENTS_DIR "reviewer.md" ->
        lookupFile q (final (toggleAgent "reviewer.md" false diskAgentTwice))
        = lookupFile q diskAgentTwice)
  /\ backups (final (toggleAgent "reviewer.md" false diskAgentTwice))
     = backups diskAgentTwice.
Proof.
  apply (toggleAgent_replaces_the_destination "reviewer.md" false diskAgentTwice
           (mkFile (Text "--- name: reviewer --- Review the diff.") 4)
           (mkFile (Text "--- name: reviewer --- Old.") 2)).
  - reflexivity.
  - reflexivity.
Defined.

Lemma toggleAgent_off_and_on_restores_witness :
  value (toggleAgent "reviewer.md" false diskOneAgent) = Val Success
  /\ value (toggleAgent "reviewer.md" true
              (final (toggleAgent "reviewer.md" false diskOneAgent)))
     = Val Success
  /\ forall q,
       lookupFile q
         (final (toggleAgent "reviewer.md" true
                   (final (toggleAgent "reviewer.md" false diskOneAgent))))
       = lookupFile q diskOneAgent.
Proof.
  apply (toggleAgent_off_and_on_restores "reviewer.md" diskOneAgent
           (mkFile (Text "--- name: reviewer --- Review the diff.") 4)).
  - reflexivity.
  - reflexivity.
Defined.

Lemma agent_writeContent_then_readContent_witness :
  value (agent_writeContent "reviewer.md" (Text "--- name: reviewer --- Be brief.") true
           diskOneAgent)
  = Val (Ok tt)
  /\ value (agent_readContent "reviewer.md" true
              (final (agent_writeContent "reviewer.md"
                        (Text "--- name: reviewer --- Be brief.") true diskOneAgent)))
     = Val (Ok (Text "--- name: reviewer --- Be brief.", agentPath AGENTS_DIR "reviewer.md"))
  /\ lookupFile (InBackups ("reviewer.md" +++ ".backup-" +++ dateNow 10))
       (final (agent_writeContent "reviewer.md"
                 (Text "--- name: reviewer --- Be brief.") true diskOneAgent))
     = Some (mkFile (Text "--- name: reviewer --- Review the diff.") 10)
  /\ (forall q, Abs q <> agentPath AGENTS_DIR "reviewer.md" ->
        lookupFile (Abs q)
          (final (agent_writeContent "reviewer.md"
                    (Text "--- name: reviewer --- Be brief.") true diskOneAgent))
        = lookupFile (Abs q) diskOneAgent).
Proof.
  apply (agent_writeContent_then_readContent "reviewer.md"
           (Text "--- name: reviewer --- Be brief.") true diskOneAgent
           (mkFile (Text "--- name: reviewer --- Review the diff.") 4)).
  reflexivity.
Defined.

Lemma editor_copies_are_out_of_reach_witness :
  lookupFile (InBackups (".claude.json" +++ ".backup-" +++ dateNow 10))
    (final (mcp_writeConfig "claude" (JsonText (ConfigDoc (userDoc []))) diskTwoServers))
  = Some (mkFile (content (jsonFile (userDoc [("playwright", cfgPlaywright);
                                              ("memory", cfgMemory)]) 5)) 10)
  /\ value (restoreBackup (P := refPlatform)
              (InBackups (".claude.json" +++ ".backup-" +++ dateNow 10))
              (final (mcp_writeConfig "claude" (JsonText (ConfigDoc (userDoc [])))
                        diskTwoServers)))
     = Val (Failure BackupMetadataNotFound)
  /\ exists l,
       value (listBackups (D := refDates)
                (final (mcp_writeConfig "claude" (JsonText (ConfigDoc (userDoc [])))
                          diskTwoServers)))
       = Val l
       /\ forall info, In info l ->
            info_path info <> InBackups (".claude.json" +++ ".backup-" +++ dateNow 10).
Proof.
  apply (@editor_copies_are_out_of_reach refPlatform refDates "claude"
           (ConfigDoc (userDoc [])) diskTwoServers
           (jsonFile (userDoc [("playwright", cfgPlaywright); ("memory", cfgMemory)]) 5)).
  - reflexivity.
  - reflexivity.
Defined.

Lemma listBackups_newest_first_witness :
  StronglySorted
    (fun a b => (stampTime (D := refDates) b <= stampTime (D := refDates) a)%Z)
    (match value (listBackups (D := refDates) diskTenBackups) with
     | Val l => l
     | Throw _ => []
     end).
Proof.
  apply (@listBackups_newest_first refDates diskTenBackups).
  - vm_compute. reflexivity.
  - apply all_dated. vm_compute. reflexivity.
Defined.

Lemma cleanupOldBackups_keeps_the_newest_witness :
  value (cleanupOldBackups ".claude.json" diskCrowded) = Val tt
  /\ files (final (cleanupOldBackups ".claude.json" diskCrowded)) = files diskCrowded
  /\ List.length (backupCopies ".claude.json"
                    (final (cleanupOldBackups ".claude.json" diskCrowded)))
     = Nat.min MAX_BACKUPS (List.length (backupCopies ".claude.json" diskCrowded))
  /\ (forall k,
        In k (backupCopies ".claude.json"
                (final (cleanupOldBackups ".claude.json" diskCrowded))) ->
        In k (backupCopies ".claude.json" diskCrowded)
        /\ lookupFile (InBackups k) (final (cleanupOldBackups ".claude.json" diskCrowded))
           = lookupFile (InBackups k) diskCrowded)
  /\ (forall k v,
        In k (backupCopies ".claude.json"
                (final (cleanupOldBackups ".claude.json" diskCrowded))) ->
        In v (backupCopies ".claude.json" diskCrowded) ->
        ~ In v (backupCopies ".claude.json"
                  (final (cleanupOldBackups ".claude.json" diskCrowded))) ->
        mtimeOf diskCrowded v <= mtimeOf diskCrowded k).
Proof.
  apply (cleanupOldBackups_keeps_the_newest ".claude.json" diskCrowded).
  apply distinct_NoDup. vm_compute. reflexivity.
Defined.

Lemma createBackup_copy_is_kept_and_listed_witness :
  value (createBackup (P := refPlatform) CLAUDE_JSON_PATH None diskTenBackups)
  = Val (Some (InBackups (backupName (P := refPlatform) CLAUDE_JSON_PATH 30)))
  /\ lookupFile (InBackups (backupName (P := refPlatform) CLAUDE_JSON_PATH 30))
       (final (createBackup (P := refPlatform) CLAUDE_JSON_PATH None diskTenBackups))
     = Some (mkFile
               (content (jsonFile (userDoc [("playwright", cfgPlaywright);
                                            ("memory", cfgMemory)]) 5)) 30)
  /\ lookupFile (InBackups (metaName (backupName (P := refPlatform) CLAUDE_JSON_PATH 30)))
       (final (createBackup (P := refPlatform) CLAUDE_JSON_PATH None diskTenBackups))
     = Some (mkFile
               (JsonText (MetaDoc (mkMeta CLAUDE_JSON_PATH (unaryStamp 30) (describe None))))
               30)
  /\ exists l,
       value (listBackups (D := refDates)
                (final (createBackup (P := refPlatform) CLAUDE_JSON_PATH None
                          diskTenBackups)))
       = Val l
       /\ In (mkBackupInfo (InBackups (backupName (P := refPlatform) CLAUDE_JSON_PATH 30))
                (Some (JStr (unaryStamp 30))) (Some (JStr (describe None)))) l.
Proof.
  apply (@createBackup_copy_is_kept_and_listed refPlatform refDates CLAUDE_JSON_PATH None
           diskTenBackups
           (jsonFile (userDoc [("playwright", cfgPlaywright); ("memory", cfgMemory)]) 5)).
  - reflexivity.
  - apply distinct_NoDup. vm_compute. reflexivity.
  - apply all_older. vm_compute. reflexivity.
  - vm_compute. reflexivity.
Defined.

Lemma restoreBackup_of_the_oldest_copy_loses_it_witness :
  value (restoreBackup (P := refPlatform)
           (InBackups (backupName (P := refPlatform) CLAUDE_JSON_PATH 11)) diskTenBackups)
  = Val (Failure (Exception ENOENT))
  /\ lookupFile (InBackups (backupName (P := refPlatform) CLAUDE_JSON_PATH 11))
       (final (restoreBackup (P := refPlatform)
                 (InBackups (backupName (P := refPlatform) CLAUDE_JSON_PATH 11))
                 diskTenBackups))
     = None
  /\ lookupFile (InBackups (metaName (backupName (P := refPlatform) CLAUDE_JSON_PATH 11)))
       (final (restoreBackup (P := refPlatform)
                 (InBackups (backupName (P := refPlatform) CLAUDE_JSON_PATH 11))
                 diskTenBackups))
     = None
  /\ files (final (restoreBackup (P := refPlatform)
                     (InBackups (backupName (P := refPlatform) CLAUDE_JSON_PATH 11))
                     diskTenBackups))
     = files diskTenBackups.
Proof.
  apply (@restoreBackup_of_the_oldest_copy_loses_it refPlatform
           (backupName (P := refPlatform) CLAUDE_JSON_PATH 11) diskTenBackups
           (mkFile (JsonText (ConfigDoc (userDoc [("playwright", cfgPlaywright);
                                                  ("memory", cfgMemory)]))) 11)
           (mkFile (JsonText (MetaDoc (mkMeta CLAUDE_JSON_PATH (unaryStamp 11)
                                         (describe None)))) 11)
           (jsonFile (userDoc [("playwright", cfgPlaywright); ("memory", cfgMemory)]) 5)
           (ConfigDoc (userDoc [("playwright", cfgPlaywright); ("memory", cfgMemory)]))
           (mkMeta CLAUDE_JSON_PATH (unaryStamp 11) (describe None))).
  - vm_compute. reflexivity.
  - reflexivity.
  - vm_compute. reflexivity.
  - reflexivity.
  - reflexivity.
  - apply distinct_NoDup. vm_compute. reflexivity.
  - vm_compute. left. reflexivity.
  - vm_compute. reflexivity.
  - apply oldest_of. vm_compute. reflexivity.
  - vm_compute. lia.
  - vm_compute. reflexivity.
  - vm_compute. reflexivity.
Defined.

Lemma restoreBackup_success_restores_the_content_witness :
  lookupFile CLAUDE_JSON_PATH
    (final (restoreBackup (P := refPlatform) (InBackups ".claude.json.T111-000Z")
              diskWithBackup))
  = Some (mkFile
            (JsonText (ConfigDoc (userDoc [("playwright", cfgPlaywright);
                                           ("memory", cfgMemory)]))) 10)
  /\ forall q, Abs q <> CLAUDE_JSON_PATH ->
       lookupFile (Abs q)
         (final (restoreBackup (P := refPlatform) (InBackups ".claude.json.T111-000Z")
                   diskWithBackup))
       = lookupFile (Abs q) diskWithBackup.
Proof.
  apply (@restoreBackup_success_restores_the_content refPlatform ".claude.json.T111-000Z"
           diskWithBackup
           (jsonFile (userDoc [("playwright", cfgPlaywright); ("memory", cfgMemory)]) 3)
           (mkFile
              (JsonText
                 (MetaDoc (mkMeta CLAUDE_JSON_PATH "T111.000Z"
                             "Before disabling MCP: memory"))) 3)
           (mkMeta CLAUDE_JSON_PATH "T111.000Z" "Before disabling MCP: memory")).
  - reflexivity.
  - reflexivity.
  - reflexivity.
  - vm_compute. discriminate.
  - vm_compute. discriminate.
  - vm_compute. reflexivity.
Defined.


Lemma names_with_github_get_an_earlier_row_witness :
  exists key info,
    In (key, info) (firstn 8 Tools.KNOWN_MCP_TOOL_COUNTS)
    /\ Tools.getToolInfo "GitHub-Enterprise" = Tools.answer info.
Proof.
  apply (names_with_github_get_an_earlier_row "GitHub-Enterprise").
  - reflexivity.
  - vm_compute. discriminate.
Defined.

Lemma updateAgentModel_then_parseMdAgent_witness :
  value (updateAgentModel "reviewer.md" "opus" true diskAgentModel) = Val (Ok tt)
  /\ exists raw' fm',
       lookupFile (agentPath AGENTS_DIR "reviewer.md")
         (final (updateAgentModel "reviewer.md" "opus" true diskAgentModel))
       = Some (mkFile (Text raw') 10)
       /\ frontmatterMatch raw' = Some (fm', String LF "Review the diff.")
       /\ parseMdAgent raw' "reviewer.md"
          = withModel (Str.trim "opus") (parseMdAgent reviewerText "reviewer.md").
Proof.
  apply (updateAgentModel_then_parseMdAgent "reviewer.md" "opus" true diskAgentModel 4
           reviewerText
           ("name: reviewer" +++ String LF
              ("model: sonnet" +++ String LF "tools: Read, Grep"))
           (String LF "Review the diff.")).
  - reflexivity.
  - reflexivity.
  - reflexivity.
  - reflexivity.
  - vm_compute. lia.
  - reflexivity.
Defined.

(** Why the frontmatter may have one [model:] line only: the update
    rewrites the first such line and [parseMdAgent] reads the last, so with
    two of them the agent still shows the old model. *)
Example updateAgentModel_second_model_line_wins :
  updatedText
    ("name: reviewer" +++ String LF ("model: sonnet" +++ String LF "model: haiku"))
    (String LF "Review the diff.") "opus"
  = "---" +++ String LF
      ("name: reviewer" +++ String LF
         ("model: opus" +++ String LF
            ("model: haiku" +++ String LF
               ("---" +++ String LF "Review the diff."))))
  /\ agent_model (parseMdAgent twoModelsText "reviewer.md") = Some "haiku"
  /\ agent_model
       (parseMdAgent
          (updatedText
             ("name: reviewer" +++ String LF ("model: sonnet" +++ String LF "model: haiku"))
             (String LF "Review the diff.") "opus")
          "reviewer.md")
     = Some "haiku".
Proof. repeat split. Qed.

Lemma writeJsonFileAtomic_then_readJsonFile_witness :
  value (writeJsonFileAtomic CLAUDE_JSON_PATH (userDoc [("memory", cfgMemory)])
           diskTwoServers)
  = Val tt
  /\ value (readJsonFile CLAUDE_JSON_PATH emptyDoc
              (final (writeJsonFileAtomic CLAUDE_JSON_PATH (userDoc [("memory", cfgMemory)])
                        diskTwoServers)))
     = Val (userDoc [("memory", cfgMemory)])
  /\ lookupFile CLAUDE_JSON_PATH
       (final (writeJsonFileAtomic CLAUDE_JSON_PATH (userDoc [("memory", cfgMemory)])
                 diskTwoServers))
     = Some (mkFile (JsonText (ConfigDoc (userDoc [("memory", cfgMemory)])))
               (now diskTwoServers))
  /\ lookupFile (pathAppend CLAUDE_JSON_PATH ".tmp")
       (final (writeJsonFileAtomic CLAUDE_JSON_PATH (userDoc [("memory", cfgMemory)])
                 diskTwoServers))
     = None
  /\ (forall q, q <> CLAUDE_JSON_PATH -> q <> pathAppend CLAUDE_JSON_PATH ".tmp" ->
        lookupFile q
          (final (writeJsonFileAtomic CLAUDE_JSON_PATH (userDoc [("memory", cfgMemory)])
                    diskTwoServers))
        = lookupFile q diskTwoServers).
Proof.
  apply (writeJsonFileAtomic_then_readJsonFile CLAUDE_JSON_PATH
           (userDoc [("memory", cfgMemory)]) emptyDoc diskTwoServers
           (jsonFile (userDoc [("playwright", cfgPlaywright); ("memory", cfgMemory)]) 5)
           (ConfigDoc (userDoc [("playwright", cfgPlaywright); ("memory", cfgMemory)]))).
  - reflexivity.
  - reflexivity.
Defined.
